(** * A shallow embedding of the xv6 file system core (fs.c, file.c, sysfile.c)

    The C code is embedded as functions in a small state-and-failure monad.
    The machine integers of the source ([uint], [int], [short], [ushort])
    are integers of [Z] whose wrap-around is written out.  The buffer cache,
    the log, the device switch and the pipes are collaborators of the three
    source files; they appear here as a typed disk, an event trace and
    oracle functions of the configuration. *)

From Stdlib Require Import ZArith Lia List Bool.
From stdpp Require Import base option list list_numbers gmap strings.

Local Open Scope Z_scope.

(** ** Machine integers *)

Definition u32 (z : Z) : Z := z mod 2 ^ 32.
Definition i32 (z : Z) : Z := (z + 2 ^ 31) mod 2 ^ 32 - 2 ^ 31.
Definition u16 (z : Z) : Z := z mod 2 ^ 16.
Definition i16 (z : Z) : Z := (z + 2 ^ 15) mod 2 ^ 16 - 2 ^ 15.

(** [#define min(a, b) ((a) < (b) ? (a) : (b))] of fs.c. *)
Definition min (a b : Z) : Z := if a <? b then a else b.

(** ** Constants of the missing headers *)

(** Modelled from the spec: fs.h is absent; the block size is the one of the
    spec's on-disk layout ([BSIZE = 512]), which is also the literal that
    [filewrite] multiplies by. *)
Definition BSIZE : Z := 512.

(** Modelled from the spec: stat.h is absent; an inode type is 0 when free,
    then directory, file and device (the comments of [readi] and
    [dirlookup] give [T_DIR] 1 and [T_DEV] 3). *)
Definition T_DIR : Z := 1.
Definition T_FILE : Z := 2.
Definition T_DEV : Z := 3.

(** Modelled from the spec: fcntl.h is absent; the open modes of the
    system-call envelope. *)
Definition O_RDONLY : Z := 0.
Definition O_WRONLY : Z := 1.
Definition O_RDWR : Z := 2.
Definition O_CREATE : Z := 512.

(** The remaining constants of param.h and fs.h, the device switch and the
    pipe layer are not part of the three source files: the embedding takes
    them as a configuration.  [dev_read major] is [devsw[major].read]
    ([None] for a null function pointer): given the byte count it returns
    the [int] result and the bytes it stored.  [dev_write] is its
    counterpart. *)
Class Config : Type := {
  NDIRECT : Z;
  DIRSIZ : Z;
  MAXOPBLOCKS : Z;
  NDEV : Z;
  ROOTDEV : Z;
  ROOTINO : Z;
  dev_read : Z -> option (Z -> Z * list Z);
  dev_write : Z -> option (list Z -> Z -> Z);
  piperead : Z -> Z -> Z * list Z;
  pipewrite : Z -> list Z -> Z -> Z
}.

(** The configuration of the stock kernel, used to run the model. *)
Definition xv6_config : Config := {|
  NDIRECT := 12;
  DIRSIZ := 14;
  MAXOPBLOCKS := 10;
  NDEV := 10;
  ROOTDEV := 1;
  ROOTINO := 1;
  dev_read := fun _ => None;
  dev_write := fun _ => None;
  piperead := fun _ _ => (-1, []);
  pipewrite := fun _ _ _ => -1
|}.

(** What the code needs of the configuration to be meaningful: the address
    array is not negative, a directory entry has a name, the largest file
    offset fits a signed 32-bit integer, and one write chunk is not empty. *)
Class ConfigOk (cfg : Config) : Prop := {
  NDIRECT_nonneg : 0 <= NDIRECT;
  DIRSIZ_pos : 0 < DIRSIZ;
  DIRSIZ_small : DIRSIZ < 2 ^ 16;
  MAXFILE_small : (NDIRECT + BSIZE / 4) * BSIZE < 2 ^ 31;
  MAXOPBLOCKS_chunk : 6 <= MAXOPBLOCKS;
  MAXOPBLOCKS_small : MAXOPBLOCKS < 2 ^ 20
}.

(** ** Data model *)

(** [struct dinode]: the on-disk inode. *)
Record dinode : Type := mkDinode {
  d_type : Z;
  d_major : Z;
  d_minor : Z;
  d_nlink : Z;
  d_size : Z;
  d_addrs : list Z
}.

(** [struct inode]: the in-memory copy, with its sleep-lock as a flag. *)
Record inode : Type := mkInode {
  i_dev : Z;
  i_inum : Z;
  i_ref : Z;
  i_lock : bool;
  i_valid : Z;
  i_type : Z;
  i_major : Z;
  i_minor : Z;
  i_nlink : Z;
  i_size : Z;
  i_addrs : list Z
}.

Inductive fdtype : Type := FD_NONE | FD_PIPE | FD_INODE.

(** [struct file]; the pointers to a pipe and to an inode are a pipe number
    and an index in the inode cache. *)
Record file : Type := mkFile {
  f_type : fdtype;
  f_ref : Z;
  f_readable : Z;
  f_writable : Z;
  f_pipe : Z;
  f_ip : nat;
  f_off : Z
}.

(** [struct dirent]. *)
Record dirent : Type := mkDirent {
  de_inum : Z;
  de_name : list Z
}.

(** Modelled from the spec: stat.h is absent; [struct stat] holds the
    device, the inumber, the type, the link count and the size that [stati]
    copies out of the inode. *)
Record stat : Type := mkStat {
  st_dev : Z;
  st_ino : Z;
  st_type : Z;
  st_nlink : Z;
  st_size : Z
}.

(** What [log_write] is called on. *)
Inductive target : Type :=
| TInode (dev inum : Z)
| TBitmap (dev b : Z)
| TData (dev b : Z).

Inductive event : Type :=
| EvBeginOp
| EvEndOp
| EvLogWrite (t : target).

(** The fields of [struct superblock] that the code reads directly. *)
Record superblock : Type := mkSuperblock {
  sb_size : Z;
  sb_ninodes : Z
}.

(** Modelled from the spec: the buffer cache (bio.c), the log (log.c), the
    macros [IBLOCK], [BBLOCK], [IPB] and [BPB] (fs.h) and the process table
    (proc.c) are absent.  Following the spec's on-disk layout the disk is
    three typed regions, each keyed by device: the inode array by inumber,
    the block bitmap by block number, and the blocks holding content by
    block number; an absent key reads as zeroes.  A buffer mutation followed
    by [log_write] is a store into the region and an [EvLogWrite] event;
    [begin_op] and [end_op] count the outstanding operations and leave an
    event.  The current process is its working directory and its table of
    open files. *)
Record state : Type := mkState {
  sb : superblock;
  dinodes : gmap (Z * Z) dinode;
  bitmap : gmap (Z * Z) bool;
  blocks : gmap (Z * Z) (list Z);
  icache : list inode;
  ftable : list file;
  cwd : nat;
  ofile : list (option nat);
  outstanding : Z;
  trace : list event
}.

Definition set_dinodes (v : gmap (Z * Z) dinode) (s : state) : state :=
  mkState (sb s) v (bitmap s) (blocks s) (icache s) (ftable s) (cwd s) (ofile s)
    (outstanding s) (trace s).
Definition set_bitmap (v : gmap (Z * Z) bool) (s : state) : state :=
  mkState (sb s) (dinodes s) v (blocks s) (icache s) (ftable s) (cwd s) (ofile s)
    (outstanding s) (trace s).
Definition set_blocks (v : gmap (Z * Z) (list Z)) (s : state) : state :=
  mkState (sb s) (dinodes s) (bitmap s) v (icache s) (ftable s) (cwd s) (ofile s)
    (outstanding s) (trace s).
Definition set_icache (v : list inode) (s : state) : state :=
  mkState (sb s) (dinodes s) (bitmap s) (blocks s) v (ftable s) (cwd s) (ofile s)
    (outstanding s) (trace s).
Definition set_ftable (v : list file) (s : state) : state :=
  mkState (sb s) (dinodes s) (bitmap s) (blocks s) (icache s) v (cwd s) (ofile s)
    (outstanding s) (trace s).
Definition set_cwd (v : nat) (s : state) : state :=
  mkState (sb s) (dinodes s) (bitmap s) (blocks s) (icache s) (ftable s) v (ofile s)
    (outstanding s) (trace s).
Definition set_ofile (v : list (option nat)) (s : state) : state :=
  mkState (sb s) (dinodes s) (bitmap s) (blocks s) (icache s) (ftable s) (cwd s) v
    (outstanding s) (trace s).
Definition set_outstanding (v : Z) (s : state) : state :=
  mkState (sb s) (dinodes s) (bitmap s) (blocks s) (icache s) (ftable s) (cwd s)
    (ofile s) v (trace s).
Definition set_trace (v : list event) (s : state) : state :=
  mkState (sb s) (dinodes s) (bitmap s) (blocks s) (icache s) (ftable s) (cwd s)
    (ofile s) (outstanding s) v.

Definition set_i_dev (v : Z) (i : inode) : inode :=
  mkInode v (i_inum i) (i_ref i) (i_lock i) (i_valid i) (i_type i) (i_major i)
    (i_minor i) (i_nlink i) (i_size i) (i_addrs i).
Definition set_i_inum (v : Z) (i : inode) : inode :=
  mkInode (i_dev i) v (i_ref i) (i_lock i) (i_valid i) (i_type i) (i_major i)
    (i_minor i) (i_nlink i) (i_size i) (i_addrs i).
Definition set_i_ref (v : Z) (i : inode) : inode :=
  mkInode (i_dev i) (i_inum i) v (i_lock i) (i_valid i) (i_type i) (i_major i)
    (i_minor i) (i_nlink i) (i_size i) (i_addrs i).
Definition set_i_lock (v : bool) (i : inode) : inode :=
  mkInode (i_dev i) (i_inum i) (i_ref i) v (i_valid i) (i_type i) (i_major i)
    (i_minor i) (i_nlink i) (i_size i) (i_addrs i).
Definition set_i_valid (v : Z) (i : inode) : inode :=
  mkInode (i_dev i) (i_inum i) (i_ref i) (i_lock i) v (i_type i) (i_major i)
    (i_minor i) (i_nlink i) (i_size i) (i_addrs i).
Definition set_i_type (v : Z) (i : inode) : inode :=
  mkInode (i_dev i) (i_inum i) (i_ref i) (i_lock i) (i_valid i) v (i_major i)
    (i_minor i) (i_nlink i) (i_size i) (i_addrs i).
Definition set_i_major (v : Z) (i : inode) : inode :=
  mkInode (i_dev i) (i_inum i) (i_ref i) (i_lock i) (i_valid i) (i_type i) v
    (i_minor i) (i_nlink i) (i_size i) (i_addrs i).
Definition set_i_minor (v : Z) (i : inode) : inode :=
  mkInode (i_dev i) (i_inum i) (i_ref i) (i_lock i) (i_valid i) (i_type i)
    (i_major i) v (i_nlink i) (i_size i) (i_addrs i).
Definition set_i_nlink (v : Z) (i : inode) : inode :=
  mkInode (i_dev i) (i_inum i) (i_ref i) (i_lock i) (i_valid i) (i_type i)
    (i_major i) (i_minor i) v (i_size i) (i_addrs i).
Definition set_i_size (v : Z) (i : inode) : inode :=
  mkInode (i_dev i) (i_inum i) (i_ref i) (i_lock i) (i_valid i) (i_type i)
    (i_major i) (i_minor i) (i_nlink i) v (i_addrs i).
Definition set_i_addrs (v : list Z) (i : inode) : inode :=
  mkInode (i_dev i) (i_inum i) (i_ref i) (i_lock i) (i_valid i) (i_type i)
    (i_major i) (i_minor i) (i_nlink i) (i_size i) v.

Definition set_f_type (v : fdtype) (f : file) : file :=
  mkFile v (f_ref f) (f_readable f) (f_writable f) (f_pipe f) (f_ip f) (f_off f).
Definition set_f_ref (v : Z) (f : file) : file :=
  mkFile (f_type f) v (f_readable f) (f_writable f) (f_pipe f) (f_ip f) (f_off f).
Definition set_f_off (v : Z) (f : file) : file :=
  mkFile (f_type f) (f_ref f) (f_readable f) (f_writable f) (f_pipe f) (f_ip f) v.

(** ** The monad: state, fatal stops, and fuel for the loops *)

Inductive result (A : Type) : Type :=
| Done (a : A) (s : state)
| Panic (msg : string)
| Sleeps
| OutOfFuel.
Arguments Done {A} a s.
Arguments Panic {A} msg.
Arguments Sleeps {A}.
Arguments OutOfFuel {A}.

Definition M (A : Type) : Type := state -> result A.

Definition ret {A} (a : A) : M A := fun s => Done a s.
Definition bind {A B} (m : M A) (k : A -> M B) : M B :=
  fun s => match m s with
           | Done a s' => k a s'
           | Panic msg => Panic msg
           | Sleeps => Sleeps
           | OutOfFuel => OutOfFuel
           end.
Definition panic {A} (msg : string) : M A := fun _ => Panic msg.
Definition get : M state := fun s => Done s s.
Definition modify (f : state -> state) : M unit := fun s => Done tt (f s).

Notation "'let*' x ':=' m 'in' k" := (bind m (fun x => k))
  (at level 10, x pattern, m at level 100, k at level 200).
Notation "m ';;' k" := (bind m (fun _ => k))
  (at level 100, k at level 200, right associativity).

Section Ops.
Context {cfg : Config}.

Definition NINDIRECT : Z := BSIZE / 4.
Definition MAXFILE : Z := NDIRECT + NINDIRECT.

(** ** Collaborators: log, block store, locks *)

Definition log_write (t : target) : M unit :=
  modify (fun s => set_trace (trace s ++ [EvLogWrite t]) s).
Definition begin_op : M unit :=
  modify (fun s => set_trace (trace s ++ [EvBeginOp])
                     (set_outstanding (outstanding s + 1) s)).
Definition end_op : M unit :=
  modify (fun s => set_trace (trace s ++ [EvEndOp])
                     (set_outstanding (outstanding s - 1) s)).

Definition zero_block : list Z := replicate (Z.to_nat BSIZE) 0.
Definition zero_dinode : dinode :=
  mkDinode 0 0 0 0 0 (replicate (Z.to_nat (NDIRECT + 1)) 0).

(** [bread(dev, b)->data] for a block of the content region. *)
Definition block_at (s : state) (dev b : Z) : list Z :=
  default zero_block (blocks s !! (dev, b)).
Definition dinode_at (s : state) (dev inum : Z) : dinode :=
  default zero_dinode (dinodes s !! (dev, inum)).
Definition bit_at (s : state) (dev b : Z) : bool :=
  default false (bitmap s !! (dev, b)).

Definition bread (dev b : Z) : M (list Z) := fun s => Done (block_at s dev b) s.
Definition bstore (dev b : Z) (data : list Z) : M unit :=
  modify (fun s => set_blocks (<[(dev, b) := data]> (blocks s)) s) ;;
  log_write (TData dev b).
Definition dstore (dev inum : Z) (d : dinode) : M unit :=
  modify (fun s => set_dinodes (<[(dev, inum) := d]> (dinodes s)) s) ;;
  log_write (TInode dev inum).
Definition bitstore (dev b : Z) (v : bool) : M unit :=
  modify (fun s => set_bitmap (<[(dev, b) := v]> (bitmap s)) s) ;;
  log_write (TBitmap dev b).

(** Bytes of a block. *)
Definition blk_get (blk : list Z) (j : Z) : Z := nth (Z.to_nat j) blk 0.
Definition blk_read (blk : list Z) (o m : Z) : list Z := blk_get blk <$> seqZ o m.
Definition blk_put (blk : list Z) (o : Z) (bytes : list Z) : list Z :=
  (fun j => if (o <=? j) && (j <? o + Z.of_nat (length bytes))
            then nth (Z.to_nat (j - o)) bytes 0 else blk_get blk j) <$> seqZ 0 BSIZE.

(** A block seen as [uint a[NINDIRECT]] (little-endian). *)
Definition le32_get (blk : list Z) (k : Z) : Z :=
  blk_get blk (4 * k) + 2 ^ 8 * blk_get blk (4 * k + 1)
  + 2 ^ 16 * blk_get blk (4 * k + 2) + 2 ^ 24 * blk_get blk (4 * k + 3).
Definition le32_bytes (v : Z) : list Z :=
  [v mod 256; (v / 2 ^ 8) mod 256; (v / 2 ^ 16) mod 256; (v / 2 ^ 24) mod 256].
Definition le32_put (blk : list Z) (k v : Z) : list Z := blk_put blk (4 * k) (le32_bytes v).

(** Access to a slot of [icache.inode] through a pointer. *)
Definition get_inode (ip : nat) : M inode :=
  fun s => match icache s !! ip with
           | Some i => Done i s
           | None => Panic "bad inode pointer"
           end.
Definition upd_inode (ip : nat) (f : inode -> inode) : M unit :=
  fun s => match icache s !! ip with
           | Some i => Done tt (set_icache (<[ip := f i]> (icache s)) s)
           | None => Panic "bad inode pointer"
           end.

(** [acquiresleep]: in a run of one thread a held sleep-lock is never
    released, so the caller sleeps for ever. *)
Definition acquiresleep (ip : nat) : M unit :=
  let* i := get_inode ip in
  if i_lock i then (fun _ => Sleeps) else upd_inode ip (set_i_lock true).
Definition releasesleep (ip : nat) : M unit := upd_inode ip (set_i_lock false).
Definition holdingsleep (ip : nat) : M bool :=
  let* i := get_inode ip in ret (i_lock i).

(** A loop over a fixed range. *)
Fixpoint for_each {A} (l : list A) (body : A -> M unit) : M unit :=
  match l with
  | [] => ret tt
  | x :: l' => body x ;; for_each l' body
  end.

(** ** fs.c: blocks *)

Definition bzero (dev bno : Z) : M unit := bstore dev bno zero_block.

(** The two nested loops of [balloc] visit the bits of the bitmap in the
    order of the block numbers [0 .. sb.size - 1]. *)
Fixpoint balloc_scan (dev : Z) (cands : list Z) : M Z :=
  match cands with
  | [] => panic "balloc: out of blocks"
  | b :: rest =>
      let* s := get in
      if bit_at s dev b then balloc_scan dev rest
      else bitstore dev b true ;; bzero dev b ;; ret b
  end.
Definition balloc (dev : Z) : M Z :=
  let* s := get in balloc_scan dev (seqZ 0 (sb_size (sb s))).

Definition bfree (dev b : Z) : M unit :=
  let* s := get in
  if bit_at s dev b then bitstore dev b false
  else panic "freeing free block".

(** ** fs.c: inodes *)

Definition iupdate (ip : nat) : M unit :=
  let* i := get_inode ip in
  dstore (i_dev i) (i_inum i)
    (mkDinode (i_type i) (i_major i) (i_minor i) (i_nlink i) (i_size i) (i_addrs i)).

(** The scan of [iget]: [inl] is the slot of a hit, [inr] the first slot
    with [ref == 0] that the scan remembered, if any. *)
Fixpoint iget_scan (dev inum : Z) (l : list inode) (idx : nat) (empty : option nat)
  : nat + option nat :=
  match l with
  | [] => inr empty
  | i :: l' =>
      if (0 <? i_ref i) && (i_dev i =? dev) && (i_inum i =? inum) then inl idx
      else iget_scan dev inum l' (S idx)
             (match empty with
              | None => if i_ref i =? 0 then Some idx else None
              | Some e => Some e
              end)
  end.

Definition iget (dev inum : Z) : M nat :=
  let* s := get in
  match iget_scan dev inum (icache s) 0%nat None with
  | inl ip => upd_inode ip (fun i => set_i_ref (i32 (i_ref i + 1)) i) ;; ret ip
  | inr None => panic "iget: no inodes"
  | inr (Some ip) =>
      upd_inode ip (fun i => set_i_valid 0 (set_i_ref 1 (set_i_inum inum (set_i_dev dev i)))) ;;
      ret ip
  end.

Fixpoint ialloc_scan (dev type : Z) (cands : list Z) : M nat :=
  match cands with
  | [] => panic "ialloc: no inodes"
  | inum :: rest =>
      let* s := get in
      if d_type (dinode_at s dev inum) =? 0 then
        dstore dev inum (mkDinode type 0 0 0 0 (d_addrs zero_dinode)) ;;
        iget dev inum
      else ialloc_scan dev type rest
  end.
Definition ialloc (dev type : Z) : M nat :=
  let* s := get in ialloc_scan dev type (seqZ 1 (sb_ninodes (sb s) - 1)).

Definition idup (ip : nat) : M nat :=
  upd_inode ip (fun i => set_i_ref (i32 (i_ref i + 1)) i) ;; ret ip.

Definition ilock (ip : nat) : M unit :=
  let* i := get_inode ip in
  if i_ref i <? 1 then panic "ilock"
  else
    acquiresleep ip ;;
    let* i := get_inode ip in
    if i_valid i =? 0 then
      let* s := get in
      let d := dinode_at s (i_dev i) (i_inum i) in
      upd_inode ip (fun i => set_i_addrs (d_addrs d) (set_i_size (d_size d)
                      (set_i_nlink (d_nlink d) (set_i_minor (d_minor d)
                      (set_i_major (d_major d) (set_i_type (d_type d) i)))))) ;;
      upd_inode ip (set_i_valid 1) ;;
      if d_type d =? 0 then panic "ilock: no type" else ret tt
    else ret tt.

Definition iunlock (ip : nat) : M unit :=
  let* held := holdingsleep ip in
  let* i := get_inode ip in
  if negb held || (i_ref i <? 1) then panic "iunlock"
  else releasesleep ip.

Definition itrunc (ip : nat) : M unit :=
  for_each (seqZ 0 NDIRECT) (fun k =>
    let* i := get_inode ip in
    let a := nth (Z.to_nat k) (i_addrs i) 0 in
    if a =? 0 then ret tt
    else bfree (i_dev i) a ;;
         upd_inode ip (fun i => set_i_addrs (<[Z.to_nat k := 0]> (i_addrs i)) i)) ;;
  let* i := get_inode ip in
  let ind := nth (Z.to_nat NDIRECT) (i_addrs i) 0 in
  (if ind =? 0 then ret tt
   else
     let* a := bread (i_dev i) ind in
     for_each (seqZ 0 NINDIRECT) (fun j =>
       if le32_get a j =? 0 then ret tt else bfree (i_dev i) (le32_get a j)) ;;
     bfree (i_dev i) ind ;;
     upd_inode ip (fun i => set_i_addrs (<[Z.to_nat NDIRECT := 0]> (i_addrs i)) i)) ;;
  upd_inode ip (set_i_size 0) ;;
  iupdate ip.

Definition iput (ip : nat) : M unit :=
  acquiresleep ip ;;
  let* i := get_inode ip in
  (if negb (i_valid i =? 0) && (i_nlink i =? 0) then
     let r := i_ref i in
     if r =? 1 then
       itrunc ip ;;
       upd_inode ip (set_i_type 0) ;;
       iupdate ip ;;
       upd_inode ip (set_i_valid 0)
     else ret tt
   else ret tt) ;;
  releasesleep ip ;;
  upd_inode ip (fun i => set_i_ref (i32 (i_ref i - 1)) i).

Definition iunlockput (ip : nat) : M unit := iunlock ip ;; iput ip.

(** ** fs.c: inode content *)

Definition bmap (ip : nat) (bn : Z) : M Z :=
  let* i := get_inode ip in
  if bn <? NDIRECT then
    let addr := nth (Z.to_nat bn) (i_addrs i) 0 in
    if addr =? 0 then
      let* addr := balloc (i_dev i) in
      upd_inode ip (fun i => set_i_addrs (<[Z.to_nat bn := addr]> (i_addrs i)) i) ;;
      ret addr
    else ret addr
  else
    let bn := bn - NDIRECT in
    if bn <? NINDIRECT then
      let addr := nth (Z.to_nat NDIRECT) (i_addrs i) 0 in
      let* addr :=
        (if addr =? 0 then
           let* addr := balloc (i_dev i) in
           upd_inode ip (fun i => set_i_addrs (<[Z.to_nat NDIRECT := addr]> (i_addrs i)) i) ;;
           ret addr
         else ret addr) in
      let* a := bread (i_dev i) addr in
      if le32_get a bn =? 0 then
        let* new := balloc (i_dev i) in
        let* a := bread (i_dev i) addr in
        bstore (i_dev i) addr (le32_put a bn new) ;;
        ret new
      else ret (le32_get a bn)
    else panic "bmap: out of range".

(** The copy loop of [readi]; the bytes stored through [dst] are
    accumulated in order. *)
Fixpoint readi_loop (fuel : nat) (ip : nat) (tot off n : Z) (dst : list Z) : M (list Z) :=
  match fuel with
  | O => fun _ => OutOfFuel
  | S fuel' =>
      if tot <? n then
        let* i := get_inode ip in
        let* addr := bmap ip (off / BSIZE) in
        let* data := bread (i_dev i) addr in
        let m := min (n - tot) (BSIZE - off mod BSIZE) in
        readi_loop fuel' ip (u32 (tot + m)) (u32 (off + m)) n
          (dst ++ blk_read data (off mod BSIZE) m)
      else ret dst
  end.

Definition copy_fuel (n : Z) : nat := S (Z.to_nat (n / BSIZE + 2)).

(** [readi]: the [int] result and the bytes stored through [dst]. *)
Definition readi (ip : nat) (off n : Z) : M (Z * list Z) :=
  let* i := get_inode ip in
  if i_type i =? T_DEV then
    if (i_major i <? 0) || (NDEV <=? i_major i) then ret (-1, [])
    else match dev_read (i_major i) with
         | None => ret (-1, [])
         | Some rd => ret (rd (i32 n))
         end
  else if (i_size i <? off) || (u32 (off + n) <? off) then ret (-1, [])
  else
    let n := if i_size i <? u32 (off + n) then u32 (i_size i - off) else n in
    let* dst := readi_loop (copy_fuel n) ip 0 off n [] in
    ret (i32 n, dst).

(** The copy loop of [writei]; it returns the final [off]. *)
Fixpoint writei_loop (fuel : nat) (ip : nat) (src : list Z) (tot off n : Z) : M Z :=
  match fuel with
  | O => fun _ => OutOfFuel
  | S fuel' =>
      if tot <? n then
        let* i := get_inode ip in
        let* addr := bmap ip (off / BSIZE) in
        let* data := bread (i_dev i) addr in
        let m := min (n - tot) (BSIZE - off mod BSIZE) in
        bstore (i_dev i) addr (blk_put data (off mod BSIZE) (blk_read src tot m)) ;;
        writei_loop fuel' ip src (u32 (tot + m)) (u32 (off + m)) n
      else ret off
  end.

Definition writei (ip : nat) (src : list Z) (off n : Z) : M Z :=
  let* i := get_inode ip in
  if i_type i =? T_DEV then
    if (i_major i <? 0) || (NDEV <=? i_major i) then ret (-1)
    else match dev_write (i_major i) with
         | None => ret (-1)
         | Some wr => ret (wr src (i32 n))
         end
  else if (i_size i <? off) || (u32 (off + n) <? off) then ret (-1)
  else if u32 (MAXFILE * BSIZE) <? u32 (off + n) then ret (-1)
  else
    let* off := writei_loop (copy_fuel n) ip src 0 off n in
    let* i := get_inode ip in
    (if (0 <? n) && (i_size i <? off) then
       upd_inode ip (set_i_size off) ;; iupdate ip
     else ret tt) ;;
    ret (i32 n).

(** ** fs.c: directories *)

(** Modelled from the spec: string.c is absent; [strncmp] is the bounded
    comparison that stops at a null byte, [strncpy] copies up to the null
    byte and pads with null bytes, [memmove] replaces a prefix.  A C string
    is the list of the bytes that a pointer reaches; the end of the list
    reads as the null byte. *)
Fixpoint strncmp (p q : list Z) (n : nat) : Z :=
  match n with
  | O => 0
  | S n' =>
      let a := hd 0 p in
      let b := hd 0 q in
      if (a =? 0) || negb (a =? b) then a - b
      else strncmp (tl p) (tl q) n'
  end.
Fixpoint strncpy (src : list Z) (n : nat) : list Z :=
  match n with
  | O => []
  | S n' =>
      let a := hd 0 src in
      if a =? 0 then replicate n 0 else a :: strncpy (tl src) n'
  end.
Definition memmove (dst src : list Z) (n : Z) : list Z :=
  take (Z.to_nat n) src ++ drop (Z.to_nat n) dst.

Definition namecmp (s t : list Z) : Z := strncmp s t (Z.to_nat DIRSIZ).

(** [sizeof(struct dirent)] and the layout of the record: the [ushort]
    inumber, little-endian, then [DIRSIZ] bytes of name. *)
Definition desz : Z := 2 + DIRSIZ.
Definition dirent_decode (bytes : list Z) : dirent :=
  mkDirent (blk_get bytes 0 + 256 * blk_get bytes 1)
    (take (Z.to_nat DIRSIZ) (drop 2 bytes)).
Definition dirent_encode (de : dirent) : list Z :=
  [de_inum de mod 256; de_inum de / 256 mod 256]
  ++ take (Z.to_nat DIRSIZ) (de_name de ++ replicate (Z.to_nat DIRSIZ) 0).

Definition dir_fuel (size : Z) : nat := S (Z.to_nat (size / desz + 1)).

(** The result of [dirlookup] is the inode found together with the value
    stored through [poff]. *)
Fixpoint dirlookup_loop (fuel : nat) (dp : nat) (name : list Z) (off : Z)
  : M (option (nat * Z)) :=
  match fuel with
  | O => fun _ => OutOfFuel
  | S fuel' =>
      let* d := get_inode dp in
      if off <? i_size d then
        let* rd := readi dp off desz in
        if negb (u32 (fst rd) =? desz) then panic "dirlookup read"
        else
          let de := dirent_decode (snd rd) in
          if de_inum de =? 0 then dirlookup_loop fuel' dp name (u32 (off + desz))
          else if namecmp name (de_name de) =? 0 then
            let* ip := iget (i_dev d) (de_inum de) in
            ret (Some (ip, off))
          else dirlookup_loop fuel' dp name (u32 (off + desz))
      else ret None
  end.

Definition dirlookup (dp : nat) (name : list Z) : M (option (nat * Z)) :=
  let* d := get_inode dp in
  if negb (i_type d =? T_DIR) then panic "dirlookup not DIR"
  else dirlookup_loop (dir_fuel (i_size d)) dp name 0.

(** The scan of [dirlink] for an empty entry; it returns the [int off] at
    which the loop stops. *)
Fixpoint dirlink_scan (fuel : nat) (dp : nat) (off : Z) : M Z :=
  match fuel with
  | O => fun _ => OutOfFuel
  | S fuel' =>
      let* d := get_inode dp in
      if u32 off <? i_size d then
        let* rd := readi dp (u32 off) desz in
        if negb (u32 (fst rd) =? desz) then panic "dirlink read"
        else if de_inum (dirent_decode (snd rd)) =? 0 then ret off
        else dirlink_scan fuel' dp (i32 (off + desz))
      else ret off
  end.

Definition dirlink (dp : nat) (name : list Z) (inum : Z) : M Z :=
  let* found := dirlookup dp name in
  match found with
  | Some (ip, _) => iput ip ;; ret (-1)
  | None =>
      let* d := get_inode dp in
      let* off := dirlink_scan (dir_fuel (i_size d)) dp 0 in
      let de := mkDirent (u16 inum) (strncpy name (Z.to_nat DIRSIZ)) in
      let* r := writei dp (dirent_encode de) (u32 off) desz in
      if negb (u32 r =? desz) then panic "dirlink" else ret 0
  end.

(** ** fs.c: paths *)

Definition slash : Z := 47.

Fixpoint skip_slashes (path : list Z) : list Z :=
  match path with
  | [] => []
  | c :: path' => if c =? slash then skip_slashes path' else path
  end.

(** [while( *path != '/' && *path != 0) path++]: the pointer reached and the
    number of bytes passed. *)
Fixpoint skip_elem_chars (path : list Z) : Z * list Z :=
  match path with
  | [] => (0, [])
  | c :: path' =>
      if negb (c =? slash) && negb (c =? 0) then
        let r := skip_elem_chars path' in (fst r + 1, snd r)
      else (0, path)
  end.

(** [skipelem]: [None] is the null pointer; otherwise the pointer returned
    and the new content of the buffer [name]. *)
Definition skipelem (path name : list Z) : option (list Z * list Z) :=
  let path := skip_slashes path in
  if hd 0 path =? 0 then None
  else
    let s := path in
    let r := skip_elem_chars path in
    let len := i32 (fst r) in
    let name :=
      if DIRSIZ <=? len then memmove name s DIRSIZ
      else <[Z.to_nat len := 0]> (memmove name s len) in
    Some (skip_slashes (snd r), name).

Fixpoint namex_loop (fuel : nat) (ip : nat) (path : list Z) (nameiparent : Z)
    (name : list Z) : M (option nat * list Z) :=
  match fuel with
  | O => fun _ => OutOfFuel
  | S fuel' =>
      match skipelem path name with
      | Some (path, name) =>
          ilock ip ;;
          let* i := get_inode ip in
          if negb (i_type i =? T_DIR) then iunlockput ip ;; ret (None, name)
          else if negb (nameiparent =? 0) && (hd 0 path =? 0) then
            iunlock ip ;; ret (Some ip, name)
          else
            let* next := dirlookup ip name in
            match next with
            | None => iunlockput ip ;; ret (None, name)
            | Some (nx, _) => iunlockput ip ;; namex_loop fuel' nx path nameiparent name
            end
      | None =>
          if negb (nameiparent =? 0) then iput ip ;; ret (None, name)
          else ret (Some ip, name)
      end
  end.

Definition namex (path : list Z) (nameiparent : Z) (name : list Z)
  : M (option nat * list Z) :=
  let* ip := (if hd 0 path =? slash then iget ROOTDEV ROOTINO
              else let* s := get in idup (cwd s)) in
  namex_loop (S (length path)) ip path nameiparent name.

(** A local [char name[DIRSIZ]] starts as null bytes here; the code reads
    the buffer only after [skipelem] has filled it. *)
Definition name_buf : list Z := replicate (Z.to_nat DIRSIZ) 0.

Definition namei (path : list Z) : M (option nat) :=
  let* r := namex path 0 name_buf in ret (fst r).
Definition nameiparent (path name : list Z) : M (option nat * list Z) :=
  namex path 1 name.

(** ** file.c *)

Definition get_file (f : nat) : M file :=
  fun s => match ftable s !! f with
           | Some fl => Done fl s
           | None => Panic "bad file pointer"
           end.
Definition upd_file (f : nat) (g : file -> file) : M unit :=
  fun s => match ftable s !! f with
           | Some fl => Done tt (set_ftable (<[f := g fl]> (ftable s)) s)
           | None => Panic "bad file pointer"
           end.

Fixpoint filealloc_scan (l : list file) (idx : nat) : option nat :=
  match l with
  | [] => None
  | fl :: l' => if f_ref fl =? 0 then Some idx else filealloc_scan l' (S idx)
  end.
Definition filealloc : M (option nat) :=
  let* s := get in
  match filealloc_scan (ftable s) 0%nat with
  | Some f => upd_file f (set_f_ref 1) ;; ret (Some f)
  | None => ret None
  end.

Definition filedup (f : nat) : M nat :=
  let* fl := get_file f in
  if f_ref fl <? 1 then panic "filedup"
  else upd_file f (set_f_ref (i32 (f_ref fl + 1))) ;; ret f.

Definition fileclose (f : nat) : M unit :=
  let* fl := get_file f in
  if f_ref fl <? 1 then panic "fileclose"
  else
    upd_file f (set_f_ref (i32 (f_ref fl - 1))) ;;
    if 0 <? i32 (f_ref fl - 1) then ret tt
    else
      let* ff := get_file f in
      upd_file f (fun fl => set_f_type FD_NONE (set_f_ref 0 fl)) ;;
      match f_type ff with
      | FD_PIPE => ret tt
      | FD_INODE => begin_op ;; iput (f_ip ff) ;; end_op
      | FD_NONE => ret tt
      end.

(** [fileread]: the [int] result and the bytes stored through [addr]. *)
Definition fileread (f : nat) (n : Z) : M (Z * list Z) :=
  let* fl := get_file f in
  if f_readable fl =? 0 then ret (-1, [])
  else
    match f_type fl with
    | FD_PIPE => ret (piperead (f_pipe fl) n)
    | FD_INODE =>
        ilock (f_ip fl) ;;
        let* fl := get_file f in
        let* rd := readi (f_ip fl) (f_off fl) (u32 n) in
        (if 0 <? fst rd then upd_file f (fun fl => set_f_off (u32 (f_off fl + fst rd)) fl)
         else ret tt) ;;
        let* fl := get_file f in
        iunlock (f_ip fl) ;;
        ret rd
    | FD_NONE => panic "fileread"
    end.

(** The loop of [filewrite]; it returns the final [i]. *)
Fixpoint filewrite_loop (fuel : nat) (f : nat) (addr : list Z) (n max i : Z) : M Z :=
  match fuel with
  | O => fun _ => OutOfFuel
  | S fuel' =>
      if i <? n then
        let n1 := if max <? n - i then max else n - i in
        begin_op ;;
        let* fl := get_file f in
        ilock (f_ip fl) ;;
        let* fl := get_file f in
        let* r := writei (f_ip fl) (drop (Z.to_nat i) addr) (f_off fl) (u32 n1) in
        (if 0 <? r then upd_file f (fun fl => set_f_off (u32 (f_off fl + r)) fl)
         else ret tt) ;;
        let* fl := get_file f in
        iunlock (f_ip fl) ;;
        end_op ;;
        if r <? 0 then ret i
        else if negb (r =? n1) then panic "short filewrite"
        else filewrite_loop fuel' f addr n max (i32 (i + r))
      else ret i
  end.

Definition filewrite_max : Z := i32 (Z.quot (MAXOPBLOCKS - 1 - 1 - 2) 2 * 512).

Definition filewrite (f : nat) (addr : list Z) (n : Z) : M Z :=
  let* fl := get_file f in
  if f_writable fl =? 0 then ret (-1)
  else
    match f_type fl with
    | FD_PIPE => ret (pipewrite (f_pipe fl) addr n)
    | FD_INODE =>
        let* i := filewrite_loop (S (Z.to_nat n)) f addr n filewrite_max 0 in
        ret (if i =? n then n else -1)
    | FD_NONE => panic "filewrite"
    end.

(** ** sysfile.c *)

Fixpoint fdalloc_scan (l : list (option nat)) (fd : nat) : option nat :=
  match l with
  | [] => None
  | None :: _ => Some fd
  | Some _ :: l' => fdalloc_scan l' (S fd)
  end.
Definition fdalloc (f : nat) : M Z :=
  let* s := get in
  match fdalloc_scan (ofile s) 0%nat with
  | Some fd => modify (fun s => set_ofile (<[fd := Some f]> (ofile s)) s) ;;
               ret (Z.of_nat fd)
  | None => ret (-1)
  end.

Definition dot : list Z := [46].
Definition dotdot : list Z := [46; 46].

Definition create (path : list Z) (type major minor : Z) : M (option nat) :=
  let* r := nameiparent path name_buf in
  match r with
  | (None, _) => ret None
  | (Some dp, name) =>
      ilock dp ;;
      let* found := dirlookup dp name in
      match found with
      | Some (ip, _) =>
          iunlockput dp ;;
          ilock ip ;;
          let* i := get_inode ip in
          if (type =? T_FILE) && (i_type i =? T_FILE) then ret (Some ip)
          else iunlockput ip ;; ret None
      | None =>
          let* d := get_inode dp in
          let* ip := ialloc (i_dev d) type in
          ilock ip ;;
          upd_inode ip (fun i => set_i_nlink 1 (set_i_minor minor (set_i_major major i))) ;;
          iupdate ip ;;
          (if type =? T_DIR then
             upd_inode dp (fun d => set_i_nlink (i16 (i_nlink d + 1)) d) ;;
             iupdate dp ;;
             let* i := get_inode ip in
             let* r1 := dirlink ip dot (i_inum i) in
             if r1 <? 0 then panic "create dots"
             else
               let* d := get_inode dp in
               let* r2 := dirlink ip dotdot (i_inum d) in
               if r2 <? 0 then panic "create dots" else ret tt
           else ret tt) ;;
          let* i := get_inode ip in
          let* r3 := dirlink dp name (i_inum i) in
          if r3 <? 0 then panic "create: dirlink"
          else iunlockput dp ;; ret (Some ip)
      end
  end.

(** The part of [sys_open] that follows the choice of the inode: a handle
    and a descriptor are allocated and filled in. *)
Definition sys_open_finish (ip : nat) (omode : Z) : M Z :=
  let* fo := filealloc in
  let* fd := (match fo with
              | None => ret (-1)
              | Some f => fdalloc f
              end) in
  match fo with
  | Some f =>
      if fd <? 0 then fileclose f ;; iunlockput ip ;; end_op ;; ret (-1)
      else
        iunlock ip ;;
        end_op ;;
        upd_file f (fun fl =>
          mkFile FD_INODE (f_ref fl)
            (if Z.land omode O_WRONLY =? 0 then 1 else 0)
            (if negb (Z.land omode O_WRONLY =? 0) || negb (Z.land omode O_RDWR =? 0)
             then 1 else 0)
            (f_pipe fl) ip 0) ;;
        ret fd
  | None => iunlockput ip ;; end_op ;; ret (-1)
  end.

(** [sys_open]; [args] is what [argstr] and [argint] fetched, [None] when
    one of them failed. *)
Definition sys_open (args : option (list Z * Z)) : M Z :=
  match args with
  | None => ret (-1)
  | Some (path, omode) =>
      begin_op ;;
      if negb (Z.land omode O_CREATE =? 0) then
        let* ip := create path T_FILE 0 0 in
        match ip with
        | None => end_op ;; ret (-1)
        | Some ip => sys_open_finish ip omode
        end
      else
        let* ip := namei path in
        match ip with
        | None => end_op ;; ret (-1)
        | Some ip =>
            ilock ip ;;
            let* i := get_inode ip in
            if (i_type i =? T_DIR) && negb (omode =? O_RDONLY) then
              iunlockput ip ;; end_op ;; ret (-1)
            else sys_open_finish ip omode
        end
  end.

(** ** fs.c and file.c: metadata *)

Definition stati (ip : nat) : M stat :=
  let* i := get_inode ip in
  ret (mkStat (i_dev i) (i_inum i) (i_type i) (i_nlink i) (i_size i)).

(** [filestat]: the [int] result and the record stored through [st]. *)
Definition filestat (f : nat) : M (Z * option stat) :=
  let* fl := get_file f in
  match f_type fl with
  | FD_INODE =>
      ilock (f_ip fl) ;;
      let* fl := get_file f in
      let* st := stati (f_ip fl) in
      let* fl := get_file f in
      iunlock (f_ip fl) ;;
      ret (0, Some st)
  | _ => ret (-1, None)
  end.

(** ** sysfile.c: the remaining system calls

    Modelled from the spec: syscall.c is absent; [argint], [argptr] and
    [argstr] fetch an argument of the call and fail on a bad user address.
    A system call takes what they fetched, [None] when the fetch failed.
    [NOFILE] is the length of the descriptor table of the process. *)

(** [argfd]: [None] is the result -1, otherwise the descriptor and the
    handle stored through [pfd] and [pf]. *)
Definition argfd (arg : option Z) : M (option (Z * nat)) :=
  match arg with
  | None => ret None
  | Some fd =>
      let* s := get in
      if (fd <? 0) || (Z.of_nat (length (ofile s)) <=? fd) then ret None
      else match ofile s !! Z.to_nat fd with
           | Some (Some f) => ret (Some (fd, f))
           | _ => ret None
           end
  end.

Definition sys_dup (a0 : option Z) : M Z :=
  let* r := argfd a0 in
  match r with
  | None => ret (-1)
  | Some (_, f) =>
      let* fd := fdalloc f in
      if fd <? 0 then ret (-1)
      else filedup f ;; ret fd
  end.

(** [a2] is the count that [argint] fetched, [None] when it or the
    [argptr] of the buffer failed. *)
Definition sys_read (a0 a2 : option Z) : M (Z * list Z) :=
  let* r := argfd a0 in
  match r, a2 with
  | Some (_, f), Some n => fileread f n
  | _, _ => ret (-1, [])
  end.

(** [a12] is the buffer and the count. *)
Definition sys_write (a0 : option Z) (a12 : option (list Z * Z)) : M Z :=
  let* r := argfd a0 in
  match r, a12 with
  | Some (_, f), Some (p, n) => filewrite f p n
  | _, _ => ret (-1)
  end.

Definition sys_close (a0 : option Z) : M Z :=
  let* r := argfd a0 in
  match r with
  | None => ret (-1)
  | Some (fd, f) =>
      modify (fun s => set_ofile (<[Z.to_nat fd := None]> (ofile s)) s) ;;
      fileclose f ;;
      ret 0
  end.

(** [a1] tells whether the [argptr] of [st] succeeded. *)
Definition sys_fstat (a0 : option Z) (a1 : bool) : M (Z * option stat) :=
  let* r := argfd a0 in
  match r with
  | Some (_, f) => if a1 then filestat f else ret (-1, None)
  | None => ret (-1, None)
  end.

(** The label [bad] of [sys_link]. *)
Definition sys_link_bad (ip : nat) : M Z :=
  ilock ip ;;
  upd_inode ip (fun i => set_i_nlink (i16 (i_nlink i - 1)) i) ;;
  iupdate ip ;;
  iunlockput ip ;;
  end_op ;;
  ret (-1).

Definition sys_link (args : option (list Z * list Z)) : M Z :=
  match args with
  | None => ret (-1)
  | Some (old, new) =>
      begin_op ;;
      let* r := namei old in
      match r with
      | None => end_op ;; ret (-1)
      | Some ip =>
          ilock ip ;;
          let* i := get_inode ip in
          if i_type i =? T_DIR then iunlockput ip ;; end_op ;; ret (-1)
          else
            upd_inode ip (fun i => set_i_nlink (i16 (i_nlink i + 1)) i) ;;
            iupdate ip ;;
            iunlock ip ;;
            let* r := nameiparent new name_buf in
            match r with
            | (None, _) => sys_link_bad ip
            | (Some dp, name) =>
                ilock dp ;;
                let* d := get_inode dp in
                let* i := get_inode ip in
                if negb (i_dev d =? i_dev i) then iunlockput dp ;; sys_link_bad ip
                else
                  let* r := dirlink dp name (i_inum i) in
                  if r <? 0 then iunlockput dp ;; sys_link_bad ip
                  else iunlockput dp ;; iput ip ;; end_op ;; ret 0
            end
      end
  end.

(** The loop of [isdirempty]; [off] is an [int] that is compared and passed
    on as a [uint]. *)
Fixpoint isdirempty_loop (fuel : nat) (dp : nat) (off : Z) : M Z :=
  match fuel with
  | O => fun _ => OutOfFuel
  | S fuel' =>
      let* d := get_inode dp in
      if u32 off <? i_size d then
        let* rd := readi dp (u32 off) desz in
        if negb (u32 (fst rd) =? desz) then panic "isdirempty: readi"
        else if negb (de_inum (dirent_decode (snd rd)) =? 0) then ret 0
        else isdirempty_loop fuel' dp (i32 (off + desz))
      else ret 1
  end.

Definition isdirempty (dp : nat) : M Z :=
  let* d := get_inode dp in
  isdirempty_loop (dir_fuel (i_size d)) dp (i32 (2 * desz)).

(** The label [bad] of [sys_unlink]. *)
Definition sys_unlink_bad (dp : nat) : M Z :=
  iunlockput dp ;; end_op ;; ret (-1).

Definition sys_unlink (arg : option (list Z)) : M Z :=
  match arg with
  | None => ret (-1)
  | Some path =>
      begin_op ;;
      let* r := nameiparent path name_buf in
      match r with
      | (None, _) => end_op ;; ret (-1)
      | (Some dp, name) =>
          ilock dp ;;
          if (namecmp name dot =? 0) || (namecmp name dotdot =? 0)
          then sys_unlink_bad dp
          else
            let* found := dirlookup dp name in
            match found with
            | None => sys_unlink_bad dp
            | Some (ip, off) =>
                ilock ip ;;
                let* i := get_inode ip in
                if i_nlink i <? 1 then panic "unlink: nlink < 1"
                else
                  let* full :=
                    (if i_type i =? T_DIR then
                       let* e := isdirempty ip in ret (e =? 0)
                     else ret false) in
                  if full then iunlockput ip ;; sys_unlink_bad dp
                  else
                    let* w := writei dp (replicate (Z.to_nat desz) 0) off desz in
                    if negb (u32 w =? desz) then panic "unlink: writei"
                    else
                      let* i := get_inode ip in
                      (if i_type i =? T_DIR then
                         upd_inode dp (fun d => set_i_nlink (i16 (i_nlink d - 1)) d) ;;
                         iupdate dp
                       else ret tt) ;;
                      iunlockput dp ;;
                      upd_inode ip (fun i => set_i_nlink (i16 (i_nlink i - 1)) i) ;;
                      iupdate ip ;;
                      iunlockput ip ;;
                      end_op ;;
                      ret 0
            end
      end
  end.

Definition sys_mkdir (arg : option (list Z)) : M Z :=
  begin_op ;;
  match arg with
  | None => end_op ;; ret (-1)
  | Some path =>
      let* ip := create path T_DIR 0 0 in
      match ip with
      | None => end_op ;; ret (-1)
      | Some ip => iunlockput ip ;; end_op ;; ret 0
      end
  end.

(** The [int] arguments are converted to the [short] parameters of
    [create]. *)
Definition sys_mknod (args : option (list Z * Z * Z)) : M Z :=
  begin_op ;;
  match args with
  | None => end_op ;; ret (-1)
  | Some (path, major, minor) =>
      let* ip := create path T_DEV (i16 major) (i16 minor) in
      match ip with
      | None => end_op ;; ret (-1)
      | Some ip => iunlockput ip ;; end_op ;; ret 0
      end
  end.

Definition sys_chdir (arg : option (list Z)) : M Z :=
  begin_op ;;
  match arg with
  | None => end_op ;; ret (-1)
  | Some path =>
      let* r := namei path in
      match r with
      | None => end_op ;; ret (-1)
      | Some ip =>
          ilock ip ;;
          let* i := get_inode ip in
          if negb (i_type i =? T_DIR) then iunlockput ip ;; end_op ;; ret (-1)
          else
            iunlock ip ;;
            let* s := get in
            iput (cwd s) ;;
            end_op ;;
            modify (set_cwd ip) ;;
            ret 0
      end
  end.

End Ops.

(** * Specification-level definitions *)

Section Specs.
Context {cfg : Config}.

(** The ranges of the C types. *)
Definition is_u32 (z : Z) : Prop := 0 <= z < 2 ^ 32.

(** ** Content of a file *)

(** The block address that [bmap] finds for block [bn] when nothing has to
    be allocated, read off the inode and its indirect block. *)
Definition baddr (s : state) (i : inode) (bn : Z) : Z :=
  if bn <? NDIRECT then nth (Z.to_nat bn) (i_addrs i) 0
  else le32_get (block_at s (i_dev i) (nth (Z.to_nat NDIRECT) (i_addrs i) 0))
         (bn - NDIRECT).

(** Block [bn] of the file has a disk block: [bmap] neither allocates nor
    stops on it. *)
Definition mapped (s : state) (i : inode) (bn : Z) : Prop :=
  0 <= bn < MAXFILE /\ baddr s i bn <> 0 /\
  (NDIRECT <= bn -> nth (Z.to_nat NDIRECT) (i_addrs i) 0 <> 0).

(** The byte at offset [k] of the file, and the bytes of a range. *)
Definition byte_at (s : state) (i : inode) (k : Z) : Z :=
  blk_get (block_at s (i_dev i) (baddr s i (k / BSIZE))) (k mod BSIZE).
Definition file_bytes (s : state) (i : inode) (off n : Z) : list Z :=
  byte_at s i <$> seqZ off n.

(** The blocks that an inode refers to: the direct blocks, the indirect
    block and the blocks listed in it. *)
Definition file_block (s : state) (i : inode) (b : Z) : Prop :=
  b <> 0 /\
  ((exists k, 0 <= k < NDIRECT /\ nth (Z.to_nat k) (i_addrs i) 0 = b) \/
   (nth (Z.to_nat NDIRECT) (i_addrs i) 0 <> 0 /\
    (b = nth (Z.to_nat NDIRECT) (i_addrs i) 0 \/
     exists j, 0 <= j < NINDIRECT /\
       le32_get (block_at s (i_dev i) (nth (Z.to_nat NDIRECT) (i_addrs i) 0)) j = b))).

(** ** Directories *)

(** Entry [k] of the directory, read off the disk. *)
Definition dir_entry (s : state) (d : inode) (k : Z) : dirent :=
  dirent_decode (file_bytes s d (k * desz) desz).

(** A directory of [nent] entries all of whose blocks are mapped. *)
Definition dir_ok (s : state) (d : inode) (nent : nat) : Prop :=
  i_type d = T_DIR /\ i_size d = Z.of_nat nent * desz /\ i_size d < 2 ^ 31 /\
  forall k, 0 <= k < i_size d -> mapped s d (k / BSIZE).

(** The entry is in use and carries the name. *)
Definition entry_matches (name : list Z) (de : dirent) : bool :=
  negb (de_inum de =? 0) && (namecmp name (de_name de) =? 0).

(** From the spec: the name is present in the directory. *)
Definition dir_present (s : state) (d : inode) (nent : nat) (name : list Z) : Prop :=
  exists k, 0 <= k < Z.of_nat nent /\ entry_matches name (dir_entry s d k) = true.

(** From the spec: the slot that receives a new entry is the first whose
    inumber is 0, and the end of the directory when there is none. *)
Definition dir_slot (s : state) (d : inode) (nent : nat) (k : Z) : Prop :=
  0 <= k <= Z.of_nat nent /\
  (forall j, 0 <= j < k -> de_inum (dir_entry s d j) <> 0) /\
  (k < Z.of_nat nent -> de_inum (dir_entry s d k) = 0).

(** The two scans, as functions of the entries from [k] on. *)
Fixpoint dir_find (s : state) (d : inode) (name : list Z) (k : Z) (n : nat) : option Z :=
  match n with
  | O => None
  | S n' =>
      if entry_matches name (dir_entry s d k) then Some k
      else dir_find s d name (k + 1) n'
  end.
Fixpoint dir_free (s : state) (d : inode) (k : Z) (n : nat) : Z :=
  match n with
  | O => k
  | S n' => if de_inum (dir_entry s d k) =? 0 then k else dir_free s d (k + 1) n'
  end.

(** The reference counts are those of the type [int]. *)
Definition refs_int (s : state) : Prop :=
  forall j a, icache s !! j = Some a -> - 2 ^ 31 <= i_ref a < 2 ^ 31.

(** ** Creation *)

(** The inode that [create] has just made: locked, one link, the device
    numbers asked for, and the identity that [ialloc] gave it. *)
Definition new_inode (dev inum major minor : Z) (i : inode) : Prop :=
  i_lock i = true /\ i_nlink i = 1 /\ i_major i = major /\ i_minor i = minor /\
  i_dev i = dev /\ i_inum i = inum.

(** What the tail of [create] keeps: the new inode in slot [ip], and the
    link count [nl] and the inumber of the parent in slot [dp]. *)
Definition create_inv (ip dp : nat) (dev inum major minor nl pinum : Z) (st : state)
  : Prop :=
  (exists i, icache st !! ip = Some i /\ new_inode dev inum major minor i) /\
  (exists d, icache st !! dp = Some d /\ i_nlink d = nl /\ i_inum d = pinum).

(** The cache agrees with the disk on which inodes exist: an inode that is
    cached, referenced and valid is allocated on disk.  ([iput] frees an
    on-disk inode only through the last reference, and clears [valid].) *)
Definition cache_coherent (s : state) : Prop :=
  forall j a, icache s !! j = Some a -> 0 < i_ref a -> i_valid a <> 0 ->
    d_type (dinode_at s (i_dev a) (i_inum a)) <> 0.

(** The same, as a test that can be run. *)
Definition cache_coherentb (s : state) : bool :=
  forallb (fun a =>
             negb ((0 <? i_ref a) && negb (i_valid a =? 0)) ||
             negb (d_type (dinode_at s (i_dev a) (i_inum a)) =? 0))
          (icache s).

(** ** Paths *)

(** A byte of a path element: neither a slash nor the null byte. *)
Definition elem_char (c : Z) : Prop := c <> slash /\ c <> 0.

(** ** The inode cache *)

(** A slot is in use for the inode [(dev, inum)]. *)
Definition hit (dev inum : Z) (i : inode) : Prop :=
  0 < i_ref i /\ i_dev i = dev /\ i_inum i = inum.

(** Identity uniqueness: no two slots in use hold the same inode. *)
Definition uniq (l : list inode) : Prop :=
  forall j k a b,
    l !! j = Some a -> l !! k = Some b ->
    0 < i_ref a -> 0 < i_ref b -> i_dev a = i_dev b -> i_inum a = i_inum b ->
    j = k.

(** The caller of [idup] and [iput] holds a reference to the slot. *)
Definition holds_ref (s : state) (ip : nat) : Prop :=
  exists i, icache s !! ip = Some i /\ 0 < i_ref i.

(** The identity of a slot. *)
Definition ident (i : inode) : Z * Z * Z := (i_dev i, i_inum i, i_ref i).

(** One step of a run of the kernel, seen from the cache: a call of one of
    the three functions that write [ref], [dev] or [inum], or anything else,
    which leaves the three fields of every slot as they are. *)
Inductive cache_step : state -> state -> Prop :=
| step_iget dev inum s ip s' :
    iget dev inum s = Done ip s' -> cache_step s s'
| step_idup ip s r s' :
    holds_ref s ip -> idup ip s = Done r s' -> cache_step s s'
| step_iput ip s s' :
    holds_ref s ip -> iput ip s = Done tt s' -> cache_step s s'
| step_other s s' :
    ident <$> icache s' = ident <$> icache s -> cache_step s s'.

(** ** Footprints *)

(** The fields of [struct inode], to say which of them a function may
    change in a slot of the cache. *)
Inductive field : Type :=
| Fdev | Finum | Fref | Flock | Fvalid | Ftype | Fmajor | Fminor | Fnlink | Fsize
| Faddrs.

Definition field_code (f : field) : nat :=
  match f with
  | Fdev => 0 | Finum => 1 | Fref => 2 | Flock => 3 | Fvalid => 4 | Ftype => 5
  | Fmajor => 6 | Fminor => 7 | Fnlink => 8 | Fsize => 9 | Faddrs => 10
  end%nat.

Definition field_same (f : field) (i i' : inode) : Prop :=
  match f with
  | Fdev => i_dev i' = i_dev i
  | Finum => i_inum i' = i_inum i
  | Fref => i_ref i' = i_ref i
  | Flock => i_lock i' = i_lock i
  | Fvalid => i_valid i' = i_valid i
  | Ftype => i_type i' = i_type i
  | Fmajor => i_major i' = i_major i
  | Fminor => i_minor i' = i_minor i
  | Fnlink => i_nlink i' = i_nlink i
  | Fsize => i_size i' = i_size i
  | Faddrs => i_addrs i' = i_addrs i
  end.

Definition mem_field (f : field) (fs : list field) : bool :=
  existsb (fun g => Nat.eqb (field_code f) (field_code g)) fs.

(** [i'] differs from [i] at most in the fields [fs]. *)
Definition changes (fs : list field) (i i' : inode) : Prop :=
  forall f, mem_field f fs = false -> field_same f i i'.

Definition sub_fields (fs fs' : list field) : bool :=
  forallb (fun f => mem_field f fs') fs.

(** A relation between the old and the new content of each slot. *)
Definition slot_rel : Type := nat -> inode -> inode -> Prop.

Definition slot_refl (P : slot_rel) : Prop := forall j i, P j i i.
Definition slot_trans (P : slot_rel) : Prop :=
  forall j a b c, P j a b -> P j b c -> P j a c.
Definition slot_ok (P : slot_rel) : Prop := slot_refl P /\ slot_trans P.

(** [P] allows slot [x] to change in the fields [fs]. *)
Definition covers (P : slot_rel) (x : nat) (fs : list field) : Prop :=
  forall i i', changes fs i i' -> P x i i'.

(** Slot [x] changes at most in [fs], the other slots do not change. *)
Definition touches (x : nat) (fs : list field) : slot_rel :=
  fun j i i' => if decide (j = x) then changes fs i i' else i' = i.

(** Every slot changes at most in [fs]. *)
Definition anyslot (fs : list field) : slot_rel := fun _ i i' => changes fs i i'.

Definition is_logwrite (e : event) : Prop :=
  match e with EvLogWrite _ => True | _ => False end.

(** What no function of fs.c changes: the superblock, the table of open
    files, the process, the count of outstanding operations; the trace grows
    by [log_write] events only. *)
Definition base_eq (s s' : state) : Prop :=
  sb s' = sb s /\ ftable s' = ftable s /\ cwd s' = cwd s /\ ofile s' = ofile s /\
  outstanding s' = outstanding s /\
  exists ws, trace s' = trace s ++ ws /\ Forall is_logwrite ws.

Definition cache_rel (P : slot_rel) (l l' : list inode) : Prop :=
  length l' = length l /\
  forall j i i', l !! j = Some i -> l' !! j = Some i' -> P j i i'.

Definition frame (P : slot_rel) (s s' : state) : Prop :=
  base_eq s s' /\ cache_rel P (icache s) (icache s').

(** A relation that holds between the state before and the state after any
    run that returns, and a run that does not exhaust its fuel. *)
Definition preserves {A} (R : state -> state -> Prop) (m : M A) : Prop :=
  forall s a s', m s = Done a s' -> R s s'.
Definition nofuel {A} (m : M A) : Prop := forall s, m s <> OutOfFuel.

(** Every slot may change in any way. *)
Definition any_change : slot_rel := fun _ _ _ => True.

(** A run from [s] does not exhaust its fuel, and if it returns, the result
    and the final state satisfy [Q]; a fatal stop and a sleep satisfy it
    vacuously. *)
Definition wp {A} (m : M A) (s : state) (Q : A -> state -> Prop) : Prop :=
  match m s with
  | Done a s' => Q a s'
  | OutOfFuel => False
  | Panic _ => True
  | Sleeps => True
  end.

(** ** The chunks of [filewrite] *)

(** From the spec: the write is split into chunks of at most [max] bytes;
    each chunk is written between the opening and the closing of its own
    transaction, and the loop stops at the first failed write.
    [chunk_run max n i tr w]: from [i] bytes written the loop leaves the
    events [tr] and ends with [w] bytes written. *)
Inductive chunk_run (max n : Z) : Z -> list event -> Z -> Prop :=
| chunks_done i : n <= i -> chunk_run max n i [] i
| chunks_fail i ws :
    i < n -> Forall is_logwrite ws ->
    chunk_run max n i (EvBeginOp :: ws ++ [EvEndOp]) i
| chunks_next i ws tr w :
    i < n -> Forall is_logwrite ws ->
    chunk_run max n (i + Z.min max (n - i)) tr w ->
    chunk_run max n i (EvBeginOp :: ws ++ EvEndOp :: tr) w.

(** One chunk of [n1] bytes taken from [src]: inside a transaction of its
    own and under the sleep-lock of the inode of the handle, [writei] is
    called on the bytes at the offset of the handle and returns [r]; the
    offset of the handle is advanced by [r] when [r] is positive. *)
Definition chunk_step (f : nat) (src : list Z) (n1 : Z) (s : state) (r : Z) (s' : state)
  : Prop :=
  exists fl s1 s2,
    ftable s !! f = Some fl /\
    (begin_op ;; ilock (f_ip fl)) s = Done tt s1 /\
    writei (f_ip fl) src (f_off fl) n1 s1 = Done r s2 /\
    (iunlock (f_ip fl) ;; end_op)
      (set_ftable
         (<[f := set_f_off (if 0 <? r then u32 (f_off fl + r) else f_off fl) fl]>
            (ftable s2)) s2) = Done tt s'.

(** From the spec: the chunks of a write of the [n] bytes of [addr], of at
    most [max] bytes each.  [write_run max f addr n i s w s']: from [i]
    bytes written in state [s] the loop ends in state [s'] with [w] bytes
    written; it goes on while [writei] returns the size of the chunk, and
    stops at the first chunk for which it returns a negative value. *)
Inductive write_run (max : Z) (f : nat) (addr : list Z) (n : Z)
  : Z -> state -> Z -> state -> Prop :=
| run_done i s : n <= i -> write_run max f addr n i s i s
| run_fail i s r s' :
    i < n ->
    chunk_step f (drop (Z.to_nat i) addr) (Z.min max (n - i)) s r s' -> r < 0 ->
    write_run max f addr n i s i s'
| run_next i s s1 w s' :
    i < n ->
    chunk_step f (drop (Z.to_nat i) addr) (Z.min max (n - i)) s (Z.min max (n - i)) s1 ->
    write_run max f addr n (i + Z.min max (n - i)) s1 w s' ->
    write_run max f addr n i s w s'.

(** Block [bn] of the file has a disk block of its own: the indirect block
    and the other blocks of the file are elsewhere. *)
Definition block_private (s : state) (i : inode) (bn : Z) : Prop :=
  baddr s i bn <> nth (Z.to_nat NDIRECT) (i_addrs i) 0 /\
  forall bn', 0 <= bn' < MAXFILE -> bn' <> bn -> baddr s i bn' <> baddr s i bn.

(** The entries from [k] on, [n] of them, are all unused. *)
Fixpoint dir_all_free (s : state) (d : inode) (k : Z) (n : nat) : bool :=
  match n with
  | O => true
  | S n' => (de_inum (dir_entry s d k) =? 0) && dir_all_free s d (k + 1) n'
  end.

(** ** The blocks of a file *)

(** The block addresses that [itrunc] frees, in the order in which it
    visits them: a position below [NDIRECT] is a direct address, the
    positions from [NDIRECT] up to [MAXFILE] are the entries of the indirect
    block (none when the file has no indirect block), and position
    [MAXFILE] is the indirect block. *)
Definition slot_addr (s : state) (i : inode) (p : Z) : Z :=
  let ind := nth (Z.to_nat NDIRECT) (i_addrs i) 0 in
  if p <? NDIRECT then nth (Z.to_nat p) (i_addrs i) 0
  else if p <? MAXFILE then
    (if ind =? 0 then 0 else le32_get (block_at s (i_dev i) ind) (p - NDIRECT))
  else ind.

(** The file owns its blocks: each of them is marked in use in the bitmap,
    and none is listed twice. *)
Definition blocks_owned (s : state) (i : inode) : Prop :=
  forall p, 0 <= p <= MAXFILE -> slot_addr s i p <> 0 ->
    bit_at s (i_dev i) (slot_addr s i p) = true /\
    forall q, p < q <= MAXFILE -> slot_addr s i q <> slot_addr s i p.

(** [m] never waits for a sleep-lock that is held. *)
Definition nosleep {A} (m : M A) : Prop := forall s, m s <> Sleeps.

(** ** Sleep-locks *)

(** The sleep-locks of the cache, slot by slot. *)
Definition locks (s : state) : list bool := i_lock <$> icache s.

(** Started with the locks [L], when [m] returns, [Q] holds of its result
    and of the locks then. *)
Definition lock_tr {A} (L : list bool) (m : M A) (Q : A -> list bool -> Prop) : Prop :=
  forall s a s', locks s = L -> m s = Done a s' -> Q a (locks s').

(** [m] returns with every sleep-lock as it found it. *)
Definition lock_neutral {A} (m : M A) : Prop :=
  forall s a s', m s = Done a s' -> locks s' = locks s.

(** The fields of an inode but for the lock. *)
Definition unlocked_fields : list field :=
  [Fdev; Finum; Fref; Fvalid; Ftype; Fmajor; Fminor; Fnlink; Fsize; Faddrs].

(** What [create] leaves of the locks [L]: the inode returned is locked and
    was not before, nothing else has changed. *)
Definition create_locks (L : list bool) (r : option nat) (L' : list bool) : Prop :=
  match r with
  | Some ip => L' = <[ip := true]> L /\ L !! ip = Some false
  | None => L' = L
  end.

(** ** Transactions *)

(** [m] returns with [d] more operations outstanding than it started
    with. *)
Definition op_delta {A} (d : Z) (m : M A) : Prop :=
  forall s a s', m s = Done a s' -> outstanding s' = outstanding s + d.

(** [m] has closed every transaction that it opened when it returns. *)
Definition balanced {A} (m : M A) : Prop :=
  forall s a s', m s = Done a s' -> outstanding s' = outstanding s.

End Specs.

(** * A small file system to run the model on

    Device 1 with 64 blocks and 16 inodes.  Inode 1 is the root directory
    with the entries [.], [..] and [a]; inode 2 is the file [a] with two
    links and the content [hello].  The cache holds the root (the working
    directory of the process) in slot 0 and the file in slot 1. *)

Definition cstr (s : string) : list Z :=
  (fun a => Z.of_N (Ascii.N_of_ascii a)) <$> String.list_ascii_of_string s.

Definition ex_dent (inum : Z) (name : string) : list Z :=
  dirent_encode (cfg := xv6_config) (mkDirent inum (cstr name)).

Definition ex_block (bytes : list Z) : list Z := blk_put zero_block 0 bytes.

Definition ex_addrs (a : Z) : list Z := a :: replicate 12 0.

Definition ex_free : inode := mkInode 0 0 0 false 0 0 0 0 0 0 (replicate 13 0).
Definition ex_root : inode := mkInode 1 1 1 false 1 T_DIR 0 0 1 48 (ex_addrs 10).
Definition ex_file : inode := mkInode 1 2 1 false 1 T_FILE 0 0 2 5 (ex_addrs 11).

Definition ex_fs : state := {|
  sb := mkSuperblock 64 16;
  dinodes := {[ (1, 1) := mkDinode T_DIR 0 0 1 48 (ex_addrs 10);
                (1, 2) := mkDinode T_FILE 0 0 2 5 (ex_addrs 11) ]};
  bitmap := list_to_map ((fun b => ((1, b), true)) <$> seqZ 0 12);
  blocks := {[ (1, 10) := ex_block (ex_dent 1 "." ++ ex_dent 1 ".." ++ ex_dent 2 "a");
               (1, 11) := ex_block (cstr "hello") ]};
  icache := [ex_root; ex_file; ex_free; ex_free];
  ftable := [mkFile FD_INODE 1 1 1 0 1%nat 0; mkFile FD_NONE 0 0 0 0 0%nat 0];
  cwd := 0%nat;
  ofile := [Some 0%nat; None; None];
  outstanding := 0;
  trace := []
|}.

(** The same file system after the last link to [a] has gone: the cached
    inode of the file has no link left and one reference. *)
Definition ex_orphan : state :=
  set_icache [ex_root; set_i_nlink 0 ex_file; ex_free; ex_free] ex_fs.

Definition ex_handle : file := mkFile FD_INODE 1 1 1 0 1%nat 0.

Definition ex_name : list Z := name_buf (cfg := xv6_config).

(** The same file system with the link count that the directory gives the
    file: one link, on disk and in the cache. *)
Definition ex_sound : state :=
  set_dinodes (<[(1, 2) := mkDinode T_FILE 0 0 1 5 (ex_addrs 11)]> (dinodes ex_fs))
    (set_icache [ex_root; set_i_nlink 1 ex_file; ex_free; ex_free] ex_fs).

(** The same file system while the file is locked by the process. *)
Definition ex_locked : state :=
  set_icache [ex_root; set_i_lock true ex_file; ex_free; ex_free] ex_fs.

(** * Proofs *)

Section Proofs.
Context {cfg : Config} {cfg_ok : ConfigOk cfg}.

Lemma xv6_config_ok : ConfigOk xv6_config.
Proof. split; vm_compute; congruence. Qed.

(** ** Machine integers *)

Lemma u32_id z : 0 <= z < 2 ^ 32 -> u32 z = z.
Proof. intros. unfold u32. apply Z.mod_small. lia. Qed.

Lemma i32_id z : - 2 ^ 31 <= z < 2 ^ 31 -> i32 z = z.
Proof. intros. unfold i32. rewrite Z.mod_small; lia. Qed.

Lemma u32_range z : 0 <= u32 z < 2 ^ 32.
Proof. unfold u32. apply Z.mod_pos_bound. lia. Qed.

Lemma u32_overflow a b :
  0 <= a < 2 ^ 32 -> 0 <= b < 2 ^ 32 -> (u32 (a + b) <? a) = (2 ^ 32 <=? a + b).
Proof.
  intros Ha Hb. unfold u32.
  destruct (Z.leb_spec (2 ^ 32) (a + b)) as [H|H].
  - replace (a + b) with ((a + b - 2 ^ 32) + 1 * 2 ^ 32) by lia.
    rewrite Z.mod_add by lia. rewrite Z.mod_small by lia. apply Z.ltb_lt. lia.
  - rewrite Z.mod_small by lia. apply Z.ltb_ge. lia.
Qed.

Lemma min_spec a b : min a b = Z.min a b.
Proof. unfold min. destruct (Z.ltb_spec a b); lia. Qed.

Lemma BSIZE_val : BSIZE = 512.
Proof. reflexivity. Qed.

Lemma block_offset off j :
  0 <= off -> 0 <= j < BSIZE - off mod BSIZE ->
  (off + j) / BSIZE = off / BSIZE /\ (off + j) mod BSIZE = off mod BSIZE + j.
Proof.
  intros Hoff Hj. rewrite BSIZE_val in *.
  pose proof (Z.div_mod off 512 ltac:(lia)) as Hdm.
  pose proof (Z.mod_pos_bound off 512 ltac:(lia)) as Hb.
  split.
  - symmetry. apply (Z.div_unique _ _ _ (off mod 512 + j)); lia.
  - symmetry. apply (Z.mod_unique _ _ (off / 512)); lia.
Qed.

(** ** The monad *)

Lemma bind_Done {A B} (m : M A) (k : A -> M B) s b s'' :
  bind m k s = Done b s'' <-> exists a s', m s = Done a s' /\ k a s' = Done b s''.
Proof.
  unfold bind. destruct (m s) as [a s'| | |]; split.
  - eauto.
  - intros (a0 & s0 & Heq & Hk). inversion Heq; subst. exact Hk.
  - discriminate.
  - intros (a0 & s0 & Heq & _). discriminate.
  - discriminate.
  - intros (a0 & s0 & Heq & _). discriminate.
  - discriminate.
  - intros (a0 & s0 & Heq & _). discriminate.
Qed.

Lemma bind_eq {A B} (m : M A) (k : A -> M B) s a s' :
  m s = Done a s' -> bind m k s = k a s'.
Proof. intros H. unfold bind. rewrite H. reflexivity. Qed.

Lemma get_inode_eq s ip i : icache s !! ip = Some i -> get_inode ip s = Done i s.
Proof. intros H. unfold get_inode. rewrite H. reflexivity. Qed.

(** ** Footprints and frames *)

Lemma changes_refl fs i : changes fs i i.
Proof. intros f _. destruct f; reflexivity. Qed.

Lemma changes_trans fs a b c : changes fs a b -> changes fs b c -> changes fs a c.
Proof.
  intros H1 H2 f Hf. specialize (H1 f Hf). specialize (H2 f Hf).
  destruct f; simpl in *; congruence.
Qed.

Lemma mem_field_sub f fs fs' :
  sub_fields fs fs' = true -> mem_field f fs' = false -> mem_field f fs = false.
Proof.
  unfold sub_fields, mem_field. intros Hsub Hf.
  apply not_true_is_false. intros Hin.
  apply existsb_exists in Hin as (g & Hg & Hfg).
  rewrite forallb_forall in Hsub. specialize (Hsub g Hg).
  apply Nat.eqb_eq in Hfg.
  assert (existsb (fun g0 => Nat.eqb (field_code f) (field_code g0)) fs' = true) as Hc.
  { unfold mem_field in Hsub. rewrite Hfg. exact Hsub. }
  congruence.
Qed.

Lemma changes_sub fs fs' i i' :
  sub_fields fs fs' = true -> changes fs i i' -> changes fs' i i'.
Proof. intros Hsub H f Hf. apply H. eapply mem_field_sub; eassumption. Qed.

Lemma covers_sub P x fs fs' :
  sub_fields fs fs' = true -> covers P x fs' -> covers P x fs.
Proof. intros Hsub H i i' Hc. apply H. eapply changes_sub; eassumption. Qed.

Lemma touches_ok x fs : slot_ok (touches x fs).
Proof.
  split.
  - intros j i. unfold touches. destruct (decide (j = x)); [apply changes_refl|reflexivity].
  - intros j a b c. unfold touches. destruct (decide (j = x)).
    + apply changes_trans.
    + congruence.
Qed.

Lemma anyslot_ok fs : slot_ok (anyslot fs).
Proof.
  split.
  - intros j i. apply changes_refl.
  - intros j a b c. apply changes_trans.
Qed.

Lemma touches_covers x fs fs' :
  sub_fields fs' fs = true -> covers (touches x fs) x fs'.
Proof.
  intros Hsub i i' Hc. unfold touches. rewrite decide_True by reflexivity.
  eapply changes_sub; eassumption.
Qed.

Lemma touches_self x fs : covers (touches x fs) x fs.
Proof.
  intros i i' Hc. unfold touches. rewrite decide_True by reflexivity. exact Hc.
Qed.

Lemma anyslot_covers x fs fs' :
  sub_fields fs' fs = true -> covers (anyslot fs) x fs'.
Proof. intros Hsub i i' Hc. eapply changes_sub; eassumption. Qed.

Lemma base_eq_refl s : base_eq s s.
Proof.
  repeat split. exists []. rewrite app_nil_r. split; [reflexivity|constructor].
Qed.

Lemma base_eq_trans a b c : base_eq a b -> base_eq b c -> base_eq a c.
Proof.
  intros (H1 & H2 & H3 & H4 & H5 & ws1 & H6 & H7) (K1 & K2 & K3 & K4 & K5 & ws2 & K6 & K7).
  repeat split; try congruence.
  exists (ws1 ++ ws2). split.
  - rewrite K6, H6, app_assoc. reflexivity.
  - apply Forall_app. split; assumption.
Qed.

Lemma cache_rel_refl P l : slot_refl P -> cache_rel P l l.
Proof.
  intros HP. split; [reflexivity|]. intros j i i' H1 H2.
  rewrite H1 in H2. inversion H2; subst. apply HP.
Qed.

Lemma cache_rel_trans P a b c :
  slot_trans P -> cache_rel P a b -> cache_rel P b c -> cache_rel P a c.
Proof.
  intros HP (L1 & H1) (L2 & H2). split; [congruence|].
  intros j i i'' Hi Hi''.
  assert (is_Some (b !! j)) as (i' & Hi').
  { apply lookup_lt_is_Some. rewrite L1. eapply lookup_lt_Some. exact Hi. }
  eapply HP; eauto.
Qed.

Lemma frame_refl P s : slot_ok P -> frame P s s.
Proof. intros (Hr & _). split; [apply base_eq_refl|apply cache_rel_refl; exact Hr]. Qed.

Lemma frame_trans P a b c : slot_ok P -> frame P a b -> frame P b c -> frame P a c.
Proof.
  intros (_ & Ht) (B1 & C1) (B2 & C2). split.
  - eapply base_eq_trans; eassumption.
  - eapply cache_rel_trans; eassumption.
Qed.

Lemma frame_same_cache P s s' :
  slot_ok P -> base_eq s s' -> icache s' = icache s -> frame P s s'.
Proof.
  intros (Hr & _) Hb Hc. split; [exact Hb|]. rewrite Hc. apply cache_rel_refl. exact Hr.
Qed.

Lemma frame_lookup P s s' j i :
  frame P s s' -> icache s !! j = Some i ->
  exists i', icache s' !! j = Some i' /\ P j i i'.
Proof.
  intros (_ & L & H) Hi.
  assert (is_Some (icache s' !! j)) as (i' & Hi').
  { apply lookup_lt_is_Some. rewrite L. eapply lookup_lt_Some. exact Hi. }
  exists i'. split; [exact Hi'|]. eapply H; eassumption.
Qed.

Lemma frame_lookup_inv P s s' j i' :
  frame P s s' -> icache s' !! j = Some i' ->
  exists i, icache s !! j = Some i /\ P j i i'.
Proof.
  intros (_ & L & H) Hi'.
  assert (is_Some (icache s !! j)) as (i & Hi).
  { apply lookup_lt_is_Some. rewrite <- L. eapply lookup_lt_Some. exact Hi'. }
  exists i. split; [exact Hi|]. eapply H; eassumption.
Qed.

(** Rules for [preserves]. *)

Lemma preserves_ret {A} R (a : A) : (forall s, R s s) -> preserves R (ret a).
Proof. intros HR s a' s' H. inversion H; subst. apply HR. Qed.

Lemma preserves_bind {A B} R (m : M A) (k : A -> M B) :
  (forall a b c, R a b -> R b c -> R a c) ->
  preserves R m -> (forall a, preserves R (k a)) -> preserves R (bind m k).
Proof.
  intros HR Hm Hk s b s'' H. apply bind_Done in H as (a & s' & H1 & H2).
  eapply HR; [eapply Hm; eassumption|eapply Hk; eassumption].
Qed.

Lemma preserves_panic {A} R msg : preserves R (@panic A msg).
Proof. intros s a s' H. discriminate. Qed.

Lemma preserves_sleeps {A} R : preserves R (fun _ : state => @Sleeps A).
Proof. intros s a s' H. discriminate. Qed.

Lemma preserves_fuel {A} R : preserves R (fun _ : state => @OutOfFuel A).
Proof. intros s a s' H. discriminate. Qed.

Lemma preserves_get R : (forall s, R s s) -> preserves R get.
Proof. intros HR s a s' H. inversion H; subst. apply HR. Qed.

Lemma preserves_weaken {A} (R R' : state -> state -> Prop) (m : M A) :
  (forall s s', R s s' -> R' s s') -> preserves R m -> preserves R' m.
Proof. intros HRR Hm s a s' H. apply HRR. eapply Hm. exact H. Qed.

(** Frames of the collaborators. *)

Lemma frame_get_inode P ip : slot_ok P -> preserves (frame P) (get_inode ip).
Proof.
  intros HP s a s' H. unfold get_inode in H.
  destruct (icache s !! ip); inversion H; subst. apply frame_refl. exact HP.
Qed.

Lemma frame_upd_inode P ip f :
  slot_ok P -> (forall i, P ip i (f i)) -> preserves (frame P) (upd_inode ip f).
Proof.
  intros HP Hf s a s' H. unfold upd_inode in H.
  destruct (icache s !! ip) as [i|] eqn:Hi; inversion H; subst. clear H.
  split.
  { repeat split. exists []. simpl. rewrite app_nil_r. split; [reflexivity|constructor]. }
  simpl. split.
  - apply length_insert.
  - intros j a b Ha Hb. destruct (decide (j = ip)) as [->|Hne].
    + rewrite list_lookup_insert_eq in Hb by (eapply lookup_lt_Some; exact Hi).
      inversion Hb; subst. rewrite Hi in Ha. inversion Ha; subst. apply Hf.
    + rewrite list_lookup_insert_ne in Hb by congruence.
      rewrite Ha in Hb. inversion Hb; subst. apply HP.
Qed.

Lemma frame_log_write P t : slot_ok P -> preserves (frame P) (log_write t).
Proof.
  intros HP s a s' H. inversion H; subst. clear H.
  apply frame_same_cache; [exact HP| |reflexivity].
  repeat split. simpl. eexists. split; [reflexivity|].
  constructor; [exact I|constructor].
Qed.

Lemma frame_disk_modify P (f : state -> state) :
  slot_ok P ->
  (forall s, sb (f s) = sb s /\ ftable (f s) = ftable s /\ cwd (f s) = cwd s /\
             ofile (f s) = ofile s /\ outstanding (f s) = outstanding s /\
             trace (f s) = trace s /\ icache (f s) = icache s) ->
  preserves (frame P) (modify f).
Proof.
  intros HP Hf s a s' H. inversion H; subst. clear H.
  destruct (Hf s) as (H1 & H2 & H3 & H4 & H5 & H6 & H7).
  apply frame_same_cache; [exact HP| |exact H7].
  repeat split; try assumption. exists []. rewrite app_nil_r.
  split; [assumption|constructor].
Qed.

Lemma frame_bread P dev b : slot_ok P -> preserves (frame P) (bread dev b).
Proof. intros HP s a s' H. inversion H; subst. apply frame_refl. exact HP. Qed.

Create HintDb frames.
#[local] Hint Extern 1 (slot_ok _) => assumption : frames.
#[local] Hint Extern 1 (covers _ _ _) =>
  first [ assumption
        | match goal with
          | H : covers ?P ?x ?fs |- covers ?P ?x ?fs' =>
              apply (covers_sub P x fs' fs); [reflexivity | exact H]
          | H : forall j, covers ?P j ?fs |- covers ?P ?x ?fs' =>
              apply (covers_sub P x fs' fs); [reflexivity | exact (H x)]
          end ] : frames.
#[local] Hint Extern 1 (forall j, covers _ j _) =>
  let j := fresh "j" in intros j;
  match goal with
  | H : forall j, covers ?P j ?fs |- covers ?P ?x ?fs' =>
      apply (covers_sub P x fs' fs); [reflexivity | exact (H x)]
  end : frames.

Ltac frame_step :=
  lazymatch goal with
  | HP : slot_ok ?P |- preserves (frame ?P) (bind _ _) =>
      apply preserves_bind;
      [intros ? ? ?; apply frame_trans; exact HP | | intros ?]
  | HP : slot_ok ?P |- preserves (frame ?P) (ret _) =>
      apply preserves_ret; intros ?; apply frame_refl; exact HP
  | HP : slot_ok ?P |- preserves (frame ?P) get =>
      apply preserves_get; intros ?; apply frame_refl; exact HP
  | |- preserves _ (panic _) => apply preserves_panic
  | |- preserves _ (fun _ => Sleeps) => apply preserves_sleeps
  | |- preserves _ (fun _ => OutOfFuel) => apply preserves_fuel
  | |- preserves _ (if true then _ else _) => cbv iota
  | |- preserves _ (if false then _ else _) => cbv iota
  | |- preserves _ (if ?b then _ else _) => destruct b
  | |- preserves _ (match ?x with _ => _ end) => destruct x
  | |- preserves _ (let (_, _) := ?x in _) => destruct x
  | |- _ => solve [eauto with frames]
  end.
Ltac frame_auto := repeat frame_step.

Ltac changes_tac :=
  let f := fresh "f" in let Hf := fresh "Hf" in
  intros f Hf; destruct f; simpl in *; try reflexivity; try discriminate Hf.

#[local] Hint Resolve frame_get_inode frame_log_write frame_bread : frames.

Lemma frame_bstore P dev b data : slot_ok P -> preserves (frame P) (bstore dev b data).
Proof.
  intros HP. unfold bstore. frame_step; [|frame_auto].
  apply frame_disk_modify; [exact HP|]. intros s. repeat split.
Qed.

Lemma frame_dstore P dev inum d : slot_ok P -> preserves (frame P) (dstore dev inum d).
Proof.
  intros HP. unfold dstore. frame_step; [|frame_auto].
  apply frame_disk_modify; [exact HP|]. intros s. repeat split.
Qed.

Lemma frame_bitstore P dev b v : slot_ok P -> preserves (frame P) (bitstore dev b v).
Proof.
  intros HP. unfold bitstore. frame_step; [|frame_auto].
  apply frame_disk_modify; [exact HP|]. intros s. repeat split.
Qed.

#[local] Hint Resolve frame_bstore frame_dstore frame_bitstore : frames.

Lemma frame_bzero P dev b : slot_ok P -> preserves (frame P) (bzero dev b).
Proof. intros HP. unfold bzero. frame_auto. Qed.

#[local] Hint Resolve frame_bzero : frames.

Lemma frame_balloc_scan P dev cands :
  slot_ok P -> preserves (frame P) (balloc_scan dev cands).
Proof. intros HP. induction cands as [|b rest IH]; simpl; frame_auto. Qed.

#[local] Hint Resolve frame_balloc_scan : frames.

Lemma frame_balloc P dev : slot_ok P -> preserves (frame P) (balloc dev).
Proof. intros HP. unfold balloc. frame_auto. Qed.

Lemma frame_bfree P dev b : slot_ok P -> preserves (frame P) (bfree dev b).
Proof. intros HP. unfold bfree. frame_auto. Qed.

Lemma frame_iupdate P ip : slot_ok P -> preserves (frame P) (iupdate ip).
Proof. intros HP. unfold iupdate. frame_auto. Qed.

#[local] Hint Resolve frame_balloc frame_bfree frame_iupdate : frames.

Lemma frame_upd P ip f fs :
  slot_ok P -> covers P ip fs -> (forall i, changes fs i (f i)) ->
  preserves (frame P) (upd_inode ip f).
Proof. intros HP Hc Hf. apply frame_upd_inode; [exact HP|]. intros i. apply Hc, Hf. Qed.

Ltac frame_upd fs :=
  solve [eapply (frame_upd _ _ _ fs);
         [eauto with frames | eauto with frames | intros ?; changes_tac]].

Lemma frame_acquiresleep P ip :
  slot_ok P -> covers P ip [Flock] -> preserves (frame P) (acquiresleep ip).
Proof. intros HP Hc. unfold acquiresleep. frame_auto. frame_upd [Flock]. Qed.

Lemma frame_releasesleep P ip :
  slot_ok P -> covers P ip [Flock] -> preserves (frame P) (releasesleep ip).
Proof. intros HP Hc. unfold releasesleep. frame_upd [Flock]. Qed.

Lemma frame_holdingsleep P ip : slot_ok P -> preserves (frame P) (holdingsleep ip).
Proof. intros HP. unfold holdingsleep. frame_auto. Qed.

#[local] Hint Resolve frame_acquiresleep frame_releasesleep frame_holdingsleep : frames.

Lemma frame_for_each {A} P (l : list A) body :
  slot_ok P -> (forall x, preserves (frame P) (body x)) ->
  preserves (frame P) (for_each l body).
Proof. intros HP Hb. induction l as [|x l IH]; simpl; frame_auto. Qed.

Lemma frame_bmap P ip bn :
  slot_ok P -> covers P ip [Faddrs] -> preserves (frame P) (bmap ip bn).
Proof.
  intros HP Hc. unfold bmap. frame_auto; frame_upd [Faddrs].
Qed.

#[local] Hint Resolve frame_bmap : frames.

Lemma frame_readi_loop P fuel ip :
  slot_ok P -> covers P ip [Faddrs] ->
  forall tot off n dst, preserves (frame P) (readi_loop fuel ip tot off n dst).
Proof.
  intros HP Hc. induction fuel as [|fuel IH]; intros tot off n dst; simpl; frame_auto.
Qed.

#[local] Hint Resolve frame_readi_loop : frames.

Lemma frame_readi P ip off n :
  slot_ok P -> covers P ip [Faddrs] -> preserves (frame P) (readi ip off n).
Proof. intros HP Hc. unfold readi. frame_auto. Qed.

Lemma frame_writei_loop P fuel ip src :
  slot_ok P -> covers P ip [Faddrs] ->
  forall tot off n, preserves (frame P) (writei_loop fuel ip src tot off n).
Proof.
  intros HP Hc. induction fuel as [|fuel IH]; intros tot off n; simpl; frame_auto.
Qed.

#[local] Hint Resolve frame_readi frame_writei_loop : frames.

Lemma frame_writei P ip src off n :
  slot_ok P -> covers P ip [Faddrs; Fsize] -> preserves (frame P) (writei ip src off n).
Proof. intros HP Hc. unfold writei. frame_auto. frame_upd [Fsize]. Qed.

Lemma frame_itrunc P ip :
  slot_ok P -> covers P ip [Faddrs; Fsize] -> preserves (frame P) (itrunc ip).
Proof.
  intros HP Hc. unfold itrunc. frame_auto.
  all: try (apply frame_for_each; [exact HP|]; intros k; frame_auto).
  all: try frame_upd [Faddrs].
  all: try frame_upd [Fsize].
Qed.

#[local] Hint Resolve frame_writei frame_itrunc : frames.

Lemma frame_iget P dev inum :
  slot_ok P -> (forall j, covers P j [Fdev; Finum; Fref; Fvalid]) ->
  preserves (frame P) (iget dev inum).
Proof.
  intros HP Hc. unfold iget. frame_auto.
  all: try frame_upd [Fref].
  all: try frame_upd [Fdev; Finum; Fref; Fvalid].
Qed.

Lemma frame_idup P ip :
  slot_ok P -> covers P ip [Fref] -> preserves (frame P) (idup ip).
Proof. intros HP Hc. unfold idup. frame_auto. frame_upd [Fref]. Qed.

Lemma frame_ilock P ip :
  slot_ok P ->
  covers P ip [Flock; Fvalid; Ftype; Fmajor; Fminor; Fnlink; Fsize; Faddrs] ->
  preserves (frame P) (ilock ip).
Proof.
  intros HP Hc. unfold ilock. frame_auto.
  all: try frame_upd [Ftype; Fmajor; Fminor; Fnlink; Fsize; Faddrs].
  all: try frame_upd [Fvalid].
Qed.

Lemma frame_iunlock P ip :
  slot_ok P -> covers P ip [Flock] -> preserves (frame P) (iunlock ip).
Proof. intros HP Hc. unfold iunlock. frame_auto. Qed.

Lemma frame_iput P ip :
  slot_ok P -> covers P ip [Fref; Flock; Fvalid; Ftype; Fsize; Faddrs] ->
  preserves (frame P) (iput ip).
Proof.
  intros HP Hc. unfold iput. frame_auto; try frame_upd [Fref]; try frame_upd [Ftype];
    try frame_upd [Fvalid].
Qed.

#[local] Hint Resolve frame_iget frame_idup frame_ilock frame_iunlock frame_iput : frames.

Lemma frame_iunlockput P ip :
  slot_ok P -> covers P ip [Fref; Flock; Fvalid; Ftype; Fsize; Faddrs] ->
  preserves (frame P) (iunlockput ip).
Proof. intros HP Hc. unfold iunlockput. frame_auto. Qed.

#[local] Hint Resolve frame_iunlockput : frames.

(** ** Reading a file whose blocks are mapped *)

Lemma bmap_mapped s ip i bn :
  icache s !! ip = Some i -> mapped s i bn -> bmap ip bn s = Done (baddr s i bn) s.
Proof.
  intros Hip (Hbn & Hne & Hind). unfold bmap, baddr in *.
  rewrite (bind_eq _ _ _ _ _ (get_inode_eq _ _ _ Hip)).
  destruct (Z.ltb_spec bn NDIRECT) as [Hlt|Hge].
  - apply Z.eqb_neq in Hne. rewrite Hne. reflexivity.
  - unfold MAXFILE in Hbn.
    destruct (Z.ltb_spec (bn - NDIRECT) NINDIRECT) as [_|Hbad]; [|lia].
    specialize (Hind Hge). apply Z.eqb_neq in Hind. rewrite Hind.
    unfold bind at 1. unfold ret at 1. unfold bind, bread.
    apply Z.eqb_neq in Hne. rewrite Hne. reflexivity.
Qed.

Lemma blk_read_file_bytes s i off m :
  0 <= off -> 0 <= m <= BSIZE - off mod BSIZE ->
  blk_read (block_at s (i_dev i) (baddr s i (off / BSIZE))) (off mod BSIZE) m
  = file_bytes s i off m.
Proof.
  intros Hoff Hm. unfold blk_read, file_bytes.
  apply list_eq. intros k. rewrite !list_lookup_fmap.
  destruct (decide (Z.of_nat k < m)) as [Hk|Hk].
  - rewrite !lookup_seqZ_lt by lia. simpl. f_equal. unfold byte_at.
    destruct (block_offset off (Z.of_nat k)) as [Hd Hmod]; [lia|lia|].
    rewrite Hd, Hmod. reflexivity.
  - rewrite !lookup_seqZ_ge by lia. reflexivity.
Qed.

Lemma readi_loop_S fuel ip tot off n dst :
  readi_loop (S fuel) ip tot off n dst =
  if tot <? n then
    let* i := get_inode ip in
    let* addr := bmap ip (off / BSIZE) in
    let* data := bread (i_dev i) addr in
    let m := min (n - tot) (BSIZE - off mod BSIZE) in
    readi_loop fuel ip (u32 (tot + m)) (u32 (off + m)) n
      (dst ++ blk_read data (off mod BSIZE) m)
  else ret dst.
Proof. reflexivity. Qed.

Lemma readi_loop_mapped s ip i :
  icache s !! ip = Some i ->
  forall fuel tot off n dst,
    0 <= tot <= n -> n < 2 ^ 32 -> 0 <= off -> off + (n - tot) < 2 ^ 32 ->
    tot = n \/ n - tot + off mod BSIZE <= Z.of_nat fuel * BSIZE ->
    (forall k, off <= k < off + (n - tot) -> mapped s i (k / BSIZE)) ->
    readi_loop (S fuel) ip tot off n dst s
    = Done (dst ++ file_bytes s i off (n - tot)) s.
Proof.
  intros Hip. induction fuel as [|fuel IH]; intros tot off n dst Htot Hn Hoff Hov Hfuel Hmap.
  - assert (tot = n) as ->.
    { pose proof (Z.mod_pos_bound off BSIZE ltac:(rewrite BSIZE_val; lia)). lia. }
    simpl. rewrite Z.ltb_irrefl. unfold ret, file_bytes.
    rewrite Z.sub_diag, seqZ_nil by lia. simpl. rewrite app_nil_r. reflexivity.
  - rewrite readi_loop_S. destruct (Z.ltb_spec tot n) as [Hlt|Hge].
    + rewrite (bind_eq _ _ _ _ _ (get_inode_eq _ _ _ Hip)).
      rewrite (bind_eq _ _ _ _ _ (bmap_mapped _ _ _ _ Hip (Hmap off ltac:(lia)))).
      unfold bind at 1. unfold bread at 1.
      pose proof (Z.mod_pos_bound off BSIZE ltac:(rewrite BSIZE_val; lia)) as Hmod.
      rewrite min_spec.
      set (m := Z.min (n - tot) (BSIZE - off mod BSIZE)).
      assert (0 < m <= n - tot /\ m <= BSIZE - off mod BSIZE) as (Hm1 & Hm2) by lia.
      rewrite (u32_id (tot + m)), (u32_id (off + m)) by lia.
      rewrite IH.
      * rewrite blk_read_file_bytes by lia. rewrite <- app_assoc. do 2 f_equal.
        unfold file_bytes. replace (n - tot) with (m + (n - (tot + m))) by lia.
        rewrite seqZ_app by lia. rewrite fmap_app. reflexivity.
      * lia.
      * lia.
      * lia.
      * lia.
      * destruct (decide (tot + m = n)) as [|Hne]; [left; assumption|right].
        assert (m = BSIZE - off mod BSIZE) as Hm by lia.
        destruct (block_offset off 0) as [_ ?]; [lia|lia|].
        assert ((off + m) mod BSIZE = 0) as ->.
        { pose proof (Z.div_mod off BSIZE ltac:(rewrite BSIZE_val; lia)).
          replace (off + m) with ((off / BSIZE + 1) * BSIZE) by lia.
          apply Z_mod_mult. }
        lia.
      * intros k Hk. apply Hmap. lia.
    + assert (tot = n) as -> by lia.
      unfold ret, file_bytes. rewrite Z.sub_diag, seqZ_nil by lia.
      simpl. rewrite app_nil_r. reflexivity.
Qed.

Lemma MAXFILE_bound : 0 <= NDIRECT /\ NINDIRECT = 128 /\ MAXFILE * BSIZE < 2 ^ 31.
Proof.
  pose proof NDIRECT_nonneg. pose proof MAXFILE_small.
  unfold MAXFILE, NINDIRECT. repeat split; try assumption.
Qed.

Lemma mapped_range s i k :
  0 <= k -> mapped s i (k / BSIZE) -> k < MAXFILE * BSIZE.
Proof.
  intros Hk ((_ & Hlt) & _). rewrite BSIZE_val in *.
  pose proof (Z.div_mod k 512 ltac:(lia)).
  pose proof (Z.mod_pos_bound k 512 ltac:(lia)). lia.
Qed.

Lemma copy_fuel_enough n off :
  0 <= n -> n + off mod BSIZE <= Z.of_nat (Z.to_nat (n / BSIZE + 2)) * BSIZE.
Proof.
  intros Hn. rewrite BSIZE_val.
  pose proof (Z.div_mod n 512 ltac:(lia)).
  pose proof (Z.mod_pos_bound n 512 ltac:(lia)).
  pose proof (Z.mod_pos_bound off 512 ltac:(lia)).
  assert (0 <= n / 512) by (apply Z.div_pos; lia).
  rewrite Z2Nat.id by lia. lia.
Qed.

(** ** [readi] never runs out of fuel, and what it returns *)

Lemma nofuel_bind {A B} (m : M A) (k : A -> M B) :
  nofuel m -> (forall a, nofuel (k a)) -> nofuel (bind m k).
Proof.
  intros Hm Hk s. unfold bind. specialize (Hm s).
  destruct (m s); try discriminate; [apply Hk|congruence].
Qed.

Lemma nofuel_ret {A} (a : A) : nofuel (ret a).
Proof. intros s. discriminate. Qed.
Lemma nofuel_panic {A} msg : nofuel (@panic A msg).
Proof. intros s. discriminate. Qed.
Lemma nofuel_sleeps {A} : nofuel (fun _ : state => @Sleeps A).
Proof. intros s. discriminate. Qed.
Lemma nofuel_get : nofuel get.
Proof. intros s. discriminate. Qed.
Lemma nofuel_modify f : nofuel (modify f).
Proof. intros s. discriminate. Qed.
Lemma nofuel_get_inode ip : nofuel (get_inode ip).
Proof. intros s. unfold get_inode. destruct (icache s !! ip); discriminate. Qed.
Lemma nofuel_upd_inode ip f : nofuel (upd_inode ip f).
Proof. intros s. unfold upd_inode. destruct (icache s !! ip); discriminate. Qed.
Lemma nofuel_get_file f : nofuel (get_file f).
Proof. intros s. unfold get_file. destruct (ftable s !! f); discriminate. Qed.
Lemma nofuel_upd_file f g : nofuel (upd_file f g).
Proof. intros s. unfold upd_file. destruct (ftable s !! f); discriminate. Qed.
Lemma nofuel_bread dev b : nofuel (bread dev b).
Proof. intros s. discriminate. Qed.

Create HintDb nofuel.
#[local] Hint Resolve nofuel_ret nofuel_panic nofuel_sleeps nofuel_get nofuel_modify
  nofuel_get_inode nofuel_upd_inode nofuel_get_file nofuel_upd_file nofuel_bread : nofuel.

Ltac nofuel_step :=
  lazymatch goal with
  | |- nofuel (bind _ _) => apply nofuel_bind; [|intros ?]
  | |- nofuel (if true then _ else _) => cbv iota
  | |- nofuel (if false then _ else _) => cbv iota
  | |- nofuel (if ?b then _ else _) => destruct b
  | |- nofuel (match ?x with _ => _ end) => destruct x
  | |- _ => solve [eauto with nofuel]
  end.
Ltac nofuel_auto := repeat nofuel_step.

Lemma nofuel_log_write t : nofuel (log_write t).
Proof. unfold log_write. nofuel_auto. Qed.
#[local] Hint Resolve nofuel_log_write : nofuel.
Lemma nofuel_bstore dev b d : nofuel (bstore dev b d).
Proof. unfold bstore. nofuel_auto. Qed.
Lemma nofuel_dstore dev b d : nofuel (dstore dev b d).
Proof. unfold dstore. nofuel_auto. Qed.
Lemma nofuel_bitstore dev b d : nofuel (bitstore dev b d).
Proof. unfold bitstore. nofuel_auto. Qed.
#[local] Hint Resolve nofuel_bstore nofuel_dstore nofuel_bitstore : nofuel.
Lemma nofuel_balloc_scan dev cands : nofuel (balloc_scan dev cands).
Proof. induction cands; simpl; unfold bzero; nofuel_auto. Qed.
#[local] Hint Resolve nofuel_balloc_scan : nofuel.
Lemma nofuel_balloc dev : nofuel (balloc dev).
Proof. unfold balloc. nofuel_auto. Qed.
#[local] Hint Resolve nofuel_balloc : nofuel.
Lemma nofuel_bmap ip bn : nofuel (bmap ip bn).
Proof. unfold bmap. nofuel_auto. Qed.
Lemma nofuel_iupdate ip : nofuel (iupdate ip).
Proof. unfold iupdate. nofuel_auto. Qed.
Lemma nofuel_acquiresleep ip : nofuel (acquiresleep ip).
Proof. unfold acquiresleep. nofuel_auto. Qed.
Lemma nofuel_releasesleep ip : nofuel (releasesleep ip).
Proof. unfold releasesleep. nofuel_auto. Qed.
#[local] Hint Resolve nofuel_bmap nofuel_iupdate nofuel_acquiresleep nofuel_releasesleep
  : nofuel.
Lemma nofuel_ilock ip : nofuel (ilock ip).
Proof. unfold ilock. nofuel_auto. Qed.
Lemma nofuel_iunlock ip : nofuel (iunlock ip).
Proof. unfold iunlock, holdingsleep. nofuel_auto. Qed.
#[local] Hint Resolve nofuel_ilock nofuel_iunlock : nofuel.

Lemma nofuel_readi_loop ip n :
  forall fuel tot off dst,
    0 <= tot <= n -> n < 2 ^ 32 -> 0 <= off -> off + (n - tot) < 2 ^ 32 ->
    tot = n \/ n - tot + off mod BSIZE <= Z.of_nat fuel * BSIZE ->
    nofuel (readi_loop (S fuel) ip tot off n dst).
Proof.
  induction fuel as [|fuel IH]; intros tot off dst Htot Hn Hoff Hov Hfuel;
    pose proof (Z.mod_pos_bound off BSIZE ltac:(rewrite BSIZE_val; lia)) as Hmod.
  - assert (tot = n) as -> by lia.
    rewrite readi_loop_S, Z.ltb_irrefl. nofuel_auto.
  - rewrite readi_loop_S. destruct (Z.ltb_spec tot n) as [Hlt|Hge]; [|nofuel_auto].
    nofuel_auto. cbv zeta. rewrite min_spec.
    set (m := Z.min (n - tot) (BSIZE - off mod BSIZE)).
    assert (0 < m <= n - tot /\ m <= BSIZE - off mod BSIZE) as (Hm1 & Hm2) by lia.
    rewrite (u32_id (tot + m)), (u32_id (off + m)) by lia.
    apply IH; try lia.
    destruct (decide (tot + m = n)) as [|Hne]; [left; assumption|right].
    assert (m = BSIZE - off mod BSIZE) as Hm by lia.
    assert ((off + m) mod BSIZE = 0) as ->; [|lia].
    pose proof (Z.div_mod off BSIZE ltac:(rewrite BSIZE_val; lia)).
    replace (off + m) with ((off / BSIZE + 1) * BSIZE) by lia.
    apply Z_mod_mult.
Qed.

Lemma bmap_Done_range ip bn s a s' :
  bmap ip bn s = Done a s' -> bn < MAXFILE.
Proof.
  destruct MAXFILE_bound as (Hnd & Hni & _).
  unfold bmap. intros H. apply bind_Done in H as (i & s1 & _ & H).
  destruct (Z.ltb_spec bn NDIRECT) as [Hlt|Hge].
  - unfold MAXFILE. lia.
  - destruct (Z.ltb_spec (bn - NDIRECT) NINDIRECT) as [Hlt|Hbad].
    + unfold MAXFILE. lia.
    + discriminate.
Qed.

Lemma length_blk_read blk o m : length (blk_read blk o m) = Z.to_nat m.
Proof. unfold blk_read. rewrite length_fmap, length_seqZ. reflexivity. Qed.

Lemma readi_loop_result ip n :
  forall fuel tot off dst s d s',
    0 <= tot <= n -> n < 2 ^ 32 -> 0 <= off -> off + (n - tot) < 2 ^ 32 ->
    readi_loop fuel ip tot off n dst s = Done d s' ->
    length d = (length dst + Z.to_nat (n - tot))%nat /\
    (tot < n -> off + (n - tot) <= MAXFILE * BSIZE).
Proof.
  induction fuel as [|fuel IH]; intros tot off dst s d s' Htot Hn Hoff Hov H;
    [discriminate|].
  pose proof (Z.mod_pos_bound off BSIZE ltac:(rewrite BSIZE_val; lia)) as Hmod.
  rewrite readi_loop_S in H. destruct (Z.ltb_spec tot n) as [Hlt|Hge].
  - apply bind_Done in H as (i & s1 & _ & H).
    apply bind_Done in H as (addr & s2 & Hbmap & H).
    apply bind_Done in H as (data & s3 & _ & H).
    cbv zeta in H. rewrite min_spec in H.
    set (m := Z.min (n - tot) (BSIZE - off mod BSIZE)) in H.
    assert (0 < m <= n - tot /\ m <= BSIZE - off mod BSIZE) as (Hm1 & Hm2) by lia.
    rewrite (u32_id (tot + m)), (u32_id (off + m)) in H by lia.
    apply IH in H as (Hlen & Hrange); try lia.
    apply bmap_Done_range in Hbmap.
    pose proof (Z.div_mod off BSIZE ltac:(rewrite BSIZE_val; lia)) as Hdm.
    split.
    + rewrite Hlen, length_app, length_blk_read. lia.
    + intros _. destruct (decide (tot + m = n)) as [Heq|Hne]; [|lia].
      assert (0 < BSIZE) by (rewrite BSIZE_val; lia). nia.
  - inversion H; subst. split; [|lia].
    replace (n - tot) with 0 by lia. simpl. lia.
Qed.

Lemma readi_reject s ip i off n :
  icache s !! ip = Some i -> i_type i <> T_DEV -> is_u32 off -> is_u32 n ->
  i_size i < off \/ 2 ^ 32 <= off + n ->
  readi ip off n s = Done (-1, []) s.
Proof.
  intros Hip Hty Hoff Hn Hbad. unfold readi.
  rewrite (bind_eq _ _ _ _ _ (get_inode_eq _ _ _ Hip)).
  apply Z.eqb_neq in Hty. rewrite Hty.
  rewrite (u32_overflow off n Hoff Hn).
  destruct (Z.ltb_spec (i_size i) off); [reflexivity|].
  destruct (Z.leb_spec (2 ^ 32) (off + n)); [reflexivity|lia].
Qed.

Lemma readi_accept s ip i off n :
  icache s !! ip = Some i -> i_type i <> T_DEV -> is_u32 off -> is_u32 n ->
  is_u32 (i_size i) -> off <= i_size i -> off + n < 2 ^ 32 ->
  readi ip off n s =
  (let* dst := readi_loop (copy_fuel (Z.min n (i_size i - off))) ip 0 off
                 (Z.min n (i_size i - off)) [] in
   ret (i32 (Z.min n (i_size i - off)), dst)) s.
Proof.
  intros Hip Hty Hoff Hn Hsz Hle Hov. unfold readi.
  rewrite (bind_eq _ _ _ _ _ (get_inode_eq _ _ _ Hip)).
  apply Z.eqb_neq in Hty. rewrite Hty.
  rewrite (u32_overflow off n Hoff Hn).
  destruct (Z.ltb_spec (i_size i) off); [lia|].
  destruct (Z.leb_spec (2 ^ 32) (off + n)); [lia|]. simpl.
  rewrite (u32_id (off + n)) by (unfold is_u32 in *; lia).
  destruct (Z.ltb_spec (i_size i) (off + n)).
  - rewrite u32_id by (unfold is_u32 in *; lia).
    rewrite Z.min_r by lia. reflexivity.
  - rewrite Z.min_l by lia. reflexivity.
Qed.

Lemma readi_copy s ip i off n :
  icache s !! ip = Some i -> i_type i <> T_DEV ->
  is_u32 off -> is_u32 n -> is_u32 (i_size i) ->
  off <= i_size i -> off + n < 2 ^ 32 ->
  let count := Z.min n (i_size i - off) in
  readi ip off n s <> OutOfFuel /\
  (forall r dst s', readi ip off n s = Done (r, dst) s' ->
     r = count /\ length dst = Z.to_nat count) /\
  ((forall k, off <= k < off + count -> mapped s i (k / BSIZE)) ->
   readi ip off n s = Done (count, file_bytes s i off count) s).
Proof.
  intros Hip Hty Hoff Hn Hsz Hle Hov count.
  rewrite (readi_accept s ip i off n) by assumption. fold count.
  assert (0 <= count <= n) as Hcount by (unfold is_u32 in *; lia).
  destruct MAXFILE_bound as (_ & _ & Hmax).
  repeat split.
  - apply nofuel_bind; [|intros; apply nofuel_ret].
    unfold copy_fuel. apply nofuel_readi_loop; unfold is_u32 in *; try lia.
    right. rewrite Z.sub_0_r. apply copy_fuel_enough. lia.
  - apply bind_Done in H as (d & s1 & Hloop & Hret). inversion Hret; subst.
    apply readi_loop_result in Hloop as (_ & Hrange); unfold is_u32 in *; try lia.
    destruct (decide (0 < count)); [|rewrite i32_id; lia].
    rewrite i32_id; lia.
  - apply bind_Done in H as (d & s1 & Hloop & Hret). inversion Hret; subst.
    apply readi_loop_result in Hloop as (Hlen & _); unfold is_u32 in *; try lia.
    rewrite Hlen. simpl. f_equal. lia.
  - intros Hmap. unfold copy_fuel.
    rewrite (bind_eq _ _ _ _ _
      (readi_loop_mapped s ip i Hip _ 0 off count []
         ltac:(lia) ltac:(unfold is_u32 in *; lia) ltac:(unfold is_u32 in *; lia)
         ltac:(unfold is_u32 in *; lia)
         ltac:(right; rewrite Z.sub_0_r; apply copy_fuel_enough; lia)
         ltac:(intros k Hk; apply Hmap; lia))).
    unfold ret. simpl. rewrite Z.sub_0_r. f_equal. f_equal.
    destruct (decide (0 < count)); [|rewrite i32_id; lia].
    pose proof (mapped_range s i (off + count - 1)
                  ltac:(unfold is_u32 in *; lia) (Hmap (off + count - 1) ltac:(lia))).
    rewrite i32_id; unfold is_u32 in *; lia.
Qed.


(** C1. For an inode that is not a device, [readi] returns -1 when [off] is
    past the size or [off + n] overflows 32 bits.  Otherwise the count is
    clamped to [min n (size - off)]: the call never exhausts the fuel of the
    model, whenever it returns it returns the clamped count with that many
    bytes, and on a file whose blocks in the range are mapped it returns the
    bytes of the file from [off] on and leaves the state as it is (the only
    other outcome is a fatal stop in [bmap] or [balloc]). *)
Theorem readi_bounds_and_copy s ip i off n :
  icache s !! ip = Some i -> i_type i <> T_DEV ->
  is_u32 off -> is_u32 n -> is_u32 (i_size i) ->
  (i_size i < off \/ 2 ^ 32 <= off + n -> readi ip off n s = Done (-1, []) s) /\
  (off <= i_size i -> off + n < 2 ^ 32 ->
   let count := Z.min n (i_size i - off) in
   readi ip off n s <> OutOfFuel /\
   (forall r dst s', readi ip off n s = Done (r, dst) s' ->
      r = count /\ length dst = Z.to_nat count) /\
   ((forall k, off <= k < off + count -> mapped s i (k / BSIZE)) ->
    readi ip off n s = Done (count, file_bytes s i off count) s)).
Proof.
  intros Hip Hty Hoff Hn Hsz. split.
  - intros Hbad. apply (readi_reject s ip i off n); assumption.
  - intros Hle Hov. apply (readi_copy s ip i off n); assumption.
Qed.

(** C9 (amended). For an inode that is not a device, [readi] at
    [off == ip->size] returns 0, stores nothing and leaves the state as it
    is, provided that [off + n] does not overflow 32 bits; when [off + n]
    wraps around, it returns -1, again leaving the state as it is. *)
Theorem readi_at_eof s ip i n :
  icache s !! ip = Some i -> i_type i <> T_DEV ->
  is_u32 n -> is_u32 (i_size i) ->
  (i_size i + n < 2 ^ 32 -> readi ip (i_size i) n s = Done (0, []) s) /\
  (2 ^ 32 <= i_size i + n -> readi ip (i_size i) n s = Done (-1, []) s).
Proof.
  intros Hip Hty Hn Hsz. split.
  - intros Hov.
    rewrite (readi_accept s ip i (i_size i) n) by (try assumption; lia).
    replace (Z.min n (i_size i - i_size i)) with 0 by (unfold is_u32 in *; lia).
    unfold copy_fuel. rewrite (bind_eq _ _ (s) [] s); [reflexivity|].
    rewrite readi_loop_S. reflexivity.
  - intros Hov. apply (readi_reject s ip i (i_size i) n); try assumption.
    right. exact Hov.
Qed.

(** ** Path elements *)

Lemma skip_slashes_replicate k rest :
  skip_slashes (replicate k slash ++ rest) = skip_slashes rest.
Proof. induction k as [|k IH]; simpl; [reflexivity|exact IH]. Qed.

Lemma skip_slashes_stop rest : hd 0 rest <> slash -> skip_slashes rest = rest.
Proof.
  destruct rest as [|c rest]; simpl; [reflexivity|]. intros Hc.
  apply Z.eqb_neq in Hc. rewrite Hc. reflexivity.
Qed.

Lemma split_slashes path :
  exists k rest, path = replicate k slash ++ rest /\ hd 0 rest <> slash.
Proof.
  induction path as [|c path (k & rest & Heq & Hhd)].
  - exists 0%nat, []. split; [reflexivity|]. simpl. unfold slash. lia.
  - destruct (decide (c = slash)) as [->|Hne].
    + exists (S k), rest. split; [simpl; rewrite Heq; reflexivity|exact Hhd].
    + exists 0%nat, (c :: path). split; [reflexivity|exact Hne].
Qed.

Lemma split_elem path :
  exists elem rest, path = elem ++ rest /\ Forall elem_char elem /\
                    (hd 0 rest = slash \/ hd 0 rest = 0).
Proof.
  induction path as [|c path (elem & rest & Heq & Hel & Hhd)].
  - exists [], []. repeat split; [constructor|right; reflexivity].
  - destruct (decide (c = slash)) as [->|Hne1].
    { exists [], (slash :: path). repeat split; [constructor|left; reflexivity]. }
    destruct (decide (c = 0)) as [->|Hne2].
    { exists [], (0 :: path). repeat split; [constructor|right; reflexivity]. }
    exists (c :: elem), rest. split; [simpl; rewrite Heq; reflexivity|].
    split; [constructor; [split; assumption|exact Hel]|exact Hhd].
Qed.

Lemma skip_elem_chars_app elem rest :
  Forall elem_char elem -> hd 0 rest = slash \/ hd 0 rest = 0 ->
  skip_elem_chars (elem ++ rest) = (Z.of_nat (length elem), rest).
Proof.
  intros Hel Hhd. induction Hel as [|c elem (Hc1 & Hc2) Hel IH].
  - simpl. destruct rest as [|c rest]; [reflexivity|]. simpl in *.
    destruct Hhd as [->| ->]; reflexivity.
  - simpl app. cbn [skip_elem_chars].
    apply Z.eqb_neq in Hc1, Hc2. rewrite Hc1, Hc2. simpl negb. cbn [andb].
    rewrite IH. cbn [fst snd length]. f_equal. lia.
Qed.

(** C7. Every path is either slashes followed by the end of the string, and
    then [skipelem] returns the null pointer; or slashes, a non-empty
    element free of slashes and null bytes, slashes again, and a remainder
    that does not start with a slash, and then [skipelem] returns the
    remainder and has stored in [name] the element and a null byte when the
    element is shorter than [DIRSIZ], and its first [DIRSIZ] bytes without a
    null byte otherwise. *)
Theorem skipelem_spec (path name : list Z) :
  length name = Z.to_nat DIRSIZ -> Z.of_nat (length path) < 2 ^ 31 ->
  (exists k rest,
     path = replicate k slash ++ rest /\ hd 0 rest = 0 /\ skipelem path name = None)
  \/
  (exists k1 elem k2 rest,
     path = replicate k1 slash ++ elem ++ replicate k2 slash ++ rest /\
     elem <> [] /\ Forall elem_char elem /\ hd 0 rest <> slash /\
     (k2 = 0%nat -> hd 0 rest = 0) /\
     skipelem path name =
       Some (rest,
             if DIRSIZ <=? Z.of_nat (length elem) then take (Z.to_nat DIRSIZ) elem
             else elem ++ 0 :: drop (S (length elem)) name)).
Proof.
  intros Hname Hlen.
  destruct (split_slashes path) as (k1 & p1 & Hp & Hhd1).
  destruct (decide (hd 0 p1 = 0)) as [Hz|Hnz].
  { left. exists k1, p1. repeat split; [exact Hp|exact Hz|].
    unfold skipelem. rewrite Hp, skip_slashes_replicate, skip_slashes_stop by exact Hhd1.
    apply Z.eqb_eq in Hz. rewrite Hz. reflexivity. }
  right.
  destruct (split_elem p1) as (elem & p2 & Hp1 & Hel & Hhd2).
  destruct (split_slashes p2) as (k2 & rest & Hp2 & Hhd3).
  assert (elem <> []) as Hne.
  { intros ->. simpl in Hp1. subst p1. destruct Hhd2; contradiction. }
  exists k1, elem, k2, rest.
  assert (k2 = 0%nat -> hd 0 rest = 0) as Hk2.
  { intros ->. simpl in Hp2. subst p2. destruct Hhd2; [contradiction|assumption]. }
  repeat split; try assumption.
  { rewrite Hp, Hp1, Hp2. reflexivity. }
  unfold skipelem. rewrite Hp, skip_slashes_replicate, skip_slashes_stop by exact Hhd1.
  apply Z.eqb_neq in Hnz. rewrite Hnz.
  assert (skip_elem_chars p1 = (Z.of_nat (length elem), p2)) as Hsc
    by (rewrite Hp1; apply skip_elem_chars_app; assumption).
  rewrite !Hsc. cbn [fst snd].
  assert (Z.of_nat (length elem) < 2 ^ 31) as Hsmall.
  { rewrite Hp, Hp1 in Hlen. rewrite !length_app in Hlen. lia. }
  rewrite i32_id by lia.
  rewrite Hp2, skip_slashes_replicate, skip_slashes_stop by exact Hhd3.
  f_equal. f_equal. unfold memmove. rewrite Hp1.
  destruct (Z.leb_spec DIRSIZ (Z.of_nat (length elem))) as [Hge|Hlt].
  - rewrite take_app_le by lia.
    rewrite drop_ge by lia. apply app_nil_r.
  - rewrite Nat2Z.id. rewrite take_app_length.
    rewrite insert_app_r_alt by lia. rewrite Nat.sub_diag.
    assert (is_Some (name !! length elem)) as (x & Hx).
    { apply lookup_lt_is_Some. lia. }
    rewrite (drop_S _ _ _ Hx). reflexivity.
Qed.

(** ** The inode cache *)

Lemma hit_test dev inum i :
  ((0 <? i_ref i) && (i_dev i =? dev) && (i_inum i =? inum)) = true <-> hit dev inum i.
Proof.
  unfold hit. rewrite !andb_true_iff, Z.ltb_lt, !Z.eqb_eq. tauto.
Qed.

Lemma iget_scan_inl dev inum l : forall idx e ip,
  iget_scan dev inum l idx e = inl ip ->
  exists j i, ip = (idx + j)%nat /\ l !! j = Some i /\ hit dev inum i.
Proof.
  induction l as [|a l IH]; intros idx e ip H; simpl in H; [discriminate|].
  destruct ((0 <? i_ref a) && (i_dev a =? dev) && (i_inum a =? inum)) eqn:Hhit.
  - inversion H; subst. exists 0%nat, a. split; [lia|]. split; [reflexivity|].
    apply hit_test. exact Hhit.
  - apply IH in H as (j & i & -> & Hj & Hh). exists (S j), i.
    split; [lia|]. split; [exact Hj|exact Hh].
Qed.

Lemma iget_scan_inr dev inum l : forall idx e r,
  iget_scan dev inum l idx e = inr r ->
  (forall j a, l !! j = Some a -> ~ hit dev inum a) /\
  match r with
  | Some ip =>
      e = Some ip \/
      (e = None /\ exists j i, ip = (idx + j)%nat /\ l !! j = Some i /\ i_ref i = 0 /\
                               forall j' a, (j' < j)%nat -> l !! j' = Some a -> i_ref a <> 0)
  | None => e = None /\ forall j a, l !! j = Some a -> i_ref a <> 0
  end.
Proof.
  induction l as [|a l IH]; intros idx e r H; simpl in H.
  - inversion H; subst. split; [intros j a Hj; discriminate|].
    destruct r; [left; reflexivity|]. split; [reflexivity|]. intros j a Hj. discriminate.
  - destruct ((0 <? i_ref a) && (i_dev a =? dev) && (i_inum a =? inum)) eqn:Hhit;
      [discriminate|].
    apply IH in H as (Hno & Hr). split.
    + intros [|j] b Hj; simpl in Hj.
      * inversion Hj; subst. intros Hh. apply hit_test in Hh. congruence.
      * eapply Hno. exact Hj.
    + destruct e as [e0|].
      * destruct r as [ip|].
        -- destruct Hr as [Hr|(Hr & _)]; [left; exact Hr|discriminate].
        -- destruct Hr as (Hr & _). discriminate.
      * destruct (Z.eqb_spec (i_ref a) 0) as [Hz|Hnz].
        -- destruct r as [ip|].
           ++ destruct Hr as [Hr|(Hr & _)]; [|discriminate]. inversion Hr; subst.
              right. split; [reflexivity|]. exists 0%nat, a.
              split; [lia|]. split; [reflexivity|]. split; [exact Hz|]. intros; lia.
           ++ destruct Hr as (Hr & _). discriminate.
        -- destruct r as [ip|].
           ++ destruct Hr as [Hr|(_ & j & i & -> & Hj & Hz & Hfirst)]; [discriminate|].
              right. split; [reflexivity|]. exists (S j), i.
              split; [lia|]. split; [exact Hj|]. split; [exact Hz|].
              intros [|j'] b Hlt Hb; simpl in Hb.
              ** inversion Hb; subst. exact Hnz.
              ** eapply Hfirst; [|exact Hb]. lia.
           ++ destruct Hr as (_ & Hall). split; [reflexivity|].
              intros [|j] b Hj; simpl in Hj.
              ** inversion Hj; subst. exact Hnz.
              ** eapply Hall. exact Hj.
Qed.

Lemma upd_inode_eq s ip i f :
  icache s !! ip = Some i ->
  upd_inode ip f s = Done tt (set_icache (<[ip := f i]> (icache s)) s).
Proof. intros H. unfold upd_inode. rewrite H. reflexivity. Qed.

(** What [iget] does, in full. *)
Lemma iget_spec s dev inum :
  match iget dev inum s with
  | Done ip s' =>
      dinodes s' = dinodes s /\ bitmap s' = bitmap s /\ blocks s' = blocks s /\
      trace s' = trace s /\
      ((exists i, icache s !! ip = Some i /\ hit dev inum i /\
                  icache s' = <[ip := set_i_ref (i32 (i_ref i + 1)) i]> (icache s))
       \/
       ((forall j a, icache s !! j = Some a -> ~ hit dev inum a) /\
        exists i, icache s !! ip = Some i /\ i_ref i = 0 /\
                  (forall j a, (j < ip)%nat -> icache s !! j = Some a -> i_ref a <> 0) /\
                  icache s' =
                    <[ip := set_i_valid 0 (set_i_ref 1 (set_i_inum inum (set_i_dev dev i)))]>
                      (icache s)))
  | Panic _ => forall j a, icache s !! j = Some a -> ~ hit dev inum a /\ i_ref a <> 0
  | Sleeps => False
  | OutOfFuel => False
  end.
Proof.
  unfold iget. unfold bind at 1. unfold get at 1.
  destruct (iget_scan dev inum (icache s) 0 None) as [ip|[ip|]] eqn:Hscan.
  - apply iget_scan_inl in Hscan as (j & i & -> & Hj & Hh). simpl.
    rewrite (bind_eq _ _ _ _ _ (upd_inode_eq _ _ _ _ Hj)). unfold ret. simpl.
    repeat split. left. exists i. repeat split; assumption || apply Hh.
  - apply iget_scan_inr in Hscan as (Hno & [Hbad|(_ & j & i & -> & Hj & Hz & Hfirst)]);
      [discriminate|]. simpl.
    rewrite (bind_eq _ _ _ _ _ (upd_inode_eq _ _ _ _ Hj)). unfold ret. simpl.
    repeat split. right. split; [exact Hno|]. exists i. repeat split; assumption.
  - apply iget_scan_inr in Hscan as (Hno & _ & Hall). unfold panic.
    intros j a Hj. split; [eapply Hno|eapply Hall]; exact Hj.
Qed.

Lemma uniq_insert_same l ip i i' :
  l !! ip = Some i -> i_dev i' = i_dev i -> i_inum i' = i_inum i -> 0 < i_ref i ->
  uniq l -> uniq (<[ip := i']> l).
Proof.
  intros Hip Hd Hn Hr Hu j k a b Hj Hk Ha Hb Hdev Hinum.
  assert (forall x c, <[ip := i']> l !! x = Some c -> 0 < i_ref c ->
            exists c0, l !! x = Some c0 /\ 0 < i_ref c0 /\
                       i_dev c0 = i_dev c /\ i_inum c0 = i_inum c) as Hback.
  { intros x c Hx Hc. destruct (decide (x = ip)) as [->|Hne].
    - rewrite list_lookup_insert_eq in Hx by (eapply lookup_lt_Some; exact Hip).
      inversion Hx; subst. exists i. repeat split; try assumption; congruence.
    - rewrite list_lookup_insert_ne in Hx by congruence. exists c. repeat split; assumption. }
  destruct (Hback j a Hj Ha) as (a0 & Hj0 & Ha0 & Hda & Hna).
  destruct (Hback k b Hk Hb) as (b0 & Hk0 & Hb0 & Hdb & Hnb).
  eapply (Hu j k a0 b0); try eassumption; congruence.
Qed.

Lemma uniq_insert_fresh l ip i' :
  (forall j a, l !! j = Some a -> ~ hit (i_dev i') (i_inum i') a) ->
  uniq l -> uniq (<[ip := i']> l).
Proof.
  intros Hno Hu j k a b Hj Hk Ha Hb Hdev Hinum.
  destruct (decide (j = ip)) as [->|Hj'], (decide (k = ip)) as [->|Hk'];
    try reflexivity.
  - exfalso. rewrite list_lookup_insert_ne in Hk by congruence.
    assert (a = i') as ->.
    { apply list_lookup_insert_Some in Hj as [(_ & <- & _)|(Hc & _)]; congruence. }
    apply (Hno k b Hk). repeat split; [assumption|congruence|congruence].
  - exfalso. rewrite list_lookup_insert_ne in Hj by congruence.
    assert (b = i') as ->.
    { apply list_lookup_insert_Some in Hk as [(_ & <- & _)|(Hc & _)]; congruence. }
    apply (Hno j a Hj). repeat split; [assumption|congruence|congruence].
  - rewrite list_lookup_insert_ne in Hj, Hk by congruence.
    eapply Hu; eassumption.
Qed.

Lemma iget_uniq s dev inum ip s' :
  uniq (icache s) -> iget dev inum s = Done ip s' -> uniq (icache s').
Proof.
  intros Hu H. pose proof (iget_spec s dev inum) as Hs. rewrite H in Hs.
  destruct Hs as (_ & _ & _ & _ & [(i & Hip & Hh & ->)|(Hno & i & Hip & Hz & _ & ->)]).
  - eapply uniq_insert_same; try eassumption; try reflexivity. apply Hh.
  - apply uniq_insert_fresh; [|exact Hu]. simpl. exact Hno.
Qed.

Lemma uniq_frame x fs s s' :
  mem_field Fdev fs = false -> mem_field Finum fs = false ->
  holds_ref s x -> frame (touches x fs) s s' -> uniq (icache s) -> uniq (icache s').
Proof.
  intros Hfd Hfn (ix & Hx & Hrx) Hfr Hu j k a b Hj Hk Ha Hb Hdev Hinum.
  assert (forall y c, icache s' !! y = Some c -> 0 < i_ref c ->
            exists c0, icache s !! y = Some c0 /\ 0 < i_ref c0 /\
                       i_dev c0 = i_dev c /\ i_inum c0 = i_inum c) as Hback.
  { intros y c Hy Hc. destruct (frame_lookup_inv _ _ _ _ _ Hfr Hy) as (c0 & Hy0 & HP).
    exists c0. split; [exact Hy0|]. unfold touches in HP.
    destruct (decide (y = x)) as [->|Hne].
    - pose proof (HP Fdev Hfd) as H1. pose proof (HP Finum Hfn) as H2. simpl in H1, H2.
      rewrite Hx in Hy0. inversion Hy0; subst. repeat split; congruence.
    - subst c. repeat split; assumption || reflexivity. }
  destruct (Hback j a Hj Ha) as (a0 & Hj0 & Ha0 & Hda & Hna).
  destruct (Hback k b Hk Hb) as (b0 & Hk0 & Hb0 & Hdb & Hnb).
  eapply (Hu j k a0 b0); try eassumption; congruence.
Qed.

Lemma uniq_ident l l' : ident <$> l' = ident <$> l -> uniq l -> uniq l'.
Proof.
  intros He Hu j k a b Hj Hk Ha Hb Hdev Hinum.
  assert (forall y c, l' !! y = Some c ->
            exists c0, l !! y = Some c0 /\ ident c0 = ident c) as Hback.
  { intros y c Hy.
    assert ((ident <$> l') !! y = Some (ident c)) as H1
      by (rewrite list_lookup_fmap, Hy; reflexivity).
    rewrite He, list_lookup_fmap in H1.
    destruct (l !! y) as [c0|]; [|discriminate]. exists c0. split; [reflexivity|].
    simpl in H1. congruence. }
  destruct (Hback j a Hj) as (a0 & Hj0 & Hia).
  destruct (Hback k b Hk) as (b0 & Hk0 & Hib).
  unfold ident in *. inversion Hia. inversion Hib.
  eapply (Hu j k a0 b0); try eassumption; congruence.
Qed.

Lemma cache_step_uniq s s' : cache_step s s' -> uniq (icache s) -> uniq (icache s').
Proof.
  intros Hstep Hu. destruct Hstep as [dev inum s ip s' H|ip s r s' Hh H|ip s s' Hh H|s s' H].
  - eapply iget_uniq; eassumption.
  - eapply (uniq_frame ip [Fref]); try eassumption; try reflexivity.
    eapply frame_idup; [apply touches_ok|apply touches_covers; reflexivity|exact H].
  - eapply (uniq_frame ip [Fref; Flock; Fvalid; Ftype; Fsize; Faddrs]);
      try eassumption; try reflexivity.
    eapply frame_iput; [apply touches_ok|apply touches_covers; reflexivity|exact H].
  - eapply uniq_ident; eassumption.
Qed.

(** C8. Identity uniqueness holds in every state of a run that starts in a
    state where it holds, whatever the calls of [iget], [idup] and [iput]
    (the last two on a slot to which the caller holds a reference).  [iget]
    itself leaves the disk alone; on a hit it only increments [ref] of the
    slot that holds the inode; it claims a slot only when no slot in use
    holds the inode, and that slot is the first with [ref == 0], which gets
    the identity, [ref = 1] and [valid = 0]; it stops when there is neither
    a hit nor a free slot. *)
Theorem icache_identity_unique :
  (forall s s', uniq (icache s) -> rtc cache_step s s' -> uniq (icache s')) /\
  (forall s dev inum,
     match iget dev inum s with
     | Done ip s' =>
         dinodes s' = dinodes s /\ bitmap s' = bitmap s /\ blocks s' = blocks s /\
         trace s' = trace s /\
         ((exists i, icache s !! ip = Some i /\ hit dev inum i /\
                     icache s' = <[ip := set_i_ref (i32 (i_ref i + 1)) i]> (icache s))
          \/
          ((forall j a, icache s !! j = Some a -> ~ hit dev inum a) /\
           exists i, icache s !! ip = Some i /\ i_ref i = 0 /\
                     (forall j a, (j < ip)%nat -> icache s !! j = Some a -> i_ref a <> 0) /\
                     icache s' =
                       <[ip := set_i_valid 0 (set_i_ref 1 (set_i_inum inum (set_i_dev dev i)))]>
                         (icache s)))
     | Panic _ => forall j a, icache s !! j = Some a -> ~ hit dev inum a /\ i_ref a <> 0
     | Sleeps => False
     | OutOfFuel => False
     end).
Proof.
  split.
  - intros s s' Hu Hrun. induction Hrun as [s|s s1 s' Hstep _ IH]; [exact Hu|].
    apply IH. eapply cache_step_uniq; eassumption.
  - apply iget_spec.
Qed.

(** ** Open files *)

Lemma any_change_ok : slot_ok any_change.
Proof. split; [intros j i|intros j a b c _ _]; exact I. Qed.

Lemma any_change_covers x fs : covers any_change x fs.
Proof. intros i i' _. exact I. Qed.

#[local] Hint Resolve any_change_ok any_change_covers : frames.

Lemma base_of_preserves {A} (m : M A) s a s' :
  preserves (frame any_change) m -> m s = Done a s' -> base_eq s s'.
Proof. intros Hm H. apply (Hm s a s' H). Qed.

Lemma base_ilock ip s a s' : ilock ip s = Done a s' -> base_eq s s'.
Proof. apply base_of_preserves. eauto with frames. Qed.
Lemma base_iunlock ip s a s' : iunlock ip s = Done a s' -> base_eq s s'.
Proof. apply base_of_preserves. eauto with frames. Qed.
Lemma base_readi ip off n s a s' : readi ip off n s = Done a s' -> base_eq s s'.
Proof. apply base_of_preserves. eauto with frames. Qed.
Lemma base_writei ip src off n s a s' : writei ip src off n s = Done a s' -> base_eq s s'.
Proof. apply base_of_preserves. eauto with frames. Qed.

Lemma readi_result_bound s ip i off n r dst s' :
  icache s !! ip = Some i -> i_type i <> T_DEV ->
  is_u32 off -> is_u32 n -> is_u32 (i_size i) ->
  readi ip off n s = Done (r, dst) s' ->
  r = -1 \/ (0 <= r /\ off + r <= i_size i).
Proof.
  intros Hip Hty Hoff Hn Hsz H.
  destruct (decide (i_size i < off \/ 2 ^ 32 <= off + n)) as [Hbad|Hgood].
  - rewrite (readi_reject s ip i off n Hip Hty Hoff Hn Hbad) in H.
    inversion H; subst. left. reflexivity.
  - destruct (readi_copy s ip i off n Hip Hty Hoff Hn Hsz ltac:(lia) ltac:(lia))
      as (_ & Hres & _).
    destruct (Hres r dst s' H) as (-> & _). right. unfold is_u32 in *. lia.
Qed.

Lemma get_file_eq s f fl : ftable s !! f = Some fl -> get_file f s = Done fl s.
Proof. intros H. unfold get_file. rewrite H. reflexivity. Qed.

Lemma upd_file_eq s f fl g :
  ftable s !! f = Some fl ->
  upd_file f g s = Done tt (set_ftable (<[f := g fl]> (ftable s)) s).
Proof. intros H. unfold upd_file. rewrite H. reflexivity. Qed.

(** C10. When [fileread] returns on a readable handle backed by an inode,
    it has locked the inode and called [readi] at the offset of the handle;
    the table of open files differs from the one before at most in the
    offset of this handle, which is advanced by the result of [readi] (as a
    [uint]) when that is positive and is unchanged otherwise; for an inode
    that is not a device the advance is exact. *)
Theorem fileread_offset s f fl n r dst s' :
  ftable s !! f = Some fl -> f_type fl = FD_INODE -> f_readable fl <> 0 ->
  fileread f n s = Done (r, dst) s' ->
  exists s1 s2,
    ilock (f_ip fl) s = Done tt s1 /\
    readi (f_ip fl) (f_off fl) (u32 n) s1 = Done (r, dst) s2 /\
    ftable s' =
      <[f := set_f_off (if 0 <? r then u32 (f_off fl + r) else f_off fl) fl]> (ftable s) /\
    (forall i, icache s1 !! f_ip fl = Some i -> i_type i <> T_DEV ->
               is_u32 (i_size i) -> is_u32 (f_off fl) -> 0 < r ->
               u32 (f_off fl + r) = f_off fl + r).
Proof.
  intros Hf Hty Hrd H. unfold fileread in H.
  rewrite (bind_eq _ _ _ _ _ (get_file_eq _ _ _ Hf)) in H.
  apply Z.eqb_neq in Hrd. rewrite Hrd, Hty in H.
  apply bind_Done in H as ([] & s1 & Hlock & H).
  pose proof (base_ilock _ _ _ _ Hlock) as (_ & Hft1 & _).
  assert (ftable s1 !! f = Some fl) as Hf1 by (rewrite Hft1; exact Hf).
  rewrite (bind_eq _ _ _ _ _ (get_file_eq _ _ _ Hf1)) in H.
  apply bind_Done in H as ([r0 dst0] & s2 & Hread & H).
  pose proof (base_readi _ _ _ _ _ _ Hread) as (_ & Hft2 & _).
  assert (ftable s2 !! f = Some fl) as Hf2 by (rewrite Hft2, Hft1; exact Hf).
  cbn [fst] in H.
  assert (exists s3, (if 0 <? r0
                      then upd_file f (fun fl => set_f_off (u32 (f_off fl + r0)) fl)
                      else ret tt) s2 = Done tt s3 /\
                     ftable s3 = <[f := set_f_off (if 0 <? r0 then u32 (f_off fl + r0)
                                                   else f_off fl) fl]> (ftable s)) as
      (s3 & Hupd & Hft3).
  { destruct (0 <? r0).
    - eexists. split; [apply upd_file_eq; exact Hf2|]. simpl. rewrite Hft2, Hft1. reflexivity.
    - exists s2. split; [reflexivity|]. rewrite Hft2, Hft1.
      symmetry. apply list_insert_id. destruct fl; exact Hf. }
  rewrite (bind_eq _ _ _ _ _ Hupd) in H.
  assert (is_Some (ftable s3 !! f)) as (fl3 & Hf3).
  { apply lookup_lt_is_Some. rewrite Hft3, length_insert. eapply lookup_lt_Some. exact Hf. }
  rewrite (bind_eq _ _ _ _ _ (get_file_eq _ _ _ Hf3)) in H.
  apply bind_Done in H as ([] & s4 & Hunlock & H).
  pose proof (base_iunlock _ _ _ _ Hunlock) as (_ & Hft4 & _).
  inversion H; subst. exists s1, s2. repeat split; try assumption.
  - congruence.
  - intros i Hi Hnd Hsz Hoff Hpos.
    destruct (readi_result_bound s1 (f_ip fl) i (f_off fl) (u32 n) r dst s2)
      as [->|(Hr0 & Hle)]; try assumption; try apply u32_range; [lia|].
    apply u32_id. unfold is_u32 in *. lia.
Qed.

(** ** Rules for [wp] *)

Lemma wp_ret {A} (a : A) s (Q : A -> state -> Prop) : Q a s -> wp (ret a) s Q.
Proof. intros H. exact H. Qed.

Lemma wp_bind_done {A B} (m : M A) (k : A -> M B) s a s1 Q :
  m s = Done a s1 -> wp (k a) s1 Q -> wp (bind m k) s Q.
Proof. intros Hm Hk. unfold wp, bind. rewrite Hm. exact Hk. Qed.

Lemma wp_bind_any {A B} (m : M A) (k : A -> M B) s Q :
  m s <> OutOfFuel -> (forall a s1, m s = Done a s1 -> wp (k a) s1 Q) ->
  wp (bind m k) s Q.
Proof.
  intros Hm Hk. unfold wp, bind in *. destruct (m s) as [a s1| | |].
  - apply Hk. reflexivity.
  - exact I.
  - exact I.
  - congruence.
Qed.

Lemma wp_conseq {A} (m : M A) s (Q Q' : A -> state -> Prop) :
  wp m s Q -> (forall a s', Q a s' -> Q' a s') -> wp m s Q'.
Proof. unfold wp. intros H HQ. destruct (m s); auto. Qed.

Lemma wp_Done {A} (m : M A) s Q a s' : wp m s Q -> m s = Done a s' -> Q a s'.
Proof. unfold wp. intros H E. rewrite E in H. exact H. Qed.

Lemma wp_nofuel {A} (m : M A) s Q : wp m s Q -> m s <> OutOfFuel.
Proof. unfold wp. intros H E. rewrite E in H. exact H. Qed.

(** ** [writei] never runs out of fuel *)

Lemma writei_loop_S fuel ip src tot off n :
  writei_loop (S fuel) ip src tot off n =
  if tot <? n then
    let* i := get_inode ip in
    let* addr := bmap ip (off / BSIZE) in
    let* data := bread (i_dev i) addr in
    let m := min (n - tot) (BSIZE - off mod BSIZE) in
    bstore (i_dev i) addr (blk_put data (off mod BSIZE) (blk_read src tot m)) ;;
    writei_loop fuel ip src (u32 (tot + m)) (u32 (off + m)) n
  else ret off.
Proof. reflexivity. Qed.

Lemma nofuel_writei_loop ip src n :
  forall fuel tot off,
    0 <= tot <= n -> n < 2 ^ 32 -> 0 <= off -> off + (n - tot) < 2 ^ 32 ->
    tot = n \/ n - tot + off mod BSIZE <= Z.of_nat fuel * BSIZE ->
    nofuel (writei_loop (S fuel) ip src tot off n).
Proof.
  induction fuel as [|fuel IH]; intros tot off Htot Hn Hoff Hov Hfuel;
    pose proof (Z.mod_pos_bound off BSIZE ltac:(rewrite BSIZE_val; lia)) as Hmod.
  - assert (tot = n) as -> by lia.
    rewrite writei_loop_S, Z.ltb_irrefl. nofuel_auto.
  - rewrite writei_loop_S. destruct (Z.ltb_spec tot n) as [Hlt|Hge]; [|nofuel_auto].
    nofuel_auto. cbv zeta. rewrite min_spec.
    set (m := Z.min (n - tot) (BSIZE - off mod BSIZE)).
    assert (0 < m <= n - tot /\ m <= BSIZE - off mod BSIZE) as (Hm1 & Hm2) by lia.
    rewrite (u32_id (tot + m)), (u32_id (off + m)) by lia.
    apply nofuel_bind; [nofuel_auto|intros _].
    apply IH; try lia.
    destruct (decide (tot + m = n)) as [|Hne]; [left; assumption|right].
    assert (m = BSIZE - off mod BSIZE) as Hm by lia.
    assert ((off + m) mod BSIZE = 0) as ->; [|lia].
    pose proof (Z.div_mod off BSIZE ltac:(rewrite BSIZE_val; lia)).
    replace (off + m) with ((off / BSIZE + 1) * BSIZE) by lia.
    apply Z_mod_mult.
Qed.

Lemma nofuel_writei ip src off n :
  is_u32 off -> is_u32 n -> nofuel (writei ip src off n).
Proof.
  intros Hoff Hn. unfold writei. apply nofuel_bind; [nofuel_auto|intros i].
  destruct (i_type i =? T_DEV); [solve [nofuel_auto]|].
  rewrite (u32_overflow off n Hoff Hn).
  destruct (i_size i <? off); cbn [orb]; [solve [nofuel_auto]|].
  destruct (Z.leb_spec (2 ^ 32) (off + n)); [solve [nofuel_auto]|].
  destruct (u32 (MAXFILE * BSIZE) <? u32 (off + n)); [solve [nofuel_auto]|].
  apply nofuel_bind; [|intros; nofuel_auto].
  unfold copy_fuel. unfold is_u32 in *.
  apply nofuel_writei_loop; try lia.
  right. rewrite Z.sub_0_r. apply copy_fuel_enough. lia.
Qed.

(** ** [filewrite] *)

Lemma filewrite_max_val :
  filewrite_max = (MAXOPBLOCKS - 4) / 2 * BSIZE /\ 0 < filewrite_max < 2 ^ 31.
Proof.
  pose proof MAXOPBLOCKS_chunk. pose proof MAXOPBLOCKS_small.
  unfold filewrite_max. rewrite BSIZE_val.
  replace (MAXOPBLOCKS - 1 - 1 - 2) with (MAXOPBLOCKS - 4) by lia.
  rewrite Z.quot_div_nonneg by lia.
  assert (1 <= (MAXOPBLOCKS - 4) / 2 < 2 ^ 20) as Hq.
  { split.
    - apply Z.div_le_lower_bound; lia.
    - apply Z.div_lt_upper_bound; lia. }
  rewrite i32_id by lia. lia.
Qed.

Lemma filewrite_loop_S fuel f addr n max i :
  filewrite_loop (S fuel) f addr n max i =
  if i <? n then
    let n1 := if max <? n - i then max else n - i in
    begin_op ;;
    let* fl := get_file f in
    ilock (f_ip fl) ;;
    let* fl := get_file f in
    let* r := writei (f_ip fl) (drop (Z.to_nat i) addr) (f_off fl) (u32 n1) in
    (if 0 <? r then upd_file f (fun fl => set_f_off (u32 (f_off fl + r)) fl)
     else ret tt) ;;
    let* fl := get_file f in
    iunlock (f_ip fl) ;;
    end_op ;;
    if r <? 0 then ret i
    else if negb (r =? n1) then panic "short filewrite"
    else filewrite_loop fuel f addr n max (i32 (i + r))
  else ret i.
Proof. reflexivity. Qed.

Lemma u32_add_idem a b : u32 (u32 a + b) = u32 (a + b).
Proof. unfold u32. apply Zplus_mod_idemp_l. Qed.

Lemma set_f_off_id fl : is_u32 (f_off fl) -> set_f_off (u32 (f_off fl + 0)) fl = fl.
Proof.
  intros H. rewrite Z.add_0_r, u32_id by exact H. destruct fl. reflexivity.
Qed.

Lemma filewrite_loop_wp f addr n max :
  0 < max -> n < 2 ^ 31 ->
  forall fuel i s fl,
    ftable s !! f = Some fl -> is_u32 (f_off fl) -> 0 <= i ->
    n - i <= Z.of_nat fuel ->
    wp (filewrite_loop (S fuel) f addr n max i) s (fun w s' =>
      exists tr,
        trace s' = trace s ++ tr /\ chunk_run max n i tr w /\ i <= w /\
        ftable s' = <[f := set_f_off (u32 (f_off fl + (w - i))) fl]> (ftable s) /\
        outstanding s' = outstanding s).
Proof.
  intros Hmax Hn. induction fuel as [|fuel IH]; intros i s fl Hf Hoff Hi Hfuel;
    rewrite filewrite_loop_S; destruct (Z.ltb_spec i n) as [Hlt|Hge]; try lia.
  1, 3: apply wp_ret; exists []; rewrite app_nil_r, Z.sub_diag, set_f_off_id by exact Hoff;
    repeat split; [constructor; lia|lia|symmetry; apply list_insert_id; exact Hf].
  cbv zeta.
  replace (if max <? n - i then max else n - i) with (Z.min max (n - i))
    by (destruct (Z.ltb_spec max (n - i)); lia).
  set (n1 := Z.min max (n - i)).
  assert (0 < n1 <= n - i) as Hn1 by lia.
  eapply wp_bind_done; [reflexivity|].
  set (s0 := set_trace _ _).
  eapply wp_bind_done; [apply get_file_eq; exact Hf|].
  apply wp_bind_any; [apply nofuel_ilock|]. intros [] s1 Hlock.
  destruct (base_ilock _ _ _ _ Hlock) as (_ & Hft1 & _ & _ & Hout1 & ws1 & Htr1 & Hws1).
  eapply wp_bind_done; [apply get_file_eq; rewrite Hft1; exact Hf|].
  apply wp_bind_any; [apply nofuel_writei; [exact Hoff|apply u32_range]|].
  intros r s2 Hwr.
  destruct (base_writei _ _ _ _ _ _ _ Hwr) as (_ & Hft2 & _ & _ & Hout2 & ws2 & Htr2 & Hws2).
  set (fl3 := set_f_off (if 0 <? r then u32 (f_off fl + r) else f_off fl) fl).
  assert (exists s3,
            (if 0 <? r then upd_file f (fun fl => set_f_off (u32 (f_off fl + r)) fl)
             else ret tt) s2 = Done tt s3 /\
            ftable s3 = <[f := fl3]> (ftable s) /\ trace s3 = trace s2 /\
            outstanding s3 = outstanding s2) as (s3 & Hupd & Hft3 & Htr3 & Hout3).
  { subst fl3. destruct (0 <? r).
    - eexists. split; [apply upd_file_eq; rewrite Hft2, Hft1; exact Hf|].
      simpl. rewrite Hft2, Hft1. repeat split.
    - exists s2. split; [reflexivity|]. rewrite Hft2, Hft1. repeat split.
      symmetry. apply list_insert_id. destruct fl; exact Hf. }
  eapply wp_bind_done; [exact Hupd|].
  assert (ftable s3 !! f = Some fl3) as Hf3.
  { rewrite Hft3. apply list_lookup_insert_eq. eapply lookup_lt_Some. exact Hf. }
  eapply wp_bind_done; [apply get_file_eq; exact Hf3|].
  apply wp_bind_any; [apply nofuel_iunlock|]. intros [] s4 Hunl.
  destruct (base_iunlock _ _ _ _ Hunl) as (_ & Hft4 & _ & _ & Hout4 & ws4 & Htr4 & Hws4).
  eapply wp_bind_done; [reflexivity|].
  set (s5 := set_trace _ _).
  assert (trace s5 = trace s ++ EvBeginOp :: (ws1 ++ ws2 ++ ws4) ++ [EvEndOp]) as Htr5.
  { subst s5. simpl. rewrite Htr4, Htr3, Htr2, Htr1. subst s0. simpl.
    repeat rewrite <- app_assoc. reflexivity. }
  assert (outstanding s5 = outstanding s) as Hout5.
  { subst s5. simpl. rewrite Hout4, Hout3, Hout2, Hout1. subst s0. simpl. lia. }
  assert (ftable s5 = <[f := fl3]> (ftable s)) as Hft5.
  { subst s5. simpl. rewrite Hft4. exact Hft3. }
  assert (Forall is_logwrite (ws1 ++ ws2 ++ ws4)) as Hws
    by (repeat (apply Forall_app; split); assumption).
  destruct (Z.ltb_spec r 0) as [Hneg|Hpos].
  - apply wp_ret. eexists. split; [exact Htr5|].
    split; [apply chunks_fail; assumption|]. split; [lia|].
    split; [|exact Hout5].
    rewrite Hft5. subst fl3. destruct (Z.ltb_spec 0 r); [lia|].
    rewrite Z.sub_diag, set_f_off_id by exact Hoff.
    f_equal. destruct fl; reflexivity.
  - destruct (Z.eqb_spec r n1) as [->|Hne]; cbn [negb]; [|exact I].
    rewrite i32_id by lia.
    assert (fl3 = set_f_off (u32 (f_off fl + n1)) fl) as Hfl3.
    { subst fl3. destruct (Z.ltb_spec 0 n1); [reflexivity|lia]. }
    eapply wp_conseq.
    + apply (IH (i + n1) s5 fl3); [rewrite Hft5; apply list_lookup_insert_eq;
        eapply lookup_lt_Some; exact Hf|rewrite Hfl3; apply u32_range|lia|lia].
    + intros w s' (tr & Htr & Hrun & Hw & Hft & Hout).
      exists (EvBeginOp :: (ws1 ++ ws2 ++ ws4) ++ EvEndOp :: tr).
      split.
      { rewrite Htr, Htr5.
        repeat (rewrite <- app_assoc || rewrite <- app_comm_cons). reflexivity. }
      split; [apply chunks_next; assumption|]. split; [lia|].
      split; [|rewrite Hout; exact Hout5].
      rewrite Hft, Hft5, list_insert_insert_eq. f_equal.
      rewrite Hfl3. simpl. rewrite u32_add_idem.
      replace (f_off fl + n1 + (w - (i + n1))) with (f_off fl + (w - i)) by lia.
      destruct fl; reflexivity.
Qed.

(** ** [writei] *)

Lemma writei_loop_result ip src n :
  forall fuel tot off s off' s',
    0 <= tot <= n -> n < 2 ^ 32 -> 0 <= off -> off + (n - tot) < 2 ^ 32 ->
    writei_loop fuel ip src tot off n s = Done off' s' ->
    off' = off + (n - tot).
Proof.
  induction fuel as [|fuel IH]; intros tot off s off' s' Htot Hn Hoff Hov H;
    [discriminate|].
  pose proof (Z.mod_pos_bound off BSIZE ltac:(rewrite BSIZE_val; lia)) as Hmod.
  rewrite writei_loop_S in H. destruct (Z.ltb_spec tot n) as [Hlt|Hge].
  - apply bind_Done in H as (i & s1 & _ & H).
    apply bind_Done in H as (addr & s2 & _ & H).
    apply bind_Done in H as (data & s3 & _ & H).
    cbv zeta in H. rewrite min_spec in H.
    set (m := Z.min (n - tot) (BSIZE - off mod BSIZE)) in H.
    assert (0 < m <= n - tot /\ m <= BSIZE - off mod BSIZE) as (Hm1 & Hm2) by lia.
    apply bind_Done in H as ([] & s4 & _ & H).
    rewrite (u32_id (tot + m)), (u32_id (off + m)) in H by lia.
    apply IH in H; lia.
  - inversion H; subst. lia.
Qed.

Lemma iupdate_spec s ip i :
  icache s !! ip = Some i ->
  exists s',
    iupdate ip s = Done tt s' /\ icache s' = icache s /\
    trace s' = trace s ++ [EvLogWrite (TInode (i_dev i) (i_inum i))] /\
    dinode_at s' (i_dev i) (i_inum i) =
      mkDinode (i_type i) (i_major i) (i_minor i) (i_nlink i) (i_size i) (i_addrs i) /\
    bitmap s' = bitmap s /\ blocks s' = blocks s.
Proof.
  intros Hip. eexists. split.
  - unfold iupdate. rewrite (bind_eq _ _ _ _ _ (get_inode_eq _ _ _ Hip)). reflexivity.
  - simpl. repeat split. unfold dinode_at. simpl. rewrite lookup_insert_eq. reflexivity.
Qed.

Lemma writei_reject s ip i src off n :
  icache s !! ip = Some i -> i_type i <> T_DEV -> is_u32 off -> is_u32 n ->
  i_size i < off \/ 2 ^ 32 <= off + n \/ MAXFILE * BSIZE < off + n ->
  writei ip src off n s = Done (-1) s.
Proof.
  intros Hip Hty Hoff Hn Hbad. unfold writei.
  rewrite (bind_eq _ _ _ _ _ (get_inode_eq _ _ _ Hip)).
  apply Z.eqb_neq in Hty. rewrite Hty.
  rewrite (u32_overflow off n Hoff Hn).
  destruct (Z.ltb_spec (i_size i) off); [reflexivity|]. cbn [orb].
  destruct (Z.leb_spec (2 ^ 32) (off + n)); [reflexivity|].
  destruct MAXFILE_bound as (Hnd & Hni & Hmax).
  assert (0 <= MAXFILE * BSIZE).
  { unfold MAXFILE. rewrite Hni, BSIZE_val. lia. }
  rewrite (u32_id (MAXFILE * BSIZE)), (u32_id (off + n)) by (unfold is_u32 in *; lia).
  destruct (Z.ltb_spec (MAXFILE * BSIZE) (off + n)); [reflexivity|lia].
Qed.

Lemma writei_accept s ip i src off n :
  icache s !! ip = Some i -> i_type i <> T_DEV -> is_u32 off -> is_u32 n ->
  off <= i_size i -> off + n <= MAXFILE * BSIZE ->
  writei ip src off n s =
  (let* off' := writei_loop (copy_fuel n) ip src 0 off n in
   let* i' := get_inode ip in
   (if (0 <? n) && (i_size i' <? off') then
      upd_inode ip (set_i_size off') ;; iupdate ip
    else ret tt) ;;
   ret (i32 n)) s.
Proof.
  intros Hip Hty Hoff Hn Hle Hmaxle. unfold writei.
  rewrite (bind_eq _ _ _ _ _ (get_inode_eq _ _ _ Hip)).
  apply Z.eqb_neq in Hty. rewrite Hty.
  rewrite (u32_overflow off n Hoff Hn).
  destruct MAXFILE_bound as (Hnd & Hni & Hmax).
  destruct (Z.ltb_spec (i_size i) off); [lia|]. cbn [orb].
  destruct (Z.leb_spec (2 ^ 32) (off + n)); [lia|].
  rewrite (u32_id (MAXFILE * BSIZE)), (u32_id (off + n)) by (unfold is_u32 in *; lia).
  destruct (Z.ltb_spec (MAXFILE * BSIZE) (off + n)); [lia|]. reflexivity.
Qed.

(** What a [writei] that did not return -1 has done. *)
Lemma writei_Done_spec s ip i src off n r s' :
  icache s !! ip = Some i -> i_type i <> T_DEV ->
  is_u32 off -> is_u32 n -> is_u32 (i_size i) ->
  writei ip src off n s = Done r s' -> r <> -1 ->
  r = n /\ off <= i_size i /\ off + n <= MAXFILE * BSIZE /\
  exists i',
    icache s' !! ip = Some i' /\ changes [Faddrs; Fsize] i i' /\
    i_size i' = Z.max (i_size i) (off + n) /\
    (i_size i < off + n ->
     (exists tr, trace s' = tr ++ [EvLogWrite (TInode (i_dev i) (i_inum i))]) /\
     dinode_at s' (i_dev i) (i_inum i) =
       mkDinode (i_type i') (i_major i') (i_minor i') (i_nlink i')
                (off + n) (i_addrs i')).
Proof.
  intros Hip Hty Hoff Hn Hsz H Hr.
  destruct MAXFILE_bound as (Hnd & Hni & Hmax).

    destruct (decide (i_size i < off \/ 2 ^ 32 <= off + n \/ MAXFILE * BSIZE < off + n))
      as [Hbad|Hgood].
    { rewrite (writei_reject s ip i src off n) in H by assumption.
      inversion H; subst. contradiction. }
    assert (off <= i_size i /\ off + n <= MAXFILE * BSIZE) as (Hle & Hmaxle) by lia.
    rewrite (writei_accept s ip i src off n) in H by assumption.
    apply bind_Done in H as (off' & s1 & Hloop & H).
    pose proof (writei_loop_result ip src n _ 0 off s off' s1
                  ltac:(unfold is_u32 in *; lia) ltac:(unfold is_u32 in *; lia)
                  ltac:(unfold is_u32 in *; lia) ltac:(unfold is_u32 in *; lia) Hloop)
      as Hoff'.
    rewrite Z.sub_0_r in Hoff'. subst off'.
    pose proof (frame_writei_loop (touches ip [Faddrs]) _ ip src
                  (touches_ok _ _) (touches_covers ip [Faddrs] [Faddrs] eq_refl)
                  _ _ _ _ _ _ Hloop)
      as Hfr.
    destruct (frame_lookup _ _ _ _ _ Hfr Hip) as (i1 & Hip1 & HP1).
    unfold touches in HP1. rewrite decide_True in HP1 by reflexivity.
    pose proof (HP1 Fsize eq_refl) as Hsz1. pose proof (HP1 Fdev eq_refl) as Hdev1.
    pose proof (HP1 Finum eq_refl) as Hinum1. simpl in Hsz1, Hdev1, Hinum1.
    rewrite (bind_eq _ _ _ _ _ (get_inode_eq _ _ _ Hip1)) in H.
    assert (i32 n = n) as Hi32 by (apply i32_id; unfold is_u32 in *; lia).
    rewrite Hsz1 in H.
    destruct (Z.ltb_spec 0 n) as [Hnpos|Hn0];
      [destruct (Z.ltb_spec (i_size i) (off + n)) as [Hext|Hnoext]|]; cbn [andb] in H.
    + (* the write extended the file *)
      apply bind_Done in H as ([] & s3 & Hstep & H).
      apply bind_Done in Hstep as ([] & s2 & Hu & Hupd).
      rewrite (upd_inode_eq _ _ _ _ Hip1) in Hu. inversion Hu as [Hs2]. clear Hu.
      assert (icache s2 !! ip = Some (set_i_size (off + n) i1)) as Hip2.
      { rewrite <- Hs2. simpl. apply list_lookup_insert_eq. eapply lookup_lt_Some. exact Hip1. }
      destruct (iupdate_spec s2 ip _ Hip2) as (s3' & Hupd' & Hc3 & Htr3 & Hd3 & _).
      rewrite Hupd in Hupd'. inversion Hupd'; subst s3'.
      inversion H; subst r s'.
      split; [exact Hi32|]. split; [exact Hle|]. split; [exact Hmaxle|].
      exists (set_i_size (off + n) i1). split; [rewrite Hc3; exact Hip2|].
      split.
      { intros fld Hfld. specialize (HP1 fld (mem_field_sub fld [Faddrs] [Faddrs; Fsize]
                                                   eq_refl Hfld)).
        destruct fld; simpl in *; try assumption; discriminate. }
      split; [simpl; lia|]. intros _. split.
      * eexists. simpl in Htr3. rewrite Hdev1, Hinum1 in Htr3. exact Htr3.
      * simpl in Hd3. rewrite Hdev1, Hinum1 in Hd3. exact Hd3.
    + inversion H; subst r s'.
      split; [exact Hi32|]. split; [exact Hle|]. split; [exact Hmaxle|].
      exists i1. split; [exact Hip1|]. split.
      { eapply changes_sub; [|exact HP1]. reflexivity. }
      split; [lia|]. intros Hc. lia.
    + inversion H; subst r s'.
      split; [exact Hi32|]. split; [exact Hle|]. split; [exact Hmaxle|].
      exists i1. split; [exact Hip1|]. split.
      { eapply changes_sub; [|exact HP1]. reflexivity. }
      split; [unfold is_u32 in *; lia|]. intros Hc. unfold is_u32 in *. lia.
Qed.

(** ** Truncation *)

Lemma nth_insert_eq (l : list Z) k v :
  (k < length l)%nat -> nth k (<[k := v]> l) 0 = v.
Proof.
  intros H. rewrite nth_lookup, list_lookup_insert_eq by exact H. reflexivity.
Qed.

Lemma nth_insert_ne (l : list Z) j k v :
  j <> k -> nth j (<[k := v]> l) 0 = nth j l 0.
Proof.
  intros H. rewrite !nth_lookup, list_lookup_insert_ne by congruence. reflexivity.
Qed.

Lemma nth_nonzero_lt (l : list Z) k : nth k l 0 <> 0 -> (k < length l)%nat.
Proof.
  intros H. destruct (decide (k < length l)%nat) as [|Hge]; [assumption|].
  exfalso. apply H. apply nth_overflow. lia.
Qed.

Lemma bfree_spec dev b s s' :
  bfree dev b s = Done tt s' ->
  bit_at s dev b = true /\ bit_at s' dev b = false /\
  (forall d b', (d, b') <> (dev, b) -> bit_at s' d b' = bit_at s d b') /\
  icache s' = icache s /\ blocks s' = blocks s /\ dinodes s' = dinodes s.
Proof.
  unfold bfree. unfold bind at 1. unfold get at 1.
  destruct (bit_at s dev b) eqn:Hbit; [|discriminate].
  intros H. inversion H; subst. clear H. simpl.
  split; [reflexivity|]. split.
  - unfold bit_at. simpl. rewrite lookup_insert_eq. reflexivity.
  - split; [|repeat split]. intros d b' Hne. unfold bit_at. simpl.
    rewrite lookup_insert_ne by congruence. reflexivity.
Qed.

Lemma bfree_keeps_clear dev b s s' d b' :
  bfree dev b s = Done tt s' -> bit_at s d b' = false -> bit_at s' d b' = false.
Proof.
  intros H Hc. destruct (bfree_spec _ _ _ _ H) as (_ & Hcl & Hoth & _).
  destruct (decide ((d, b') = (dev, b))) as [Heq|Hne].
  - inversion Heq; subst. exact Hcl.
  - rewrite (Hoth d b' Hne). exact Hc.
Qed.

Lemma for_each_seqZ_inv (Inv : Z -> state -> Prop) body :
  (forall k s s', 0 <= k -> Inv k s -> body k s = Done tt s' -> Inv (k + 1) s') ->
  forall (n : nat) lo s s',
    0 <= lo -> Inv lo s -> for_each (seqZ lo (Z.of_nat n)) body s = Done tt s' ->
    Inv (lo + Z.of_nat n) s'.
Proof.
  intros Hbody. induction n as [|n IH]; intros lo s s' Hlo Hinv H.
  - simpl in H. inversion H; subst. rewrite Z.add_0_r. exact Hinv.
  - rewrite seqZ_cons in H by lia. simpl in H.
    apply bind_Done in H as ([] & s1 & Hb & H).
    replace (Z.pred (Z.of_nat (S n))) with (Z.of_nat n) in H by lia.
    apply IH in H; [|lia|].
    + replace (lo + Z.of_nat (S n)) with (Z.succ lo + Z.of_nat n) by lia. exact H.
    + replace (Z.succ lo) with (lo + 1) by lia. eapply Hbody; eassumption.
Qed.

Lemma changes_set_addrs i v : changes [Faddrs] i (set_i_addrs v i).
Proof. changes_tac. Qed.

Lemma itrunc_direct s0 ip i0 s' :
  icache s0 !! ip = Some i0 ->
  for_each (seqZ 0 NDIRECT) (fun k =>
    let* i := get_inode ip in
    let a := nth (Z.to_nat k) (i_addrs i) 0 in
    if a =? 0 then ret tt
    else bfree (i_dev i) a ;;
         upd_inode ip (fun i => set_i_addrs (<[Z.to_nat k := 0]> (i_addrs i)) i)) s0
  = Done tt s' ->
  exists i1,
    icache s' !! ip = Some i1 /\ changes [Faddrs] i0 i1 /\
    (forall j, 0 <= j < NDIRECT -> nth (Z.to_nat j) (i_addrs i1) 0 = 0) /\
    (forall j, NDIRECT <= j ->
       nth (Z.to_nat j) (i_addrs i1) 0 = nth (Z.to_nat j) (i_addrs i0) 0) /\
    blocks s' = blocks s0 /\
    (forall d b, bit_at s0 d b = false -> bit_at s' d b = false) /\
    (forall j, 0 <= j < NDIRECT -> nth (Z.to_nat j) (i_addrs i0) 0 <> 0 ->
       bit_at s' (i_dev i0) (nth (Z.to_nat j) (i_addrs i0) 0) = false).
Proof.
  intros Hip H. pose proof NDIRECT_nonneg as Hnd.
  rewrite <- (Z2Nat.id NDIRECT) in H by exact Hnd.
  eapply (for_each_seqZ_inv (fun k st =>
    exists ik,
      icache st !! ip = Some ik /\ changes [Faddrs] i0 ik /\
      (forall j, 0 <= j < k -> nth (Z.to_nat j) (i_addrs ik) 0 = 0) /\
      (forall j, k <= j ->
         nth (Z.to_nat j) (i_addrs ik) 0 = nth (Z.to_nat j) (i_addrs i0) 0) /\
      blocks st = blocks s0 /\
      (forall d b, bit_at s0 d b = false -> bit_at st d b = false) /\
      (forall j, 0 <= j < k -> nth (Z.to_nat j) (i_addrs i0) 0 <> 0 ->
         bit_at st (i_dev i0) (nth (Z.to_nat j) (i_addrs i0) 0) = false))) in H.
  - simpl in H. rewrite Z2Nat.id in H by exact Hnd. exact H.
  - clear H. intros k s s1 Hk (ik & Hik & Hch & Hz & Hsame & Hblk & Hmono & Hclr) Hb.
    rewrite (bind_eq _ _ _ _ _ (get_inode_eq _ _ _ Hik)) in Hb. cbv zeta in Hb.
    pose proof (Hsame k ltac:(lia)) as Hak.
    pose proof (Hch Fdev eq_refl) as Hdev. simpl in Hdev.
    destruct (Z.eqb_spec (nth (Z.to_nat k) (i_addrs ik) 0) 0) as [Ha0|Ha].
    + inversion Hb; subst s1. exists ik. repeat split; try assumption.
      * intros j Hj. destruct (decide (j = k)) as [->|]; [exact Ha0|apply Hz; lia].
      * intros j Hj. apply Hsame. lia.
      * intros j Hj Hne. destruct (decide (j = k)) as [->|]; [congruence|apply Hclr; [lia|exact Hne]].
    + apply bind_Done in Hb as ([] & s2 & Hfree & Hupd).
      destruct (bfree_spec _ _ _ _ Hfree) as (_ & Hcl & _ & Hc2 & Hb2 & _).
      assert (icache s2 !! ip = Some ik) as Hik2 by (rewrite Hc2; exact Hik).
      rewrite (upd_inode_eq _ _ _ _ Hik2) in Hupd. inversion Hupd; subst s1. clear Hupd.
      pose proof (nth_nonzero_lt _ _ Ha) as Hlen.
      exists (set_i_addrs (<[Z.to_nat k := 0]> (i_addrs ik)) ik). simpl.
      split; [apply list_lookup_insert_eq; eapply lookup_lt_Some; exact Hik2|].
      split; [eapply changes_trans; [exact Hch|apply changes_set_addrs]|].
      split.
      { intros j Hj. destruct (decide (j = k)) as [->|Hne].
        - apply nth_insert_eq. exact Hlen.
        - rewrite nth_insert_ne by lia. apply Hz. lia. }
      split.
      { intros j Hj. rewrite nth_insert_ne by lia. apply Hsame. lia. }
      split; [congruence|]. split.
      { intros d b Hd. change (bit_at s2 d b = false).
        eapply bfree_keeps_clear; [exact Hfree|]. apply Hmono. exact Hd. }
      intros j Hj Hne. change (bit_at s2 (i_dev i0) (nth (Z.to_nat j) (i_addrs i0) 0) = false).
      destruct (decide (j = k)) as [->|Hjk].
      * rewrite <- Hak, <- Hdev. exact Hcl.
      * eapply bfree_keeps_clear; [exact Hfree|]. apply Hclr; [lia|exact Hne].
  - lia.
  - exists i0. repeat split; try assumption; try apply changes_refl;
      try reflexivity; try (intros; assumption); intros; lia.
Qed.

Lemma itrunc_indirect s0 dev a s' :
  for_each (seqZ 0 NINDIRECT) (fun j =>
    if le32_get a j =? 0 then ret tt else bfree dev (le32_get a j)) s0 = Done tt s' ->
  icache s' = icache s0 /\ blocks s' = blocks s0 /\
  (forall d b, bit_at s0 d b = false -> bit_at s' d b = false) /\
  (forall j, 0 <= j < NINDIRECT -> le32_get a j <> 0 ->
     bit_at s' dev (le32_get a j) = false).
Proof.
  intros H. destruct MAXFILE_bound as (_ & Hni & _).
  rewrite <- (Z2Nat.id NINDIRECT) in H by lia.
  eapply (for_each_seqZ_inv (fun k st =>
    icache st = icache s0 /\ blocks st = blocks s0 /\
    (forall d b, bit_at s0 d b = false -> bit_at st d b = false) /\
    (forall j, 0 <= j < k -> le32_get a j <> 0 ->
       bit_at st dev (le32_get a j) = false))) in H.
  - simpl in H. rewrite Z2Nat.id in H by lia. exact H.
  - clear H. intros k s s1 Hk (Hc & Hblk & Hmono & Hclr) Hb.
    destruct (Z.eqb_spec (le32_get a k) 0) as [Ha0|Ha].
    + inversion Hb; subst s1. repeat split; try assumption.
      intros j Hj Hne. destruct (decide (j = k)) as [->|]; [congruence|apply Hclr; [lia|exact Hne]].
    + destruct (bfree_spec _ _ _ _ Hb) as (_ & Hcl & _ & Hc2 & Hb2 & _).
      split; [congruence|]. split; [congruence|]. split.
      * intros d b Hd. eapply bfree_keeps_clear; [exact Hb|]. apply Hmono. exact Hd.
      * intros j Hj Hne. destruct (decide (j = k)) as [->|Hjk]; [exact Hcl|].
        eapply bfree_keeps_clear; [exact Hb|]. apply Hclr; [lia|exact Hne].
  - lia.
  - repeat split; try reflexivity; try (intros; assumption); intros; lia.
Qed.

Lemma bit_at_bitmap s s' d b : bitmap s' = bitmap s -> bit_at s' d b = bit_at s d b.
Proof. intros H. unfold bit_at. rewrite H. reflexivity. Qed.

Lemma block_at_blocks s s' d b : blocks s' = blocks s -> block_at s' d b = block_at s d b.
Proof. intros H. unfold block_at. rewrite H. reflexivity. Qed.

(** What [itrunc] leaves behind when it returns. *)
Lemma itrunc_spec s ip i s' :
  icache s !! ip = Some i -> itrunc ip s = Done tt s' ->
  exists i',
    icache s' !! ip = Some i' /\ changes [Faddrs; Fsize] i i' /\ i_size i' = 0 /\
    (forall k, 0 <= k <= NDIRECT -> nth (Z.to_nat k) (i_addrs i') 0 = 0) /\
    (forall b, file_block s i b -> bit_at s' (i_dev i) b = false).
Proof.
  intros Hip H. unfold itrunc in H.
  apply bind_Done in H as ([] & s1 & Hdirect & H).
  destruct (itrunc_direct _ _ _ _ Hip Hdirect)
    as (i1 & Hip1 & Hch1 & Hz1 & Hsame1 & Hblk1 & Hmono1 & Hclr1).
  rewrite (bind_eq _ _ _ _ _ (get_inode_eq _ _ _ Hip1)) in H. cbv zeta in H.
  pose proof (Hsame1 NDIRECT (Z.le_refl _)) as Hind.
  pose proof (Hch1 Fdev eq_refl) as Hdev1. simpl in Hdev1.
  apply bind_Done in H as ([] & s2 & Hmid & H).
  assert (exists i2,
            icache s2 !! ip = Some i2 /\ changes [Faddrs] i i2 /\
            (forall k, 0 <= k <= NDIRECT -> nth (Z.to_nat k) (i_addrs i2) 0 = 0) /\
            (forall b, file_block s i b -> bit_at s2 (i_dev i) b = false))
    as (i2 & Hip2 & Hch2 & Hz2 & Hclr2).
  { destruct (Z.eqb_spec (nth (Z.to_nat NDIRECT) (i_addrs i1) 0) 0) as [Hi0|Hi].
    - inversion Hmid; subst s2. exists i1. repeat split; try assumption.
      + intros k Hk. destruct (decide (k = NDIRECT)) as [->|]; [exact Hi0|apply Hz1; lia].
      + intros b (Hb & [(k & Hk & Hkb)|(Hne & _)]).
        * subst b. apply Hclr1; assumption.
        * congruence.
    - apply bind_Done in Hmid as (a & s3 & Hread & Hmid).
      inversion Hread; subst a s3. clear Hread.
      apply bind_Done in Hmid as ([] & s4 & Hloop & Hmid).
      destruct (itrunc_indirect _ _ _ _ Hloop) as (Hc4 & Hblk4 & Hmono4 & Hclr4).
      apply bind_Done in Hmid as ([] & s5 & Hfree & Hupd).
      destruct (bfree_spec _ _ _ _ Hfree) as (_ & Hcl5 & _ & Hc5 & _ & _).
      assert (icache s5 !! ip = Some i1) as Hip5 by (rewrite Hc5, Hc4; exact Hip1).
      rewrite (upd_inode_eq _ _ _ _ Hip5) in Hupd. inversion Hupd; subst s2. clear Hupd.
      exists (set_i_addrs (<[Z.to_nat NDIRECT := 0]> (i_addrs i1)) i1). simpl.
      split; [apply list_lookup_insert_eq; eapply lookup_lt_Some; exact Hip5|].
      split; [eapply changes_trans; [exact Hch1|apply changes_set_addrs]|].
      split.
      { intros k Hk. destruct (decide (k = NDIRECT)) as [->|Hne].
        - apply nth_insert_eq. apply nth_nonzero_lt. exact Hi.
        - rewrite nth_insert_ne by lia. apply Hz1. lia. }
      intros b (Hb & Hcase).
      change (bit_at s5 (i_dev i) b = false).
      destruct Hcase as [(k & Hk & Hkb)|(Hne & [Hbi|(j & Hj & Hjb)])].
      + subst b. eapply bfree_keeps_clear; [exact Hfree|].
        apply Hmono4. apply Hclr1; assumption.
      + subst b. rewrite <- Hind, <- Hdev1. exact Hcl5.
      + eapply bfree_keeps_clear; [exact Hfree|].
        rewrite <- Hjb, <- Hind, <- Hdev1.
        rewrite <- (block_at_blocks _ _ _ _ Hblk1).
        apply Hclr4; [exact Hj|].
        rewrite (block_at_blocks _ _ _ _ Hblk1), Hdev1, Hind, Hjb. exact Hb. }
  apply bind_Done in H as ([] & s3 & Hupd & H).
  rewrite (upd_inode_eq _ _ _ _ Hip2) in Hupd. inversion Hupd; subst s3. clear Hupd.
  set (s3 := set_icache _ s2) in H.
  assert (icache s3 !! ip = Some (set_i_size 0 i2)) as Hip3.
  { subst s3. simpl. apply list_lookup_insert_eq. eapply lookup_lt_Some. exact Hip2. }
  destruct (iupdate_spec s3 ip _ Hip3) as (s4 & Hupd' & Hc4 & _ & _ & Hbm4 & _).
  rewrite H in Hupd'. inversion Hupd'; subst s4.
  exists (set_i_size 0 i2). split; [rewrite Hc4; exact Hip3|].
  split.
  { intros fld Hfld. specialize (Hch2 fld (mem_field_sub fld [Faddrs] [Faddrs; Fsize]
                                              eq_refl Hfld)).
    destruct fld; simpl in *; try assumption; discriminate. }
  split; [reflexivity|]. split; [exact Hz2|].
  intros b Hb. rewrite (bit_at_bitmap _ _ _ _ Hbm4). apply Hclr2. exact Hb.
Qed.

(** ** [iput] *)

Lemma nofuel_for_each {A} (l : list A) body :
  (forall x, nofuel (body x)) -> nofuel (for_each l body).
Proof.
  intros Hb. induction l as [|x l IH]; simpl; [apply nofuel_ret|].
  apply nofuel_bind; [apply Hb|intros _; exact IH].
Qed.

Lemma nofuel_bfree dev b : nofuel (bfree dev b).
Proof. unfold bfree. nofuel_auto. Qed.
#[local] Hint Resolve nofuel_bfree : nofuel.

Lemma nofuel_itrunc ip : nofuel (itrunc ip).
Proof.
  unfold itrunc. nofuel_auto.
  all: try (apply nofuel_for_each; intros k; nofuel_auto).
Qed.
#[local] Hint Resolve nofuel_itrunc : nofuel.

Lemma nofuel_iput ip : nofuel (iput ip).
Proof. unfold iput. nofuel_auto. Qed.

Lemma lookup_insert_slot (l : list inode) ip i v :
  l !! ip = Some i -> <[ip := v]> l !! ip = Some v.
Proof. intros H. apply list_lookup_insert_eq. eapply lookup_lt_Some. exact H. Qed.

Lemma acquiresleep_eq s ip i :
  icache s !! ip = Some i -> i_lock i = false ->
  acquiresleep ip s = Done tt (set_icache (<[ip := set_i_lock true i]> (icache s)) s).
Proof.
  intros Hip Hl. unfold acquiresleep.
  rewrite (bind_eq _ _ _ _ _ (get_inode_eq _ _ _ Hip)), Hl.
  apply upd_inode_eq. exact Hip.
Qed.

Lemma set_icache_twice v w s : set_icache v (set_icache w s) = set_icache v s.
Proof. reflexivity. Qed.

Lemma iput_plain s ip i :
  icache s !! ip = Some i -> i_lock i = false ->
  ~ (i_valid i <> 0 /\ i_nlink i = 0 /\ i_ref i = 1) ->
  iput ip s = Done tt (set_icache (<[ip := set_i_ref (i32 (i_ref i - 1)) i]> (icache s)) s).
Proof.
  intros Hip Hl Hcond. unfold iput.
  rewrite (bind_eq _ _ _ _ _ (acquiresleep_eq _ _ _ Hip Hl)).
  set (s1 := set_icache _ s).
  assert (icache s1 !! ip = Some (set_i_lock true i)) as Hip1
    by (apply (lookup_insert_slot _ _ _ _ Hip)).
  rewrite (bind_eq _ _ _ _ _ (get_inode_eq _ _ _ Hip1)).
  assert ((if negb (i_valid (set_i_lock true i) =? 0) && (i_nlink (set_i_lock true i) =? 0)
           then if i_ref (set_i_lock true i) =? 1
                then itrunc ip ;; upd_inode ip (set_i_type 0) ;; iupdate ip ;;
                     upd_inode ip (set_i_valid 0)
                else ret tt
           else ret tt) = ret tt) as ->.
  { simpl. destruct (Z.eqb_spec (i_valid i) 0), (Z.eqb_spec (i_nlink i) 0),
      (Z.eqb_spec (i_ref i) 1); simpl; try reflexivity. exfalso. apply Hcond. auto. }
  unfold bind at 1. unfold ret at 1.
  unfold releasesleep. rewrite (bind_eq _ _ _ _ _ (upd_inode_eq _ _ _ _ Hip1)).
  rewrite (upd_inode_eq _ _ (set_i_lock false (set_i_lock true i))).
  - subst s1. simpl. rewrite !list_insert_insert_eq.
    replace (set_i_lock false (set_i_lock true i)) with i
      by (destruct i; simpl in *; subst; reflexivity).
    reflexivity.
  - subst s1. simpl. rewrite list_insert_insert_eq. apply (lookup_insert_slot _ _ _ _ Hip).
Qed.

(** What the last [iput] of an inode without links has done when it
    returns. *)
Lemma iput_cleanup_Done s ip i s' :
  icache s !! ip = Some i -> i_lock i = false ->
  i_valid i <> 0 -> i_nlink i = 0 -> i_ref i = 1 ->
  iput ip s = Done tt s' ->
  exists sm im,
    s' = set_icache (<[ip := set_i_ref 0 im]> (icache sm)) sm /\
    icache sm !! ip = Some im /\
    changes [Fvalid; Ftype; Fsize; Faddrs] i im /\
    i_ref im = 1 /\ i_lock im = false /\
    i_valid im = 0 /\ i_type im = 0 /\ i_size im = 0 /\
    (forall k, 0 <= k <= NDIRECT -> nth (Z.to_nat k) (i_addrs im) 0 = 0) /\
    dinode_at sm (i_dev i) (i_inum i) =
      mkDinode 0 (i_major i) (i_minor i) 0 0 (i_addrs im) /\
    (forall b, file_block s i b -> bit_at sm (i_dev i) b = false).
Proof.
  intros Hip Hl Hv Hn Hr H. unfold iput in H.
  rewrite (bind_eq _ _ _ _ _ (acquiresleep_eq _ _ _ Hip Hl)) in H.
  set (s1 := set_icache _ s) in H.
  assert (icache s1 !! ip = Some (set_i_lock true i)) as Hip1
    by (apply (lookup_insert_slot _ _ _ _ Hip)).
  rewrite (bind_eq _ _ _ _ _ (get_inode_eq _ _ _ Hip1)) in H.
  cbn [i_valid i_nlink i_ref set_i_lock] in H.
  apply Z.eqb_neq in Hv. rewrite Hv, Hn, Hr in H. cbn [negb andb Z.eqb Pos.eqb] in H.
  apply bind_Done in H as ([] & s5 & Hclean & H).
  apply bind_Done in Hclean as ([] & s2 & Htrunc & Hclean).
  destruct (itrunc_spec _ _ _ _ Hip1 Htrunc) as (i2 & Hip2 & Hch2 & Hsz2 & Hz2 & Hclr2).
  apply bind_Done in Hclean as ([] & s3 & Hty & Hclean).
  rewrite (upd_inode_eq _ _ _ _ Hip2) in Hty. inversion Hty as [Hs3]. clear Hty.
  assert (icache s3 !! ip = Some (set_i_type 0 i2)) as Hip3
    by (rewrite <- Hs3; apply (lookup_insert_slot _ _ _ _ Hip2)).
  apply bind_Done in Hclean as ([] & s4 & Hupd & Hval).
  destruct (iupdate_spec s3 ip _ Hip3) as (s4' & Hupd' & Hc4 & _ & Hd4 & Hbm4 & _).
  rewrite Hupd in Hupd'. inversion Hupd'; subst s4'. clear Hupd'.
  assert (icache s4 !! ip = Some (set_i_type 0 i2)) as Hip4 by (rewrite Hc4; exact Hip3).
  rewrite (upd_inode_eq _ _ _ _ Hip4) in Hval. inversion Hval as [Hs5]. clear Hval.
  assert (icache s5 !! ip = Some (set_i_valid 0 (set_i_type 0 i2))) as Hip5
    by (rewrite <- Hs5; apply (lookup_insert_slot _ _ _ _ Hip4)).
  unfold releasesleep in H.
  rewrite (bind_eq _ _ _ _ _ (upd_inode_eq _ _ _ _ Hip5)) in H.
  set (im := set_i_lock false (set_i_valid 0 (set_i_type 0 i2))) in H.
  set (sm := set_icache _ s5) in H.
  assert (icache sm !! ip = Some im) as Hipm
    by (apply (lookup_insert_slot _ _ _ _ Hip5)).
  rewrite (upd_inode_eq _ _ _ _ Hipm) in H. inversion H as [Hs']. clear H.
  pose proof (Hch2 Fref eq_refl) as Hr2. pose proof (Hch2 Fdev eq_refl) as Hd2.
  pose proof (Hch2 Finum eq_refl) as Hi2. pose proof (Hch2 Fmajor eq_refl) as Hma2.
  pose proof (Hch2 Fminor eq_refl) as Hmi2. pose proof (Hch2 Fnlink eq_refl) as Hnl2.
  simpl in Hr2, Hd2, Hi2, Hma2, Hmi2, Hnl2.
  exists sm, im. split.
  { subst im. cbn [i_ref set_i_lock set_i_valid set_i_type]. rewrite Hr2, Hr. reflexivity. }
  split; [exact Hipm|]. split.
  { intros fld Hfld. specialize (Hch2 fld (mem_field_sub fld [Faddrs; Fsize]
                                   [Fvalid; Ftype; Fsize; Faddrs] eq_refl Hfld)).
    subst im. destruct fld; simpl in *; try congruence; discriminate. }
  subst im. cbn [i_ref i_lock i_valid i_type i_size i_addrs set_i_lock set_i_valid set_i_type].
  split; [congruence|]. split; [reflexivity|]. split; [reflexivity|].
  split; [reflexivity|]. split; [exact Hsz2|]. split; [exact Hz2|]. split.
  - subst sm. rewrite <- Hs5.
    change (dinode_at s4 (i_dev i) (i_inum i) =
            mkDinode 0 (i_major i) (i_minor i) 0 0 (i_addrs i2)).
    simpl in Hd4. rewrite Hd2, Hi2, Hma2, Hmi2, Hnl2, Hsz2, Hn in Hd4. exact Hd4.
  - intros b Hb. subst sm. rewrite <- Hs5.
    change (bit_at s4 (i_dev i) b = false).
    rewrite (bit_at_bitmap _ _ _ _ Hbm4). rewrite <- Hs3.
    change (bit_at s2 (i_dev i) b = false).
    apply (Hclr2 b). exact Hb.
Qed.

(** ** Directories *)

Lemma desz_range : 2 < desz < 2 ^ 17.
Proof. pose proof DIRSIZ_pos. pose proof DIRSIZ_small. unfold desz. lia. Qed.

Lemma readi_dirent s dp d nent k :
  icache s !! dp = Some d -> dir_ok s d nent -> 0 <= k < Z.of_nat nent ->
  readi dp (k * desz) desz s = Done (desz, file_bytes s d (k * desz) desz) s.
Proof.
  intros Hdp (Hty & Hsz & Hsmall & Hmap) Hk. pose proof desz_range as Hde.
  assert (i_type d <> T_DEV) as Hnd by (rewrite Hty; unfold T_DIR, T_DEV; lia).
  assert (k * desz + desz <= i_size d) as Hend by (rewrite Hsz; nia).
  assert (0 <= k * desz) as Hoff by nia.
  destruct (readi_copy s dp d (k * desz) desz Hdp Hnd) as (_ & _ & Hres);
    try (unfold is_u32; lia).
  rewrite Z.min_l in Hres by lia. apply Hres.
  intros j Hj. apply Hmap. lia.
Qed.

Lemma dirlookup_loop_S fuel dp name off :
  dirlookup_loop (S fuel) dp name off =
  let* d := get_inode dp in
  if off <? i_size d then
    let* rd := readi dp off desz in
    if negb (u32 (fst rd) =? desz) then panic "dirlookup read"
    else
      let de := dirent_decode (snd rd) in
      if de_inum de =? 0 then dirlookup_loop fuel dp name (u32 (off + desz))
      else if namecmp name (de_name de) =? 0 then
        let* ip := iget (i_dev d) (de_inum de) in
        ret (Some (ip, off))
      else dirlookup_loop fuel dp name (u32 (off + desz))
  else ret None.
Proof. reflexivity. Qed.

Lemma dirlink_scan_S fuel dp off :
  dirlink_scan (S fuel) dp off =
  let* d := get_inode dp in
  if u32 off <? i_size d then
    let* rd := readi dp (u32 off) desz in
    if negb (u32 (fst rd) =? desz) then panic "dirlink read"
    else if de_inum (dirent_decode (snd rd)) =? 0 then ret off
    else dirlink_scan fuel dp (i32 (off + desz))
  else ret off.
Proof. reflexivity. Qed.

Lemma dirlookup_loop_ok s dp d nent name :
  icache s !! dp = Some d -> dir_ok s d nent ->
  forall fuel k,
    0 <= k <= Z.of_nat nent -> Z.of_nat nent - k <= Z.of_nat fuel ->
    dirlookup_loop (S fuel) dp name (k * desz) s =
    match dir_find s d name k (Z.to_nat (Z.of_nat nent - k)) with
    | Some j =>
        (let* ip := iget (i_dev d) (de_inum (dir_entry s d j)) in
         ret (Some (ip, j * desz))) s
    | None => Done None s
    end.
Proof.
  intros Hdp Hok. pose proof Hok as (Hty & Hsz & Hsmall & Hmap).
  pose proof desz_range as Hde.
  induction fuel as [|fuel IH]; intros k Hk Hfuel; rewrite dirlookup_loop_S;
    rewrite (bind_eq _ _ _ _ _ (get_inode_eq _ _ _ Hdp));
    (destruct (Z.ltb_spec (k * desz) (i_size d)) as [Hlt|Hge];
     [|replace (Z.of_nat nent - k) with 0 by nia; reflexivity]).
  - exfalso. nia.
  - assert (0 <= k < Z.of_nat nent) as Hk' by nia.
    rewrite (bind_eq _ _ _ _ _ (readi_dirent s dp d nent k Hdp Hok Hk')).
    cbn [fst snd]. rewrite (u32_id desz) by lia. rewrite Z.eqb_refl. cbn [negb].
    fold (dir_entry s d k).
    replace (Z.to_nat (Z.of_nat nent - k)) with (S (Z.to_nat (Z.of_nat nent - (k + 1))))
      by lia.
    cbn [dir_find]. unfold entry_matches.
    rewrite (u32_id (k * desz + desz)) by nia.
    replace (k * desz + desz) with ((k + 1) * desz) by lia.
    destruct (de_inum (dir_entry s d k) =? 0); cbn [negb andb].
    + apply IH; lia.
    + destruct (namecmp name (de_name (dir_entry s d k)) =? 0).
      * reflexivity.
      * apply IH; lia.
Qed.

Lemma dirlink_scan_ok s dp d nent :
  icache s !! dp = Some d -> dir_ok s d nent ->
  forall fuel k,
    0 <= k <= Z.of_nat nent -> Z.of_nat nent - k <= Z.of_nat fuel ->
    dirlink_scan (S fuel) dp (k * desz) s =
    Done (dir_free s d k (Z.to_nat (Z.of_nat nent - k)) * desz) s.
Proof.
  intros Hdp Hok. pose proof Hok as (Hty & Hsz & Hsmall & Hmap).
  pose proof desz_range as Hde.
  induction fuel as [|fuel IH]; intros k Hk Hfuel; rewrite dirlink_scan_S;
    rewrite (bind_eq _ _ _ _ _ (get_inode_eq _ _ _ Hdp));
    rewrite (u32_id (k * desz)) by nia;
    (destruct (Z.ltb_spec (k * desz) (i_size d)) as [Hlt|Hge];
     [|replace (Z.of_nat nent - k) with 0 by nia; reflexivity]).
  - exfalso. nia.
  - assert (0 <= k < Z.of_nat nent) as Hk' by nia.
    rewrite (bind_eq _ _ _ _ _ (readi_dirent s dp d nent k Hdp Hok Hk')).
    cbn [fst snd]. rewrite (u32_id desz) by lia. rewrite Z.eqb_refl. cbn [negb].
    fold (dir_entry s d k).
    replace (Z.to_nat (Z.of_nat nent - k)) with (S (Z.to_nat (Z.of_nat nent - (k + 1))))
      by lia.
    cbn [dir_free].
    rewrite (i32_id (k * desz + desz)) by nia.
    replace (k * desz + desz) with ((k + 1) * desz) by lia.
    destruct (de_inum (dir_entry s d k) =? 0).
    + reflexivity.
    + apply IH; lia.
Qed.

Lemma dir_find_None s d name : forall n k,
  dir_find s d name k n = None ->
  forall j, k <= j < k + Z.of_nat n -> entry_matches name (dir_entry s d j) = false.
Proof.
  induction n as [|n IH]; intros k H j Hj; [lia|]. simpl in H.
  destruct (entry_matches name (dir_entry s d k)) eqn:Hm; [discriminate|].
  destruct (decide (j = k)) as [->|Hne]; [exact Hm|].
  apply (IH (k + 1) H). lia.
Qed.

Lemma dir_find_Some s d name : forall n k j,
  dir_find s d name k n = Some j ->
  k <= j < k + Z.of_nat n /\ entry_matches name (dir_entry s d j) = true.
Proof.
  induction n as [|n IH]; intros k j H; [discriminate|]. simpl in H.
  destruct (entry_matches name (dir_entry s d k)) eqn:Hm.
  - inversion H; subst. split; [lia|exact Hm].
  - apply IH in H as (Hj & Hmj). split; [lia|exact Hmj].
Qed.

Lemma dir_free_spec s d : forall n k,
  k <= dir_free s d k n <= k + Z.of_nat n /\
  (forall j, k <= j < dir_free s d k n -> de_inum (dir_entry s d j) <> 0) /\
  (dir_free s d k n < k + Z.of_nat n -> de_inum (dir_entry s d (dir_free s d k n)) = 0).
Proof.
  induction n as [|n IH]; intros k; cbn [dir_free].
  - split; [lia|]. split; intros; lia.
  - destruct (Z.eqb_spec (de_inum (dir_entry s d k)) 0) as [Hz|Hnz].
    + split; [lia|]. split; [intros j Hj; lia|intros _; exact Hz].
    + destruct (IH (k + 1)) as (Hr & Hall & Hfree). split; [lia|]. split.
      * intros j Hj. destruct (decide (j = k)) as [->|]; [exact Hnz|apply Hall; lia].
      * intros Hlt. apply Hfree. lia.
Qed.

Lemma classic_present s d nent name :
  dir_present s d nent name \/ ~ dir_present s d nent name.
Proof.
  destruct (dir_find s d name 0 nent) as [j|] eqn:Hfind.
  - left. apply dir_find_Some in Hfind as (Hj & Hm). exists j. split; [lia|exact Hm].
  - right. intros (k & Hk & Hm).
    pose proof (dir_find_None _ _ _ _ _ Hfind k ltac:(lia)). congruence.
Qed.

Lemma dirlookup_ok s dp d nent name :
  icache s !! dp = Some d -> dir_ok s d nent ->
  dirlookup dp name s =
  match dir_find s d name 0 nent with
  | Some j =>
      (let* ip := iget (i_dev d) (de_inum (dir_entry s d j)) in
       ret (Some (ip, j * desz))) s
  | None => Done None s
  end.
Proof.
  intros Hdp Hok. pose proof Hok as (Hty & Hsz & Hsmall & Hmap).
  pose proof desz_range as Hde.
  unfold dirlookup. rewrite (bind_eq _ _ _ _ _ (get_inode_eq _ _ _ Hdp)).
  rewrite Hty, Z.eqb_refl. cbn [negb]. unfold dir_fuel.
  assert (i_size d / desz = Z.of_nat nent) as ->.
  { rewrite Hsz. apply Z.div_mul. lia. }
  pose proof (dirlookup_loop_ok s dp d nent name Hdp Hok
                (Z.to_nat (Z.of_nat nent + 1)) 0 ltac:(lia) ltac:(lia)) as H.
  rewrite Z.mul_0_l, Z.sub_0_r, Nat2Z.id in H. exact H.
Qed.

Lemma iput_Done_unlocked s ip i a s' :
  icache s !! ip = Some i -> iput ip s = Done a s' -> i_lock i = false.
Proof.
  intros Hip H. unfold iput in H. apply bind_Done in H as ([] & s1 & Hacq & _).
  unfold acquiresleep in Hacq.
  rewrite (bind_eq _ _ _ _ _ (get_inode_eq _ _ _ Hip)) in Hacq.
  destruct (i_lock i); [discriminate|reflexivity].
Qed.

Lemma i32_add_idem a b : i32 (i32 a + b) = i32 (a + b).
Proof.
  unfold i32. f_equal.
  replace (((a + 2 ^ 31) mod 2 ^ 32 - 2 ^ 31) + b + 2 ^ 31)
    with ((a + 2 ^ 31) mod 2 ^ 32 + b) by lia.
  rewrite Zplus_mod_idemp_l. f_equal. lia.
Qed.

(** [iget] followed by [iput] gives the reference back. *)
Lemma iget_iput_refs s dev inum ip s1 a s' :
  refs_int s -> iget dev inum s = Done ip s1 -> iput ip s1 = Done a s' ->
  i_ref <$> icache s' = i_ref <$> icache s /\
  dinodes s' = dinodes s /\ bitmap s' = bitmap s /\ blocks s' = blocks s.
Proof.
  intros Hrefs Hget Hput. pose proof (iget_spec s dev inum) as Hs. rewrite Hget in Hs.
  destruct Hs as (Hd & Hb & Hbl & _ & Hcase).
  assert (exists i i1, icache s !! ip = Some i /\ icache s1 = <[ip := i1]> (icache s) /\
            i32 (i_ref i1 - 1) = i_ref i /\
            ~ (i_valid i1 <> 0 /\ i_nlink i1 = 0 /\ i_ref i1 = 1))
    as (i & i1 & Hip & Hc1 & Href & Hcond).
  { destruct Hcase as [(i & Hip & Hhit & Hc1)|(_ & i & Hip & Hz & _ & Hc1)].
    - exists i, (set_i_ref (i32 (i_ref i + 1)) i). repeat split; try assumption.
      + simpl. replace (i32 (i_ref i + 1) - 1) with (i32 (i_ref i + 1) + (-1)) by lia.
        rewrite i32_add_idem. replace (i_ref i + 1 + -1) with (i_ref i) by lia.
        apply i32_id. apply (Hrefs ip i Hip).
      + simpl. intros (_ & _ & Hone). destruct Hhit as (Hpos & _).
        pose proof (Hrefs ip i Hip) as Hr.
        destruct (decide (i_ref i + 1 < 2 ^ 31)) as [Hsm|Hbig].
        * rewrite i32_id in Hone by lia. lia.
        * assert (i_ref i = 2 ^ 31 - 1) as Hmax by lia. rewrite Hmax in Hone.
          vm_compute in Hone. discriminate.
    - exists i, (set_i_valid 0 (set_i_ref 1 (set_i_inum inum (set_i_dev dev i)))).
      repeat split; try assumption.
      + simpl. rewrite Hz. reflexivity.
      + simpl. intros (Hv & _). congruence. }
  assert (icache s1 !! ip = Some i1) as Hip1
    by (rewrite Hc1; apply (lookup_insert_slot _ _ _ _ Hip)).
  pose proof (iput_Done_unlocked _ _ _ _ _ Hip1 Hput) as Hl.
  rewrite (iput_plain s1 ip i1 Hip1 Hl Hcond) in Hput. inversion Hput; subst s'.
  simpl. repeat split; try assumption.
  rewrite Hc1, list_insert_insert_eq, list_fmap_insert. simpl. rewrite Href.
  apply list_insert_id. rewrite list_lookup_fmap, Hip. reflexivity.
Qed.

(** The name is present: [dirlink] returns -1 and gives back the reference
    that [dirlookup] took. *)
Lemma dirlink_present s dp d nent name inum :
  icache s !! dp = Some d -> dir_ok s d nent -> refs_int s ->
  dir_present s d nent name ->
  forall r s', dirlink dp name inum s = Done r s' ->
    r = -1 /\ i_ref <$> icache s' = i_ref <$> icache s /\
    dinodes s' = dinodes s /\ bitmap s' = bitmap s /\ blocks s' = blocks s.
Proof.
  intros Hdp Hok Hrefs (k & Hk & Hm) r s' H. unfold dirlink in H.
  apply bind_Done in H as (found & s1 & Hlook & H).
  rewrite (dirlookup_ok s dp d nent name Hdp Hok) in Hlook.
  destruct (dir_find s d name 0 nent) as [j|] eqn:Hfind.
  - apply bind_Done in Hlook as (ip & s2 & Hget & Hret). inversion Hret; subst found s2.
    apply bind_Done in H as ([] & s3 & Hput & Hret'). inversion Hret'; subst r s3.
    split; [reflexivity|]. eapply iget_iput_refs; eassumption.
  - exfalso. pose proof (dir_find_None _ _ _ _ _ Hfind k ltac:(lia)). congruence.
Qed.

(** ** [create] *)

Lemma frame_dirlookup_loop_None P x name :
  slot_ok P -> covers P x [Faddrs] ->
  forall fuel off s s',
    dirlookup_loop fuel x name off s = Done None s' -> frame P s s'.
Proof.
  intros HP Hc. induction fuel as [|fuel IH]; intros off s s' H; [discriminate|].
  rewrite dirlookup_loop_S in H.
  apply bind_Done in H as (d & s0 & Hget & H).
  assert (s0 = s) as -> by (unfold get_inode in Hget; destruct (icache s !! x); congruence).
  destruct (off <? i_size d).
  - apply bind_Done in H as (rd & s1 & Hrd & H).
    pose proof (frame_readi P x off desz HP Hc _ _ _ Hrd) as Hf1.
    destruct (negb (u32 rd.1 =? desz)); [discriminate|]. cbv zeta in H.
    destruct (de_inum (dirent_decode rd.2) =? 0).
    + eapply frame_trans; [exact HP|exact Hf1|eapply IH; exact H].
    + destruct (namecmp name (de_name (dirent_decode rd.2)) =? 0).
      * apply bind_Done in H as (ip & s2 & _ & H). discriminate.
      * eapply frame_trans; [exact HP|exact Hf1|eapply IH; exact H].
  - inversion H; subst. apply frame_refl. exact HP.
Qed.

Lemma frame_dirlookup_None P x name s s' :
  slot_ok P -> covers P x [Faddrs] ->
  dirlookup x name s = Done None s' -> frame P s s'.
Proof.
  intros HP Hc H. unfold dirlookup in H.
  apply bind_Done in H as (d & s0 & Hget & H).
  assert (s0 = s) as -> by (unfold get_inode in Hget; destruct (icache s !! x); congruence).
  destruct (negb (i_type d =? T_DIR)); [discriminate|].
  eapply frame_dirlookup_loop_None; eassumption.
Qed.

Lemma frame_dirlink_scan P x :
  slot_ok P -> covers P x [Faddrs] ->
  forall fuel off, preserves (frame P) (dirlink_scan fuel x off).
Proof.
  intros HP Hc. induction fuel as [|fuel IH]; intros off; simpl; frame_auto.
Qed.

(** [dirlink] returns -1 or 0; when it returns 0 it has changed, in the
    cache, at most the addresses and the size of the directory. *)
Lemma dirlink_result x name inum s r s' :
  dirlink x name inum s = Done r s' -> r = -1 \/ r = 0.
Proof.
  intros H. unfold dirlink in H. apply bind_Done in H as (found & s1 & _ & H).
  destruct found as [[ip off]|].
  - apply bind_Done in H as ([] & s2 & _ & H). inversion H. left. reflexivity.
  - apply bind_Done in H as (d & s2 & _ & H).
    apply bind_Done in H as (off & s3 & _ & H).
    apply bind_Done in H as (r0 & s4 & _ & H).
    destruct (negb (u32 r0 =? desz)); [discriminate|]. inversion H. right. reflexivity.
Qed.

Lemma frame_dirlink_ok P x name inum s r s' :
  slot_ok P -> covers P x [Faddrs; Fsize] ->
  dirlink x name inum s = Done r s' -> 0 <= r -> frame P s s'.
Proof.
  intros HP Hc H Hr. unfold dirlink in H.
  apply bind_Done in H as (found & s1 & Hlook & H).
  destruct found as [[ip off]|].
  { apply bind_Done in H as ([] & s2 & _ & H). inversion H; subst. lia. }
  pose proof (frame_dirlookup_None P x name s s1 HP
                ltac:(eapply covers_sub; [|exact Hc]; reflexivity) Hlook) as Hf1.
  apply bind_Done in H as (d & s2 & Hget & H).
  assert (s2 = s1) as -> by (unfold get_inode in Hget; destruct (icache s1 !! x); congruence).
  apply bind_Done in H as (off & s3 & Hscan & H).
  pose proof (frame_dirlink_scan P x HP
                ltac:(eapply covers_sub; [|exact Hc]; reflexivity) _ _ _ _ _ Hscan) as Hf2.
  apply bind_Done in H as (r0 & s4 & Hwr & H).
  pose proof (frame_writei P x _ _ _ HP
                ltac:(eapply covers_sub; [|exact Hc]; reflexivity) _ _ _ Hwr) as Hf3.
  destruct (negb (u32 r0 =? desz)); [discriminate|]. inversion H; subst.
  eapply frame_trans; [exact HP|exact Hf1|].
  eapply frame_trans; [exact HP|exact Hf2|exact Hf3].
Qed.

Lemma touches_lookup x fs s s' j a :
  frame (touches x fs) s s' -> icache s !! j = Some a ->
  exists b, icache s' !! j = Some b /\ (j <> x -> b = a) /\ (j = x -> changes fs a b).
Proof.
  intros Hf Ha. destruct (frame_lookup _ _ _ _ _ Hf Ha) as (b & Hb & HP).
  exists b. split; [exact Hb|]. unfold touches in HP.
  destruct (decide (j = x)); split; intros; try congruence; assumption.
Qed.

Lemma ilock_spec s ip i0 s' :
  icache s !! ip = Some i0 -> ilock ip s = Done tt s' ->
  i_lock i0 = false /\
  exists i, icache s' !! ip = Some i /\ i_lock i = true /\
    changes [Flock; Fvalid; Ftype; Fmajor; Fminor; Fnlink; Fsize; Faddrs] i0 i /\
    frame (touches ip [Flock; Fvalid; Ftype; Fmajor; Fminor; Fnlink; Fsize; Faddrs]) s s'.
Proof.
  intros Hip H.
  pose proof (frame_ilock _ ip (touches_ok _ _) (touches_self ip _) _ _ _ H) as Hfr.
  destruct (touches_lookup _ _ _ _ _ _ Hfr Hip) as (i & Hi & _ & Hch).
  specialize (Hch eq_refl).
  unfold ilock in H. rewrite (bind_eq _ _ _ _ _ (get_inode_eq _ _ _ Hip)) in H.
  destruct (i_ref i0 <? 1); [discriminate|].
  apply bind_Done in H as ([] & s1 & Hacq & H).
  unfold acquiresleep in Hacq.
  rewrite (bind_eq _ _ _ _ _ (get_inode_eq _ _ _ Hip)) in Hacq.
  destruct (i_lock i0) eqn:Hl0; [discriminate|]. split; [reflexivity|].
  rewrite (upd_inode_eq _ _ _ _ Hip) in Hacq. inversion Hacq as [Hs1]. clear Hacq.
  assert (icache s1 !! ip = Some (set_i_lock true i0)) as Hip1
    by (rewrite <- Hs1; apply (lookup_insert_slot _ _ _ _ Hip)).
  rewrite (bind_eq _ _ _ _ _ (get_inode_eq _ _ _ Hip1)) in H.
  exists i. split; [exact Hi|]. split; [|split; assumption].
  cbn [i_valid set_i_lock] in H.
  destruct (i_valid i0 =? 0).
  - unfold bind at 1 in H. unfold get at 1 in H.
    apply bind_Done in H as ([] & s2 & Hu1 & H).
    rewrite (upd_inode_eq _ _ _ _ Hip1) in Hu1. inversion Hu1 as [Hs2]. clear Hu1.
    apply bind_Done in H as ([] & s3 & Hu2 & H).
    assert (exists i2, icache s2 !! ip = Some i2 /\ i_lock i2 = true) as (i2 & Hip2 & Hl2).
    { eexists. split; [rewrite <- Hs2; apply (lookup_insert_slot _ _ _ _ Hip1)|reflexivity]. }
    rewrite (upd_inode_eq _ _ _ _ Hip2) in Hu2. inversion Hu2 as [Hs3]. clear Hu2.
    destruct (d_type _ =? 0); [discriminate|]. inversion H; subst s'.
    rewrite <- Hs3 in Hi. simpl in Hi.
    rewrite (lookup_insert_slot _ _ _ _ Hip2) in Hi. inversion Hi; subst i.
    exact Hl2.
  - inversion H; subst s'. rewrite Hip1 in Hi. inversion Hi; subst i. reflexivity.
Qed.

Lemma ialloc_scan_spec dev type : forall cands s ip s',
  ialloc_scan dev type cands s = Done ip s' ->
  exists inum s1,
    inum ∈ cands /\ d_type (dinode_at s dev inum) = 0 /\
    dstore dev inum (mkDinode type 0 0 0 0 (d_addrs zero_dinode)) s = Done tt s1 /\
    iget dev inum s1 = Done ip s'.
Proof.
  induction cands as [|c cands IH]; intros s ip s' H; simpl in H; [discriminate|].
  unfold bind at 1 in H. unfold get at 1 in H.
  destruct (Z.eqb_spec (d_type (dinode_at s dev c)) 0) as [Hz|Hnz].
  - apply bind_Done in H as ([] & s1 & Hst & Hget).
    exists c, s1. split; [left|]. repeat split; assumption.
  - apply IH in H as (inum & s1 & Hin & Hrest). exists inum, s1.
    split; [right; exact Hin|exact Hrest].
Qed.

Lemma create_inv_touch ip dp dev inum major minor nl pinum x fs st st' :
  ip <> dp -> frame (touches x fs) st st' ->
  (x = ip -> sub_fields fs [Faddrs; Fsize; Fref; Fvalid; Ftype] = true) ->
  (x = dp -> mem_field Fnlink fs = false /\ mem_field Finum fs = false) ->
  create_inv ip dp dev inum major minor nl pinum st ->
  create_inv ip dp dev inum major minor nl pinum st'.
Proof.
  intros Hne Hfr Hxi Hxd ((i & Hi & Hnew) & (d & Hd & Hnl & Hpi)).
  destruct (touches_lookup _ _ _ _ _ _ Hfr Hi) as (i' & Hi' & Hsame & Hch).
  destruct (touches_lookup _ _ _ _ _ _ Hfr Hd) as (d' & Hd' & Hsamed & Hchd).
  split.
  - exists i'. split; [exact Hi'|].
    destruct (decide (ip = x)) as [->|Hnx]; [|rewrite (Hsame Hnx); exact Hnew].
    pose proof (changes_sub _ _ _ _ (Hxi eq_refl) (Hch eq_refl)) as Hc.
    destruct Hnew as (H1 & H2 & H3 & H4 & H5 & H6).
    pose proof (Hc Flock eq_refl). pose proof (Hc Fnlink eq_refl).
    pose proof (Hc Fmajor eq_refl). pose proof (Hc Fminor eq_refl).
    pose proof (Hc Fdev eq_refl). pose proof (Hc Finum eq_refl).
    simpl in *. repeat split; congruence.
  - exists d'. split; [exact Hd'|].
    destruct (decide (dp = x)) as [->|Hnx]; [|rewrite (Hsamed Hnx); split; assumption].
    destruct (Hxd eq_refl) as (Hm1 & Hm2).
    pose proof (Hchd eq_refl Fnlink Hm1). pose proof (Hchd eq_refl Finum Hm2).
    simpl in *. split; congruence.
Qed.

Lemma create_inv_same_cache ip dp dev inum major minor nl pinum st st' :
  icache st' = icache st ->
  create_inv ip dp dev inum major minor nl pinum st ->
  create_inv ip dp dev inum major minor nl pinum st'.
Proof. intros Hc H. unfold create_inv in *. rewrite Hc. exact H. Qed.

Lemma get_inode_Done s ip i s' :
  get_inode ip s = Done i s' -> s' = s /\ icache s !! ip = Some i.
Proof.
  unfold get_inode. destruct (icache s !! ip); intros H; inversion H; subst.
  split; reflexivity.
Qed.

Lemma ilock_locked s ip s' :
  ilock ip s = Done tt s' ->
  exists i0 i, icache s !! ip = Some i0 /\ i_lock i0 = false /\
               icache s' !! ip = Some i /\ i_lock i = true /\
               changes [Flock; Fvalid; Ftype; Fmajor; Fminor; Fnlink; Fsize; Faddrs] i0 i /\
               frame (touches ip [Flock; Fvalid; Ftype; Fmajor; Fminor; Fnlink; Fsize; Faddrs])
                 s s'.
Proof.
  intros H. assert (exists i0, icache s !! ip = Some i0) as (i0 & Hip).
  { unfold ilock in H. apply bind_Done in H as (i0 & s0 & Hget & _).
    apply get_inode_Done in Hget as (_ & Hget). exists i0. exact Hget. }
  destruct (ilock_spec s ip i0 s' Hip H) as (Hl0 & i & Hi & Hl & Hch & Hfr).
  exists i0, i. split; [exact Hip|]. split; [exact Hl0|]. split; [exact Hi|].
  split; [exact Hl|]. split; [exact Hch|exact Hfr].
Qed.

Lemma iget_slot s dev inum ip s' :
  iget dev inum s = Done ip s' ->
  exists i i', icache s !! ip = Some i /\ icache s' = <[ip := i']> (icache s) /\
               i_lock i' = i_lock i /\ i_dev i' = dev /\ i_inum i' = inum.
Proof.
  intros H. pose proof (iget_spec s dev inum) as Hs. rewrite H in Hs.
  destruct Hs as (_ & _ & _ & _ & [(i & Hip & Hhit & Hc)|(_ & i & Hip & _ & _ & Hc)]).
  - exists i, (set_i_ref (i32 (i_ref i + 1)) i). destruct Hhit as (_ & Hd & Hn).
    repeat split; assumption.
  - exists i, (set_i_valid 0 (set_i_ref 1 (set_i_inum inum (set_i_dev dev i)))).
    repeat split; assumption.
Qed.

(** * Further properties of the code *)

(** ** Blocks *)

Lemma balloc_scan_seqZ dev : forall (n : nat) lo s,
  match balloc_scan dev (seqZ lo (Z.of_nat n)) s with
  | Done b s' =>
      lo <= b < lo + Z.of_nat n /\ bit_at s dev b = false /\
      (forall b', lo <= b' < b -> bit_at s dev b' = true) /\
      (bitstore dev b true ;; bzero dev b) s = Done tt s'
  | Panic _ => forall b, lo <= b < lo + Z.of_nat n -> bit_at s dev b = true
  | Sleeps => False
  | OutOfFuel => False
  end.
Proof.
  induction n as [|n IH]; intros lo s.
  - simpl. intros b Hb. lia.
  - rewrite seqZ_cons by lia. cbn [balloc_scan]. unfold bind at 1. unfold get at 1.
    replace (Z.pred (Z.of_nat (S n))) with (Z.of_nat n) by lia.
    destruct (bit_at s dev lo) eqn:Hbit.
    + specialize (IH (Z.succ lo) s).
      destruct (balloc_scan dev (seqZ (Z.succ lo) (Z.of_nat n)) s) as [b s'|msg| |];
        try exact IH.
      * destruct IH as (Hr & Hf & Hlow & Hst). split; [lia|]. split; [exact Hf|].
        split; [|exact Hst]. intros b' Hb'.
        destruct (decide (b' = lo)) as [->|]; [exact Hbit|apply Hlow; lia].
      * intros b Hb. destruct (decide (b = lo)) as [->|]; [exact Hbit|apply IH; lia].
    + cbv [bind bitstore bzero bstore modify log_write ret].
      split; [lia|]. split; [exact Hbit|]. split; [intros; lia|reflexivity].
Qed.

Lemma balloc_eq dev s :
  balloc dev s = balloc_scan dev (seqZ 0 (Z.of_nat (Z.to_nat (sb_size (sb s))))) s.
Proof.
  unfold balloc. unfold bind at 1. unfold get at 1. f_equal.
  unfold seqZ. rewrite Nat2Z.id. reflexivity.
Qed.

Lemma balloc_Done dev s b s' :
  balloc dev s = Done b s' ->
  0 <= b < sb_size (sb s) /\ bit_at s dev b = false /\
  (forall b', 0 <= b' < b -> bit_at s dev b' = true) /\
  (bitstore dev b true ;; bzero dev b) s = Done tt s'.
Proof.
  intros H. rewrite balloc_eq in H.
  pose proof (balloc_scan_seqZ dev (Z.to_nat (sb_size (sb s))) 0 s) as Hs.
  rewrite H in Hs. destruct Hs as (Hr & Hrest). split; [lia|exact Hrest].
Qed.

(** What the two stores of a successful [balloc] leave. *)
Lemma balloc_stores dev b s s' :
  (bitstore dev b true ;; bzero dev b) s = Done tt s' ->
  bit_at s' dev b = true /\ block_at s' dev b = zero_block /\
  (forall d b', (d, b') <> (dev, b) ->
     bit_at s' d b' = bit_at s d b' /\ block_at s' d b' = block_at s d b') /\
  dinodes s' = dinodes s /\ icache s' = icache s /\ sb s' = sb s /\
  trace s' = trace s ++ [EvLogWrite (TBitmap dev b); EvLogWrite (TData dev b)].
Proof.
  cbv [bind bitstore bzero bstore modify log_write ret]. intros H.
  inversion H; subst s'. clear H. unfold bit_at, block_at. simpl.
  rewrite !lookup_insert_eq. simpl. repeat split.
  - rewrite lookup_insert_ne by congruence. reflexivity.
  - rewrite lookup_insert_ne by congruence. reflexivity.
  - rewrite <- app_assoc. reflexivity.
Qed.

(** X1. [balloc] returns the lowest block of the device whose bit is clear
    in the bitmap: it sets that bit, zeroes the block, logs the two writes
    in that order, and leaves every other bit, every other block, the inodes
    and the cache as they are.  It stops fatally exactly when every block
    below [sb.size] is in use; it never sleeps. *)
Theorem balloc_lowest_free dev s :
  match balloc dev s with
  | Done b s' =>
      0 <= b < sb_size (sb s) /\ bit_at s dev b = false /\
      (forall b', 0 <= b' < b -> bit_at s dev b' = true) /\
      bit_at s' dev b = true /\ block_at s' dev b = zero_block /\
      (forall d b', (d, b') <> (dev, b) ->
         bit_at s' d b' = bit_at s d b' /\ block_at s' d b' = block_at s d b') /\
      dinodes s' = dinodes s /\ icache s' = icache s /\
      trace s' = trace s ++ [EvLogWrite (TBitmap dev b); EvLogWrite (TData dev b)]
  | Panic msg =>
      msg = "balloc: out of blocks"%string /\
      forall b, 0 <= b < sb_size (sb s) -> bit_at s dev b = true
  | Sleeps => False
  | OutOfFuel => False
  end.
Proof.
  destruct (balloc dev s) as [b s'|msg| |] eqn:H.
  - destruct (balloc_Done _ _ _ _ H) as (Hr & Hf & Hlow & Hst).
    destruct (balloc_stores _ _ _ _ Hst) as (Hb & Hz & Hoth & Hd & Hc & _ & Htr).
    repeat split; try assumption; try lia; apply Hoth; assumption.
  - rewrite balloc_eq in H.
    pose proof (balloc_scan_seqZ dev (Z.to_nat (sb_size (sb s))) 0 s) as Hs.
    rewrite H in Hs. split.
    + clear Hs. revert H. generalize (seqZ 0 (Z.of_nat (Z.to_nat (sb_size (sb s))))).
      intros l. induction l as [|c l IH]; simpl.
      * intros H. inversion H. reflexivity.
      * unfold bind at 1. unfold get at 1. destruct (bit_at s dev c); [exact IH|].
        cbv [bind bitstore bzero bstore modify log_write ret]. discriminate.
    + intros b Hb. apply Hs. lia.
  - rewrite balloc_eq in H.
    pose proof (balloc_scan_seqZ dev (Z.to_nat (sb_size (sb s))) 0 s) as Hs.
    rewrite H in Hs. exact Hs.
  - rewrite balloc_eq in H.
    pose proof (balloc_scan_seqZ dev (Z.to_nat (sb_size (sb s))) 0 s) as Hs.
    rewrite H in Hs. exact Hs.
Qed.

(** X2. [bfree] undoes [balloc] on the bitmap: freeing the block that
    [balloc] has just returned succeeds and gives every bit the value it had
    before the allocation; freeing it a second time is caught and stops
    fatally. *)
Theorem bfree_undoes_balloc dev s b s1 :
  balloc dev s = Done b s1 ->
  exists s2,
    bfree dev b s1 = Done tt s2 /\
    (forall d b', bit_at s2 d b' = bit_at s d b') /\
    bfree dev b s2 = Panic "freeing free block".
Proof.
  intros H. destruct (balloc_Done _ _ _ _ H) as (_ & Hf & _ & Hst).
  destruct (balloc_stores _ _ _ _ Hst) as (Hb & _ & Hoth & _).
  assert (exists s2, bfree dev b s1 = Done tt s2) as (s2 & H2).
  { unfold bfree. unfold bind at 1. unfold get at 1. rewrite Hb.
    cbv [bind bitstore modify log_write]. eexists. reflexivity. }
  exists s2. split; [exact H2|].
  destruct (bfree_spec _ _ _ _ H2) as (_ & Hcl & Hoth2 & _). split.
  - intros d b'. destruct (decide ((d, b') = (dev, b))) as [Heq|Hne].
    + inversion Heq; subst. rewrite Hcl, Hf. reflexivity.
    + rewrite (Hoth2 d b' Hne). apply Hoth. exact Hne.
  - unfold bfree. unfold bind at 1. unfold get at 1. rewrite Hcl. reflexivity.
Qed.

(** ** Inodes *)

Lemma ialloc_scan_seqZ dev type : forall (n : nat) lo s,
  match ialloc_scan dev type (seqZ lo (Z.of_nat n)) s with
  | Done ip s' =>
      exists inum s1,
        lo <= inum < lo + Z.of_nat n /\ d_type (dinode_at s dev inum) = 0 /\
        (forall j, lo <= j < inum -> d_type (dinode_at s dev j) <> 0) /\
        dstore dev inum (mkDinode type 0 0 0 0 (d_addrs zero_dinode)) s = Done tt s1 /\
        iget dev inum s1 = Done ip s'
  | Panic _ =>
      (forall j, lo <= j < lo + Z.of_nat n -> d_type (dinode_at s dev j) <> 0) \/
      (forall j a, icache s !! j = Some a -> i_ref a <> 0)
  | Sleeps => False
  | OutOfFuel => False
  end.
Proof.
  induction n as [|n IH]; intros lo s.
  - simpl. left. intros j Hj. lia.
  - rewrite seqZ_cons by lia. cbn [ialloc_scan]. unfold bind at 1. unfold get at 1.
    replace (Z.pred (Z.of_nat (S n))) with (Z.of_nat n) by lia.
    destruct (Z.eqb_spec (d_type (dinode_at s dev lo)) 0) as [Hz|Hnz].
    + unfold bind at 1.
      destruct (dstore dev lo (mkDinode type 0 0 0 0 (d_addrs zero_dinode)) s)
        as [[] s1| | |] eqn:Hst; try discriminate Hst.
      pose proof (iget_spec s1 dev lo) as Hg.
      assert (icache s1 = icache s) as Hc.
      { cbv [dstore bind modify log_write] in Hst. inversion Hst. reflexivity. }
      destruct (iget dev lo s1) as [ip s'|msg| |] eqn:Hget; try exact Hg.
      * exists lo, s1. split; [lia|]. split; [exact Hz|]. split; [intros; lia|].
        split; [exact Hst|exact Hget].
      * right. intros j a Hj. rewrite <- Hc in Hj. apply (Hg j a Hj).
    + specialize (IH (Z.succ lo) s).
      destruct (ialloc_scan dev type (seqZ (Z.succ lo) (Z.of_nat n)) s)
        as [ip s'|msg| |]; try exact IH.
      * destruct IH as (inum & s1 & Hr & Hf & Hlow & Hst & Hget).
        exists inum, s1. split; [lia|]. split; [exact Hf|]. split; [|split; assumption].
        intros j Hj. destruct (decide (j = lo)) as [->|]; [exact Hnz|apply Hlow; lia].
      * destruct IH as [IH|IH]; [left|right; exact IH].
        intros j Hj. destruct (decide (j = lo)) as [->|]; [exact Hnz|apply IH; lia].
Qed.

(** X3. [ialloc] takes the lowest inumber from 1 up whose on-disk type is 0
    (inumber 0 is never handed out): the on-disk inode becomes all zeroes but
    for the type asked for, no other on-disk inode, no bitmap bit and no
    block changes, and the cache slot returned carries the device and that
    inumber.  It stops fatally only when no inode below [sb.ninodes] is free
    or when the cache has no slot left. *)
Theorem ialloc_lowest_free dev type s :
  match ialloc dev type s with
  | Done ip s' =>
      exists inum i,
        1 <= inum < sb_ninodes (sb s) /\ d_type (dinode_at s dev inum) = 0 /\
        (forall j, 1 <= j < inum -> d_type (dinode_at s dev j) <> 0) /\
        dinode_at s' dev inum =
          mkDinode type 0 0 0 0 (replicate (Z.to_nat (NDIRECT + 1)) 0) /\
        (forall d j, (d, j) <> (dev, inum) -> dinode_at s' d j = dinode_at s d j) /\
        bitmap s' = bitmap s /\ blocks s' = blocks s /\
        icache s' !! ip = Some i /\ i_dev i = dev /\ i_inum i = inum
  | Panic _ =>
      (forall j, 1 <= j < sb_ninodes (sb s) -> d_type (dinode_at s dev j) <> 0) \/
      (forall j a, icache s !! j = Some a -> i_ref a <> 0)
  | Sleeps => False
  | OutOfFuel => False
  end.
Proof.
  assert (ialloc dev type s =
          ialloc_scan dev type (seqZ 1 (Z.of_nat (Z.to_nat (sb_ninodes (sb s) - 1)))) s)
    as ->.
  { unfold ialloc. unfold bind at 1. unfold get at 1. f_equal.
    unfold seqZ. rewrite Nat2Z.id. reflexivity. }
  pose proof (ialloc_scan_seqZ dev type (Z.to_nat (sb_ninodes (sb s) - 1)) 1 s) as Hs.
  destruct (ialloc_scan dev type _ s) as [ip s'|msg| |]; try exact Hs.
  - destruct Hs as (inum & s1 & Hr & Hf & Hlow & Hst & Hget).
    destruct (iget_slot _ _ _ _ _ Hget) as (i0 & i & Hi0 & Hc & _ & Hdev & Hinum).
    pose proof (iget_spec s1 dev inum) as Hg. rewrite Hget in Hg.
    destruct Hg as (Hd & Hb & Hbl & _).
    cbv [dstore bind modify log_write] in Hst. inversion Hst as [Hs1]. clear Hst.
    exists inum, i. split; [lia|]. split; [exact Hf|]. split; [exact Hlow|].
    unfold dinode_at. rewrite Hd, Hb, Hbl, <- Hs1. simpl.
    rewrite lookup_insert_eq. simpl. repeat split.
    + intros d j Hne. rewrite lookup_insert_ne by congruence. reflexivity.
    + rewrite Hc. apply (lookup_insert_slot _ _ _ _ Hi0).
    + exact Hdev.
    + exact Hinum.
  - destruct Hs as [Hs|Hs]; [left|right; exact Hs]. intros j Hj. apply Hs. lia.
Qed.

Lemma set_lock_back i : i_lock i = false -> set_i_lock false (set_i_lock true i) = i.
Proof. intros H. destruct i; simpl in *; subst; reflexivity. Qed.

(** X4. On a valid inode that the caller references and nobody holds,
    [ilock] followed by [iunlock] gives the state back unchanged: nothing is
    read from the disk; [iunlock] of an inode whose lock is not held stops
    fatally. *)
Theorem ilock_iunlock_id s ip i :
  icache s !! ip = Some i -> i_lock i = false -> 1 <= i_ref i -> i_valid i <> 0 ->
  (ilock ip ;; iunlock ip) s = Done tt s /\ iunlock ip s = Panic "iunlock".
Proof.
  intros Hip Hl Href Hv. split.
  - assert (ilock ip s = Done tt (set_icache (<[ip := set_i_lock true i]> (icache s)) s))
      as Hlock.
    { unfold ilock. rewrite (bind_eq _ _ _ _ _ (get_inode_eq _ _ _ Hip)).
      destruct (Z.ltb_spec (i_ref i) 1); [lia|].
      rewrite (bind_eq _ _ _ _ _ (acquiresleep_eq _ _ _ Hip Hl)).
      set (s1 := set_icache _ s).
      assert (icache s1 !! ip = Some (set_i_lock true i)) as Hip1
        by (apply (lookup_insert_slot _ _ _ _ Hip)).
      rewrite (bind_eq _ _ _ _ _ (get_inode_eq _ _ _ Hip1)). simpl.
      apply Z.eqb_neq in Hv. rewrite Hv. reflexivity. }
    rewrite (bind_eq _ _ _ _ _ Hlock). set (s1 := set_icache _ s).
    assert (icache s1 !! ip = Some (set_i_lock true i)) as Hip1
      by (apply (lookup_insert_slot _ _ _ _ Hip)).
    assert (holdingsleep ip s1 = Done true s1) as Hh.
    { unfold holdingsleep. rewrite (bind_eq _ _ _ _ _ (get_inode_eq _ _ _ Hip1)).
      reflexivity. }
    unfold iunlock. rewrite (bind_eq _ _ _ _ _ Hh).
    rewrite (bind_eq _ _ _ _ _ (get_inode_eq _ _ _ Hip1)). simpl.
    destruct (Z.ltb_spec (i_ref i) 1); [lia|].
    unfold releasesleep. rewrite (upd_inode_eq _ _ _ _ Hip1). subst s1. simpl.
    rewrite list_insert_insert_eq, (set_lock_back i Hl), (list_insert_id _ _ _ Hip).
    destruct s; reflexivity.
  - assert (holdingsleep ip s = Done false s) as Hh.
    { unfold holdingsleep. rewrite (bind_eq _ _ _ _ _ (get_inode_eq _ _ _ Hip)), Hl.
      reflexivity. }
    unfold iunlock. rewrite (bind_eq _ _ _ _ _ Hh).
    rewrite (bind_eq _ _ _ _ _ (get_inode_eq _ _ _ Hip)). reflexivity.
Qed.

(** X5. [idup] followed by [iput] gives the state back unchanged, for an
    inode that the caller references and nobody holds: with a second
    reference outstanding [iput] never frees the inode. *)
Theorem idup_iput_id s ip i :
  icache s !! ip = Some i -> i_lock i = false -> 1 <= i_ref i < 2 ^ 31 - 1 ->
  (let* p := idup ip in iput p) s = Done tt s.
Proof.
  intros Hip Hl Href. unfold idup.
  rewrite (bind_eq _ _ _ ip (set_icache (<[ip := set_i_ref (i32 (i_ref i + 1)) i]> (icache s)) s)).
  2: { rewrite (bind_eq _ _ _ _ _ (upd_inode_eq _ _ _ _ Hip)). reflexivity. }
  set (s1 := set_icache _ s).
  assert (icache s1 !! ip = Some (set_i_ref (i32 (i_ref i + 1)) i)) as Hip1
    by (apply (lookup_insert_slot _ _ _ _ Hip)).
  rewrite (iput_plain s1 ip _ Hip1 Hl).
  - subst s1. simpl. rewrite list_insert_insert_eq.
    rewrite (i32_id (i_ref i + 1)) by lia.
    replace (i_ref i + 1 - 1) with (i_ref i) by lia. rewrite i32_id by lia.
    replace (set_i_ref (i_ref i) (set_i_ref (i_ref i + 1) i)) with i
      by (destruct i; reflexivity).
    rewrite (list_insert_id _ _ _ Hip). destruct s; reflexivity.
  - simpl. rewrite i32_id by lia. intros (_ & _ & Hone). lia.
Qed.

(** X6. [iget] followed by [iput] of the slot it returned leaves every
    reference count of the cache and the whole disk as they were, whether
    the inode was cached or a free slot was claimed for it; the pair takes
    no fuel. *)
Theorem iget_iput_roundtrip s dev inum ip s1 :
  refs_int s -> iget dev inum s = Done ip s1 ->
  iput ip s1 <> OutOfFuel /\
  forall s', iput ip s1 = Done tt s' ->
    i_ref <$> icache s' = i_ref <$> icache s /\
    dinodes s' = dinodes s /\ bitmap s' = bitmap s /\ blocks s' = blocks s.
Proof.
  intros Hrefs Hget. split; [apply nofuel_iput|].
  intros s' Hput. exact (iget_iput_refs s dev inum ip s1 tt s' Hrefs Hget Hput).
Qed.

(** ** Open files and descriptors *)

Lemma lookup_insert_some {A} (l : list A) k a v :
  l !! k = Some a -> <[k := v]> l !! k = Some v.
Proof. intros H. apply list_lookup_insert_eq. eapply lookup_lt_Some. exact H. Qed.

Lemma state_eta s :
  mkState (sb s) (dinodes s) (bitmap s) (blocks s) (icache s) (ftable s) (cwd s)
    (ofile s) (outstanding s) (trace s) = s.
Proof. destruct s; reflexivity. Qed.

Lemma set_ftable_id s l : l = ftable s -> set_ftable l s = s.
Proof. intros ->. apply state_eta. Qed.

Lemma filealloc_scan_spec l : forall idx,
  match filealloc_scan l idx with
  | Some f =>
      exists k fl, f = (idx + k)%nat /\ l !! k = Some fl /\ f_ref fl = 0 /\
                   forall j fj, (j < k)%nat -> l !! j = Some fj -> f_ref fj <> 0
  | None => forall j fj, l !! j = Some fj -> f_ref fj <> 0
  end.
Proof.
  induction l as [|fl l IH]; intros idx; simpl.
  - intros j fj H. discriminate.
  - destruct (Z.eqb_spec (f_ref fl) 0) as [Hz|Hnz].
    + exists 0%nat, fl. split; [lia|]. split; [reflexivity|]. split; [exact Hz|].
      intros j fj Hj. lia.
    + specialize (IH (S idx)). destruct (filealloc_scan l (S idx)) as [f|].
      * destruct IH as (k & fk & -> & Hk & Hz & Hlow).
        exists (S k), fk. split; [lia|]. split; [exact Hk|]. split; [exact Hz|].
        intros [|j] fj Hj Hl; simpl in Hl; [congruence|]. apply (Hlow j fj); [lia|exact Hl].
      * intros [|j] fj Hl; simpl in Hl; [congruence|]. apply (IH j fj Hl).
Qed.

Lemma filealloc_spec s :
  match filealloc s with
  | Done (Some f) s' =>
      exists fl, ftable s !! f = Some fl /\ f_ref fl = 0 /\
                 (forall j fj, (j < f)%nat -> ftable s !! j = Some fj -> f_ref fj <> 0) /\
                 s' = set_ftable (<[f := set_f_ref 1 fl]> (ftable s)) s
  | Done None s' => s' = s /\ forall j fj, ftable s !! j = Some fj -> f_ref fj <> 0
  | Panic _ => False
  | Sleeps => False
  | OutOfFuel => False
  end.
Proof.
  unfold filealloc. unfold bind at 1. unfold get at 1.
  pose proof (filealloc_scan_spec (ftable s) 0) as Hs.
  destruct (filealloc_scan (ftable s) 0) as [f|].
  - destruct Hs as (k & fl & -> & Hk & Hz & Hlow). simpl.
    rewrite (bind_eq _ _ _ _ _ (upd_file_eq _ _ _ _ Hk)). unfold ret.
    exists fl. repeat split; assumption.
  - unfold ret. split; [reflexivity|exact Hs].
Qed.

(** X7. [filealloc] returns the first handle of the table whose [ref] is 0
    and sets its [ref] to 1, touching nothing else; when every handle is in
    use it returns null and changes nothing.  It never stops fatally. *)
Theorem filealloc_first_free s :
  match filealloc s with
  | Done (Some f) s' =>
      exists fl, ftable s !! f = Some fl /\ f_ref fl = 0 /\
                 (forall j fj, (j < f)%nat -> ftable s !! j = Some fj -> f_ref fj <> 0) /\
                 s' = set_ftable (<[f := set_f_ref 1 fl]> (ftable s)) s
  | Done None s' => s' = s /\ forall j fj, ftable s !! j = Some fj -> f_ref fj <> 0
  | Panic _ => False
  | Sleeps => False
  | OutOfFuel => False
  end.
Proof. exact (filealloc_spec s). Qed.

Lemma fdalloc_scan_spec l : forall idx,
  match fdalloc_scan l idx with
  | Some fd =>
      exists k, fd = (idx + k)%nat /\ l !! k = Some None /\
                forall j, (j < k)%nat -> l !! j <> Some None
  | None => forall j, l !! j <> Some None
  end.
Proof.
  induction l as [|o l IH]; intros idx; simpl.
  - intros j H. discriminate.
  - destruct o as [g|].
    + specialize (IH (S idx)). destruct (fdalloc_scan l (S idx)) as [fd|].
      * destruct IH as (k & -> & Hk & Hlow). exists (S k). split; [lia|].
        split; [exact Hk|]. intros [|j] Hj; simpl; [congruence|]. apply Hlow. lia.
      * intros [|j]; simpl; [congruence|]. apply IH.
    + exists 0%nat. split; [lia|]. split; [reflexivity|]. intros j Hj. lia.
Qed.

Lemma fdalloc_spec f s :
  match fdalloc f s with
  | Done fd s' =>
      (exists k, fd = Z.of_nat k /\ ofile s !! k = Some None /\
                 (forall j, (j < k)%nat -> ofile s !! j <> Some None) /\
                 s' = set_ofile (<[k := Some f]> (ofile s)) s)
      \/ (fd = -1 /\ s' = s /\ forall j, ofile s !! j <> Some None)
  | Panic _ => False
  | Sleeps => False
  | OutOfFuel => False
  end.
Proof.
  unfold fdalloc. unfold bind at 1. unfold get at 1.
  pose proof (fdalloc_scan_spec (ofile s) 0) as Hs.
  destruct (fdalloc_scan (ofile s) 0) as [fd|].
  - destruct Hs as (k & -> & Hk & Hlow). simpl. left. exists k.
    repeat split; assumption.
  - right. repeat split. exact Hs.
Qed.

(** X8. [fdalloc] stores the handle in the lowest empty slot of the
    descriptor table of the process and returns its index, leaving the other
    slots alone; when the table is full it returns -1 and changes nothing. *)
Theorem fdalloc_lowest f s :
  match fdalloc f s with
  | Done fd s' =>
      (exists k, fd = Z.of_nat k /\ ofile s !! k = Some None /\
                 (forall j, (j < k)%nat -> ofile s !! j <> Some None) /\
                 s' = set_ofile (<[k := Some f]> (ofile s)) s)
      \/ (fd = -1 /\ s' = s /\ forall j, ofile s !! j <> Some None)
  | Panic _ => False
  | Sleeps => False
  | OutOfFuel => False
  end.
Proof. exact (fdalloc_spec f s). Qed.

Lemma filedup_eq s f fl :
  ftable s !! f = Some fl -> 1 <= f_ref fl ->
  filedup f s =
  Done f (set_ftable (<[f := set_f_ref (i32 (f_ref fl + 1)) fl]> (ftable s)) s).
Proof.
  intros Hf Hr. unfold filedup. rewrite (bind_eq _ _ _ _ _ (get_file_eq _ _ _ Hf)).
  destruct (Z.ltb_spec (f_ref fl) 1); [lia|].
  rewrite (bind_eq _ _ _ _ _ (upd_file_eq _ _ _ _ Hf)). reflexivity.
Qed.

Lemma fileclose_dec s f fl :
  ftable s !! f = Some fl -> 1 <= f_ref fl -> 0 < i32 (f_ref fl - 1) ->
  fileclose f s =
  Done tt (set_ftable (<[f := set_f_ref (i32 (f_ref fl - 1)) fl]> (ftable s)) s).
Proof.
  intros Hf Hr Hpos. unfold fileclose.
  rewrite (bind_eq _ _ _ _ _ (get_file_eq _ _ _ Hf)).
  destruct (Z.ltb_spec (f_ref fl) 1); [lia|].
  rewrite (bind_eq _ _ _ _ _ (upd_file_eq _ _ _ _ Hf)).
  destruct (Z.ltb_spec 0 (i32 (f_ref fl - 1))); [reflexivity|lia].
Qed.

Lemma filedup_fileclose s f fl :
  ftable s !! f = Some fl -> 1 <= f_ref fl < 2 ^ 31 - 1 ->
  (let* g := filedup f in fileclose g) s = Done tt s.
Proof.
  intros Hf Hr. rewrite (bind_eq _ _ _ _ _ (filedup_eq _ _ _ Hf ltac:(lia))).
  set (s1 := set_ftable _ s).
  assert (ftable s1 !! f = Some (set_f_ref (i32 (f_ref fl + 1)) fl)) as Hf1
    by (apply (lookup_insert_some _ _ _ _ Hf)).
  rewrite (i32_id (f_ref fl + 1)) in * by lia.
  rewrite (fileclose_dec s1 f _ Hf1); simpl;
    replace (f_ref fl + 1 - 1) with (f_ref fl) by lia; rewrite ?i32_id by lia; try lia.
  subst s1. simpl. rewrite list_insert_insert_eq.
  replace (set_f_ref (f_ref fl) (set_f_ref (f_ref fl + 1) fl)) with fl
    by (destruct fl; reflexivity).
  rewrite (list_insert_id _ _ _ Hf). f_equal. destruct s; reflexivity.
Qed.

(** X9. [filedup] followed by [fileclose] gives the state back unchanged
    for a handle in use: the close only drops the reference that the dup
    took and releases nothing.  On a handle whose [ref] is below 1 both
    functions stop fatally. *)
Theorem filedup_fileclose_id s f fl :
  ftable s !! f = Some fl ->
  (1 <= f_ref fl < 2 ^ 31 - 1 -> (let* g := filedup f in fileclose g) s = Done tt s) /\
  (f_ref fl < 1 ->
   filedup f s = Panic "filedup" /\ fileclose f s = Panic "fileclose").
Proof.
  intros Hf. split; [apply filedup_fileclose; exact Hf|].
  intros Hr. unfold filedup, fileclose.
  rewrite !(bind_eq _ _ _ _ _ (get_file_eq _ _ _ Hf)).
  destruct (Z.ltb_spec (f_ref fl) 1); [|lia]. split; reflexivity.
Qed.

(** X10. [fileclose] of the last reference to a handle backed by an inode
    marks the handle unused ([ref] 0, type none) and then releases the inode
    with [iput] inside a transaction of its own; with further references
    outstanding it only decrements [ref]: the inode is not released and no
    transaction is opened. *)
Theorem fileclose_last_reference s f fl :
  ftable s !! f = Some fl -> f_type fl = FD_INODE ->
  (1 < f_ref fl < 2 ^ 31 ->
   fileclose f s =
   Done tt (set_ftable (<[f := set_f_ref (f_ref fl - 1) fl]> (ftable s)) s)) /\
  (f_ref fl = 1 ->
   fileclose f s =
   (begin_op ;; iput (f_ip fl) ;; end_op)
     (set_ftable (<[f := set_f_type FD_NONE (set_f_ref 0 fl)]> (ftable s)) s)).
Proof.
  intros Hf Hty. split.
  - intros Hr. rewrite (fileclose_dec s f fl Hf); rewrite ?i32_id by lia; try lia.
    reflexivity.
  - intros Hr. unfold fileclose. rewrite (bind_eq _ _ _ _ _ (get_file_eq _ _ _ Hf)).
    destruct (Z.ltb_spec (f_ref fl) 1); [lia|].
    rewrite (bind_eq _ _ _ _ _ (upd_file_eq _ _ _ _ Hf)). rewrite Hr. simpl.
    set (s1 := set_ftable _ s).
    assert (ftable s1 !! f = Some (set_f_ref 0 fl)) as Hf1
      by (apply (lookup_insert_some _ _ _ _ Hf)).
    rewrite (bind_eq _ _ _ _ _ (get_file_eq _ _ _ Hf1)).
    rewrite (bind_eq _ _ _ _ _ (upd_file_eq _ _ _ _ Hf1)). simpl. rewrite Hty.
    subst s1. simpl. rewrite list_insert_insert_eq. reflexivity.
Qed.

(** X11. [filealloc] followed by [fileclose] of the handle it returned gives
    the state back unchanged, provided the unused handles of the table carry
    the type none (as [fileclose] leaves them); nothing is released. *)
Theorem filealloc_fileclose_id s :
  (forall j fj, ftable s !! j = Some fj -> f_ref fj = 0 -> f_type fj = FD_NONE) ->
  (let* r := filealloc in
   match r with
   | Some f => fileclose f
   | None => ret tt
   end) s = Done tt s.
Proof.
  intros Hnone.
  assert (filealloc s =
          match filealloc_scan (ftable s) 0 with
          | Some f => (upd_file f (set_f_ref 1) ;; ret (Some f)) s
          | None => Done None s
          end) as Hfa.
  { unfold filealloc. unfold bind at 1. unfold get at 1.
    destruct (filealloc_scan (ftable s) 0); reflexivity. }
  pose proof (filealloc_scan_spec (ftable s) 0) as Hs.
  destruct (filealloc_scan (ftable s) 0) as [f|];
    [|rewrite (bind_eq _ _ _ _ _ Hfa); reflexivity].
  destruct Hs as (k & fl & -> & Hk & Hz & _). simpl in Hfa.
  rewrite (bind_eq _ _ _ _ _ (upd_file_eq _ _ _ _ Hk)) in Hfa. unfold ret in Hfa.
  rewrite (bind_eq _ _ _ _ _ Hfa). set (s1 := set_ftable _ s).
  assert (ftable s1 !! k = Some (set_f_ref 1 fl)) as Hk1
    by (apply (lookup_insert_some _ _ _ _ Hk)).
  unfold fileclose. rewrite (bind_eq _ _ _ _ _ (get_file_eq _ _ _ Hk1)). simpl.
  rewrite (bind_eq _ _ _ _ _ (upd_file_eq _ _ _ _ Hk1)). simpl.
  set (s2 := set_ftable _ s1).
  assert (ftable s2 !! k = Some (set_f_ref 0 (set_f_ref 1 fl))) as Hk2
    by (apply (lookup_insert_some _ _ _ _ Hk1)).
  rewrite (bind_eq _ _ _ _ _ (get_file_eq _ _ _ Hk2)).
  rewrite (bind_eq _ _ _ _ _ (upd_file_eq _ _ _ _ Hk2)). simpl.
  rewrite (Hnone k fl Hk Hz). unfold ret. f_equal.
  subst s2 s1. simpl. rewrite !list_insert_insert_eq.
  replace (set_f_type FD_NONE (set_f_ref 0 (set_f_ref 0 (set_f_ref 1 fl)))) with fl.
  - rewrite (list_insert_id _ _ _ Hk). destruct s; reflexivity.
  - pose proof (Hnone k fl Hk Hz). destruct fl; simpl in *; subst; reflexivity.
Qed.

Lemma ilock_valid_eq s ip i :
  icache s !! ip = Some i -> i_lock i = false -> 1 <= i_ref i -> i_valid i <> 0 ->
  ilock ip s = Done tt (set_icache (<[ip := set_i_lock true i]> (icache s)) s).
Proof.
  intros Hip Hl Href Hv. unfold ilock.
  rewrite (bind_eq _ _ _ _ _ (get_inode_eq _ _ _ Hip)).
  destruct (Z.ltb_spec (i_ref i) 1); [lia|].
  rewrite (bind_eq _ _ _ _ _ (acquiresleep_eq _ _ _ Hip Hl)).
  set (s1 := set_icache _ s).
  assert (icache s1 !! ip = Some (set_i_lock true i)) as Hip1
    by (apply (lookup_insert_slot _ _ _ _ Hip)).
  rewrite (bind_eq _ _ _ _ _ (get_inode_eq _ _ _ Hip1)). simpl.
  apply Z.eqb_neq in Hv. rewrite Hv. reflexivity.
Qed.

Lemma iunlock_eq s ip i :
  icache s !! ip = Some i -> i_lock i = true -> 1 <= i_ref i ->
  iunlock ip s = Done tt (set_icache (<[ip := set_i_lock false i]> (icache s)) s).
Proof.
  intros Hip Hl Href.
  assert (holdingsleep ip s = Done true s) as Hh.
  { unfold holdingsleep. rewrite (bind_eq _ _ _ _ _ (get_inode_eq _ _ _ Hip)), Hl.
    reflexivity. }
  unfold iunlock. rewrite (bind_eq _ _ _ _ _ Hh).
  rewrite (bind_eq _ _ _ _ _ (get_inode_eq _ _ _ Hip)). simpl.
  destruct (Z.ltb_spec (i_ref i) 1); [lia|].
  unfold releasesleep. apply upd_inode_eq. exact Hip.
Qed.

(** X12. [filestat] of a handle that is not backed by an inode returns -1
    and changes nothing.  For a handle backed by a valid inode that nobody
    holds it returns 0 with the device, inumber, type, link count and size
    of the inode, and leaves the state as it was: the lock it takes is
    released. *)
Theorem filestat_spec s f fl :
  ftable s !! f = Some fl ->
  (f_type fl <> FD_INODE -> filestat f s = Done (-1, None) s) /\
  (f_type fl = FD_INODE ->
   forall i, icache s !! f_ip fl = Some i -> i_lock i = false -> 1 <= i_ref i ->
             i_valid i <> 0 ->
     filestat f s =
     Done (0, Some (mkStat (i_dev i) (i_inum i) (i_type i) (i_nlink i) (i_size i))) s).
Proof.
  intros Hf. unfold filestat. rewrite (bind_eq _ _ _ _ _ (get_file_eq _ _ _ Hf)). split.
  - intros Hty. destruct (f_type fl); try reflexivity. congruence.
  - intros Hty i Hip Hl Href Hv. rewrite Hty.
    rewrite (bind_eq _ _ _ _ _ (ilock_valid_eq _ _ _ Hip Hl Href Hv)).
    set (s1 := set_icache _ s).
    assert (ftable s1 !! f = Some fl) as Hf1 by exact Hf.
    assert (icache s1 !! f_ip fl = Some (set_i_lock true i)) as Hip1
      by (apply (lookup_insert_slot _ _ _ _ Hip)).
    rewrite (bind_eq _ _ _ _ _ (get_file_eq _ _ _ Hf1)).
    assert (stati (f_ip fl) s1 =
            Done (mkStat (i_dev i) (i_inum i) (i_type i) (i_nlink i) (i_size i)) s1)
      as Hst.
    { unfold stati. rewrite (bind_eq _ _ _ _ _ (get_inode_eq _ _ _ Hip1)). reflexivity. }
    rewrite (bind_eq _ _ _ _ _ Hst).
    rewrite (bind_eq _ _ _ _ _ (get_file_eq _ _ _ Hf1)).
    rewrite (bind_eq _ _ _ _ _ (iunlock_eq _ _ _ Hip1 eq_refl Href)).
    unfold ret. f_equal. subst s1. simpl.
    rewrite list_insert_insert_eq, (set_lock_back i Hl), (list_insert_id _ _ _ Hip).
    destruct s; reflexivity.
Qed.

Lemma argfd_bad s a0 :
  (forall fd f, a0 = Some fd -> 0 <= fd -> ofile s !! Z.to_nat fd <> Some (Some f)) ->
  argfd a0 s = Done None s.
Proof.
  intros Hbad. destruct a0 as [fd|]; [|reflexivity]. unfold argfd.
  unfold bind at 1. unfold get at 1.
  destruct (Z.ltb_spec fd 0); [reflexivity|].
  destruct (Z.leb_spec (Z.of_nat (length (ofile s))) fd); [reflexivity|]. simpl.
  destruct (ofile s !! Z.to_nat fd) as [[g|]|] eqn:Hl; try reflexivity.
  exfalso. apply (Hbad fd g eq_refl ltac:(lia)). exact Hl.
Qed.

Lemma argfd_ok s fd f :
  0 <= fd -> ofile s !! Z.to_nat fd = Some (Some f) ->
  argfd (Some fd) s = Done (Some (fd, f)) s.
Proof.
  intros Hfd Hl. unfold argfd. unfold bind at 1. unfold get at 1.
  pose proof (lookup_lt_Some _ _ _ Hl) as Hlt.
  destruct (Z.ltb_spec fd 0); [lia|].
  destruct (Z.leb_spec (Z.of_nat (length (ofile s))) fd); [lia|]. simpl.
  rewrite Hl. reflexivity.
Qed.

(** X13. A descriptor that could not be fetched, is negative, is [NOFILE]
    or more, or names an empty slot is refused by every call that takes one:
    [sys_dup], [sys_read], [sys_write], [sys_close] and [sys_fstat] return
    -1 and change nothing. *)
Theorem bad_descriptor_refused s a0 :
  (forall fd f, a0 = Some fd -> 0 <= fd -> ofile s !! Z.to_nat fd <> Some (Some f)) ->
  sys_dup a0 s = Done (-1) s /\
  (forall a2, sys_read a0 a2 s = Done (-1, []) s) /\
  (forall a12, sys_write a0 a12 s = Done (-1) s) /\
  sys_close a0 s = Done (-1) s /\
  (forall a1, sys_fstat a0 a1 s = Done (-1, None) s).
Proof.
  intros Hbad. pose proof (argfd_bad s a0 Hbad) as Ha.
  unfold sys_dup, sys_read, sys_write, sys_close, sys_fstat.
  repeat split; intros; rewrite (bind_eq _ _ _ _ _ Ha); reflexivity.
Qed.

Lemma fdalloc_eq s f k :
  ofile s !! k = Some None -> (forall j, (j < k)%nat -> ofile s !! j <> Some None) ->
  fdalloc f s = Done (Z.of_nat k) (set_ofile (<[k := Some f]> (ofile s)) s).
Proof.
  intros Hk Hlow. unfold fdalloc. unfold bind at 1. unfold get at 1.
  pose proof (fdalloc_scan_spec (ofile s) 0) as Hs.
  destruct (fdalloc_scan (ofile s) 0) as [fd|].
  - destruct Hs as (k' & -> & Hk' & Hlow'). simpl.
    assert (k' = k) as ->.
    { destruct (lt_eq_lt_dec k' k) as [[Hlt|Heq]|Hgt]; [|exact Heq|].
      - exfalso. apply (Hlow k' Hlt). exact Hk'.
      - exfalso. apply (Hlow' k Hgt). exact Hk. }
    reflexivity.
  - exfalso. apply (Hs k). exact Hk.
Qed.

(** X14. [sys_dup] hands out the lowest empty descriptor for the same
    handle, whose [ref] it increments, and [sys_close] of that descriptor
    gives the state back unchanged; when the descriptor table is full
    [sys_dup] returns -1 and changes nothing. *)
Theorem sys_dup_close_id s fd f fl :
  0 <= fd -> ofile s !! Z.to_nat fd = Some (Some f) ->
  ftable s !! f = Some fl -> 1 <= f_ref fl < 2 ^ 31 - 1 ->
  ((forall j, ofile s !! j <> Some None) -> sys_dup (Some fd) s = Done (-1) s) /\
  (forall k, ofile s !! k = Some None ->
             (forall j, (j < k)%nat -> ofile s !! j <> Some None) ->
     exists s1,
       sys_dup (Some fd) s = Done (Z.of_nat k) s1 /\
       ofile s1 = <[k := Some f]> (ofile s) /\
       ftable s1 = <[f := set_f_ref (f_ref fl + 1) fl]> (ftable s) /\
       sys_close (Some (Z.of_nat k)) s1 = Done 0 s).
Proof.
  intros Hfd Hof Hf Hr. split.
  - intros Hfull. unfold sys_dup. rewrite (bind_eq _ _ _ _ _ (argfd_ok _ _ _ Hfd Hof)).
    pose proof (fdalloc_spec f s) as Hs.
    destruct (fdalloc f s) as [r s'| | |] eqn:Hfa; try contradiction.
    destruct Hs as [(k & _ & Hk & _)|(-> & -> & _)].
    + exfalso. apply (Hfull k). exact Hk.
    + rewrite (bind_eq _ _ _ _ _ Hfa). reflexivity.
  - intros k Hk Hlow. eexists. split; [|split; [|split]].
    + unfold sys_dup. rewrite (bind_eq _ _ _ _ _ (argfd_ok _ _ _ Hfd Hof)).
      rewrite (bind_eq _ _ _ _ _ (fdalloc_eq _ f _ Hk Hlow)).
      destruct (Z.ltb_spec (Z.of_nat k) 0); [lia|].
      rewrite (bind_eq _ _ _ _ _
                 (filedup_eq (set_ofile (<[k := Some f]> (ofile s)) s) f fl Hf ltac:(lia))).
      reflexivity.
    + reflexivity.
    + simpl. rewrite i32_id by lia. reflexivity.
    + set (s1 := set_ftable _ _).
      assert (ofile s1 !! Z.to_nat (Z.of_nat k) = Some (Some f)) as Hof1.
      { rewrite Nat2Z.id. apply (lookup_insert_some _ _ _ _ Hk). }
      unfold sys_close.
      rewrite (bind_eq _ _ _ _ _ (argfd_ok _ _ _ (Nat2Z.is_nonneg k) Hof1)).
      unfold bind at 1. unfold modify at 1. set (s2 := set_ofile _ s1).
      assert (ftable s2 !! f = Some (set_f_ref (i32 (f_ref fl + 1)) fl)) as Hf2
        by (apply (lookup_insert_some _ _ _ _ Hf)).
      rewrite (bind_eq _ _ _ tt
                 (set_ftable (<[f := set_f_ref (i32 (i32 (f_ref fl + 1) - 1))
                                       (set_f_ref (i32 (f_ref fl + 1)) fl)]> (ftable s2)) s2)).
      2: { apply (fileclose_dec s2 f _ Hf2); simpl; rewrite (i32_id (f_ref fl + 1)) by lia;
             [lia|]. replace (f_ref fl + 1 - 1) with (f_ref fl) by lia.
           rewrite i32_id by lia. lia. }
      unfold ret. f_equal. subst s2 s1. simpl. rewrite Nat2Z.id.
      rewrite !list_insert_insert_eq, (list_insert_id _ _ _ Hk).
      rewrite (i32_id (f_ref fl + 1)) by lia.
      replace (f_ref fl + 1 - 1) with (f_ref fl) by lia. rewrite i32_id by lia.
      replace (set_f_ref (f_ref fl) (set_f_ref (f_ref fl + 1) fl)) with fl
        by (destruct fl; reflexivity).
      rewrite (list_insert_id _ _ _ Hf). destruct s; reflexivity.
Qed.

(** ** Footprints of the directory and path layers *)

Lemma fa_upd_inode ip f : preserves (frame any_change) (upd_inode ip f).
Proof. apply frame_upd_inode; [apply any_change_ok|]. intros i. exact I. Qed.

#[local] Hint Resolve fa_upd_inode : frames.

Lemma fa_dirlookup_loop name : forall fuel dp off,
  preserves (frame any_change) (dirlookup_loop fuel dp name off).
Proof.
  pose proof any_change_ok as HP.
  induction fuel as [|fuel IH]; intros dp off; simpl; frame_auto.
Qed.

#[local] Hint Resolve fa_dirlookup_loop : frames.

Lemma fa_dirlookup dp name : preserves (frame any_change) (dirlookup dp name).
Proof. pose proof any_change_ok as HP. unfold dirlookup. frame_auto. Qed.

#[local] Hint Resolve fa_dirlookup frame_dirlink_scan : frames.

Lemma fa_dirlink dp name inum : preserves (frame any_change) (dirlink dp name inum).
Proof. pose proof any_change_ok as HP. unfold dirlink. frame_auto. Qed.

#[local] Hint Resolve fa_dirlink : frames.

Lemma fa_namex_loop nip : forall fuel ip path name,
  preserves (frame any_change) (namex_loop fuel ip path nip name).
Proof.
  pose proof any_change_ok as HP.
  induction fuel as [|fuel IH]; intros ip path name; simpl; frame_auto.
Qed.

#[local] Hint Resolve fa_namex_loop : frames.

Lemma fa_namex path nip name : preserves (frame any_change) (namex path nip name).
Proof. pose proof any_change_ok as HP. unfold namex. frame_auto. Qed.

#[local] Hint Resolve fa_namex : frames.

Lemma fa_namei path : preserves (frame any_change) (namei path).
Proof. pose proof any_change_ok as HP. unfold namei. frame_auto. Qed.

Lemma fa_nameiparent path name : preserves (frame any_change) (nameiparent path name).
Proof. unfold nameiparent. apply fa_namex. Qed.

#[local] Hint Resolve fa_namei fa_nameiparent : frames.

Lemma fa_isdirempty_loop : forall fuel dp off,
  preserves (frame any_change) (isdirempty_loop fuel dp off).
Proof.
  pose proof any_change_ok as HP.
  induction fuel as [|fuel IH]; intros dp off; simpl; frame_auto.
Qed.

#[local] Hint Resolve fa_isdirempty_loop : frames.

Lemma fa_isdirempty dp : preserves (frame any_change) (isdirempty dp).
Proof. pose proof any_change_ok as HP. unfold isdirempty. frame_auto. Qed.

Lemma fa_ialloc_scan dev type : forall cands,
  preserves (frame any_change) (ialloc_scan dev type cands).
Proof.
  pose proof any_change_ok as HP.
  induction cands as [|c cands IH]; simpl; frame_auto.
Qed.

#[local] Hint Resolve fa_isdirempty fa_ialloc_scan : frames.

Lemma fa_ialloc dev type : preserves (frame any_change) (ialloc dev type).
Proof. pose proof any_change_ok as HP. unfold ialloc. frame_auto. Qed.

#[local] Hint Resolve fa_ialloc : frames.

Lemma fa_create path type major minor :
  preserves (frame any_change) (create path type major minor).
Proof. pose proof any_change_ok as HP. unfold create. frame_auto. Qed.

Lemma fa_stati ip : preserves (frame any_change) (stati ip).
Proof. pose proof any_change_ok as HP. unfold stati. frame_auto. Qed.

#[local] Hint Resolve fa_create fa_stati : frames.

(** ** Transactions *)

Lemma delta_ret {A} d (a : A) : d = 0 -> op_delta d (ret a).
Proof. intros -> s a' s' H. inversion H; subst. lia. Qed.

Lemma delta_bind {A B} d d1 (m : M A) (k : A -> M B) :
  op_delta d1 m -> (forall a, op_delta (d - d1) (k a)) -> op_delta d (bind m k).
Proof.
  intros Hm Hk s b s'' H. apply bind_Done in H as (a & s' & H1 & H2).
  rewrite (Hk a _ _ _ H2), (Hm _ _ _ H1). lia.
Qed.

Lemma delta_panic {A} d msg : op_delta d (@panic A msg).
Proof. intros s a s' H. discriminate. Qed.

Lemma delta_fuel {A} d : op_delta d (fun _ : state => @OutOfFuel A).
Proof. intros s a s' H. discriminate. Qed.

Lemma delta_eq {A} d d' (m : M A) : op_delta d' m -> d = d' -> op_delta d m.
Proof. intros H ->. exact H. Qed.

Lemma delta_get : op_delta 0 get.
Proof. intros s a s' H. inversion H; subst. lia. Qed.

Lemma delta_modify f :
  (forall s, outstanding (f s) = outstanding s) -> op_delta 0 (modify f).
Proof. intros Hf s a s' H. inversion H; subst. rewrite Hf. lia. Qed.

Lemma delta_begin_op : op_delta 1 begin_op.
Proof. intros s a s' H. inversion H; subst. reflexivity. Qed.

Lemma delta_end_op : op_delta (-1) end_op.
Proof. intros s a s' H. inversion H; subst. simpl. lia. Qed.

Lemma delta_frame {A} (m : M A) : preserves (frame any_change) m -> op_delta 0 m.
Proof.
  intros Hm s a s' H. destruct (Hm s a s' H) as ((_ & _ & _ & _ & Ho & _) & _).
  rewrite Ho. lia.
Qed.

Lemma delta_get_file f : op_delta 0 (get_file f).
Proof.
  intros s a s' H. unfold get_file in H.
  destruct (ftable s !! f); inversion H; subst. lia.
Qed.

Lemma delta_upd_file f g : op_delta 0 (upd_file f g).
Proof.
  intros s a s' H. unfold upd_file in H.
  destruct (ftable s !! f); inversion H; subst. simpl. lia.
Qed.

Create HintDb deltas.
#[local] Hint Resolve delta_get delta_begin_op delta_end_op delta_get_file
  delta_upd_file : deltas.
#[local] Hint Extern 2 (op_delta _ (modify _)) =>
  apply delta_modify; intros ?; reflexivity : deltas.
#[local] Hint Extern 5 (op_delta _ _) =>
  apply delta_frame; solve [eauto with frames] : deltas.

Ltac delta_step :=
  lazymatch goal with
  | |- op_delta _ (bind _ _) =>
      first [ eapply delta_bind; [solve [eauto with deltas] | intros ?]
            | eapply (delta_bind _ 0); [ | intros ?] ]
  | |- op_delta _ (ret _) => apply delta_ret; lia
  | |- op_delta _ (panic _) => apply delta_panic
  | |- op_delta _ (fun _ => OutOfFuel) => apply delta_fuel
  | |- op_delta _ (if ?b then _ else _) => destruct b
  | |- op_delta _ (match ?x with _ => _ end) => destruct x
  | |- op_delta _ (let (_, _) := ?x in _) => destruct x
  | |- _ => solve [eapply delta_eq; [solve [eauto with deltas] | lia]]
  end.
Ltac delta_auto := repeat delta_step.

Lemma delta_filealloc : op_delta 0 filealloc.
Proof. unfold filealloc. delta_auto. Qed.

Lemma delta_fdalloc f : op_delta 0 (fdalloc f).
Proof. unfold fdalloc. delta_auto. Qed.

Lemma delta_filedup f : op_delta 0 (filedup f).
Proof. unfold filedup. delta_auto. Qed.

Lemma delta_fileclose f : op_delta 0 (fileclose f).
Proof. unfold fileclose. delta_auto. Qed.

Lemma delta_fileread f n : op_delta 0 (fileread f n).
Proof. unfold fileread. delta_auto. Qed.

Lemma delta_filewrite_loop f addr n max : forall fuel i,
  op_delta 0 (filewrite_loop fuel f addr n max i).
Proof. induction fuel as [|fuel IH]; intros i; simpl; delta_auto. Qed.

#[local] Hint Resolve delta_filealloc delta_fdalloc delta_filedup delta_fileclose
  delta_fileread delta_filewrite_loop : deltas.

Lemma delta_filewrite f addr n : op_delta 0 (filewrite f addr n).
Proof. unfold filewrite. delta_auto. Qed.

Lemma delta_filestat f : op_delta 0 (filestat f).
Proof. unfold filestat. delta_auto. Qed.

Lemma delta_argfd a0 : op_delta 0 (argfd a0).
Proof. unfold argfd. delta_auto. Qed.

Lemma delta_sys_open_finish ip omode : op_delta (-1) (sys_open_finish ip omode).
Proof. unfold sys_open_finish. delta_auto. Qed.

Lemma delta_sys_link_bad ip : op_delta (-1) (sys_link_bad ip).
Proof. unfold sys_link_bad. delta_auto. Qed.

Lemma delta_sys_unlink_bad dp : op_delta (-1) (sys_unlink_bad dp).
Proof. unfold sys_unlink_bad. delta_auto. Qed.

#[local] Hint Resolve delta_filewrite delta_filestat delta_argfd delta_sys_open_finish
  delta_sys_link_bad delta_sys_unlink_bad : deltas.

Lemma delta_balanced {A} (m : M A) : op_delta 0 m -> balanced m.
Proof. intros H s a s' Hm. rewrite (H s a s' Hm). lia. Qed.

(** X15. None of the system calls of sysfile.c on files and directories
    ([sys_open], [sys_link], [sys_unlink], [sys_mkdir], [sys_mknod],
    [sys_chdir], [sys_dup], [sys_read], [sys_write], [sys_close],
    [sys_fstat]) returns with a transaction left open: whatever the
    arguments and whichever way it returns, [begin_op] and [end_op] have
    been called the same number of times, also on the error paths and
    through the transactions that [fileclose] and [filewrite] open
    themselves. *)
Theorem syscalls_balanced :
  (forall args, balanced (sys_open args)) /\
  (forall args, balanced (sys_link args)) /\
  (forall arg, balanced (sys_unlink arg)) /\
  (forall arg, balanced (sys_mkdir arg)) /\
  (forall args, balanced (sys_mknod args)) /\
  (forall arg, balanced (sys_chdir arg)) /\
  (forall a0, balanced (sys_dup a0)) /\
  (forall a0 a2, balanced (sys_read a0 a2)) /\
  (forall a0 a12, balanced (sys_write a0 a12)) /\
  (forall a0, balanced (sys_close a0)) /\
  (forall a0 a1, balanced (sys_fstat a0 a1)).
Proof.
  repeat split; intros; apply delta_balanced.
  - unfold sys_open. delta_auto.
  - unfold sys_link. delta_auto.
  - unfold sys_unlink. delta_auto.
  - unfold sys_mkdir. delta_auto.
  - unfold sys_mknod. delta_auto.
  - unfold sys_chdir. delta_auto.
  - unfold sys_dup. delta_auto.
  - unfold sys_read. delta_auto.
  - unfold sys_write. delta_auto.
  - unfold sys_close. delta_auto.
  - unfold sys_fstat. delta_auto.
Qed.

Lemma cwd_frame {A} (m : M A) s a s' :
  preserves (frame any_change) m -> m s = Done a s' -> cwd s' = cwd s.
Proof. intros Hm H. destruct (Hm s a s' H) as ((_ & _ & Hc & _) & _). exact Hc. Qed.

(** X16. [sys_chdir] changes the working directory only when it returns 0,
    and then to the inode that [namei] found for the path, which was a
    directory when it was locked; every failure (no path, no such name, not
    a directory) returns -1 and leaves the working directory as it was. *)
Theorem sys_chdir_cwd arg s r s' :
  sys_chdir arg s = Done r s' ->
  (r = -1 /\ cwd s' = cwd s) \/
  (r = 0 /\
   exists path s0 s1 s2 ip i,
     arg = Some path /\ begin_op s = Done tt s0 /\
     namei path s0 = Done (Some ip) s1 /\ ilock ip s1 = Done tt s2 /\
     icache s2 !! ip = Some i /\ i_type i = T_DIR /\ cwd s' = ip).
Proof.
  intros H. unfold sys_chdir in H.
  apply bind_Done in H as ([] & s0 & Hb & H).
  assert (cwd s0 = cwd s) as Hc0 by (inversion Hb; reflexivity).
  destruct arg as [path|].
  2: { apply bind_Done in H as ([] & s1 & He & H). inversion H; subst.
       inversion He; subst. left. split; [reflexivity|exact Hc0]. }
  apply bind_Done in H as (ro & s1 & Hn & H).
  pose proof (cwd_frame _ _ _ _ (fa_namei path) Hn) as Hc1.
  destruct ro as [ip|].
  2: { apply bind_Done in H as ([] & s2 & He & H). inversion H; subst.
       inversion He; subst. left. split; [reflexivity|]. simpl. congruence. }
  apply bind_Done in H as ([] & s2 & Hl & H).
  pose proof (cwd_frame _ _ _ _
                (frame_ilock _ ip any_change_ok (any_change_covers _ _)) Hl) as Hc2.
  apply bind_Done in H as (i & s2' & Hg & H).
  apply get_inode_Done in Hg as (-> & Hi).
  destruct (Z.eqb_spec (i_type i) T_DIR) as [Hty|Hty]; cbn [negb] in H.
  - right. split.
    + apply bind_Done in H as ([] & s3 & _ & H).
      apply bind_Done in H as (sx & s3' & _ & H).
      apply bind_Done in H as ([] & s4 & _ & H).
      apply bind_Done in H as ([] & s5 & _ & H).
      apply bind_Done in H as ([] & s6 & _ & H). inversion H. reflexivity.
    + exists path, s0, s1, s2, ip, i. repeat split; try assumption.
      apply bind_Done in H as ([] & s3 & _ & H).
      apply bind_Done in H as (sx & s3' & _ & H).
      apply bind_Done in H as ([] & s4 & _ & H).
      apply bind_Done in H as ([] & s5 & _ & H).
      apply bind_Done in H as ([] & s6 & Hm & H). inversion H; subst.
      inversion Hm. reflexivity.
  - left. apply bind_Done in H as ([] & s3 & Hu & H).
    pose proof (cwd_frame _ _ _ _
                  (frame_iunlockput _ ip any_change_ok (any_change_covers _ _)) Hu) as Hc3.
    apply bind_Done in H as ([] & s4 & He & H). inversion H; subst.
    inversion He; subst. split; [reflexivity|]. simpl. congruence.
Qed.

(** ** Paths *)

Lemma skip_slashes_suffix path : exists pre, path = pre ++ skip_slashes path.
Proof.
  induction path as [|c path (pre & IH)]; [exists []; reflexivity|]. simpl.
  destruct (c =? slash).
  - exists (c :: pre). simpl. rewrite <- IH. reflexivity.
  - exists []. reflexivity.
Qed.

Lemma skip_slashes_hd path : hd 0 (skip_slashes path) <> slash.
Proof.
  induction path as [|c path IH]; simpl; [unfold slash; lia|].
  destruct (Z.eqb_spec c slash); [exact IH|]. simpl. assumption.
Qed.

Lemma skip_elem_chars_split path :
  exists elem, path = elem ++ snd (skip_elem_chars path) /\
               fst (skip_elem_chars path) = Z.of_nat (length elem).
Proof.
  induction path as [|c path (elem & IH & Hlen)]; [exists []; split; reflexivity|].
  cbn [skip_elem_chars].
  destruct (negb (c =? slash) && negb (c =? 0)).
  - exists (c :: elem). cbn [fst snd]. split.
    + simpl. rewrite <- IH. reflexivity.
    + rewrite Hlen. simpl length. lia.
  - exists []. split; reflexivity.
Qed.

(** X17. When [skipelem] returns a remainder, the remainder is a proper
    suffix of the path, so that a loop over the elements of a path ends; and
    the [name] buffer of [DIRSIZ] bytes still has [DIRSIZ] bytes: the copy
    never runs past its end. *)
Theorem skipelem_progress path name rest name' :
  length name = Z.to_nat DIRSIZ -> Z.of_nat (length path) < 2 ^ 31 ->
  skipelem path name = Some (rest, name') ->
  (exists pre, path = pre ++ rest /\ pre <> []) /\ length name' = length name.
Proof.
  intros Hname Hlen H. pose proof DIRSIZ_pos as Hd. unfold skipelem in H.
  destruct (skip_slashes_suffix path) as (pre1 & Hp1).
  pose proof (skip_slashes_hd path) as Hhd.
  set (p := skip_slashes path) in *.
  destruct (Z.eqb_spec (hd 0 p) 0) as [|Hnz]; [discriminate|].
  destruct (skip_elem_chars_split p) as (elem & Hp2 & Hfst).
  destruct (skip_slashes_suffix (snd (skip_elem_chars p))) as (pre3 & Hp3).
  assert (elem <> []) as Hne.
  { intros ->. destruct p as [|c p']; [simpl in Hnz; lia|]. simpl in Hnz, Hhd.
    cbn [skip_elem_chars] in Hfst.
    destruct (Z.eqb_spec c slash); [contradiction|].
    destruct (Z.eqb_spec c 0); [contradiction|]. cbn [negb andb fst] in Hfst.
    destruct (skip_elem_chars_split p') as (e' & _ & He'). rewrite He' in Hfst.
    simpl in Hfst. lia. }
  assert (length path = (length pre1 + length elem + length (snd (skip_elem_chars p)))%nat)
    as Hl.
  { pose proof (f_equal length Hp1) as L1. pose proof (f_equal length Hp2) as L2.
    rewrite length_app in L1, L2. lia. }
  inversion H as [[Hrest Hn']]. clear H. split.
  - exists (pre1 ++ elem ++ pre3). split.
    + rewrite <- !app_assoc, <- Hp3, <- Hp2. exact Hp1.
    + intros Hnil. apply app_eq_nil in Hnil as (_ & Hnil).
      apply app_eq_nil in Hnil as (Hnil & _). contradiction.
  - rewrite Hfst. rewrite i32_id by lia. unfold memmove.
    assert (length elem <= length p)%nat as Hle.
    { pose proof (f_equal length Hp2) as L2. rewrite length_app in L2. lia. }
    destruct (Z.leb_spec DIRSIZ (Z.of_nat (length elem))).
    + rewrite length_app, length_take, length_drop. lia.
    + rewrite length_insert, length_app, length_take, length_drop. lia.
Qed.

Lemma skipelem_slashes k name : skipelem (replicate k slash) name = None.
Proof.
  unfold skipelem.
  replace (replicate k slash) with (replicate k slash ++ []) by apply app_nil_r.
  rewrite skip_slashes_replicate. reflexivity.
Qed.

Lemma namex_loop_end fuel ip path nip name :
  skipelem path name = None ->
  namex_loop (S fuel) ip path nip name =
  if negb (nip =? 0) then iput ip ;; ret (None, name) else ret (Some ip, name).
Proof. intros H. cbn [namex_loop]. rewrite H. reflexivity. Qed.

Lemma bind_ext {A B} (m : M A) (k k' : A -> M B) s :
  (forall a s', k a s' = k' a s') -> bind m k s = bind m k' s.
Proof. intros H. unfold bind. destruct (m s); auto. Qed.

Lemma bind_head {A B} (m m' : M A) (k : A -> M B) s :
  m s = m' s -> bind m k s = bind m' k s.
Proof. intros H. unfold bind. rewrite H. reflexivity. Qed.

Lemma namex_no_elem path nip name s :
  skipelem path name = None ->
  namex path nip name s =
  (let* ip := (if hd 0 path =? slash then iget ROOTDEV ROOTINO
               else let* s := get in idup (cwd s)) in
   if negb (nip =? 0) then iput ip ;; ret (None, name) else ret (Some ip, name)) s.
Proof.
  intros H. unfold namex. apply bind_ext. intros ip s1.
  rewrite namex_loop_end by exact H. reflexivity.
Qed.

(** X18. A path made of slashes only names the root: [namei] returns the
    slot that [iget(ROOTDEV, ROOTINO)] gives, while [nameiparent] finds no
    parent: it gives that reference back with [iput] and returns null,
    leaving every reference count as it was.  [namei] of the empty path
    returns the working directory with one more reference. *)
Theorem namei_root k name s :
  namei (replicate (S k) slash) s =
    (let* ip := iget ROOTDEV ROOTINO in ret (Some ip)) s /\
  nameiparent (replicate (S k) slash) name s =
    (let* ip := iget ROOTDEV ROOTINO in iput ip ;; ret (None, name)) s /\
  namei [] s = (let* ip := idup (cwd s) in ret (Some ip)) s /\
  (refs_int s ->
   forall r s', nameiparent (replicate (S k) slash) name s = Done r s' ->
     r = (None, name) /\ i_ref <$> icache s' = i_ref <$> icache s).
Proof.
  assert (nameiparent (replicate (S k) slash) name s =
          (let* ip := iget ROOTDEV ROOTINO in iput ip ;; ret (None, name)) s) as Hnp.
  { unfold nameiparent. rewrite namex_no_elem by apply (skipelem_slashes (S k)).
    reflexivity. }
  split; [|split; [exact Hnp|split]].
  - unfold namei.
    rewrite (bind_head _ _ _ _ (namex_no_elem _ 0 _ s (skipelem_slashes (S k) _))).
    simpl hd. change (slash =? slash) with true. cbv iota. unfold bind.
    destruct (iget ROOTDEV ROOTINO s); reflexivity.
  - unfold namei.
    rewrite (bind_head _ _ _ _ (namex_no_elem _ 0 _ s (skipelem_slashes 0 _))).
    simpl hd. change (0 =? slash) with false. cbv iota. unfold bind, get.
    destruct (idup (cwd s) s); reflexivity.
  - intros Hrefs r s' H. rewrite Hnp in H.
    apply bind_Done in H as (ip & s1 & Hget & H).
    apply bind_Done in H as ([] & s2 & Hput & H). inversion H; subst.
    split; [reflexivity|].
    apply (iget_iput_refs s ROOTDEV ROOTINO ip s1 tt s' Hrefs Hget Hput).
Qed.

(** ** Directories *)

Lemma isdirempty_loop_S fuel dp off :
  isdirempty_loop (S fuel) dp off =
  let* d := get_inode dp in
  if u32 off <? i_size d then
    let* rd := readi dp (u32 off) desz in
    if negb (u32 (fst rd) =? desz) then panic "isdirempty: readi"
    else if negb (de_inum (dirent_decode (snd rd)) =? 0) then ret 0
    else isdirempty_loop fuel dp (i32 (off + desz))
  else ret 1.
Proof. reflexivity. Qed.

Lemma isdirempty_loop_ok s dp d nent :
  icache s !! dp = Some d -> dir_ok s d nent ->
  forall fuel k,
    0 <= k -> k * desz < 2 ^ 31 -> Z.of_nat nent - k <= Z.of_nat fuel ->
    isdirempty_loop (S fuel) dp (k * desz) s =
    Done (if dir_all_free s d k (Z.to_nat (Z.of_nat nent - k)) then 1 else 0) s.
Proof.
  intros Hdp Hok. pose proof Hok as (Hty & Hsz & Hsmall & Hmap).
  pose proof desz_range as Hde.
  induction fuel as [|fuel IH]; intros k Hk Hkd Hfuel; rewrite isdirempty_loop_S;
    rewrite (bind_eq _ _ _ _ _ (get_inode_eq _ _ _ Hdp));
    rewrite (u32_id (k * desz)) by nia;
    (destruct (Z.ltb_spec (k * desz) (i_size d)) as [Hlt|Hge];
     [|replace (Z.to_nat (Z.of_nat nent - k)) with 0%nat by nia; reflexivity]).
  - exfalso. nia.
  - assert (0 <= k < Z.of_nat nent) as Hk' by nia.
    rewrite (bind_eq _ _ _ _ _ (readi_dirent s dp d nent k Hdp Hok Hk')).
    cbn [fst snd]. rewrite (u32_id desz) by lia. rewrite Z.eqb_refl. cbn [negb].
    fold (dir_entry s d k).
    replace (Z.to_nat (Z.of_nat nent - k)) with (S (Z.to_nat (Z.of_nat nent - (k + 1))))
      by lia.
    cbn [dir_all_free].
    rewrite (i32_id (k * desz + desz)) by nia.
    replace (k * desz + desz) with ((k + 1) * desz) by lia.
    destruct (de_inum (dir_entry s d k) =? 0); cbn [negb andb].
    + apply IH; nia.
    + reflexivity.
Qed.

Lemma dir_all_free_spec s d : forall n k,
  dir_all_free s d k n = true <->
  forall j, k <= j < k + Z.of_nat n -> de_inum (dir_entry s d j) = 0.
Proof.
  induction n as [|n IH]; intros k; cbn [dir_all_free].
  - split; [intros _ j Hj; lia|reflexivity].
  - rewrite andb_true_iff, Z.eqb_eq, IH. split.
    + intros (Hk & Hrest) j Hj.
      destruct (decide (j = k)) as [->|]; [exact Hk|apply Hrest; lia].
    + intros H. split; [apply H; lia|intros j Hj; apply H; lia].
Qed.

(** X19. On a directory whose blocks are mapped [isdirempty] changes
    nothing and returns 1 exactly when every entry after the first two
    (those of [.] and [..]) has inumber 0, and 0 otherwise; a directory of
    two entries or fewer is empty. *)
Theorem isdirempty_spec s dp d nent :
  icache s !! dp = Some d -> dir_ok s d nent ->
  exists r,
    isdirempty dp s = Done r s /\ (r = 1 \/ r = 0) /\
    (r = 1 <->
     forall k, 2 <= k < Z.of_nat nent -> de_inum (dir_entry s d k) = 0).
Proof.
  intros Hdp Hok. pose proof Hok as (Hty & Hsz & Hsmall & Hmap).
  pose proof desz_range as Hde.
  exists (if dir_all_free s d 2 (Z.to_nat (Z.of_nat nent - 2)) then 1 else 0).
  split; [|split].
  - unfold isdirempty. rewrite (bind_eq _ _ _ _ _ (get_inode_eq _ _ _ Hdp)).
    unfold dir_fuel. rewrite (i32_id (2 * desz)) by lia.
    assert (i_size d / desz = Z.of_nat nent) as ->.
    { rewrite Hsz. apply Z.div_mul. lia. }
    apply (isdirempty_loop_ok s dp d nent Hdp Hok); lia.
  - destruct (dir_all_free _ _ _ _); [left|right]; reflexivity.
  - pose proof (dir_all_free_spec s d (Z.to_nat (Z.of_nat nent - 2)) 2) as Hspec.
    destruct (dir_all_free s d 2 _); split.
    + intros _ k Hk. apply (proj1 Hspec eq_refl). lia.
    + reflexivity.
    + discriminate.
    + intros H. exfalso. assert (false = true) as Hf; [|discriminate Hf].
      apply Hspec. intros j Hj. apply H. lia.
Qed.

(** X20. [dirlookup] stops fatally on an inode that is not a directory.  On
    a directory whose blocks are mapped it returns null, changing nothing,
    when no entry in use carries the name; otherwise it is the [iget] of the
    inumber of the first such entry, and the offset stored through [poff] is
    the offset of that entry. *)
Theorem dirlookup_first_match s dp d name :
  icache s !! dp = Some d ->
  (i_type d <> T_DIR -> dirlookup dp name s = Panic "dirlookup not DIR") /\
  (forall nent, dir_ok s d nent ->
     (~ dir_present s d nent name -> dirlookup dp name s = Done None s) /\
     (forall k, 0 <= k < Z.of_nat nent ->
        entry_matches name (dir_entry s d k) = true ->
        (forall j, 0 <= j < k -> entry_matches name (dir_entry s d j) = false) ->
        dirlookup dp name s =
        (let* ip := iget (i_dev d) (de_inum (dir_entry s d k)) in
         ret (Some (ip, k * desz))) s)).
Proof.
  intros Hdp. split.
  - intros Hty. unfold dirlookup. rewrite (bind_eq _ _ _ _ _ (get_inode_eq _ _ _ Hdp)).
    apply Z.eqb_neq in Hty. rewrite Hty. reflexivity.
  - intros nent Hok. rewrite (dirlookup_ok s dp d nent name Hdp Hok).
    destruct (dir_find s d name 0 nent) as [j|] eqn:Hfind.
    + apply dir_find_Some in Hfind as Hj. destruct Hj as (Hj & Hm). split.
      * intros Habs. exfalso. apply Habs. exists j. split; [lia|exact Hm].
      * intros k Hk Hmk Hfirst.
        assert (j = k) as ->; [|reflexivity].
        destruct (Z.lt_trichotomy j k) as [Hlt|[Heq|Hgt]]; [|exact Heq|].
        -- rewrite (Hfirst j ltac:(lia)) in Hm. discriminate.
        -- exfalso. clear Hj Hm. revert Hfind.
           assert (forall n a, 0 <= a <= k -> k < a + Z.of_nat n ->
                     forall j', dir_find s d name a n = Some j' -> j' <= k) as Hle.
           { induction n as [|n IH]; intros a Ha Hn j' H'; [discriminate|].
             simpl in H'. destruct (entry_matches name (dir_entry s d a)) eqn:Hma.
             - inversion H'; subst. lia.
             - destruct (decide (a = k)) as [->|]; [congruence|].
               apply (IH (a + 1)); [lia|lia|exact H']. }
           intros Hfind. pose proof (Hle nent 0 ltac:(lia) ltac:(lia) j Hfind). lia.
    + split; [reflexivity|]. intros k Hk Hmk _.
      pose proof (dir_find_None _ _ _ _ _ Hfind k ltac:(lia)). congruence.
Qed.

(** ** Content: what is written is read back *)

Lemma blk_get_put blk o bytes j :
  0 <= j < BSIZE ->
  blk_get (blk_put blk o bytes) j =
  if (o <=? j) && (j <? o + Z.of_nat (length bytes))
  then nth (Z.to_nat (j - o)) bytes 0 else blk_get blk j.
Proof.
  intros Hj. unfold blk_put. unfold blk_get at 1.
  rewrite nth_lookup, list_lookup_fmap, lookup_seqZ_lt by lia. simpl.
  rewrite Z2Nat.id by lia. reflexivity.
Qed.

Lemma blk_get_read blk o m j :
  0 <= j < m -> blk_get (blk_read blk o m) j = blk_get blk (o + j).
Proof.
  intros Hj. unfold blk_read. unfold blk_get at 1.
  rewrite nth_lookup, list_lookup_fmap, lookup_seqZ_lt by lia. simpl.
  rewrite Z2Nat.id by lia. f_equal; lia.
Qed.

(** A write that stays within one mapped block, in full. *)
Lemma writei_in_block s ip i src off n :
  icache s !! ip = Some i -> i_type i <> T_DEV -> is_u32 off ->
  0 < n -> off <= i_size i -> off + n <= MAXFILE * BSIZE ->
  off mod BSIZE + n <= BSIZE -> mapped s i (off / BSIZE) ->
  exists s',
    writei ip src off n s = Done n s' /\
    icache s' = <[ip := set_i_size (Z.max (i_size i) (off + n)) i]> (icache s) /\
    blocks s' =
      <[(i_dev i, baddr s i (off / BSIZE)) :=
          blk_put (block_at s (i_dev i) (baddr s i (off / BSIZE))) (off mod BSIZE)
            (blk_read src 0 n)]> (blocks s) /\
    bitmap s' = bitmap s.
Proof.
  intros Hip Hty Hoff Hn Hle Hmax Hblk Hmap.
  destruct MAXFILE_bound as (Hnd & Hni & Hmaxb).
  pose proof (Z.mod_pos_bound off BSIZE ltac:(rewrite BSIZE_val; lia)) as Hmod.
  assert (n <= 512) as Hn512 by (rewrite BSIZE_val in *; lia).
  assert (is_u32 n) as Hnu by (unfold is_u32; lia).
  set (a := baddr s i (off / BSIZE)).
  set (blk := blk_put (block_at s (i_dev i) a) (off mod BSIZE) (blk_read src 0 n)).
  destruct (bstore (i_dev i) a blk s) as [[] s1| | |] eqn:Hst;
    try (cbv [bstore bind modify log_write] in Hst; discriminate Hst).
  assert (icache s1 = icache s /\ blocks s1 = <[(i_dev i, a) := blk]> (blocks s) /\
          bitmap s1 = bitmap s) as (Hc1 & Hb1 & Hbm1).
  { cbv [bstore bind modify log_write] in Hst. inversion Hst. repeat split. }
  assert (writei_loop (copy_fuel n) ip src 0 off n s = Done (off + n) s1) as Hloop.
  { unfold copy_fuel. rewrite writei_loop_S.
    destruct (Z.ltb_spec 0 n); [|lia].
    rewrite (bind_eq _ _ _ _ _ (get_inode_eq _ _ _ Hip)).
    rewrite (bind_eq _ _ _ _ _ (bmap_mapped _ _ _ _ Hip Hmap)). fold a.
    rewrite (bind_eq _ _ _ (block_at s (i_dev i) a) s) by reflexivity.
    cbv zeta. rewrite min_spec, Z.sub_0_r, Z.min_l by lia. fold blk.
    rewrite (bind_eq _ _ _ _ _ Hst).
    assert (0 <= n / BSIZE) by (apply Z.div_pos; rewrite ?BSIZE_val; lia).
    replace (Z.to_nat (n / BSIZE + 2)) with (S (Z.to_nat (n / BSIZE + 1))) by lia.
    rewrite writei_loop_S. rewrite (u32_id (0 + n)), (u32_id (off + n))
      by (unfold is_u32 in *; lia).
    destruct (Z.ltb_spec (0 + n) n); [lia|]. reflexivity. }
  assert (icache s1 !! ip = Some i) as Hip1 by (rewrite Hc1; exact Hip).
  rewrite (writei_accept s ip i src off n) by assumption.
  rewrite (bind_eq _ _ _ _ _ Hloop).
  rewrite (bind_eq _ _ _ _ _ (get_inode_eq _ _ _ Hip1)).
  destruct (Z.ltb_spec 0 n); [|lia]. cbn [andb].
  destruct (Z.ltb_spec (i_size i) (off + n)) as [Hext|Hin].
  - set (s2 := set_icache (<[ip := set_i_size (off + n) i]> (icache s1)) s1).
    assert (icache s2 !! ip = Some (set_i_size (off + n) i)) as Hip2
      by (apply (lookup_insert_slot _ _ _ _ Hip1)).
    destruct (iupdate_spec s2 ip _ Hip2) as (s3 & Hup & Hc3 & _ & _ & Hbm3 & Hb3).
    assert ((upd_inode ip (set_i_size (off + n)) ;; iupdate ip) s1 = Done tt s3) as Hcomb.
    { rewrite (bind_eq _ _ _ _ _ (upd_inode_eq _ _ _ _ Hip1)). exact Hup. }
    exists s3. rewrite (bind_eq _ _ _ _ _ Hcomb). unfold ret.
    rewrite i32_id by lia. split; [reflexivity|].
    rewrite Hc3, Hb3, Hbm3. subst s2. simpl. rewrite Hc1, Hb1, Hbm1.
    rewrite Z.max_r by lia. repeat split.
  - exists s1. unfold bind, ret. rewrite i32_id by lia. split; [reflexivity|].
    rewrite Hc1, Hb1, Hbm1. rewrite Z.max_l by lia.
    replace (set_i_size (i_size i) i) with i by (destruct i; reflexivity).
    rewrite (list_insert_id _ _ _ Hip). repeat split.
Qed.

(** X21. A write of [n > 0] bytes that stays within one mapped block of a
    file succeeds, and a read of the same range then returns exactly the
    bytes written and changes nothing more.  (The block is not the indirect
    block of the file.) *)
Theorem writei_readi_roundtrip s ip i src off n :
  icache s !! ip = Some i -> i_type i <> T_DEV ->
  is_u32 off -> is_u32 (i_size i) -> 0 < n -> length src = Z.to_nat n ->
  off <= i_size i -> off + n <= MAXFILE * BSIZE ->
  off mod BSIZE + n <= BSIZE -> mapped s i (off / BSIZE) ->
  baddr s i (off / BSIZE) <> nth (Z.to_nat NDIRECT) (i_addrs i) 0 ->
  exists s',
    writei ip src off n s = Done n s' /\ readi ip off n s' = Done (n, src) s'.
Proof.
  intros Hip Hty Hoff Hsz Hn Hlen Hle Hmax Hblk Hmap Hind.
  destruct MAXFILE_bound as (Hnd & Hni & Hmaxb).
  pose proof (Z.mod_pos_bound off BSIZE ltac:(rewrite BSIZE_val; lia)) as Hmod.
  destruct (writei_in_block s ip i src off n Hip Hty Hoff Hn Hle Hmax Hblk Hmap)
    as (s' & Hw & Hc & Hb & _).
  assert (0 <= off) as Hoff0 by (unfold is_u32 in Hoff; lia).
  exists s'. split; [exact Hw|].
  set (a := baddr s i (off / BSIZE)) in *.
  set (i' := set_i_size (Z.max (i_size i) (off + n)) i) in *.
  assert (icache s' !! ip = Some i') as Hip'
    by (rewrite Hc; apply (lookup_insert_slot _ _ _ _ Hip)).
  assert (baddr s' i' (off / BSIZE) = a) as Hba.
  { unfold baddr. subst i'. simpl. unfold a, baddr.
    destruct (off / BSIZE <? NDIRECT); [reflexivity|].
    unfold block_at. rewrite Hb, lookup_insert_ne; [reflexivity|].
    intros Heq. inversion Heq as [Ha]. apply Hind. congruence. }
  assert (mapped s' i' (off / BSIZE)) as Hmap'.
  { destruct Hmap as (Hr & Hnz & Hi). split; [exact Hr|]. split.
    - rewrite Hba. exact Hnz.
    - exact Hi. }
  destruct (readi_copy s' ip i' off n Hip' Hty Hoff) as (_ & _ & Hread).
  - unfold is_u32 in *. lia.
  - subst i'. simpl. unfold is_u32 in *. lia.
  - subst i'. simpl. lia.
  - lia.
  - assert (Z.min n (i_size i' - off) = n) as Hmin by (subst i'; simpl; lia).
    rewrite Hmin in Hread. rewrite Hread.
    2: { intros k Hk. destruct (block_offset off (k - off)) as (Hd & _); [lia|lia|].
         replace (off + (k - off)) with k in Hd by lia. rewrite Hd. exact Hmap'. }
    f_equal. f_equal. unfold file_bytes. apply list_eq. intros idx.
    rewrite list_lookup_fmap.
    destruct (decide (Z.of_nat idx < n)) as [Hidx|Hidx].
    + rewrite lookup_seqZ_lt by lia. simpl. unfold byte_at.
      destruct (block_offset off (Z.of_nat idx)) as (Hd & Hm); [lia|lia|].
      rewrite Hd, Hm, Hba. unfold block_at at 1. rewrite Hb, lookup_insert_eq. simpl.
      rewrite blk_get_put by lia. rewrite length_blk_read.
      destruct (Z.leb_spec (off mod BSIZE) (off mod BSIZE + Z.of_nat idx)); [|lia].
      destruct (Z.ltb_spec (off mod BSIZE + Z.of_nat idx)
                  (off mod BSIZE + Z.of_nat (Z.to_nat n))); [|lia].
      cbn [andb].
      replace (off mod BSIZE + Z.of_nat idx - off mod BSIZE) with (Z.of_nat idx) by lia.
      fold (blk_get (blk_read src 0 n) (Z.of_nat idx)).
      rewrite blk_get_read by lia. unfold blk_get.
      rewrite Z.add_0_l, Nat2Z.id, nth_lookup.
      destruct (src !! idx) as [x|] eqn:Hx; [reflexivity|].
      apply lookup_ge_None in Hx. lia.
    + rewrite lookup_seqZ_ge by lia. simpl. symmetry. apply lookup_ge_None. lia.
Qed.

(** ** Directories: what is linked is found *)

Lemma length_strncpy : forall n src, length (strncpy src n) = n.
Proof.
  induction n as [|n IH]; intros src; [reflexivity|]. cbn [strncpy].
  destruct (hd 0 src =? 0).
  - apply length_replicate.
  - simpl. rewrite IH. reflexivity.
Qed.

Lemma strncmp_strncpy : forall n src, strncmp src (strncpy src n) n = 0.
Proof.
  induction n as [|n IH]; intros src; [reflexivity|]. cbn [strncmp strncpy].
  destruct (Z.eqb_spec (hd 0 src) 0) as [Hz|Hnz].
  - simpl. rewrite Hz. reflexivity.
  - simpl. rewrite Z.eqb_refl. simpl. apply IH.
Qed.

Lemma length_dirent_encode de : length (dirent_encode de) = Z.to_nat desz.
Proof.
  pose proof DIRSIZ_pos. unfold dirent_encode, desz. simpl.
  rewrite length_take, length_app, length_replicate. lia.
Qed.

Lemma dirent_roundtrip inum nm :
  0 <= inum < 2 ^ 16 -> length nm = Z.to_nat DIRSIZ ->
  dirent_decode (dirent_encode (mkDirent inum nm)) = mkDirent inum nm.
Proof.
  intros Hi Hl. change (2 ^ 16) with 65536 in Hi.
  unfold dirent_decode, dirent_encode, blk_get. simpl.
  f_equal.
  - pose proof (Z.div_mod inum 256 ltac:(lia)).
    rewrite (Z.mod_small (inum / 256) 256).
    + lia.
    + split; [apply Z.div_pos; lia|].
      apply Z.div_lt_upper_bound; [reflexivity|exact (proj2 Hi)].
  - rewrite drop_0, take_app_le by lia. rewrite (take_ge nm) by lia. apply take_ge. lia.
Qed.

Lemma dir_slot_unique s d nent k :
  dir_slot s d nent k -> k = dir_free s d 0 nent.
Proof.
  intros (Hk & Hall & Hfree).
  destruct (dir_free_spec s d nent 0) as (Hr & Hall' & Hfree').
  destruct (Z.lt_trichotomy k (dir_free s d 0 nent)) as [Hlt|[Heq|Hgt]]; [|exact Heq|].
  - exfalso. apply (Hall' k); [lia|]. apply Hfree. lia.
  - exfalso. apply (Hall (dir_free s d 0 nent)); [lia|]. apply Hfree'. lia.
Qed.

Lemma dir_find_first s d name k : forall n a,
  a <= k < a + Z.of_nat n ->
  (forall j, a <= j < k -> entry_matches name (dir_entry s d j) = false) ->
  entry_matches name (dir_entry s d k) = true ->
  dir_find s d name a n = Some k.
Proof.
  induction n as [|n IH]; intros a Ha Hno Hm; [lia|]. cbn [dir_find].
  destruct (decide (a = k)) as [->|Hne].
  - rewrite Hm. reflexivity.
  - rewrite (Hno a) by lia. apply IH; [lia| |exact Hm]. intros j Hj. apply Hno. lia.
Qed.

Lemma dirlink_absent_eq s dp d nent name inum :
  icache s !! dp = Some d -> dir_ok s d nent -> ~ dir_present s d nent name ->
  dirlink dp name inum s =
  (let* r := writei dp
               (dirent_encode (mkDirent (u16 inum) (strncpy name (Z.to_nat DIRSIZ))))
               (dir_free s d 0 nent * desz) desz in
   if negb (u32 r =? desz) then panic "dirlink" else ret 0) s.
Proof.
  intros Hdp Hok Hno. pose proof Hok as (Hty & Hsz & Hsmall & Hmap).
  pose proof desz_range as Hde.
  assert (dir_find s d name 0 nent = None) as Hfind.
  { destruct (dir_find s d name 0 nent) as [j|] eqn:Hfind; [|reflexivity].
    exfalso. apply Hno. apply dir_find_Some in Hfind as (Hj & Hm). exists j.
    split; [lia|exact Hm]. }
  destruct (dir_free_spec s d nent 0) as (Hr & _).
  unfold dirlink.
  assert (dirlookup dp name s = Done None s) as Hlook
    by (rewrite (dirlookup_ok s dp d nent name Hdp Hok), Hfind; reflexivity).
  rewrite (bind_eq _ _ _ _ _ Hlook).
  rewrite (bind_eq _ _ _ _ _ (get_inode_eq _ _ _ Hdp)).
  unfold dir_fuel.
  assert (i_size d / desz = Z.of_nat nent) as ->
    by (rewrite Hsz; apply Z.div_mul; lia).
  pose proof (dirlink_scan_ok s dp d nent Hdp Hok
                (Z.to_nat (Z.of_nat nent + 1)) 0 ltac:(lia) ltac:(lia)) as Hscan.
  rewrite Z.mul_0_l, Z.sub_0_r, Nat2Z.id in Hscan.
  rewrite (bind_eq _ _ _ _ _ Hscan).
  rewrite (u32_id (dir_free s d 0 nent * desz)) by nia. reflexivity.
Qed.

Lemma entry_in_block k :
  0 <= k -> BSIZE mod desz = 0 -> (k * desz) mod BSIZE + desz <= BSIZE.
Proof.
  intros Hk Hdiv. pose proof desz_range as Hde.
  assert (desz <> 0) as Hnz by lia.
  pose proof (Z_div_exact_full_2 BSIZE desz Hnz Hdiv) as Hq.
  set (q := BSIZE / desz) in *.
  assert (0 < q) as Hqpos by (rewrite BSIZE_val in Hq; nia).
  rewrite Hq, (Z.mul_comm desz q), Z.mul_mod_distr_r by lia.
  pose proof (Z.mod_pos_bound k q Hqpos). nia.
Qed.

(** X22. An entry that [dirlink] has stored is found by [dirlookup]: when
    the name is absent from a well-formed directory and the slot that
    receives the entry (the first unused one, or the end) lies in a mapped
    block of the directory's own, [dirlink] returns 0 and a [dirlookup] of
    the name in the resulting state is the [iget] of the inumber linked, at
    the offset of that slot.  (Entries do not straddle blocks when the entry
    size divides the block size, as it does in xv6.) *)
Theorem dirlink_then_dirlookup s dp d nent name inum k :
  icache s !! dp = Some d -> dir_ok s d nent ->
  ~ dir_present s d nent name -> 0 < inum < 2 ^ 16 ->
  BSIZE mod desz = 0 -> dir_slot s d nent k ->
  mapped s d (k * desz / BSIZE) -> block_private s d (k * desz / BSIZE) ->
  exists s',
    dirlink dp name inum s = Done 0 s' /\
    dirlookup dp name s' =
      (let* ip := iget (i_dev d) inum in ret (Some (ip, k * desz))) s'.
Proof.
  intros Hdp Hok Hno Hinum Hdiv Hslot Hmapk Hpriv.
  pose proof Hok as (Hty & Hsz & Hsmall & Hmap). pose proof desz_range as Hde.
  destruct MAXFILE_bound as (Hnd & Hni & Hmaxb).
  pose proof (dir_slot_unique _ _ _ _ Hslot) as Hk.
  destruct Hslot as (Hkr & Hall & Hfree).
  set (enc := dirent_encode (mkDirent (u16 inum) (strncpy name (Z.to_nat DIRSIZ)))).
  assert (length enc = Z.to_nat desz) as Hlen by apply length_dirent_encode.
  set (off := k * desz) in *. set (bn := off / BSIZE) in *.
  pose proof (entry_in_block k ltac:(lia) Hdiv) as Hin. fold off in Hin.
  pose proof (Z.mod_pos_bound off BSIZE ltac:(rewrite BSIZE_val; lia)) as Hmod.
  pose proof (Z.div_mod off BSIZE ltac:(rewrite BSIZE_val; lia)) as Hdm. fold bn in Hdm.
  assert (0 <= off <= i_size d) as Hoffr.
  { subst off. rewrite Hsz. split; [apply Z.mul_nonneg_nonneg; lia|].
    apply Z.mul_le_mono_nonneg_r; lia. }
  assert (off + desz <= MAXFILE * BSIZE) as Hend.
  { destruct Hmapk as ((_ & Hbn) & _). fold off bn in Hbn.
    rewrite BSIZE_val in *. lia. }
  assert (i_type d <> T_DEV) as Hnd' by (rewrite Hty; unfold T_DIR, T_DEV; lia).
  assert (is_u32 off) as Hoffu by (unfold is_u32; lia).
  assert (0 < desz) as Hdpos by lia.
  destruct (writei_in_block s dp d enc off desz Hdp Hnd' Hoffu Hdpos (proj2 Hoffr)
              Hend Hin Hmapk)
    as (s1 & Hw & Hc & Hb & _).
  fold bn in Hb.
  exists s1. split.
  { rewrite (dirlink_absent_eq s dp d nent name inum Hdp Hok Hno), <- Hk.
    fold enc off. rewrite (bind_eq _ _ _ _ _ Hw).
    rewrite (u32_id desz) by lia. rewrite Z.eqb_refl. reflexivity. }
  set (d' := set_i_size (Z.max (i_size d) (off + desz)) d) in *.
  set (nent' := Z.to_nat (Z.max (Z.of_nat nent) (k + 1))).
  assert (icache s1 !! dp = Some d') as Hdp'
    by (rewrite Hc; apply (lookup_insert_slot _ _ _ _ Hdp)).
  assert (forall b, baddr s1 d' b = baddr s d b) as Hbaddr.
  { intros b. unfold baddr. subst d'. simpl.
    destruct (b <? NDIRECT); [reflexivity|].
    unfold block_at. rewrite Hb, lookup_insert_ne; [reflexivity|].
    intros Heq. inversion Heq. apply (proj1 Hpriv). congruence. }
  assert (forall x, 0 <= x -> x / BSIZE < MAXFILE ->
            byte_at s1 d' x =
            if (off <=? x) && (x <? off + desz)
            then nth (Z.to_nat (x - off)) enc 0 else byte_at s d x) as Hbyte.
  { intros x Hx Hxm. unfold byte_at. rewrite Hbaddr.
    change (i_dev d') with (i_dev d).
    pose proof (Z.mod_pos_bound x BSIZE ltac:(rewrite BSIZE_val; lia)) as Hxmod.
    pose proof (Z.div_mod x BSIZE ltac:(rewrite BSIZE_val; lia)) as Hxdm.
    assert (0 <= x / BSIZE) as Hxd by (apply Z.div_pos; rewrite ?BSIZE_val; lia).
    destruct (decide (x / BSIZE = bn)) as [Hbn|Hbn].
    - rewrite Hbn in *. unfold block_at at 1. rewrite Hb, lookup_insert_eq.
      cbn [from_option id].
      rewrite blk_get_put by lia. rewrite length_blk_read.
      destruct (Z.leb_spec (off mod BSIZE) (x mod BSIZE));
        destruct (Z.ltb_spec (x mod BSIZE) (off mod BSIZE + Z.of_nat (Z.to_nat desz)));
        destruct (Z.leb_spec off x); destruct (Z.ltb_spec x (off + desz));
        cbn [andb]; try reflexivity; try (exfalso; lia).
      fold (blk_get (blk_read enc 0 desz) (x mod BSIZE - off mod BSIZE)).
      rewrite blk_get_read by lia. unfold blk_get. f_equal. lia.
    - assert (baddr s d (x / BSIZE) <> baddr s d bn) as Hne
        by (apply (proj2 Hpriv); [lia|exact Hbn]).
      unfold block_at at 1. rewrite Hb, lookup_insert_ne by congruence.
      destruct (Z.leb_spec off x); destruct (Z.ltb_spec x (off + desz));
        cbn [andb]; try reflexivity.
      exfalso. apply Hbn.
      destruct (block_offset off (x - off)) as (Hd & _); [lia|lia|].
      replace (off + (x - off)) with x in Hd by lia. exact Hd. }
  assert (forall x, 0 <= x < i_size d' -> mapped s d (x / BSIZE)) as Hmapx.
  { intros x Hx. destruct (decide (x < i_size d)) as [Hlt|Hge]; [apply Hmap; lia|].
    subst d'. simpl in Hx.
    destruct (block_offset off (x - off)) as (Hd & _); [lia|lia|].
    replace (off + (x - off)) with x in Hd by lia. rewrite Hd. exact Hmapk. }
  assert (dir_ok s1 d' nent') as Hok'.
  { split; [exact Hty|]. split; [|split].
    - subst d' nent'. simpl. rewrite Z2Nat.id by lia. rewrite Hsz. subst off.
      replace (k * desz + desz) with ((k + 1) * desz) by lia.
      destruct (Z.max_spec (Z.of_nat nent) (k + 1)) as [(H1 & ->)|(H1 & ->)].
      + apply Z.max_r. apply Z.mul_le_mono_nonneg_r; lia.
      + apply Z.max_l. apply Z.mul_le_mono_nonneg_r; lia.
    - subst d'. simpl. lia.
    - intros x Hx. destruct (Hmapx x Hx) as (Hr & Hnz & Hi).
      split; [exact Hr|]. split; [rewrite Hbaddr; exact Hnz|exact Hi]. }
  assert (forall j, 0 <= j < Z.of_nat nent -> j <> k ->
            dir_entry s1 d' j = dir_entry s d j) as Hother.
  { intros j Hj Hjk. unfold dir_entry, file_bytes. f_equal.
    apply list_fmap_ext. intros idx x Hx. apply lookup_seqZ in Hx as (-> & Hidx).
    assert (0 <= j * desz) as Hj0 by (apply Z.mul_nonneg_nonneg; lia).
    assert ((j + 1) * desz <= i_size d) as Hj1
      by (rewrite Hsz; apply Z.mul_le_mono_nonneg_r; lia).
    assert ((j + 1) * desz <= off \/ off + desz <= j * desz) as Hout.
    { subst off. destruct (Z.lt_trichotomy j k) as [Hlt|[Heq|Hgt]]; [left|lia|right].
      - apply Z.mul_le_mono_nonneg_r; lia.
      - replace (k * desz + desz) with ((k + 1) * desz) by lia.
        apply Z.mul_le_mono_nonneg_r; lia. }
    rewrite Hbyte.
    - destruct (Z.leb_spec off (j * desz + Z.of_nat idx));
        destruct (Z.ltb_spec (j * desz + Z.of_nat idx) (off + desz));
        cbn [andb]; try reflexivity. exfalso. lia.
    - lia.
    - assert (mapped s d ((j * desz + Z.of_nat idx) / BSIZE)) as (Hr & _)
        by (apply Hmap; lia). lia. }
  assert (dir_entry s1 d' k = mkDirent inum (strncpy name (Z.to_nat DIRSIZ))) as Hentry.
  { unfold dir_entry. fold off.
    assert (file_bytes s1 d' off desz = enc) as ->.
    { unfold file_bytes. apply list_eq. intros idx. rewrite list_lookup_fmap.
      destruct (decide (Z.of_nat idx < desz)) as [Hidx|Hidx].
      - rewrite lookup_seqZ_lt by lia. simpl. rewrite Hbyte.
        + destruct (Z.leb_spec off (off + Z.of_nat idx)); [|lia].
          destruct (Z.ltb_spec (off + Z.of_nat idx) (off + desz)); [|lia]. cbn [andb].
          replace (off + Z.of_nat idx - off) with (Z.of_nat idx) by lia.
          rewrite Nat2Z.id, nth_lookup.
          destruct (enc !! idx) as [x|] eqn:Hx; [reflexivity|].
          apply lookup_ge_None in Hx. lia.
        + lia.
        + destruct (block_offset off (Z.of_nat idx)) as (Hd & _); [lia|lia|].
          rewrite Hd. destruct Hmapk as (Hr & _). fold bn in Hr. lia.
      - rewrite lookup_seqZ_ge by lia. simpl. symmetry. apply lookup_ge_None. lia. }
    subst enc. unfold u16. rewrite (Z.mod_small inum) by lia.
    apply dirent_roundtrip; [lia|apply length_strncpy]. }
  rewrite (dirlookup_ok s1 dp d' nent' name Hdp' Hok').
  rewrite (dir_find_first s1 d' name k nent' 0).
  - rewrite Hentry. reflexivity.
  - subst nent'. lia.
  - intros j Hj. rewrite Hother by lia.
    destruct (entry_matches name (dir_entry s d j)) eqn:Hm; [|reflexivity].
    exfalso. apply Hno. exists j. split; [lia|exact Hm].
  - rewrite Hentry. unfold entry_matches. simpl.
    destruct (Z.eqb_spec inum 0); [lia|]. simpl.
    unfold namecmp. rewrite strncmp_strncpy. reflexivity.
Qed.

(** ** The inode cache is write-through *)

Lemma ilock_load_eq s ip i :
  icache s !! ip = Some i -> i_lock i = false -> 1 <= i_ref i -> i_valid i = 0 ->
  d_type (dinode_at s (i_dev i) (i_inum i)) <> 0 ->
  ilock ip s =
  Done tt
    (set_icache
       (<[ip := let d := dinode_at s (i_dev i) (i_inum i) in
                mkInode (i_dev i) (i_inum i) (i_ref i) true 1 (d_type d) (d_major d)
                  (d_minor d) (d_nlink d) (d_size d) (d_addrs d)]> (icache s)) s).
Proof.
  intros Hip Hl Href Hv Hty. unfold ilock.
  rewrite (bind_eq _ _ _ _ _ (get_inode_eq _ _ _ Hip)).
  destruct (Z.ltb_spec (i_ref i) 1); [lia|].
  rewrite (bind_eq _ _ _ _ _ (acquiresleep_eq _ _ _ Hip Hl)).
  set (s1 := set_icache _ s).
  assert (icache s1 !! ip = Some (set_i_lock true i)) as Hip1
    by (apply (lookup_insert_slot _ _ _ _ Hip)).
  rewrite (bind_eq _ _ _ _ _ (get_inode_eq _ _ _ Hip1)).
  cbn [i_valid set_i_lock]. rewrite Hv. change (0 =? 0) with true. cbv iota.
  unfold bind at 1. unfold get at 1. cbn [i_dev i_inum set_i_lock].
  change (dinode_at s1 (i_dev i) (i_inum i)) with (dinode_at s (i_dev i) (i_inum i)).
  set (d := dinode_at s (i_dev i) (i_inum i)) in *.
  rewrite (bind_eq _ _ _ _ _ (upd_inode_eq _ _ _ _ Hip1)).
  set (s2 := set_icache _ s1).
  assert (exists i2, icache s2 !! ip = Some i2 /\
            i2 = set_i_addrs (d_addrs d) (set_i_size (d_size d)
                   (set_i_nlink (d_nlink d) (set_i_minor (d_minor d)
                   (set_i_major (d_major d) (set_i_type (d_type d) (set_i_lock true i)))))))
    as (i2 & Hip2 & Hi2).
  { eexists. split; [apply (lookup_insert_slot _ _ _ _ Hip1)|reflexivity]. }
  rewrite (bind_eq _ _ _ _ _ (upd_inode_eq _ _ _ _ Hip2)).
  apply Z.eqb_neq in Hty. rewrite Hty. unfold ret. f_equal.
  subst s2 s1. simpl. rewrite !list_insert_insert_eq. subst i2. reflexivity.
Qed.

(** X23. The inode cache is write-through: after [iupdate] of a locked,
    valid inode with links, dropping the only reference with [iunlockput]
    and fetching the inode again with [iget] and [ilock] reloads it from the
    disk with the same type, device numbers, link count, size and block
    addresses as the copy that was written (in a cache without duplicate
    identities whose unused slots are unlocked). *)
Theorem iupdate_reload s ip i :
  icache s !! ip = Some i -> i_lock i = true -> i_ref i = 1 -> i_valid i <> 0 ->
  i_nlink i <> 0 -> i_type i <> 0 -> uniq (icache s) ->
  (forall j a, icache s !! j = Some a -> i_ref a = 0 -> i_lock a = false) ->
  exists ip' s',
    (iupdate ip ;; iunlockput ip ;;
     let* ip' := iget (i_dev i) (i_inum i) in
     ilock ip' ;; ret ip') s = Done ip' s' /\
    icache s' !! ip' = Some (set_i_valid 1 i).
Proof.
  intros Hip Hl Href Hv Hnl Hty Huniq Hfree.
  destruct (iupdate_spec s ip i Hip) as (s1 & Hup & Hc1 & _ & Hd1 & _).
  assert (icache s1 !! ip = Some i) as Hip1 by (rewrite Hc1; exact Hip).
  set (s2 := set_icache (<[ip := set_i_lock false i]> (icache s1)) s1).
  assert (icache s2 !! ip = Some (set_i_lock false i)) as Hip2
    by (apply (lookup_insert_slot _ _ _ _ Hip1)).
  set (i3 := set_i_ref 0 (set_i_lock false i)).
  set (s3 := set_icache (<[ip := i3]> (icache s2)) s2).
  assert (iunlockput ip s1 = Done tt s3) as Hiul.
  { unfold iunlockput.
    rewrite (bind_eq _ _ _ _ _ (iunlock_eq s1 ip i Hip1 Hl ltac:(lia))). fold s2.
    rewrite (iput_plain s2 ip _ Hip2 eq_refl).
    - cbn [i_ref set_i_lock]. rewrite Href. reflexivity.
    - cbn [i_valid i_nlink i_ref set_i_lock]. intros (_ & Hz & _). contradiction. }
  assert (icache s3 = <[ip := i3]> (icache s)) as Hc3.
  { subst s3 s2. simpl. rewrite list_insert_insert_eq, Hc1. reflexivity. }
  assert (icache s3 !! ip = Some i3) as Hip3
    by (rewrite Hc3; apply (lookup_insert_slot _ _ _ _ Hip)).
  assert (dinode_at s3 (i_dev i) (i_inum i) =
          mkDinode (i_type i) (i_major i) (i_minor i) (i_nlink i) (i_size i) (i_addrs i))
    as Hd3 by exact Hd1.
  pose proof (iget_spec s3 (i_dev i) (i_inum i)) as Hg.
  destruct (iget (i_dev i) (i_inum i) s3) as [ip' s4|msg| |] eqn:Hget;
    try contradiction.
  2: { exfalso. destruct (Hg ip i3 Hip3) as (_ & Hnz). apply Hnz. reflexivity. }
  destruct Hg as (Hd4 & _ & _ & _ & [(i0 & Hi0 & Hhit & _)|(_ & i0 & Hi0 & Hz & _ & Hc4)]).
  { exfalso. destruct Hhit as (Hpos & Hdev & Hinum).
    destruct (decide (ip' = ip)) as [->|Hne].
    - rewrite Hip3 in Hi0. inversion Hi0; subst i0. simpl in Hpos. lia.
    - rewrite Hc3, list_lookup_insert_ne in Hi0 by congruence.
      apply Hne. apply (Huniq ip' ip i0 i Hi0 Hip); try assumption; lia. }
  assert (i_lock i0 = false) as Hl0.
  { destruct (decide (ip' = ip)) as [->|Hne].
    - rewrite Hip3 in Hi0. inversion Hi0; subst i0. reflexivity.
    - rewrite Hc3, list_lookup_insert_ne in Hi0 by congruence.
      apply (Hfree ip' i0 Hi0 Hz). }
  set (i4 := set_i_valid 0 (set_i_ref 1 (set_i_inum (i_inum i) (set_i_dev (i_dev i) i0))))
    in *.
  assert (icache s4 !! ip' = Some i4) as Hip4
    by (rewrite Hc4; apply (lookup_insert_slot _ _ _ _ Hi0)).
  assert (dinode_at s4 (i_dev i4) (i_inum i4) =
          mkDinode (i_type i) (i_major i) (i_minor i) (i_nlink i) (i_size i) (i_addrs i))
    as Hd4'.
  { unfold dinode_at. rewrite Hd4. exact Hd3. }
  pose proof (ilock_load_eq s4 ip' i4 Hip4 Hl0 ltac:(simpl; lia) eq_refl) as Hlock.
  rewrite Hd4' in Hlock. specialize (Hlock Hty). cbn zeta in Hlock.
  eexists ip', _. split.
  - rewrite (bind_eq _ _ _ _ _ Hup), (bind_eq _ _ _ _ _ Hiul), (bind_eq _ _ _ _ _ Hget),
      (bind_eq _ _ _ _ _ Hlock). reflexivity.
  - simpl. rewrite (lookup_insert_slot _ _ _ _ Hip4). f_equal.
    destruct i; simpl in *; subst; reflexivity.
Qed.

(** ** [bmap] settles *)

Lemma le32_value v :
  0 <= v < 2 ^ 32 ->
  v mod 256 + 2 ^ 8 * ((v / 2 ^ 8) mod 256) + 2 ^ 16 * ((v / 2 ^ 16) mod 256)
  + 2 ^ 24 * ((v / 2 ^ 24) mod 256) = v.
Proof.
  intros Hv. change (2 ^ 32) with 4294967296 in Hv.
  change (2 ^ 8) with 256. change (2 ^ 16) with (256 * 256).
  change (2 ^ 24) with (256 * 256 * 256).
  rewrite <- !Z.div_div by lia.
  pose proof (Z.div_mod v 256 ltac:(lia)) as H0.
  pose proof (Z.div_mod (v / 256) 256 ltac:(lia)) as H1.
  pose proof (Z.div_mod (v / 256 / 256) 256 ltac:(lia)) as H2.
  pose proof (Z.mod_pos_bound v 256 ltac:(lia)).
  pose proof (Z.mod_pos_bound (v / 256) 256 ltac:(lia)).
  pose proof (Z.mod_pos_bound (v / 256 / 256) 256 ltac:(lia)).
  rewrite (Z.mod_small (v / 256 / 256 / 256) 256).
  - pose proof (Z.div_mod (v / 256 / 256) 256 ltac:(lia)). lia.
  - split; [repeat (apply Z.div_pos; [|lia]); lia|].
    apply Z.div_lt_upper_bound; [lia|]. apply Z.div_lt_upper_bound; [lia|].
    apply Z.div_lt_upper_bound; lia.
Qed.

Lemma le32_roundtrip blk k v :
  0 <= k < NINDIRECT -> 0 <= v < 2 ^ 32 -> le32_get (le32_put blk k v) k = v.
Proof.
  intros Hk Hv. destruct MAXFILE_bound as (_ & Hni & _). rewrite Hni in Hk.
  unfold le32_get, le32_put.
  rewrite !blk_get_put by (rewrite BSIZE_val; lia).
  change (Z.of_nat (length (le32_bytes v))) with 4.
  destruct (Z.leb_spec (4 * k) (4 * k)); [|lia].
  destruct (Z.leb_spec (4 * k) (4 * k + 1)); [|lia].
  destruct (Z.leb_spec (4 * k) (4 * k + 2)); [|lia].
  destruct (Z.leb_spec (4 * k) (4 * k + 3)); [|lia].
  destruct (Z.ltb_spec (4 * k) (4 * k + 4)); [|lia].
  destruct (Z.ltb_spec (4 * k + 1) (4 * k + 4)); [|lia].
  destruct (Z.ltb_spec (4 * k + 2) (4 * k + 4)); [|lia].
  destruct (Z.ltb_spec (4 * k + 3) (4 * k + 4)); [|lia].
  cbn [andb].
  replace (4 * k - 4 * k) with 0 by lia.
  replace (4 * k + 1 - 4 * k) with 1 by lia.
  replace (4 * k + 2 - 4 * k) with 2 by lia.
  replace (4 * k + 3 - 4 * k) with 3 by lia.
  change (nth (Z.to_nat 0) (le32_bytes v) 0) with (v mod 256).
  change (nth (Z.to_nat 1) (le32_bytes v) 0) with ((v / 2 ^ 8) mod 256).
  change (nth (Z.to_nat 2) (le32_bytes v) 0) with ((v / 2 ^ 16) mod 256).
  change (nth (Z.to_nat 3) (le32_bytes v) 0) with ((v / 2 ^ 24) mod 256).
  apply le32_value. exact Hv.
Qed.

Lemma balloc_fresh dev s b s' :
  bit_at s dev 0 = true -> balloc dev s = Done b s' ->
  b <> 0 /\ 0 <= b < sb_size (sb s) /\ icache s' = icache s /\ sb s' = sb s /\
  bit_at s' dev 0 = true /\ block_at s' dev b = zero_block /\
  (forall b', b' <> b -> block_at s' dev b' = block_at s dev b').
Proof.
  intros H0 H. destruct (balloc_Done _ _ _ _ H) as (Hr & Hf & _ & Hst).
  destruct (balloc_stores _ _ _ _ Hst) as (_ & Hz & Hoth & _ & Hc & Hsb & _).
  assert (b <> 0) as Hnz by (intros ->; congruence).
  repeat split; try assumption; try lia.
  - rewrite (proj1 (Hoth dev 0 ltac:(congruence))). exact H0.
  - intros b' Hb'. apply (Hoth dev b'). congruence.
Qed.

(** X24. [bmap] settles: when it has returned a block for block number [bn]
    of a file, the block is not 0, [bn] is mapped to it in the resulting
    state, and asking again returns the same block and changes nothing: a
    block is allocated at most once.  (Block 0 of the device is in use, as
    the boot block is, so that [balloc] never returns 0; block numbers fit
    32 bits.) *)
Theorem bmap_idempotent s ip i bn a s' :
  icache s !! ip = Some i -> length (i_addrs i) = Z.to_nat (NDIRECT + 1) ->
  0 <= bn -> bit_at s (i_dev i) 0 = true -> sb_size (sb s) <= 2 ^ 32 ->
  bmap ip bn s = Done a s' ->
  a <> 0 /\
  (exists i', icache s' !! ip = Some i' /\ mapped s' i' bn /\ baddr s' i' bn = a) /\
  bmap ip bn s' = Done a s'.
Proof.
  intros Hip Hlen Hbn Hbit Hsb H.
  destruct MAXFILE_bound as (Hnd & Hni & _).
  pose proof (bmap_Done_range _ _ _ _ _ H) as Hrange.
  assert (exists i', icache s' !! ip = Some i' /\ mapped s' i' bn /\ baddr s' i' bn = a)
    as (i' & Hip' & Hmap' & Hba).
  { unfold bmap in H. apply bind_Done in H as (i0 & s0 & Hg & H).
    apply get_inode_Done in Hg as (-> & Hi0). rewrite Hip in Hi0. inversion Hi0; subst i0.
    clear Hi0. destruct (Z.ltb_spec bn NDIRECT) as [Hdir|Hind].
    - destruct (Z.eqb_spec (nth (Z.to_nat bn) (i_addrs i) 0) 0) as [Hz|Hnz].
      + apply bind_Done in H as (b & s1 & Hbal & H).
        destruct (balloc_fresh _ _ _ _ Hbit Hbal) as (Hb0 & _ & Hc1 & _).
        assert (icache s1 !! ip = Some i) as Hip1 by (rewrite Hc1; exact Hip).
        rewrite (bind_eq _ _ _ _ _ (upd_inode_eq _ _ _ _ Hip1)) in H.
        inversion H; subst a s'. clear H.
        assert (nth (Z.to_nat bn) (<[Z.to_nat bn := b]> (i_addrs i)) 0 = b) as Hnth
          by (apply nth_insert_eq; lia).
        eexists. split; [apply (lookup_insert_slot _ _ _ _ Hip1)|].
        unfold mapped, baddr. simpl.
        destruct (Z.ltb_spec bn NDIRECT); [|lia]. rewrite Hnth.
        repeat split; try lia; try assumption.
      + inversion H; subst a s'. exists i. split; [exact Hip|].
        unfold mapped, baddr. destruct (Z.ltb_spec bn NDIRECT); [|lia].
        repeat split; try lia; try assumption.
    - destruct (Z.ltb_spec (bn - NDIRECT) NINDIRECT) as [Hk|]; [|discriminate].
      apply bind_Done in H as (ind & s1 & Hind1 & H).
      assert (exists i1, icache s1 !! ip = Some i1 /\
                nth (Z.to_nat NDIRECT) (i_addrs i1) 0 = ind /\ ind <> 0 /\
                i_dev i1 = i_dev i /\ bit_at s1 (i_dev i) 0 = true /\ sb s1 = sb s)
        as (i1 & Hip1 & Hnth1 & Hindnz & Hdev1 & Hbit1 & Hsb1).
      { destruct (Z.eqb_spec (nth (Z.to_nat NDIRECT) (i_addrs i) 0) 0) as [Hz|Hnz].
        - apply bind_Done in Hind1 as (b & s2 & Hbal & Hind1).
          destruct (balloc_fresh _ _ _ _ Hbit Hbal) as (Hb0 & _ & Hc2 & Hsb2 & Hbit2 & _).
          assert (icache s2 !! ip = Some i) as Hip2 by (rewrite Hc2; exact Hip).
          rewrite (bind_eq _ _ _ _ _ (upd_inode_eq _ _ _ _ Hip2)) in Hind1.
          inversion Hind1; subst ind s1. clear Hind1.
          eexists. split; [apply (lookup_insert_slot _ _ _ _ Hip2)|]. simpl.
          rewrite nth_insert_eq by lia. repeat split; assumption.
        - inversion Hind1; subst ind s1. exists i. repeat split; assumption. }
      apply bind_Done in H as (blk & s1' & Hrd & H).
      inversion Hrd; subst blk s1'. clear Hrd.
      destruct (Z.eqb_spec (le32_get (block_at s1 (i_dev i) ind) (bn - NDIRECT)) 0)
        as [Hz|Hnz].
      + apply bind_Done in H as (b & s2 & Hbal & H).
        destruct (balloc_fresh _ _ _ _ Hbit1 Hbal) as (Hb0 & Hbr & Hc2 & _).
        apply bind_Done in H as (blk2 & s2' & Hrd & H).
        inversion Hrd; subst blk2 s2'. clear Hrd.
        apply bind_Done in H as ([] & s3 & Hst & H). inversion H; subst a s'. clear H.
        cbv [bstore bind modify log_write] in Hst. injection Hst as Hs3.
        exists i1. split; [rewrite <- Hs3; simpl; rewrite Hc2; exact Hip1|].
        assert (baddr s3 i1 bn = b) as Hb3.
        { unfold baddr. destruct (Z.ltb_spec bn NDIRECT); [lia|].
          rewrite Hnth1, Hdev1. unfold block_at at 1. rewrite <- Hs3. simpl.
          rewrite lookup_insert_eq. simpl. apply le32_roundtrip; [lia|].
          rewrite Hsb1 in Hbr. lia. }
        split; [|exact Hb3]. unfold mapped. rewrite Hb3, Hnth1.
        repeat split; try lia; assumption.
      + inversion H; subst a s'. exists i1. split; [exact Hip1|].
        assert (baddr s1 i1 bn = le32_get (block_at s1 (i_dev i) ind) (bn - NDIRECT))
          as Hb1.
        { unfold baddr. destruct (Z.ltb_spec bn NDIRECT); [lia|].
          rewrite Hnth1, Hdev1. reflexivity. }
        split; [|exact Hb1]. unfold mapped. rewrite Hb1, Hnth1.
        repeat split; try lia; assumption. }
  split; [|split].
  - rewrite <- Hba. apply Hmap'.
  - exists i'. split; [exact Hip'|split; [exact Hmap'|exact Hba]].
  - rewrite (bmap_mapped s' ip i' bn Hip' Hmap'), Hba. reflexivity.
Qed.

(** ** Descriptors after [open] and [close] *)

Lemma argfd_Done s a0 fd f s1 :
  argfd a0 s = Done (Some (fd, f)) s1 ->
  a0 = Some fd /\ s1 = s /\ 0 <= fd /\ ofile s !! Z.to_nat fd = Some (Some f).
Proof.
  unfold argfd. destruct a0 as [fd0|]; [|discriminate].
  unfold bind at 1. unfold get at 1.
  destruct (Z.ltb_spec fd0 0); [discriminate|].
  destruct (Z.leb_spec (Z.of_nat (length (ofile s))) fd0); [discriminate|]. simpl.
  destruct (ofile s !! Z.to_nat fd0) as [[g|]|] eqn:Hl; try discriminate.
  intros Heq. inversion Heq; subst. repeat split; try assumption; lia.
Qed.

Lemma tables_frame {A} (m : M A) s a s' :
  preserves (frame any_change) m -> m s = Done a s' ->
  ftable s' = ftable s /\ ofile s' = ofile s.
Proof.
  intros Hm H. destruct (Hm s a s' H) as ((_ & Hf & _ & Ho & _) & _).
  split; assumption.
Qed.

Lemma get_file_Done s f fl s' :
  get_file f s = Done fl s' -> s' = s /\ ftable s !! f = Some fl.
Proof.
  unfold get_file. destruct (ftable s !! f); [|discriminate].
  intros H. inversion H; subst. split; reflexivity.
Qed.

Lemma ofile_fileclose f s s' : fileclose f s = Done tt s' -> ofile s' = ofile s.
Proof.
  intros H. unfold fileclose in H. apply bind_Done in H as (fl & s0 & Hg & H).
  apply get_file_Done in Hg as (-> & Hf).
  destruct (f_ref fl <? 1); [discriminate|].
  rewrite (bind_eq _ _ _ _ _ (upd_file_eq _ _ _ _ Hf)) in H.
  destruct (0 <? i32 (f_ref fl - 1)); [inversion H; reflexivity|].
  apply bind_Done in H as (ff & s1 & Hg & H).
  apply get_file_Done in Hg as (-> & Hf1).
  rewrite (bind_eq _ _ _ _ _ (upd_file_eq _ _ _ _ Hf1)) in H.
  destruct (f_type ff); try (inversion H; reflexivity).
  apply bind_Done in H as ([] & s2 & Hb & H). inversion Hb; subst s2. clear Hb.
  apply bind_Done in H as ([] & s3 & Hput & He). inversion He; subst s'. clear He.
  destruct (tables_frame _ _ _ _
              (frame_iput _ (f_ip ff) any_change_ok (any_change_covers _ _)) Hput)
    as (_ & Ho).
  simpl. rewrite Ho. reflexivity.
Qed.

(** X25. Once [sys_close] has returned 0 for a descriptor its slot is empty,
    and every later use of the descriptor is refused: [sys_read],
    [sys_write], [sys_fstat], [sys_dup] and a second [sys_close] return -1
    and change nothing. *)
Theorem closed_descriptor_refused s fd s' :
  sys_close (Some fd) s = Done 0 s' ->
  ofile s' !! Z.to_nat fd = Some None /\
  sys_dup (Some fd) s' = Done (-1) s' /\
  (forall a2, sys_read (Some fd) a2 s' = Done (-1, []) s') /\
  (forall a12, sys_write (Some fd) a12 s' = Done (-1) s') /\
  sys_close (Some fd) s' = Done (-1) s' /\
  (forall a1, sys_fstat (Some fd) a1 s' = Done (-1, None) s').
Proof.
  intros H. unfold sys_close in H. apply bind_Done in H as (r & s1 & Ha & H).
  destruct r as [[fd' f]|]; [|inversion H].
  apply argfd_Done in Ha as (Hfd & -> & Hpos & Hl). inversion Hfd; subst fd'.
  apply bind_Done in H as ([] & s2 & Hm & H). inversion Hm; subst s2. clear Hm.
  apply bind_Done in H as ([] & s3 & Hc & H). inversion H; subst s'. clear H.
  apply ofile_fileclose in Hc. simpl in Hc.
  assert (ofile s3 !! Z.to_nat fd = Some None) as Hnone.
  { rewrite Hc. apply (lookup_insert_some _ _ _ _ Hl). }
  assert (argfd (Some fd) s3 = Done None s3) as Hbad.
  { apply argfd_bad. intros fd0 g Heq _ Hg. inversion Heq; subst fd0. congruence. }
  split; [exact Hnone|].
  unfold sys_dup, sys_read, sys_write, sys_close, sys_fstat.
  repeat split; intros; rewrite (bind_eq _ _ _ _ _ Hbad); reflexivity.
Qed.

Lemma sys_open_finish_Done ip omode s fd s' :
  sys_open_finish ip omode s = Done fd s' -> 0 <= fd ->
  exists f fl,
    ofile s' !! Z.to_nat fd = Some (Some f) /\ ftable s' !! f = Some fl /\
    f_type fl = FD_INODE /\ f_ip fl = ip /\ f_off fl = 0 /\
    f_readable fl = (if Z.land omode O_WRONLY =? 0 then 1 else 0) /\
    f_writable fl =
      (if negb (Z.land omode O_WRONLY =? 0) || negb (Z.land omode O_RDWR =? 0)
       then 1 else 0).
Proof.
  intros H Hfd. unfold sys_open_finish in H.
  apply bind_Done in H as (fo & s1 & Hfa & H).
  apply bind_Done in H as (fd0 & s2 & Hfda & H).
  destruct fo as [f|].
  2: { apply bind_Done in H as ([] & s3 & _ & H).
       apply bind_Done in H as ([] & s4 & _ & H). inversion H. lia. }
  destruct (Z.ltb_spec fd0 0) as [Hneg|Hpos].
  { apply bind_Done in H as ([] & s3 & _ & H).
    apply bind_Done in H as ([] & s4 & _ & H).
    apply bind_Done in H as ([] & s5 & _ & H). inversion H. lia. }
  pose proof (fdalloc_spec f s1) as Hs. rewrite Hfda in Hs.
  destruct Hs as [(k & -> & Hk & _ & ->)|(-> & _)]; [|lia].
  apply bind_Done in H as ([] & s3 & Hiu & H).
  destruct (tables_frame _ _ _ _
              (frame_iunlock _ ip any_change_ok (any_change_covers _ _)) Hiu)
    as (Hf3 & Ho3).
  apply bind_Done in H as ([] & s4 & He & H). inversion He; subst s4. clear He.
  apply bind_Done in H as ([] & s5 & Hu & H). inversion H; subst fd s'. clear H.
  unfold upd_file in Hu. simpl in Hu.
  destruct (ftable s3 !! f) as [fl3|] eqn:Hfl3; [|discriminate].
  inversion Hu; subst s5. clear Hu.
  eexists f, _. split; [|split; [simpl; apply (lookup_insert_some _ _ _ _ Hfl3)|]].
  - simpl. rewrite Ho3. simpl. rewrite Nat2Z.id.
    apply (lookup_insert_some _ _ _ _ Hk).
  - repeat split.
Qed.

Lemma sys_open_reaches_finish path omode s fd s' :
  sys_open (Some (path, omode)) s = Done fd s' -> 0 <= fd ->
  exists ip s0, sys_open_finish ip omode s0 = Done fd s'.
Proof.
  intros H Hfd. unfold sys_open in H.
  apply bind_Done in H as ([] & s0 & _ & H).
  destruct (negb (Z.land omode O_CREATE =? 0)).
  - apply bind_Done in H as ([ip|] & s1 & _ & H).
    + exists ip, s1. exact H.
    + apply bind_Done in H as ([] & s2 & _ & H). inversion H. lia.
  - apply bind_Done in H as ([ip|] & s1 & _ & H).
    + apply bind_Done in H as ([] & s2 & _ & H).
      apply bind_Done in H as (i & s3 & _ & H).
      destruct ((i_type i =? T_DIR) && negb (omode =? O_RDONLY)).
      * apply bind_Done in H as ([] & s4 & _ & H).
        apply bind_Done in H as ([] & s5 & _ & H). inversion H. lia.
      * exists ip, s3. exact H.
    + apply bind_Done in H as ([] & s2 & _ & H). inversion H. lia.
Qed.

(** X26. The mode given to [sys_open] is enforced afterwards: the
    descriptor it returns names a fresh handle on an inode at offset 0; when
    neither [O_WRONLY] nor [O_RDWR] was given every [sys_write] on the
    descriptor returns -1, and when [O_WRONLY] was given every [sys_read]
    returns -1, in both cases without changing anything. *)
Theorem open_mode_enforced path omode s fd s' :
  sys_open (Some (path, omode)) s = Done fd s' -> 0 <= fd ->
  exists f fl,
    ofile s' !! Z.to_nat fd = Some (Some f) /\ ftable s' !! f = Some fl /\
    f_type fl = FD_INODE /\ f_off fl = 0 /\
    (Z.land omode O_WRONLY = 0 -> Z.land omode O_RDWR = 0 ->
     forall buf n, sys_write (Some fd) (Some (buf, n)) s' = Done (-1) s') /\
    (Z.land omode O_WRONLY <> 0 ->
     forall n, sys_read (Some fd) (Some n) s' = Done (-1, []) s').
Proof.
  intros H Hfd. destruct (sys_open_reaches_finish _ _ _ _ _ H Hfd) as (ip & s0 & Hfin).
  destruct (sys_open_finish_Done _ _ _ _ _ Hfin Hfd)
    as (f & fl & Hof & Hft & Hty & _ & Hoff & Hrd & Hwr).
  exists f, fl. split; [exact Hof|]. split; [exact Hft|]. split; [exact Hty|].
  split; [exact Hoff|]. split.
  - intros Hw1 Hw2 buf n. unfold sys_write.
    rewrite (bind_eq _ _ _ _ _ (argfd_ok _ _ _ Hfd Hof)).
    unfold filewrite. rewrite (bind_eq _ _ _ _ _ (get_file_eq _ _ _ Hft)).
    rewrite Hwr, Hw1, Hw2. reflexivity.
  - intros Hw n. unfold sys_read.
    rewrite (bind_eq _ _ _ _ _ (argfd_ok _ _ _ Hfd Hof)).
    unfold fileread. rewrite (bind_eq _ _ _ _ _ (get_file_eq _ _ _ Hft)).
    rewrite Hrd. apply Z.eqb_neq in Hw. rewrite Hw. reflexivity.
Qed.

(** ** Path lookup and the sleep-locks *)

Lemma locks_frame P s s' :
  (forall j a b, P j a b -> i_lock b = i_lock a) -> frame P s s' ->
  i_lock <$> icache s' = i_lock <$> icache s.
Proof.
  intros HP (_ & Hlen & Hrel). apply list_eq. intros j. rewrite !list_lookup_fmap.
  destruct (icache s !! j) as [a|] eqn:Ha.
  - destruct (icache s' !! j) as [b|] eqn:Hb.
    + simpl. f_equal. apply (HP j a b). apply (Hrel j a b Ha Hb).
    + exfalso. apply lookup_ge_None in Hb. apply lookup_lt_Some in Ha. lia.
  - destruct (icache s' !! j) as [b|] eqn:Hb; [|reflexivity].
    exfalso. apply lookup_ge_None in Ha. apply lookup_lt_Some in Hb. lia.
Qed.

Lemma locks_anyslot fs s s' :
  mem_field Flock fs = false -> frame (anyslot fs) s s' ->
  i_lock <$> icache s' = i_lock <$> icache s.
Proof.
  intros Hf. apply locks_frame. intros j a b Hch. apply (Hch Flock Hf).
Qed.

Lemma ilock_locks ip s s' :
  ilock ip s = Done tt s' ->
  i_lock <$> icache s' = <[ip := true]> (i_lock <$> icache s) /\
  (i_lock <$> icache s) !! ip = Some false.
Proof.
  intros H. destruct (ilock_locked _ _ _ H) as (i0 & i & Hi0 & Hl0 & Hi & Hl & _ & Hfr).
  split; [|rewrite list_lookup_fmap, Hi0; simpl; rewrite Hl0; reflexivity].
  destruct Hfr as (_ & Hlen & Hrel). apply list_eq. intros j.
  destruct (decide (j = ip)) as [->|Hne].
  - rewrite list_lookup_insert_eq
      by (rewrite length_fmap; eapply lookup_lt_Some; exact Hi0).
    rewrite list_lookup_fmap, Hi. simpl. rewrite Hl. reflexivity.
  - rewrite list_lookup_insert_ne by congruence. rewrite !list_lookup_fmap.
    destruct (icache s !! j) as [a|] eqn:Ha.
    + destruct (icache s' !! j) as [b|] eqn:Hb.
      * pose proof (Hrel j a b Ha Hb) as Hp. unfold touches in Hp.
        destruct (decide (j = ip)); [contradiction|]. subst b. reflexivity.
      * exfalso. apply lookup_ge_None in Hb. apply lookup_lt_Some in Ha. lia.
    + destruct (icache s' !! j) as [b|] eqn:Hb; [|reflexivity].
      exfalso. apply lookup_ge_None in Ha. apply lookup_lt_Some in Hb. lia.
Qed.

Lemma iunlock_locks ip s s' :
  iunlock ip s = Done tt s' ->
  i_lock <$> icache s' = <[ip := false]> (i_lock <$> icache s).
Proof.
  intros H. unfold iunlock in H. apply bind_Done in H as (held & s0 & Hh & H).
  unfold holdingsleep in Hh. apply bind_Done in Hh as (i0 & s0' & Hg & Hr).
  apply get_inode_Done in Hg as (-> & Hi0). inversion Hr; subst held s0. clear Hr.
  rewrite (bind_eq _ _ _ _ _ (get_inode_eq _ _ _ Hi0)) in H.
  destruct (negb (i_lock i0) || (i_ref i0 <? 1)); [discriminate|].
  unfold releasesleep in H. rewrite (upd_inode_eq _ _ _ _ Hi0) in H.
  inversion H; subst s'. simpl. rewrite list_fmap_insert. reflexivity.
Qed.

Lemma iput_locks ip s s' :
  iput ip s = Done tt s' -> i_lock <$> icache s' = i_lock <$> icache s.
Proof.
  intros H.
  pose proof (frame_iput _ ip (touches_ok _ _) (touches_self _ _) _ _ _ H) as Hfr.
  assert (exists i0, icache s !! ip = Some i0) as (i0 & Hi0).
  { unfold iput, acquiresleep in H. apply bind_Done in H as ([] & s1 & Ha & _).
    apply bind_Done in Ha as (i0 & s0 & Hg & _).
    apply get_inode_Done in Hg as (_ & Hi0). exists i0. exact Hi0. }
  pose proof (iput_Done_unlocked _ _ _ _ _ Hi0 H) as Hl0.
  assert (exists i, icache s' !! ip = Some i /\ i_lock i = false) as (i & Hi & Hl).
  { unfold iput in H. apply bind_Done in H as ([] & s1 & _ & H).
    apply bind_Done in H as (i1 & s1' & _ & H).
    apply bind_Done in H as ([] & s2 & _ & H).
    apply bind_Done in H as ([] & s3 & Hrel & H).
    unfold releasesleep, upd_inode in Hrel.
    destruct (icache s2 !! ip) as [i2|] eqn:Hi2; [|discriminate].
    inversion Hrel; subst s3. clear Hrel. unfold upd_inode in H. simpl in H.
    rewrite (lookup_insert_slot _ _ _ _ Hi2) in H. inversion H; subst s'. simpl.
    eexists. split; [apply lookup_insert_slot with (i := set_i_lock false i2);
                     apply (lookup_insert_slot _ _ _ _ Hi2)|reflexivity]. }
  destruct Hfr as (_ & Hlen & Hrel). apply list_eq. intros j.
  rewrite !list_lookup_fmap.
  destruct (decide (j = ip)) as [->|Hne].
  - rewrite Hi, Hi0. simpl. rewrite Hl, Hl0. reflexivity.
  - destruct (icache s !! j) as [a|] eqn:Ha.
    + destruct (icache s' !! j) as [b|] eqn:Hb.
      * pose proof (Hrel j a b Ha Hb) as Hp. unfold touches in Hp.
        destruct (decide (j = ip)); [contradiction|]. subst b. reflexivity.
      * exfalso. apply lookup_ge_None in Hb. apply lookup_lt_Some in Ha. lia.
    + destruct (icache s' !! j) as [b|] eqn:Hb; [|reflexivity].
      exfalso. apply lookup_ge_None in Ha. apply lookup_lt_Some in Hb. lia.
Qed.

Lemma iunlockput_locks ip s s' :
  iunlockput ip s = Done tt s' ->
  i_lock <$> icache s' = <[ip := false]> (i_lock <$> icache s).
Proof.
  intros H. unfold iunlockput in H. apply bind_Done in H as ([] & s1 & Hu & Hp).
  rewrite (iput_locks _ _ _ Hp). apply iunlock_locks. exact Hu.
Qed.

Lemma frame_dirlookup_loop P name :
  slot_ok P -> (forall j, covers P j [Fdev; Finum; Fref; Fvalid; Faddrs]) ->
  forall fuel dp off, preserves (frame P) (dirlookup_loop fuel dp name off).
Proof.
  intros HP Hc. induction fuel as [|fuel IH]; intros dp off; simpl; frame_auto.
Qed.

Lemma dirlookup_locks dp name s r s' :
  dirlookup dp name s = Done r s' -> i_lock <$> icache s' = i_lock <$> icache s.
Proof.
  intros H. apply (locks_anyslot [Fdev; Finum; Fref; Fvalid; Faddrs]); [reflexivity|].
  revert H. generalize s r s'. change (preserves
    (frame (anyslot [Fdev; Finum; Fref; Fvalid; Faddrs])) (dirlookup dp name)).
  pose proof (anyslot_ok [Fdev; Finum; Fref; Fvalid; Faddrs]) as HP.
  assert (forall j, covers (anyslot [Fdev; Finum; Fref; Fvalid; Faddrs]) j
                      [Fdev; Finum; Fref; Fvalid; Faddrs]) as Hc
    by (intros j i i' Hch; exact Hch).
  unfold dirlookup. frame_auto. apply frame_dirlookup_loop; assumption.
Qed.

Lemma iget_locks dev inum s ip s' :
  iget dev inum s = Done ip s' -> i_lock <$> icache s' = i_lock <$> icache s.
Proof.
  intros H. pose proof (iget_slot _ _ _ _ _ H) as (i & i' & Hi & Hc & Hl & _).
  rewrite Hc, list_fmap_insert, Hl. apply list_insert_id.
  rewrite list_lookup_fmap, Hi. reflexivity.
Qed.

Lemma idup_locks ip s r s' :
  idup ip s = Done r s' -> i_lock <$> icache s' = i_lock <$> icache s.
Proof.
  intros H. unfold idup in H. apply bind_Done in H as ([] & s1 & Hu & Hr).
  inversion Hr; subst r s'. unfold upd_inode in Hu.
  destruct (icache s !! ip) as [i|] eqn:Hi; [|discriminate]. inversion Hu; subst s1.
  simpl. rewrite list_fmap_insert. simpl. apply list_insert_id.
  rewrite list_lookup_fmap, Hi. reflexivity.
Qed.

Lemma relock_id (l : list bool) ip :
  l !! ip = Some false -> <[ip := false]> (<[ip := true]> l) = l.
Proof. intros H. rewrite list_insert_insert_eq. apply list_insert_id. exact H. Qed.

Lemma namex_loop_locks nip : forall fuel ip path name s r s',
  namex_loop fuel ip path nip name s = Done r s' ->
  i_lock <$> icache s' = i_lock <$> icache s.
Proof.
  induction fuel as [|fuel IH]; intros ip path name s r s' H; [discriminate|].
  cbn [namex_loop] in H. destruct (skipelem path name) as [[path' name']|].
  - apply bind_Done in H as ([] & s1 & Hl & H).
    destruct (ilock_locks _ _ _ Hl) as (Hl1 & Hfree).
    apply bind_Done in H as (i & s1' & Hg & H).
    apply get_inode_Done in Hg as (-> & _).
    destruct (negb (i_type i =? T_DIR)).
    { apply bind_Done in H as ([] & s2 & Hu & H). inversion H; subst.
      rewrite (iunlockput_locks _ _ _ Hu), Hl1. apply relock_id. exact Hfree. }
    destruct (negb (nip =? 0) && (hd 0 path' =? 0)).
    { apply bind_Done in H as ([] & s2 & Hu & H). inversion H; subst.
      rewrite (iunlock_locks _ _ _ Hu), Hl1. apply relock_id. exact Hfree. }
    apply bind_Done in H as (next & s2 & Hd & H).
    pose proof (dirlookup_locks _ _ _ _ _ Hd) as Hl2.
    destruct next as [[nx off]|].
    + apply bind_Done in H as ([] & s3 & Hu & H).
      rewrite (IH _ _ _ _ _ _ H), (iunlockput_locks _ _ _ Hu), Hl2, Hl1.
      apply relock_id. exact Hfree.
    + apply bind_Done in H as ([] & s3 & Hu & H). inversion H; subst.
      rewrite (iunlockput_locks _ _ _ Hu), Hl2, Hl1. apply relock_id. exact Hfree.
  - destruct (negb (nip =? 0)).
    + apply bind_Done in H as ([] & s1 & Hp & H). inversion H; subst.
      apply (iput_locks _ _ _ Hp).
    + inversion H; subst. reflexivity.
Qed.

Lemma namex_keeps_locks path nip name s r s' :
  namex path nip name s = Done r s' ->
  i_lock <$> icache s' = i_lock <$> icache s.
Proof.
  intros H. unfold namex in H.
  apply bind_Done in H as (ip & s1 & Hstart & H).
  rewrite (namex_loop_locks _ _ _ _ _ _ _ _ H).
  destruct (hd 0 path =? slash).
  - apply (iget_locks _ _ _ _ _ Hstart).
  - apply bind_Done in Hstart as (s0 & s0' & Hg & Hd). inversion Hg; subst s0 s0'.
    apply (idup_locks _ _ _ _ Hd).
Qed.

(** X27. Path lookup leaves no inode locked: when [namex], and so [namei]
    and [nameiparent], returns, the sleep-lock of every slot of the cache is
    as it was before the call; each directory on the way was locked only
    while it was searched, and the inode returned is not locked. *)
Theorem namex_locks path s :
  (forall nip name r s',
     namex path nip name s = Done r s' ->
     i_lock <$> icache s' = i_lock <$> icache s) /\
  (forall r s', namei path s = Done r s' ->
     i_lock <$> icache s' = i_lock <$> icache s) /\
  (forall name r s', nameiparent path name s = Done r s' ->
     i_lock <$> icache s' = i_lock <$> icache s).
Proof.
  split; [intros nip name r s'; apply namex_keeps_locks|]. split.
  - intros r s' H. unfold namei in H. apply bind_Done in H as (rx & s1 & Hn & Hr).
    inversion Hr; subst. apply (namex_keeps_locks _ _ _ _ _ _ Hn).
  - intros name r s' H. apply (namex_keeps_locks _ _ _ _ _ _ H).
Qed.

(** ** The sleep-locks across the system calls *)

Lemma tr_ret {A} L (a : A) (Q : A -> list bool -> Prop) : Q a L -> lock_tr L (ret a) Q.
Proof. intros HQ s a' s' HL H. inversion H; subst. exact HQ. Qed.

Lemma tr_panic {A} L msg (Q : A -> list bool -> Prop) : lock_tr L (panic msg) Q.
Proof. intros s a s' _ H. discriminate. Qed.

Lemma tr_fuel {A} L (Q : A -> list bool -> Prop) :
  lock_tr L (fun _ : state => @OutOfFuel A) Q.
Proof. intros s a s' _ H. discriminate. Qed.

Lemma tr_neutral {A} L (m : M A) (Q : A -> list bool -> Prop) :
  lock_neutral m -> (forall a, Q a L) -> lock_tr L m Q.
Proof. intros Hm HQ s a s' HL H. rewrite (Hm s a s' H), HL. apply HQ. Qed.

Lemma tr_conseq {A} L (m : M A) (Q Q' : A -> list bool -> Prop) :
  lock_tr L m Q -> (forall a L', Q a L' -> Q' a L') -> lock_tr L m Q'.
Proof. intros Hm HQ s a s' HL H. apply HQ. apply (Hm s a s' HL H). Qed.

Lemma tr_bind {A B} L (m : M A) (k : A -> M B) Q1 (Q : B -> list bool -> Prop) :
  lock_tr L m Q1 -> (forall a L1, Q1 a L1 -> lock_tr L1 (k a) Q) ->
  lock_tr L (bind m k) Q.
Proof.
  intros Hm Hk s b s'' HL H. apply bind_Done in H as (a & s' & H1 & H2).
  apply (Hk a (locks s') (Hm s a s' HL H1) s' b s'' eq_refl H2).
Qed.

Lemma tr_bind_neutral {A B} L (m : M A) (k : A -> M B) (Q : B -> list bool -> Prop) :
  lock_neutral m -> (forall a, lock_tr L (k a) Q) -> lock_tr L (bind m k) Q.
Proof.
  intros Hm Hk. apply (tr_bind L m k (fun _ L1 => L1 = L)).
  - apply tr_neutral; [exact Hm|reflexivity].
  - intros a L1 ->. apply Hk.
Qed.

Lemma tr_bind_ilock {B} L ip (k : unit -> M B) (Q : B -> list bool -> Prop) :
  (L !! ip = Some false -> lock_tr (<[ip := true]> L) (k tt) Q) ->
  lock_tr L (bind (ilock ip) k) Q.
Proof.
  intros Hk s b s'' HL H. apply bind_Done in H as ([] & s' & H1 & H2).
  destruct (ilock_locks _ _ _ H1) as (Hl & Hfree). fold (locks s) in Hl, Hfree.
  fold (locks s') in Hl. rewrite HL in Hl, Hfree.
  apply (Hk Hfree s' b s'' Hl H2).
Qed.

Lemma tr_bind_iunlock {B} L ip (k : unit -> M B) (Q : B -> list bool -> Prop) :
  lock_tr (<[ip := false]> L) (k tt) Q -> lock_tr L (bind (iunlock ip) k) Q.
Proof.
  intros Hk s b s'' HL H. apply bind_Done in H as ([] & s' & H1 & H2).
  pose proof (iunlock_locks _ _ _ H1) as Hl. fold (locks s) (locks s') in Hl.
  rewrite HL in Hl. apply (Hk s' b s'' Hl H2).
Qed.

Lemma tr_bind_iunlockput {B} L ip (k : unit -> M B) (Q : B -> list bool -> Prop) :
  lock_tr (<[ip := false]> L) (k tt) Q -> lock_tr L (bind (iunlockput ip) k) Q.
Proof.
  intros Hk s b s'' HL H. apply bind_Done in H as ([] & s' & H1 & H2).
  pose proof (iunlockput_locks _ _ _ H1) as Hl. fold (locks s) (locks s') in Hl.
  rewrite HL in Hl. apply (Hk s' b s'' Hl H2).
Qed.

Lemma bind_assoc {A B C} (m : M A) (k1 : A -> M B) (k : B -> M C) s :
  bind (bind m k1) k s = bind m (fun x => bind (k1 x) k) s.
Proof. unfold bind. destruct (m s); reflexivity. Qed.

Lemma tr_assoc {A B C} L (m : M A) (k1 : A -> M B) (k : B -> M C)
    (Q : C -> list bool -> Prop) :
  lock_tr L (bind m (fun x => bind (k1 x) k)) Q -> lock_tr L (bind (bind m k1) k) Q.
Proof. intros Hm s a s' HL H. rewrite bind_assoc in H. apply (Hm s a s' HL H). Qed.

Lemma tr_ret_bind {A B} L (a : A) (k : A -> M B) (Q : B -> list bool -> Prop) :
  lock_tr L (k a) Q -> lock_tr L (bind (ret a) k) Q.
Proof. intros Hk s b s' HL H. apply (Hk s b s' HL H). Qed.

Lemma tr_panic_bind {A B} L msg (k : A -> M B) (Q : B -> list bool -> Prop) :
  lock_tr L (bind (panic msg) k) Q.
Proof. intros s a s' _ H. discriminate. Qed.

Lemma tr_of_neutral {A} (m : M A) :
  (forall L, lock_tr L m (fun _ L' => L' = L)) -> lock_neutral m.
Proof. intros H s a s' Hm. apply (H (locks s) s a s' eq_refl Hm). Qed.

(** Functions that do not touch the locks. *)

Lemma neutral_frame {A} (m : M A) :
  preserves (frame (anyslot unlocked_fields)) m -> lock_neutral m.
Proof.
  intros Hm s a s' H. apply (locks_anyslot unlocked_fields); [reflexivity|].
  apply (Hm s a s' H).
Qed.

Lemma neutral_get : lock_neutral get.
Proof. intros s a s' H. inversion H; subst. reflexivity. Qed.

Lemma neutral_modify f : (forall s, icache (f s) = icache s) -> lock_neutral (modify f).
Proof. intros Hf s a s' H. inversion H; subst. unfold locks. rewrite Hf. reflexivity. Qed.

Lemma neutral_begin_op : lock_neutral begin_op.
Proof. apply neutral_modify. reflexivity. Qed.

Lemma neutral_end_op : lock_neutral end_op.
Proof. apply neutral_modify. reflexivity. Qed.

Lemma neutral_get_file f : lock_neutral (get_file f).
Proof. intros s a s' H. apply get_file_Done in H as (-> & _). reflexivity. Qed.

Lemma neutral_upd_file f g : lock_neutral (upd_file f g).
Proof.
  intros s a s' H. unfold upd_file in H.
  destruct (ftable s !! f); inversion H; subst. reflexivity.
Qed.

Lemma neutral_get_inode ip : lock_neutral (get_inode ip).
Proof. intros s a s' H. apply get_inode_Done in H as (-> & _). reflexivity. Qed.

Lemma neutral_upd_inode ip f :
  (forall i, i_lock (f i) = i_lock i) -> lock_neutral (upd_inode ip f).
Proof.
  intros Hf s a s' H. unfold upd_inode in H.
  destruct (icache s !! ip) as [i|] eqn:Hi; inversion H; subst. unfold locks. simpl.
  rewrite list_fmap_insert, Hf. apply list_insert_id.
  rewrite list_lookup_fmap, Hi. reflexivity.
Qed.

Lemma neutral_iput ip : lock_neutral (iput ip).
Proof. intros s [] s' H. apply (iput_locks _ _ _ H). Qed.

Lemma neutral_iget dev inum : lock_neutral (iget dev inum).
Proof. intros s a s' H. apply (iget_locks _ _ _ _ _ H). Qed.

Lemma neutral_idup ip : lock_neutral (idup ip).
Proof. intros s a s' H. apply (idup_locks _ _ _ _ H). Qed.

Lemma neutral_dirlookup dp name : lock_neutral (dirlookup dp name).
Proof. intros s a s' H. apply (dirlookup_locks _ _ _ _ _ H). Qed.

Lemma neutral_namei path : lock_neutral (namei path).
Proof.
  intros s a s' H. unfold namei in H. apply bind_Done in H as (rx & s1 & Hn & Hr).
  inversion Hr; subst. apply (namex_keeps_locks _ _ _ _ _ _ Hn).
Qed.

Lemma neutral_nameiparent path name : lock_neutral (nameiparent path name).
Proof. intros s a s' H. apply (namex_keeps_locks _ _ _ _ _ _ H). Qed.

#[local] Hint Resolve anyslot_ok : frames.
#[local] Hint Extern 1 (covers (anyslot _) _ _) =>
  apply anyslot_covers; reflexivity : frames.
#[local] Hint Extern 1 (forall j, covers (anyslot _) j _) =>
  intros ?; apply anyslot_covers; reflexivity : frames.

Lemma neutral_iupdate ip : lock_neutral (iupdate ip).
Proof. apply neutral_frame. eauto with frames. Qed.

Lemma neutral_readi ip off n : lock_neutral (readi ip off n).
Proof. apply neutral_frame. eauto with frames. Qed.

Lemma neutral_writei ip src off n : lock_neutral (writei ip src off n).
Proof. apply neutral_frame. eauto with frames. Qed.

Lemma neutral_dirlink_scan fuel dp off : lock_neutral (dirlink_scan fuel dp off).
Proof. apply neutral_frame. apply frame_dirlink_scan; eauto with frames. Qed.

Lemma nl_ialloc_scan dev type : forall cands,
  preserves (frame (anyslot unlocked_fields)) (ialloc_scan dev type cands).
Proof.
  pose proof (anyslot_ok unlocked_fields) as HP.
  assert (forall j, covers (anyslot unlocked_fields) j [Fdev; Finum; Fref; Fvalid]) as Hc
    by (intros j; apply anyslot_covers; reflexivity).
  induction cands as [|c l IH]; simpl; frame_auto.
Qed.

Lemma neutral_ialloc dev type : lock_neutral (ialloc dev type).
Proof.
  apply neutral_frame. pose proof (anyslot_ok unlocked_fields) as HP.
  pose proof (nl_ialloc_scan dev type) as Hscan.
  unfold ialloc. frame_auto.
Qed.

Lemma nl_isdirempty_loop : forall fuel dp off,
  preserves (frame (anyslot unlocked_fields)) (isdirempty_loop fuel dp off).
Proof.
  pose proof (anyslot_ok unlocked_fields) as HP.
  induction fuel as [|fuel IH]; intros dp off; simpl; frame_auto.
Qed.

Lemma neutral_isdirempty dp : lock_neutral (isdirempty dp).
Proof.
  apply neutral_frame. pose proof (anyslot_ok unlocked_fields) as HP.
  pose proof nl_isdirempty_loop as Hloop.
  unfold isdirempty. frame_auto.
Qed.

Lemma neutral_stati ip : lock_neutral (stati ip).
Proof.
  intros s a s' H. unfold stati in H. apply bind_Done in H as (i & s1 & Hg & Hr).
  apply get_inode_Done in Hg as (-> & _). inversion Hr; subst. reflexivity.
Qed.

Create HintDb neutrals.
Create HintDb lktrs.
#[local] Hint Resolve neutral_get neutral_begin_op neutral_end_op neutral_get_file
  neutral_upd_file neutral_get_inode neutral_iput neutral_iget neutral_idup
  neutral_dirlookup neutral_namei neutral_nameiparent neutral_iupdate neutral_readi
  neutral_writei neutral_dirlink_scan neutral_ialloc neutral_isdirempty neutral_stati
  : neutrals.
#[local] Hint Extern 2 (lock_neutral (modify _)) =>
  apply neutral_modify; intros ?; reflexivity : neutrals.
#[local] Hint Extern 2 (lock_neutral (upd_inode _ _)) =>
  apply neutral_upd_inode; intros ?; reflexivity : neutrals.

Lemma lookup_insert_case (l : list bool) i j v :
  <[i := v]> l !! j =
  if decide (j = i) then (if decide (i < length l)%nat then Some v else None)
  else l !! j.
Proof.
  destruct (decide (j = i)) as [->|Hne].
  - destruct (decide (i < length l)%nat) as [Hlt|Hge].
    + apply list_lookup_insert_eq. exact Hlt.
    + apply lookup_ge_None. rewrite length_insert. lia.
  - apply list_lookup_insert_ne. congruence.
Qed.

Ltac lk_facts :=
  repeat match goal with
         | H : ?l !! ?i = Some _ |- _ =>
             lazymatch goal with
             | _ : (i < length l)%nat |- _ => fail
             | _ => pose proof (lookup_lt_Some _ _ _ H)
             end
         end.

Ltac lk_solve :=
  intros; cbv beta in *;
  repeat match goal with
         | H : _ /\ _ |- _ => destruct H
         | H : create_locks _ (Some _) _ |- _ => destruct H
         | H : create_locks _ None _ |- _ => unfold create_locks in H
         end;
  subst;
  repeat match goal with |- _ /\ _ => split end;
  try (apply list_eq; intros ?);
  repeat (rewrite lookup_insert_case in * || rewrite length_insert in * );
  repeat case_decide; subst; lk_facts; try congruence; try lia.

Ltac lk_step :=
  lazymatch goal with
  | |- lock_tr _ (bind (bind _ _) _) _ => apply tr_assoc
  | |- lock_tr _ (bind (ret _) _) _ => apply tr_ret_bind
  | |- lock_tr _ (bind (panic _) _) _ => apply tr_panic_bind
  | |- lock_tr _ (bind (ilock _) _) _ => apply tr_bind_ilock; intros ?
  | |- lock_tr _ (bind (iunlock _) _) _ => apply tr_bind_iunlock
  | |- lock_tr _ (bind (iunlockput _) _) _ => apply tr_bind_iunlockput
  | |- lock_tr _ (bind (if ?c then _ else _) _) _ => destruct c
  | |- lock_tr _ (bind (match ?x with _ => _ end) _) _ => destruct x
  | |- lock_tr _ (bind _ _) _ =>
      first [ apply tr_bind_neutral; [solve [eauto with neutrals] | intros ?]
            | eapply tr_bind; [solve [eauto with lktrs] | intros ? ? ?] ]
  | |- lock_tr _ (ret _) _ => apply tr_ret
  | |- lock_tr _ (panic _) _ => apply tr_panic
  | |- lock_tr _ (fun _ => OutOfFuel) _ => apply tr_fuel
  | |- lock_tr _ (if ?c then _ else _) _ => destruct c
  | |- lock_tr _ (match ?x with _ => _ end) _ => destruct x
  | |- lock_tr _ (let (_, _) := ?x in _) _ => destruct x
  | |- lock_tr _ _ _ =>
      first [ apply tr_neutral; [solve [eauto with neutrals] | intros ?]
            | eapply tr_conseq; [solve [eauto with lktrs] | intros ? ?] ]
  end.
Ltac lk_auto := repeat lk_step.

Lemma neutral_dirlink dp name inum : lock_neutral (dirlink dp name inum).
Proof. apply tr_of_neutral. intros L. unfold dirlink. lk_auto; lk_solve. Qed.

Lemma neutral_fileclose f : lock_neutral (fileclose f).
Proof. apply tr_of_neutral. intros L. unfold fileclose. lk_auto; lk_solve. Qed.

Lemma neutral_filealloc : lock_neutral filealloc.
Proof. apply tr_of_neutral. intros L. unfold filealloc. lk_auto; lk_solve. Qed.

Lemma neutral_fdalloc f : lock_neutral (fdalloc f).
Proof. apply tr_of_neutral. intros L. unfold fdalloc. lk_auto; lk_solve. Qed.

Lemma neutral_filedup f : lock_neutral (filedup f).
Proof. apply tr_of_neutral. intros L. unfold filedup. lk_auto; lk_solve. Qed.

Lemma neutral_argfd a0 : lock_neutral (argfd a0).
Proof. apply tr_of_neutral. intros L. unfold argfd. lk_auto; lk_solve. Qed.

#[local] Hint Resolve neutral_dirlink neutral_fileclose neutral_filealloc neutral_fdalloc
  neutral_filedup neutral_argfd : neutrals.

Lemma create_tr path type major minor L :
  lock_tr L (create path type major minor) (create_locks L).
Proof. unfold create. lk_auto; unfold create_locks; lk_solve. Qed.

Lemma sys_open_finish_tr ip omode L :
  lock_tr L (sys_open_finish ip omode) (fun _ L' => L' = <[ip := false]> L).
Proof. unfold sys_open_finish. lk_auto; lk_solve. Qed.

#[local] Hint Resolve create_tr sys_open_finish_tr : lktrs.

(** The locked section of [fileread] and [filewrite]: the handle is read
    again before the transfer and before the unlock, and names the same
    inode each time. *)
Lemma locked_transfer {R B} (io : nat -> Z -> M R) (pos : R -> Z) f (k : R -> M B)
    fl s b s' :
  (forall ip off, preserves (frame any_change) (io ip off)) ->
  (forall ip off, lock_neutral (io ip off)) ->
  ftable s !! f = Some fl ->
  (let* fl1 := get_file f in
   let* r := io (f_ip fl1) (f_off fl1) in
   (if 0 <? pos r then upd_file f (fun fl => set_f_off (u32 (f_off fl + pos r)) fl)
    else ret tt) ;;
   let* fl2 := get_file f in
   iunlock (f_ip fl2) ;;
   k r) s = Done b s' ->
  exists r s1, locks s1 = <[f_ip fl := false]> (locks s) /\ k r s1 = Done b s'.
Proof.
  intros Hfr Hnl Hf H.
  apply bind_Done in H as (fl1 & s0 & Hg & H). apply get_file_Done in Hg as (-> & Hf1).
  rewrite Hf in Hf1. injection Hf1 as <-.
  apply bind_Done in H as (r & s1 & Hio & H).
  destruct (tables_frame _ _ _ _ (Hfr _ _) Hio) as (Ht1 & _).
  pose proof (Hnl _ _ _ _ _ Hio) as Hl1.
  apply bind_Done in H as ([] & s2 & Hu & H).
  assert (exists fl2, ftable s2 !! f = Some fl2 /\ f_ip fl2 = f_ip fl /\
                      locks s2 = locks s1) as (fl2 & Hf2 & Hip & Hl2).
  { destruct (0 <? pos r).
    - unfold upd_file in Hu. rewrite Ht1, Hf in Hu. inversion Hu; subst s2. simpl.
      eexists. split; [apply list_lookup_insert_eq; apply (lookup_lt_Some _ _ _ Hf)|].
      split; reflexivity.
    - inversion Hu; subst s2. exists fl. rewrite Ht1. repeat split. exact Hf. }
  apply bind_Done in H as (fl3 & s2' & Hg & H). apply get_file_Done in Hg as (-> & Hf3).
  rewrite Hf2 in Hf3. injection Hf3 as <-.
  apply bind_Done in H as ([] & s3 & Hun & H).
  exists r, s3. split; [|exact H].
  pose proof (iunlock_locks _ _ _ Hun) as Hl3. fold (locks s2) (locks s3) in Hl3.
  rewrite Hl3, Hip, Hl2, Hl1. reflexivity.
Qed.

Lemma ilock_handle ip f fl s s' :
  ilock ip s = Done tt s' -> ftable s !! f = Some fl ->
  ftable s' !! f = Some fl /\ locks s' = <[ip := true]> (locks s) /\
  locks s !! ip = Some false.
Proof.
  intros H Hf.
  destruct (tables_frame _ _ _ _ (frame_ilock _ ip any_change_ok (any_change_covers _ _)) H)
    as (Ht & _).
  rewrite Ht. split; [exact Hf|]. apply (ilock_locks _ _ _ H).
Qed.

Lemma relock_locks (L : list bool) ip :
  L !! ip = Some false -> <[ip := false]> (<[ip := true]> L) = L.
Proof. lk_solve. Qed.

Lemma neutral_fileread f n : lock_neutral (fileread f n).
Proof.
  intros s r s' H. unfold fileread in H.
  apply bind_Done in H as (fl & s0 & Hg & H). apply get_file_Done in Hg as (-> & Hf).
  destruct (f_readable fl =? 0); [inversion H; subst; reflexivity|].
  destruct (f_type fl); try discriminate; [inversion H; subst; reflexivity|].
  apply bind_Done in H as ([] & s1 & Hl & H).
  destruct (ilock_handle _ _ _ _ _ Hl Hf) as (Hf1 & Hl1 & Hfree).
  apply (locked_transfer (fun ip off => readi ip off (u32 n)) fst f ret fl) in H
    as (rd & s2 & Hl2 & Hr); [| |intros; apply neutral_readi|exact Hf1].
  - inversion Hr; subst. rewrite Hl2, Hl1. apply relock_locks, Hfree.
  - intros ip off. apply frame_readi; [apply any_change_ok|apply any_change_covers].
Qed.

Lemma neutral_filewrite_loop f addr n max : forall fuel i,
  lock_neutral (filewrite_loop fuel f addr n max i).
Proof.
  induction fuel as [|fuel IH]; intros i s r s' H; simpl in H; [discriminate|].
  destruct (i <? n); [|inversion H; subst; reflexivity].
  apply bind_Done in H as ([] & s0 & Hb & H). inversion Hb; subst s0. clear Hb.
  apply bind_Done in H as (fl & s0 & Hg & H). apply get_file_Done in Hg as (-> & Hf).
  apply bind_Done in H as ([] & s1 & Hl & H).
  destruct (ilock_handle _ _ _ _ _ Hl Hf) as (Hf1 & Hl1 & Hfree).
  set (n1 := if max <? n - i then max else n - i) in H.
  apply (locked_transfer
           (fun ip off => writei ip (drop (Z.to_nat i) addr) off (u32 n1)) id f
           (fun w => end_op ;;
                     if w <? 0 then ret i
                     else if negb (w =? n1) then panic "short filewrite"
                     else filewrite_loop fuel f addr n max (i32 (i + w))) fl) in H
    as (w & s2 & Hl2 & Hk); [| |intros; apply neutral_writei|exact Hf1].
  - assert (locks s2 = locks s) as Hs2
        by (rewrite Hl2, Hl1; apply relock_locks, Hfree).
    apply bind_Done in Hk as ([] & s3 & He & Hk). inversion He; subst s3. clear He.
    destruct (w <? 0); [inversion Hk; subst; exact Hs2|].
    destruct (negb (w =? n1)); [discriminate|].
    rewrite (IH _ _ _ _ Hk). exact Hs2.
  - intros ip off. apply frame_writei; [apply any_change_ok|apply any_change_covers].
Qed.

Lemma neutral_filewrite f addr n : lock_neutral (filewrite f addr n).
Proof.
  intros s r s' H. unfold filewrite in H.
  apply bind_Done in H as (fl & s0 & Hg & H). apply get_file_Done in Hg as (-> & Hf).
  destruct (f_writable fl =? 0); [inversion H; subst; reflexivity|].
  destruct (f_type fl); try discriminate; [inversion H; subst; reflexivity|].
  apply bind_Done in H as (i & s1 & Hloop & H). inversion H; subst.
  apply (neutral_filewrite_loop _ _ _ _ _ _ _ _ _ Hloop).
Qed.

Lemma neutral_filestat f : lock_neutral (filestat f).
Proof.
  intros s r s' H. unfold filestat in H.
  apply bind_Done in H as (fl & s0 & Hg & H). apply get_file_Done in Hg as (-> & Hf).
  destruct (f_type fl); try (inversion H; subst; reflexivity).
  apply bind_Done in H as ([] & s1 & Hl & H).
  destruct (ilock_handle _ _ _ _ _ Hl Hf) as (Hf1 & Hl1 & Hfree).
  apply bind_Done in H as (fl1 & s0 & Hg & H). apply get_file_Done in Hg as (-> & Hf2).
  apply bind_Done in H as (st & s2 & Hst & H).
  unfold stati in Hst. apply bind_Done in Hst as (i & s0 & Hg & Hr).
  apply get_inode_Done in Hg as (-> & _). inversion Hr; subst s2. clear Hr.
  apply bind_Done in H as (fl2 & s0 & Hg & H). apply get_file_Done in Hg as (-> & Hf3).
  rewrite Hf1 in Hf3. injection Hf3 as <-.
  apply bind_Done in H as ([] & s3 & Hun & H). inversion H; subst.
  pose proof (iunlock_locks _ _ _ Hun) as Hl3. fold (locks s1) (locks s') in Hl3.
  rewrite Hl3, Hl1. apply relock_locks, Hfree.
Qed.

#[local] Hint Resolve neutral_fileread neutral_filewrite neutral_filestat : neutrals.

(** X28. The system calls of sysfile.c on files and directories
    ([sys_open], [sys_link], [sys_unlink], [sys_mkdir], [sys_mknod],
    [sys_chdir], [sys_dup], [sys_read], [sys_write], [sys_close],
    [sys_fstat]) return with the sleep-locks as they found them: whatever
    the result, each inode locked on the way (the directories searched, the
    inode created, opened, linked or unlinked) has been unlocked again, and
    no other lock was touched. *)
Theorem syscalls_release_locks :
  (forall a, lock_neutral (sys_open a)) /\
  (forall a, lock_neutral (sys_link a)) /\
  (forall a, lock_neutral (sys_unlink a)) /\
  (forall a, lock_neutral (sys_mkdir a)) /\
  (forall a, lock_neutral (sys_mknod a)) /\
  (forall a, lock_neutral (sys_chdir a)) /\
  (forall a, lock_neutral (sys_dup a)) /\
  (forall a0 a2, lock_neutral (sys_read a0 a2)) /\
  (forall a0 a12, lock_neutral (sys_write a0 a12)) /\
  (forall a, lock_neutral (sys_close a)) /\
  (forall a0 a1, lock_neutral (sys_fstat a0 a1)).
Proof.
  repeat split; intros; apply tr_of_neutral; intros L.
  - unfold sys_open. lk_auto; lk_solve.
  - unfold sys_link, sys_link_bad. lk_auto; lk_solve.
  - unfold sys_unlink, sys_unlink_bad. lk_auto; lk_solve.
  - unfold sys_mkdir. lk_auto; lk_solve.
  - unfold sys_mknod. lk_auto; lk_solve.
  - unfold sys_chdir. lk_auto; lk_solve.
  - unfold sys_dup. lk_auto; lk_solve.
  - unfold sys_read. lk_auto; lk_solve.
  - unfold sys_write. lk_auto; lk_solve.
  - unfold sys_close. lk_auto; lk_solve.
  - unfold sys_fstat. lk_auto; lk_solve.
Qed.

(** * Writing, linking, releasing and creating, in full *)

(** ** [writei] *)

(** C5. For an inode that is not a device, [writei] returns -1, leaving the
    state as it is, when [off + n] exceeds [MAXFILE * BSIZE]; it never
    exhausts the fuel of the model; and when it returns something else, the
    write was within the bounds, the result is [n], the slot of the inode
    has changed at most in its addresses and its size, the cached size is
    the larger of the old size and the end [off + n] of the write, and when
    the write ended past the old size the inode was written through: the
    last [log_write] is on the inode, and the on-disk inode mirrors the
    cached one.  Such a return happens: a write of [n > 0] bytes that
    starts at or before the end of the file and stays within one mapped
    block returns [n], with the bytes stored in that block, the cached
    size raised to [off + n] when the write ends past the old size, and
    the inode then written through by [iupdate]. *)
Theorem writei_bounds s ip i src off n :
  icache s !! ip = Some i -> i_type i <> T_DEV ->
  is_u32 off -> is_u32 n -> is_u32 (i_size i) ->
  (MAXFILE * BSIZE < off + n -> writei ip src off n s = Done (-1) s) /\
  writei ip src off n s <> OutOfFuel /\
  (forall r s', writei ip src off n s = Done r s' -> r <> -1 ->
     r = n /\ off <= i_size i /\ off + n <= MAXFILE * BSIZE /\
     exists i',
       icache s' !! ip = Some i' /\ changes [Faddrs; Fsize] i i' /\
       i_size i' = Z.max (i_size i) (off + n) /\
       (i_size i < off + n ->
        (exists tr, trace s' = tr ++ [EvLogWrite (TInode (i_dev i) (i_inum i))]) /\
        dinode_at s' (i_dev i) (i_inum i) =
          mkDinode (i_type i') (i_major i') (i_minor i') (i_nlink i')
                   (off + n) (i_addrs i'))) /\
  (0 < n -> off <= i_size i -> off + n <= MAXFILE * BSIZE ->
   off mod BSIZE + n <= BSIZE -> mapped s i (off / BSIZE) ->
   exists s',
     writei ip src off n s = Done n s' /\
     icache s' = <[ip := set_i_size (Z.max (i_size i) (off + n)) i]> (icache s) /\
     blocks s' =
       <[(i_dev i, baddr s i (off / BSIZE)) :=
           blk_put (block_at s (i_dev i) (baddr s i (off / BSIZE))) (off mod BSIZE)
             (blk_read src 0 n)]> (blocks s) /\
     bitmap s' = bitmap s /\
     (i_size i < off + n ->
      (exists tr, trace s' = tr ++ [EvLogWrite (TInode (i_dev i) (i_inum i))]) /\
      dinode_at s' (i_dev i) (i_inum i) =
        mkDinode (i_type i) (i_major i) (i_minor i) (i_nlink i) (off + n) (i_addrs i))).
Proof.
  intros Hip Hty Hoff Hn Hsz.
  split; [|split; [|split]].
  - intros Hbig. apply (writei_reject s ip i); try assumption. right. right. exact Hbig.
  - apply nofuel_writei; assumption.
  - intros r s' H Hr. apply (writei_Done_spec s ip i src off n r s'); assumption.
  - intros Hpos Hle Hmax Hblk Hmap.
    destruct (writei_in_block s ip i src off n Hip Hty Hoff Hpos Hle Hmax Hblk Hmap)
      as (s' & Hw & Hc & Hb & Hbm).
    exists s'. split; [exact Hw|]. split; [exact Hc|]. split; [exact Hb|].
    split; [exact Hbm|]. intros Hext.
    destruct (writei_Done_spec s ip i src off n n s' Hip Hty Hoff Hn Hsz Hw ltac:(lia))
      as (_ & _ & _ & i' & Hi' & _ & _ & Hthrough).
    rewrite Hc, (lookup_insert_slot _ _ _ _ Hip) in Hi'. injection Hi' as <-.
    exact (Hthrough Hext).
Qed.

(** ** [dirlink] *)

(** The entry that [dirlink] stores, when the slot lies in a mapped block
    of the directory's own. *)
Lemma dirlink_stores s dp d nent name inum k :
  icache s !! dp = Some d -> dir_ok s d nent ->
  ~ dir_present s d nent name ->
  BSIZE mod desz = 0 -> dir_slot s d nent k ->
  mapped s d (k * desz / BSIZE) -> block_private s d (k * desz / BSIZE) ->
  let d' := set_i_size (Z.max (i_size d) ((k + 1) * desz)) d in
  exists s',
    dirlink dp name inum s = Done 0 s' /\
    icache s' = <[dp := d']> (icache s) /\
    dir_ok s' d' (Z.to_nat (Z.max (Z.of_nat nent) (k + 1))) /\
    dir_entry s' d' k = mkDirent (u16 inum) (strncpy name (Z.to_nat DIRSIZ)) /\
    (forall j, 0 <= j < Z.of_nat nent -> j <> k -> dir_entry s' d' j = dir_entry s d j).
Proof.
  intros Hdp Hok Hno Hdiv Hslot Hmapk Hpriv.
  pose proof Hok as (Hty & Hsz & Hsmall & Hmap). pose proof desz_range as Hde.
  destruct MAXFILE_bound as (Hnd & Hni & Hmaxb).
  pose proof (dir_slot_unique _ _ _ _ Hslot) as Hk.
  destruct Hslot as (Hkr & Hall & Hfree).
  replace ((k + 1) * desz) with (k * desz + desz) by lia.
  set (enc := dirent_encode (mkDirent (u16 inum) (strncpy name (Z.to_nat DIRSIZ)))).
  assert (length enc = Z.to_nat desz) as Hlen by apply length_dirent_encode.
  set (off := k * desz) in *. set (bn := off / BSIZE) in *.
  pose proof (entry_in_block k ltac:(lia) Hdiv) as Hin. fold off in Hin.
  pose proof (Z.mod_pos_bound off BSIZE ltac:(rewrite BSIZE_val; lia)) as Hmod.
  pose proof (Z.div_mod off BSIZE ltac:(rewrite BSIZE_val; lia)) as Hdm. fold bn in Hdm.
  assert (0 <= off <= i_size d) as Hoffr.
  { subst off. rewrite Hsz. split; [apply Z.mul_nonneg_nonneg; lia|].
    apply Z.mul_le_mono_nonneg_r; lia. }
  assert (off + desz <= MAXFILE * BSIZE) as Hend.
  { destruct Hmapk as ((_ & Hbn) & _). fold off bn in Hbn.
    rewrite BSIZE_val in *. lia. }
  assert (i_type d <> T_DEV) as Hnd' by (rewrite Hty; unfold T_DIR, T_DEV; lia).
  assert (is_u32 off) as Hoffu by (unfold is_u32; lia).
  assert (0 < desz) as Hdpos by lia.
  destruct (writei_in_block s dp d enc off desz Hdp Hnd' Hoffu Hdpos (proj2 Hoffr)
              Hend Hin Hmapk)
    as (s1 & Hw & Hc & Hb & _).
  fold bn in Hb.
  intros d'. exists s1. split.
  { rewrite (dirlink_absent_eq s dp d nent name inum Hdp Hok Hno), <- Hk.
    fold enc off. rewrite (bind_eq _ _ _ _ _ Hw).
    rewrite (u32_id desz) by lia. rewrite Z.eqb_refl. reflexivity. }
  split; [exact Hc|].
  set (nent' := Z.to_nat (Z.max (Z.of_nat nent) (k + 1))).
  assert (forall b, baddr s1 d' b = baddr s d b) as Hbaddr.
  { intros b. unfold baddr. subst d'. simpl.
    destruct (b <? NDIRECT); [reflexivity|].
    unfold block_at. rewrite Hb, lookup_insert_ne; [reflexivity|].
    intros Heq. inversion Heq. apply (proj1 Hpriv). congruence. }
  assert (forall x, 0 <= x -> x / BSIZE < MAXFILE ->
            byte_at s1 d' x =
            if (off <=? x) && (x <? off + desz)
            then nth (Z.to_nat (x - off)) enc 0 else byte_at s d x) as Hbyte.
  { intros x Hx Hxm. unfold byte_at. rewrite Hbaddr.
    change (i_dev d') with (i_dev d).
    pose proof (Z.mod_pos_bound x BSIZE ltac:(rewrite BSIZE_val; lia)) as Hxmod.
    pose proof (Z.div_mod x BSIZE ltac:(rewrite BSIZE_val; lia)) as Hxdm.
    assert (0 <= x / BSIZE) as Hxd by (apply Z.div_pos; rewrite ?BSIZE_val; lia).
    destruct (decide (x / BSIZE = bn)) as [Hbn|Hbn].
    - rewrite Hbn in *. unfold block_at at 1. rewrite Hb, lookup_insert_eq.
      cbn [from_option id].
      rewrite blk_get_put by lia. rewrite length_blk_read.
      destruct (Z.leb_spec (off mod BSIZE) (x mod BSIZE));
        destruct (Z.ltb_spec (x mod BSIZE) (off mod BSIZE + Z.of_nat (Z.to_nat desz)));
        destruct (Z.leb_spec off x); destruct (Z.ltb_spec x (off + desz));
        cbn [andb]; try reflexivity; try (exfalso; lia).
      fold (blk_get (blk_read enc 0 desz) (x mod BSIZE - off mod BSIZE)).
      rewrite blk_get_read by lia. unfold blk_get. f_equal. lia.
    - assert (baddr s d (x / BSIZE) <> baddr s d bn) as Hne
        by (apply (proj2 Hpriv); [lia|exact Hbn]).
      unfold block_at at 1. rewrite Hb, lookup_insert_ne by congruence.
      destruct (Z.leb_spec off x); destruct (Z.ltb_spec x (off + desz));
        cbn [andb]; try reflexivity.
      exfalso. apply Hbn.
      destruct (block_offset off (x - off)) as (Hd & _); [lia|lia|].
      replace (off + (x - off)) with x in Hd by lia. exact Hd. }
  assert (forall x, 0 <= x < i_size d' -> mapped s d (x / BSIZE)) as Hmapx.
  { intros x Hx. destruct (decide (x < i_size d)) as [Hlt|Hge]; [apply Hmap; lia|].
    subst d'. simpl in Hx.
    destruct (block_offset off (x - off)) as (Hd & _); [lia|lia|].
    replace (off + (x - off)) with x in Hd by lia. rewrite Hd. exact Hmapk. }
  split; [|split].
  - split; [exact Hty|]. split; [|split].
    + subst d' nent'. simpl. rewrite Z2Nat.id by lia. rewrite Hsz. subst off.
      replace (k * desz + desz) with ((k + 1) * desz) by lia.
      destruct (Z.max_spec (Z.of_nat nent) (k + 1)) as [(H1 & ->)|(H1 & ->)].
      * apply Z.max_r. apply Z.mul_le_mono_nonneg_r; lia.
      * apply Z.max_l. apply Z.mul_le_mono_nonneg_r; lia.
    + subst d'. simpl. lia.
    + intros x Hx. destruct (Hmapx x Hx) as (Hr & Hnz & Hi).
      split; [exact Hr|]. split; [rewrite Hbaddr; exact Hnz|exact Hi].
  - unfold dir_entry. fold off.
    assert (file_bytes s1 d' off desz = enc) as ->.
    { unfold file_bytes. apply list_eq. intros idx. rewrite list_lookup_fmap.
      destruct (decide (Z.of_nat idx < desz)) as [Hidx|Hidx].
      - rewrite lookup_seqZ_lt by lia. simpl. rewrite Hbyte.
        + destruct (Z.leb_spec off (off + Z.of_nat idx)); [|lia].
          destruct (Z.ltb_spec (off + Z.of_nat idx) (off + desz)); [|lia]. cbn [andb].
          replace (off + Z.of_nat idx - off) with (Z.of_nat idx) by lia.
          rewrite Nat2Z.id, nth_lookup.
          destruct (enc !! idx) as [x|] eqn:Hx; [reflexivity|].
          apply lookup_ge_None in Hx. lia.
        + lia.
        + destruct (block_offset off (Z.of_nat idx)) as (Hd & _); [lia|lia|].
          rewrite Hd. destruct Hmapk as (Hr & _). fold bn in Hr. lia.
      - rewrite lookup_seqZ_ge by lia. simpl. symmetry. apply lookup_ge_None. lia. }
    subst enc. apply dirent_roundtrip; [|apply length_strncpy].
    unfold u16. apply Z.mod_pos_bound. lia.
  - intros j Hj Hjk. unfold dir_entry, file_bytes. f_equal.
    apply list_fmap_ext. intros idx x Hx. apply lookup_seqZ in Hx as (-> & Hidx).
    assert (0 <= j * desz) as Hj0 by (apply Z.mul_nonneg_nonneg; lia).
    assert ((j + 1) * desz <= i_size d) as Hj1
      by (rewrite Hsz; apply Z.mul_le_mono_nonneg_r; lia).
    assert ((j + 1) * desz <= off \/ off + desz <= j * desz) as Hout.
    { subst off. destruct (Z.lt_trichotomy j k) as [Hlt|[Heq|Hgt]]; [left|lia|right].
      - apply Z.mul_le_mono_nonneg_r; lia.
      - replace (k * desz + desz) with ((k + 1) * desz) by lia.
        apply Z.mul_le_mono_nonneg_r; lia. }
    rewrite Hbyte.
    + destruct (Z.leb_spec off (j * desz + Z.of_nat idx));
        destruct (Z.ltb_spec (j * desz + Z.of_nat idx) (off + desz));
        cbn [andb]; try reflexivity. exfalso. lia.
    + lia.
    + assert (mapped s d ((j * desz + Z.of_nat idx) / BSIZE)) as (Hr & _)
        by (apply Hmap; lia). lia.
Qed.

(** C6. For a directory whose blocks are mapped: when the name is present,
    [dirlink], if it returns, returns -1 and has given back the reference
    that [dirlookup] took, leaving every reference count and the disk as
    they were; when the name is absent, [dirlink] is the call of [writei]
    that stores the new entry (the name, padded or cut to [DIRSIZ] bytes,
    and the inumber) at the first slot whose inumber is 0, or at the end of
    the directory when there is none, and returns 0 if it returns.  Hence
    the result is -1 exactly when the name is present.  And it does return
    0 when that slot lies in a mapped block of the directory's own (entries
    do not straddle blocks, the entry size dividing the block size): the
    directory then holds the new entry in that slot, its other entries are
    as they were, and its size has grown by one entry when the entry was
    appended. *)
Theorem dirlink_spec s dp d nent name inum :
  icache s !! dp = Some d -> dir_ok s d nent -> refs_int s ->
  (dir_present s d nent name ->
   forall r s', dirlink dp name inum s = Done r s' ->
     r = -1 /\ i_ref <$> icache s' = i_ref <$> icache s /\
     dinodes s' = dinodes s /\ bitmap s' = bitmap s /\ blocks s' = blocks s) /\
  (~ dir_present s d nent name ->
   exists k,
     dir_slot s d nent k /\
     dirlink dp name inum s =
       (let* r := writei dp
                    (dirent_encode (mkDirent (u16 inum) (strncpy name (Z.to_nat DIRSIZ))))
                    (k * desz) desz in
        if negb (u32 r =? desz) then panic "dirlink" else ret 0) s /\
     (forall r s', dirlink dp name inum s = Done r s' -> r = 0) /\
     (BSIZE mod desz = 0 ->
      mapped s d (k * desz / BSIZE) -> block_private s d (k * desz / BSIZE) ->
      let d' := set_i_size (Z.max (i_size d) ((k + 1) * desz)) d in
      exists s',
        dirlink dp name inum s = Done 0 s' /\
        icache s' = <[dp := d']> (icache s) /\
        dir_ok s' d' (Z.to_nat (Z.max (Z.of_nat nent) (k + 1))) /\
        dir_entry s' d' k = mkDirent (u16 inum) (strncpy name (Z.to_nat DIRSIZ)) /\
        (forall j, 0 <= j < Z.of_nat nent -> j <> k ->
           dir_entry s' d' j = dir_entry s d j))) /\
  (forall r s', dirlink dp name inum s = Done r s' ->
     (r = -1 <-> dir_present s d nent name)).
Proof.
  intros Hdp Hok Hrefs. pose proof desz_range as Hde.
  assert (~ dir_present s d nent name ->
          forall r s', dirlink dp name inum s = Done r s' -> r = 0) as Hzero.
  { intros Hno r s' H.
    rewrite (dirlink_absent_eq s dp d nent name inum Hdp Hok Hno) in H.
    apply bind_Done in H as (r0 & s1 & _ & H).
    destruct (negb (u32 r0 =? desz)); [discriminate|]. inversion H; reflexivity. }
  split; [apply (dirlink_present s dp d nent name inum Hdp Hok Hrefs)|]. split.
  - intros Hno. exists (dir_free s d 0 nent).
    destruct (dir_free_spec s d nent 0) as (Hr & Hall & Hfree).
    assert (dir_slot s d nent (dir_free s d 0 nent)) as Hslot
      by (repeat split; try lia; assumption).
    split; [exact Hslot|].
    split; [apply (dirlink_absent_eq s dp d nent name inum Hdp Hok Hno)|].
    split; [apply (Hzero Hno)|].
    intros Hdiv Hmapk Hpriv.
    apply (dirlink_stores s dp d nent name inum _ Hdp Hok Hno Hdiv Hslot Hmapk Hpriv).
  - intros r s' H. split.
    + intros ->. destruct (classic_present s d nent name) as [Hp|Hn]; [exact Hp|].
      specialize (Hzero Hn _ _ H). lia.
    + intros Hp. apply (dirlink_present s dp d nent name inum Hdp Hok Hrefs Hp r s' H).
Qed.

(** ** [iput] *)

Lemma nosleep_bind {A B} (m : M A) (k : A -> M B) :
  nosleep m -> (forall a, nosleep (k a)) -> nosleep (bind m k).
Proof.
  intros Hm Hk s. unfold bind. specialize (Hm s).
  destruct (m s); try discriminate; [apply Hk|congruence].
Qed.

Lemma nosleep_ret {A} (a : A) : nosleep (ret a).
Proof. intros s. discriminate. Qed.
Lemma nosleep_panic {A} msg : nosleep (@panic A msg).
Proof. intros s. discriminate. Qed.
Lemma nosleep_get : nosleep get.
Proof. intros s. discriminate. Qed.
Lemma nosleep_modify f : nosleep (modify f).
Proof. intros s. discriminate. Qed.
Lemma nosleep_get_inode ip : nosleep (get_inode ip).
Proof. intros s. unfold get_inode. destruct (icache s !! ip); discriminate. Qed.
Lemma nosleep_upd_inode ip f : nosleep (upd_inode ip f).
Proof. intros s. unfold upd_inode. destruct (icache s !! ip); discriminate. Qed.
Lemma nosleep_bread dev b : nosleep (bread dev b).
Proof. intros s. discriminate. Qed.

Create HintDb nosleeps.
#[local] Hint Resolve nosleep_ret nosleep_panic nosleep_get nosleep_modify
  nosleep_get_inode nosleep_upd_inode nosleep_bread : nosleeps.

Ltac nosleep_step :=
  lazymatch goal with
  | |- nosleep (bind _ _) => apply nosleep_bind; [|intros ?]
  | |- nosleep (if ?b then _ else _) => destruct b
  | |- nosleep (match ?x with _ => _ end) => destruct x
  | |- _ => solve [eauto with nosleeps]
  end.
Ltac nosleep_auto := repeat nosleep_step.

Lemma nosleep_log_write t : nosleep (log_write t).
Proof. unfold log_write. nosleep_auto. Qed.
#[local] Hint Resolve nosleep_log_write : nosleeps.
Lemma nosleep_dstore dev b d : nosleep (dstore dev b d).
Proof. unfold dstore. nosleep_auto. Qed.
Lemma nosleep_bitstore dev b d : nosleep (bitstore dev b d).
Proof. unfold bitstore. nosleep_auto. Qed.
#[local] Hint Resolve nosleep_dstore nosleep_bitstore : nosleeps.
Lemma nosleep_bfree dev b : nosleep (bfree dev b).
Proof. unfold bfree. nosleep_auto. Qed.
Lemma nosleep_iupdate ip : nosleep (iupdate ip).
Proof. unfold iupdate. nosleep_auto. Qed.
Lemma nosleep_releasesleep ip : nosleep (releasesleep ip).
Proof. unfold releasesleep. nosleep_auto. Qed.
#[local] Hint Resolve nosleep_bfree nosleep_iupdate nosleep_releasesleep : nosleeps.

Lemma nosleep_for_each {A} (l : list A) body :
  (forall x, nosleep (body x)) -> nosleep (for_each l body).
Proof.
  intros Hb. induction l as [|x l IH]; simpl; [apply nosleep_ret|].
  apply nosleep_bind; [apply Hb|intros _; exact IH].
Qed.

Lemma nosleep_itrunc ip : nosleep (itrunc ip).
Proof.
  unfold itrunc. nosleep_auto.
  all: try (apply nosleep_for_each; intros k; nosleep_auto).
Qed.
#[local] Hint Resolve nosleep_itrunc : nosleeps.

(** With the sleep-lock free [iput] does not wait. *)
Lemma iput_nosleep s ip i :
  icache s !! ip = Some i -> i_lock i = false -> iput ip s <> Sleeps.
Proof.
  intros Hip Hl. unfold iput.
  rewrite (bind_eq _ _ _ _ _ (acquiresleep_eq _ _ _ Hip Hl)).
  match goal with |- ?m ?st <> Sleeps => assert (nosleep m) as Hns end.
  { nosleep_auto. }
  apply Hns.
Qed.

Lemma bfree_total dev b s :
  bit_at s dev b = true -> exists s', bfree dev b s = Done tt s'.
Proof.
  intros Hb. unfold bfree. unfold bind at 1. unfold get at 1. rewrite Hb.
  cbv [bind bitstore modify log_write]. eexists. reflexivity.
Qed.

Lemma for_each_seqZ_total (Inv : Z -> state -> Prop) body hi :
  (forall k s, 0 <= k < hi -> Inv k s ->
     exists s', body k s = Done tt s' /\ Inv (k + 1) s') ->
  forall (n : nat) lo s,
    0 <= lo -> lo + Z.of_nat n <= hi -> Inv lo s ->
    exists s', for_each (seqZ lo (Z.of_nat n)) body s = Done tt s' /\
               Inv (lo + Z.of_nat n) s'.
Proof.
  intros Hbody. induction n as [|n IH]; intros lo s Hlo Hhi Hinv.
  - exists s. simpl. rewrite Z.add_0_r. split; [reflexivity|exact Hinv].
  - rewrite seqZ_cons by lia. simpl.
    destruct (Hbody lo s ltac:(lia) Hinv) as (s1 & Hb & Hinv1).
    rewrite (bind_eq _ _ _ _ _ Hb).
    replace (Z.pred (Z.of_nat (S n))) with (Z.of_nat n) by lia.
    destruct (IH (Z.succ lo) s1 ltac:(lia) ltac:(lia)) as (s' & Hf & Hinv').
    { replace (Z.succ lo) with (lo + 1) by lia. exact Hinv1. }
    exists s'. split; [exact Hf|].
    replace (lo + Z.of_nat (S n)) with (Z.succ lo + Z.of_nat n) by lia. exact Hinv'.
Qed.

Lemma for_each_range_total (Inv : Z -> state -> Prop) body hi s :
  (forall k s, 0 <= k < hi -> Inv k s ->
     exists s', body k s = Done tt s' /\ Inv (k + 1) s') ->
  0 <= hi -> Inv 0 s ->
  exists s', for_each (seqZ 0 hi) body s = Done tt s' /\ Inv hi s'.
Proof.
  intros Hbody Hhi Hinv.
  destruct (for_each_seqZ_total Inv body hi Hbody (Z.to_nat hi) 0 s) as (s' & Hf & Hi');
    [lia|lia|exact Hinv|].
  rewrite Z.add_0_l, Z2Nat.id in * by exact Hhi. exists s'. split; assumption.
Qed.

(** Freeing the block at position [k] of a file that owns its blocks, when
    the blocks from [k] on are still in use: the later ones stay in use. *)
Lemma bfree_owned s i k st :
  blocks_owned s i -> 0 <= k <= MAXFILE -> slot_addr s i k <> 0 ->
  (forall p, k <= p <= MAXFILE -> slot_addr s i p <> 0 ->
     bit_at st (i_dev i) (slot_addr s i p) = true) ->
  exists st',
    bfree (i_dev i) (slot_addr s i k) st = Done tt st' /\
    icache st' = icache st /\ blocks st' = blocks st /\
    (forall p, k + 1 <= p <= MAXFILE -> slot_addr s i p <> 0 ->
       bit_at st' (i_dev i) (slot_addr s i p) = true).
Proof.
  intros Hown Hk Hnz Hbits.
  destruct (bfree_total (i_dev i) _ st (Hbits k ltac:(lia) Hnz)) as (st' & Hf).
  exists st'. split; [exact Hf|].
  destruct (bfree_spec _ _ _ _ Hf) as (_ & _ & Hoth & Hc & Hb & _).
  split; [exact Hc|]. split; [exact Hb|].
  intros p Hp Hpnz. rewrite Hoth; [apply Hbits; [lia|exact Hpnz]|].
  intros Heq. inversion Heq as [Hpk].
  destruct (Hown k Hk Hnz) as (_ & Hdist). apply (Hdist p ltac:(lia)). exact Hpk.
Qed.

Lemma itrunc_direct_total s ip i :
  icache s !! ip = Some i -> blocks_owned s i ->
  exists s1 i1,
    for_each (seqZ 0 NDIRECT) (fun k =>
      let* i := get_inode ip in
      let a := nth (Z.to_nat k) (i_addrs i) 0 in
      if a =? 0 then ret tt
      else bfree (i_dev i) a ;;
           upd_inode ip (fun i => set_i_addrs (<[Z.to_nat k := 0]> (i_addrs i)) i)) s
    = Done tt s1 /\
    icache s1 !! ip = Some i1 /\ i_dev i1 = i_dev i /\
    nth (Z.to_nat NDIRECT) (i_addrs i1) 0 = nth (Z.to_nat NDIRECT) (i_addrs i) 0 /\
    blocks s1 = blocks s /\
    (forall p, NDIRECT <= p <= MAXFILE -> slot_addr s i p <> 0 ->
       bit_at s1 (i_dev i) (slot_addr s i p) = true).
Proof.
  intros Hip Hown. pose proof NDIRECT_nonneg as Hnd.
  destruct MAXFILE_bound as (_ & Hni & _).
  assert (MAXFILE = NDIRECT + 128) as HM by (unfold MAXFILE; lia).
  destruct (for_each_range_total (fun k st =>
              exists ik,
                icache st !! ip = Some ik /\ i_dev ik = i_dev i /\
                (forall j, k <= j ->
                   nth (Z.to_nat j) (i_addrs ik) 0 = nth (Z.to_nat j) (i_addrs i) 0) /\
                blocks st = blocks s /\
                (forall p, k <= p <= MAXFILE -> slot_addr s i p <> 0 ->
                   bit_at st (i_dev i) (slot_addr s i p) = true))
              (fun k =>
                 let* i := get_inode ip in
                 let a := nth (Z.to_nat k) (i_addrs i) 0 in
                 if a =? 0 then ret tt
                 else bfree (i_dev i) a ;;
                      upd_inode ip (fun i => set_i_addrs (<[Z.to_nat k := 0]> (i_addrs i)) i))
              NDIRECT s)
    as (s1 & Hrun & (i1 & Hi1 & Hd1 & Hsame1 & Hb1 & Hbits1)).
  - intros k st Hk (ik & Hik & Hdk & Hsame & Hblk & Hbits).
    rewrite (bind_eq _ _ _ _ _ (get_inode_eq _ _ _ Hik)). cbv zeta.
    assert (slot_addr s i k = nth (Z.to_nat k) (i_addrs ik) 0) as Hslot.
    { unfold slot_addr. destruct (Z.ltb_spec k NDIRECT); [|lia].
      symmetry. apply Hsame. lia. }
    destruct (Z.eqb_spec (nth (Z.to_nat k) (i_addrs ik) 0) 0) as [Ha0|Ha].
    + exists st. split; [reflexivity|]. exists ik. repeat split; try assumption.
      * intros j Hj. apply Hsame. lia.
      * intros p Hp. apply Hbits. lia.
    + rewrite <- Hslot in Ha |- *. rewrite Hdk.
      assert (0 <= k <= MAXFILE) as Hr by lia.
      destruct (bfree_owned s i k st Hown Hr Ha Hbits)
        as (st' & Hf & Hc & Hblk' & Hbits').
      rewrite (bind_eq _ _ _ _ _ Hf).
      assert (icache st' !! ip = Some ik) as Hik' by (rewrite Hc; exact Hik).
      rewrite (upd_inode_eq _ _ _ _ Hik'). eexists. split; [reflexivity|].
      eexists. split; [simpl; apply (lookup_insert_slot _ _ _ _ Hik')|].
      simpl. split; [exact Hdk|]. split.
      { intros j Hj. rewrite nth_insert_ne by lia. apply Hsame. lia. }
      split; [congruence|]. exact Hbits'.
  - exact Hnd.
  - exists i. repeat split; try assumption; try reflexivity.
    intros p Hp Hnz. apply (Hown p); [lia|exact Hnz].
  - exists s1, i1. split; [exact Hrun|]. split; [exact Hi1|]. split; [exact Hd1|].
    split; [apply Hsame1; lia|]. split; [exact Hb1|exact Hbits1].
Qed.

Lemma itrunc_indirect_total s i st :
  blocks_owned s i -> nth (Z.to_nat NDIRECT) (i_addrs i) 0 <> 0 ->
  (forall p, NDIRECT <= p <= MAXFILE -> slot_addr s i p <> 0 ->
     bit_at st (i_dev i) (slot_addr s i p) = true) ->
  let ind := nth (Z.to_nat NDIRECT) (i_addrs i) 0 in
  let a := block_at s (i_dev i) ind in
  exists st',
    (for_each (seqZ 0 NINDIRECT) (fun j =>
       if le32_get a j =? 0 then ret tt else bfree (i_dev i) (le32_get a j)) ;;
     bfree (i_dev i) ind) st = Done tt st' /\
    icache st' = icache st.
Proof.
  intros Hown Hind Hbits ind a. pose proof NDIRECT_nonneg as Hnd.
  destruct MAXFILE_bound as (_ & Hni & _).
  assert (MAXFILE = NDIRECT + NINDIRECT) as HM by reflexivity.
  assert (forall j, 0 <= j < NINDIRECT -> slot_addr s i (NDIRECT + j) = le32_get a j)
    as Hslot.
  { intros j Hj. unfold slot_addr.
    destruct (Z.ltb_spec (NDIRECT + j) NDIRECT); [lia|].
    destruct (Z.ltb_spec (NDIRECT + j) MAXFILE); [|lia].
    fold ind. destruct (Z.eqb_spec ind 0); [contradiction|].
    fold a. f_equal. lia. }
  assert (slot_addr s i MAXFILE = ind) as Hlast.
  { unfold slot_addr. destruct (Z.ltb_spec MAXFILE NDIRECT); [lia|].
    destruct (Z.ltb_spec MAXFILE MAXFILE); [lia|]. reflexivity. }
  destruct (for_each_range_total (fun j st1 =>
              icache st1 = icache st /\
              (forall p, NDIRECT + j <= p <= MAXFILE -> slot_addr s i p <> 0 ->
                 bit_at st1 (i_dev i) (slot_addr s i p) = true))
              (fun j => if le32_get a j =? 0 then ret tt
                        else bfree (i_dev i) (le32_get a j))
              NINDIRECT st)
    as (s2 & Hrun & Hc2 & Hbits2).
  - intros j st1 Hj (Hc & Hb).
    destruct (Z.eqb_spec (le32_get a j) 0) as [Ha0|Ha].
    + exists st1. split; [reflexivity|]. split; [exact Hc|].
      intros p Hp. apply Hb. lia.
    + rewrite <- (Hslot j Hj) in Ha |- *.
      assert (0 <= NDIRECT + j <= MAXFILE) as Hr by lia.
      destruct (bfree_owned s i (NDIRECT + j) st1 Hown Hr Ha Hb)
        as (st' & Hf & Hc' & _ & Hbits').
      exists st'. split; [exact Hf|]. split; [congruence|].
      intros p Hp. apply Hbits'. lia.
  - lia.
  - split; [reflexivity|]. intros p Hp. apply Hbits. lia.
  - rewrite (bind_eq _ _ _ _ _ Hrun).
    assert (slot_addr s i MAXFILE <> 0) as Hind' by (rewrite Hlast; exact Hind).
    rewrite <- Hlast.
    assert (0 <= MAXFILE <= MAXFILE) as Hr by lia.
    assert (forall p, MAXFILE <= p <= MAXFILE -> slot_addr s i p <> 0 ->
              bit_at s2 (i_dev i) (slot_addr s i p) = true) as Hb
      by (intros p Hp; apply Hbits2; lia).
    destruct (bfree_owned s i MAXFILE s2 Hown Hr Hind' Hb) as (st' & Hf & Hc' & _).
    exists st'. split; [exact Hf|congruence].
Qed.

(** [itrunc] returns on a file that owns its blocks. *)
Lemma itrunc_returns s ip i :
  icache s !! ip = Some i -> blocks_owned s i ->
  exists s', itrunc ip s = Done tt s'.
Proof.
  intros Hip Hown. unfold itrunc.
  destruct (itrunc_direct_total s ip i Hip Hown)
    as (s1 & i1 & Hdirect & Hi1 & Hd1 & Hind1 & Hb1 & Hbits1).
  rewrite (bind_eq _ _ _ _ _ Hdirect).
  rewrite (bind_eq _ _ _ _ _ (get_inode_eq _ _ _ Hi1)). cbv zeta.
  rewrite Hind1, Hd1.
  assert (exists s2 i2,
            (if nth (Z.to_nat NDIRECT) (i_addrs i) 0 =? 0 then ret tt
             else
               let* a := bread (i_dev i) (nth (Z.to_nat NDIRECT) (i_addrs i) 0) in
               for_each (seqZ 0 NINDIRECT) (fun j =>
                 if le32_get a j =? 0 then ret tt else bfree (i_dev i) (le32_get a j)) ;;
               bfree (i_dev i) (nth (Z.to_nat NDIRECT) (i_addrs i) 0) ;;
               upd_inode ip (fun i => set_i_addrs (<[Z.to_nat NDIRECT := 0]> (i_addrs i)) i))
              s1 = Done tt s2 /\ icache s2 !! ip = Some i2) as (s2 & i2 & Hmid & Hi2).
  { destruct (Z.eqb_spec (nth (Z.to_nat NDIRECT) (i_addrs i) 0) 0) as [Hz|Hnz].
    - exists s1, i1. split; [reflexivity|exact Hi1].
    - unfold bind at 1. unfold bread at 1.
      rewrite (block_at_blocks _ _ _ _ Hb1).
      destruct (itrunc_indirect_total s i s1 Hown Hnz Hbits1) as (s2 & Hrun & Hc2).
      cbv zeta in Hrun. apply bind_Done in Hrun as ([] & sa & Hloop & Hfree).
      rewrite (bind_eq _ _ _ _ _ Hloop), (bind_eq _ _ _ _ _ Hfree).
      assert (icache s2 !! ip = Some i1) as Hi1' by (rewrite Hc2; exact Hi1).
      rewrite (upd_inode_eq _ _ _ _ Hi1'). eexists. eexists.
      split; [reflexivity|]. simpl. apply (lookup_insert_slot _ _ _ _ Hi1'). }
  rewrite (bind_eq _ _ _ _ _ Hmid).
  rewrite (bind_eq _ _ _ _ _ (upd_inode_eq _ _ _ _ Hi2)).
  set (s3 := set_icache _ s2).
  assert (icache s3 !! ip = Some (set_i_size 0 i2)) as Hi3
    by (apply (lookup_insert_slot _ _ _ _ Hi2)).
  destruct (iupdate_spec s3 ip _ Hi3) as (s4 & Hup & _).
  exists s4. exact Hup.
Qed.

(** The last [iput] of an inode without links returns when the file owns
    its blocks. *)
Lemma iput_returns s ip i :
  icache s !! ip = Some i -> i_lock i = false ->
  i_valid i <> 0 -> i_nlink i = 0 -> i_ref i = 1 -> blocks_owned s i ->
  exists s', iput ip s = Done tt s'.
Proof.
  intros Hip Hl Hv Hn Hr Hown. unfold iput.
  rewrite (bind_eq _ _ _ _ _ (acquiresleep_eq _ _ _ Hip Hl)).
  set (s1 := set_icache _ s).
  assert (icache s1 !! ip = Some (set_i_lock true i)) as Hip1
    by (apply (lookup_insert_slot _ _ _ _ Hip)).
  rewrite (bind_eq _ _ _ _ _ (get_inode_eq _ _ _ Hip1)).
  cbn [i_valid i_nlink i_ref set_i_lock].
  apply Z.eqb_neq in Hv. rewrite Hv, Hn, Hr. cbn [negb andb Z.eqb Pos.eqb].
  destruct (itrunc_returns s1 ip (set_i_lock true i) Hip1 Hown) as (s2 & Htr).
  destruct (itrunc_spec _ _ _ _ Hip1 Htr) as (i2 & Hip2 & _).
  assert (exists s5 i5,
            (itrunc ip ;; upd_inode ip (set_i_type 0) ;; iupdate ip ;;
             upd_inode ip (set_i_valid 0)) s1 = Done tt s5 /\
            icache s5 !! ip = Some i5) as (s5 & i5 & Hclean & Hi5).
  { rewrite (bind_eq _ _ _ _ _ Htr).
    rewrite (bind_eq _ _ _ _ _ (upd_inode_eq _ _ _ _ Hip2)).
    set (s3 := set_icache _ s2).
    assert (icache s3 !! ip = Some (set_i_type 0 i2)) as Hip3
      by (apply (lookup_insert_slot _ _ _ _ Hip2)).
    destruct (iupdate_spec s3 ip _ Hip3) as (s4 & Hup & Hc4 & _).
    rewrite (bind_eq _ _ _ _ _ Hup).
    assert (icache s4 !! ip = Some (set_i_type 0 i2)) as Hip4 by (rewrite Hc4; exact Hip3).
    rewrite (upd_inode_eq _ _ _ _ Hip4). eexists. eexists.
    split; [reflexivity|]. simpl. apply (lookup_insert_slot _ _ _ _ Hip4). }
  rewrite (bind_eq _ _ _ _ _ Hclean).
  unfold releasesleep. rewrite (bind_eq _ _ _ _ _ (upd_inode_eq _ _ _ _ Hi5)).
  set (s6 := set_icache _ s5).
  assert (icache s6 !! ip = Some (set_i_lock false i5)) as Hi6
    by (apply (lookup_insert_slot _ _ _ _ Hi5)).
  rewrite (upd_inode_eq _ _ _ _ Hi6). eexists. reflexivity.
Qed.

(** C4. For a slot whose sleep-lock is free: when the inode is not at once
    valid, without links and referenced once, [iput] only decrements [ref].
    When it is, [iput] neither exhausts the fuel of the model nor waits for
    a lock; it returns when the file owns its blocks (each marked in use in
    the bitmap, none listed twice; otherwise [bfree] stops fatally); and
    when it returns there is a state [sm], in which [ref] is still 1, where
    the content has been truncated (size 0, no block address left, every
    block of the file free in the bitmap), the type and [valid] are 0, the
    lock is released and the on-disk inode mirrors the cached one (type 0);
    the final state is [sm] with [ref] decremented to 0. *)
Theorem iput_cleanup s ip i :
  icache s !! ip = Some i -> i_lock i = false ->
  (~ (i_valid i <> 0 /\ i_nlink i = 0 /\ i_ref i = 1) ->
   iput ip s =
   Done tt (set_icache (<[ip := set_i_ref (i32 (i_ref i - 1)) i]> (icache s)) s)) /\
  (i_valid i <> 0 -> i_nlink i = 0 -> i_ref i = 1 ->
   iput ip s <> OutOfFuel /\ iput ip s <> Sleeps /\
   (blocks_owned s i -> exists s', iput ip s = Done tt s') /\
   forall s', iput ip s = Done tt s' ->
     exists sm im,
       s' = set_icache (<[ip := set_i_ref 0 im]> (icache sm)) sm /\
       icache sm !! ip = Some im /\
       changes [Fvalid; Ftype; Fsize; Faddrs] i im /\
       i_ref im = 1 /\ i_lock im = false /\
       i_valid im = 0 /\ i_type im = 0 /\ i_size im = 0 /\
       (forall k, 0 <= k <= NDIRECT -> nth (Z.to_nat k) (i_addrs im) 0 = 0) /\
       dinode_at sm (i_dev i) (i_inum i) =
         mkDinode 0 (i_major i) (i_minor i) 0 0 (i_addrs im) /\
       (forall b, file_block s i b -> bit_at sm (i_dev i) b = false)).
Proof.
  intros Hip Hl. split; [apply iput_plain; assumption|].
  intros Hv Hn Hr. split; [apply nofuel_iput|].
  split; [apply (iput_nosleep s ip i Hip Hl)|]. split.
  - intros Hown. apply (iput_returns s ip i); assumption.
  - intros s' H. apply (iput_cleanup_Done s ip i s'); assumption.
Qed.

(** ** [filewrite] *)

(** The loop of [filewrite] is a run of chunks, each a call of [writei]. *)
Lemma filewrite_loop_run f addr n max :
  0 < max -> n < 2 ^ 31 ->
  forall fuel i s w s',
    0 <= i -> filewrite_loop fuel f addr n max i s = Done w s' ->
    write_run max f addr n i s w s'.
Proof.
  intros Hmax Hn. induction fuel as [|fuel IH]; intros i s w s' Hi H; [discriminate|].
  rewrite filewrite_loop_S in H. destruct (Z.ltb_spec i n) as [Hlt|Hge].
  2: { inversion H; subst. apply run_done. exact Hge. }
  cbv zeta in H.
  replace (if max <? n - i then max else n - i) with (Z.min max (n - i)) in H
    by (destruct (Z.ltb_spec max (n - i)); lia).
  set (n1 := Z.min max (n - i)) in *.
  assert (0 < n1 <= n - i) as Hn1 by (subst n1; lia).
  rewrite (u32_id n1) in H by (unfold is_u32; lia).
  apply bind_Done in H as ([] & s0 & Hb & H).
  apply bind_Done in H as (fl & s0' & Hg & H).
  apply get_file_Done in Hg as (-> & Hf0).
  assert (ftable s !! f = Some fl) as Hf by (inversion Hb; subst s0; exact Hf0).
  apply bind_Done in H as ([] & s1 & Hlock & H).
  destruct (tables_frame _ _ _ _
              (frame_ilock _ (f_ip fl) any_change_ok (any_change_covers _ _)) Hlock)
    as (Hft1 & _).
  apply bind_Done in H as (fl1 & s1' & Hg & H).
  apply get_file_Done in Hg as (-> & Hf1).
  rewrite Hft1, Hf0 in Hf1. injection Hf1 as <-.
  apply bind_Done in H as (r & s2 & Hwr & H).
  destruct (tables_frame _ _ _ _
              (frame_writei _ (f_ip fl) _ _ _ any_change_ok (any_change_covers _ _)) Hwr)
    as (Hft2 & _).
  assert (ftable s2 !! f = Some fl) as Hf2 by (rewrite Hft2, Hft1; exact Hf0).
  apply bind_Done in H as ([] & s3 & Hupd & H).
  assert (s3 = set_ftable
                 (<[f := set_f_off (if 0 <? r then u32 (f_off fl + r) else f_off fl) fl]>
                    (ftable s2)) s2) as Hs3.
  { destruct (0 <? r).
    - rewrite (upd_file_eq _ _ _ _ Hf2) in Hupd. inversion Hupd. reflexivity.
    - inversion Hupd; subst s3. symmetry. apply set_ftable_id.
      replace (set_f_off (f_off fl) fl) with fl by (destruct fl; reflexivity).
      apply list_insert_id. exact Hf2. }
  apply bind_Done in H as (fl3 & s3' & Hg & H).
  apply get_file_Done in Hg as (-> & Hf3).
  assert (f_ip fl3 = f_ip fl) as Hip3.
  { rewrite Hs3 in Hf3. simpl in Hf3.
    rewrite (list_lookup_insert_eq (ftable s2) f) in Hf3
      by (eapply lookup_lt_Some; exact Hf2).
    injection Hf3 as <-. reflexivity. }
  rewrite Hip3 in H.
  apply bind_Done in H as ([] & s4 & Hunl & H).
  apply bind_Done in H as ([] & s5 & Hend & H).
  assert (chunk_step f (drop (Z.to_nat i) addr) n1 s r s5) as Hstep.
  { exists fl, s1, s2. split; [exact Hf|]. split.
    - rewrite (bind_eq _ _ _ _ _ Hb). exact Hlock.
    - split; [exact Hwr|]. rewrite <- Hs3.
      rewrite (bind_eq _ _ _ _ _ Hunl). exact Hend. }
  destruct (Z.ltb_spec r 0) as [Hneg|Hpos].
  - inversion H; subst. eapply run_fail; eassumption.
  - destruct (Z.eqb_spec r n1) as [->|Hne]; cbn [negb] in H; [|discriminate].
    rewrite i32_id in H by lia.
    eapply run_next; [exact Hlt|exact Hstep|]. apply IH; [lia|exact H].
Qed.

(** A write that fits one mapped block of the file, in full. *)
Lemma filewrite_in_block s f fl i addr n :
  ftable s !! f = Some fl -> f_type fl = FD_INODE -> f_writable fl <> 0 ->
  is_u32 (f_off fl) ->
  icache s !! f_ip fl = Some i -> i_lock i = false -> 1 <= i_ref i ->
  i_valid i <> 0 -> i_type i <> T_DEV ->
  0 < n -> f_off fl <= i_size i -> f_off fl + n <= MAXFILE * BSIZE ->
  f_off fl mod BSIZE + n <= BSIZE -> mapped s i (f_off fl / BSIZE) ->
  exists s',
    filewrite f addr n s = Done n s' /\
    ftable s' = <[f := set_f_off (f_off fl + n) fl]> (ftable s) /\
    icache s' =
      <[f_ip fl := set_i_size (Z.max (i_size i) (f_off fl + n)) i]> (icache s) /\
    blocks s' =
      <[(i_dev i, baddr s i (f_off fl / BSIZE)) :=
          blk_put (block_at s (i_dev i) (baddr s i (f_off fl / BSIZE)))
            (f_off fl mod BSIZE) (blk_read addr 0 n)]> (blocks s) /\
    bitmap s' = bitmap s.
Proof.
  intros Hf Hty Hwr Hoff Hip Hl Href Hv Hnd Hn Hle Hmax Hblk Hmap.
  destruct filewrite_max_val as (Hmaxv & Hmaxpos & _).
  pose proof MAXOPBLOCKS_chunk as Hchunk.
  destruct MAXFILE_bound as (_ & _ & Hmf).
  pose proof (Z.mod_pos_bound (f_off fl) BSIZE ltac:(rewrite BSIZE_val; lia)) as Hmod.
  assert (n <= 512) as Hn512 by (rewrite BSIZE_val in *; lia).
  assert (512 <= filewrite_max) as Hbig.
  { rewrite Hmaxv, BSIZE_val.
    assert (1 <= (MAXOPBLOCKS - 4) / 2) by (apply Z.div_le_lower_bound; lia). lia. }
  set (ip := f_ip fl) in *. set (off := f_off fl) in *.
  set (s0 := set_trace (trace s ++ [EvBeginOp]) (set_outstanding (outstanding s + 1) s)).
  set (i1 := set_i_lock true i).
  set (s1 := set_icache (<[ip := i1]> (icache s0)) s0).
  assert (ilock ip s0 = Done tt s1) as Hlock
    by (apply (ilock_valid_eq s0 ip i Hip Hl Href Hv)).
  assert (icache s1 !! ip = Some i1) as Hip1
    by (apply (lookup_insert_slot _ _ _ _ Hip)).
  destruct (writei_in_block s1 ip i1 addr off n Hip1 Hnd Hoff Hn Hle Hmax Hblk Hmap)
    as (s2 & Hw & Hc2 & Hb2 & Hbm2).
  destruct (tables_frame _ _ _ _
              (frame_writei _ ip _ _ _ any_change_ok (any_change_covers _ _)) Hw)
    as (Hft2 & _).
  assert (ftable s2 !! f = Some fl) as Hf2 by (rewrite Hft2; exact Hf).
  set (fl3 := set_f_off (u32 (off + n)) fl).
  set (s3 := set_ftable (<[f := fl3]> (ftable s2)) s2).
  set (i2 := set_i_size (Z.max (i_size i) (off + n)) i1).
  assert (icache s3 !! ip = Some i2) as Hip3.
  { subst s3. simpl. rewrite Hc2. apply (lookup_insert_slot _ _ _ _ Hip1). }
  set (s4 := set_icache (<[ip := set_i_lock false i2]> (icache s3)) s3).
  assert (iunlock ip s3 = Done tt s4) as Hunl
    by (apply (iunlock_eq s3 ip i2 Hip3 eq_refl Href)).
  set (s5 := set_trace (trace s4 ++ [EvEndOp]) (set_outstanding (outstanding s4 - 1) s4)).
  assert (filewrite_loop (S (Z.to_nat n)) f addr n filewrite_max 0 s = Done n s5) as Hloop.
  { rewrite filewrite_loop_S. destruct (Z.ltb_spec 0 n); [|lia]. cbv zeta.
    rewrite Z.sub_0_r. destruct (Z.ltb_spec filewrite_max n); [lia|].
    rewrite (u32_id n) by (unfold is_u32; lia).
    rewrite (bind_eq _ _ _ tt s0) by reflexivity.
    rewrite (bind_eq _ _ _ _ _ (get_file_eq s0 f fl Hf)).
    rewrite (bind_eq _ _ _ _ _ Hlock).
    rewrite (bind_eq _ _ _ _ _ (get_file_eq s1 f fl Hf)).
    change (drop (Z.to_nat 0) addr) with addr.
    rewrite (bind_eq _ _ _ _ _ Hw).
    destruct (Z.ltb_spec 0 n); [|lia].
    rewrite (bind_eq _ _ _ _ _ (upd_file_eq _ _ _ _ Hf2)). fold fl3 off s3.
    assert (ftable s3 !! f = Some fl3) as Hf3
      by (subst s3; simpl; apply list_lookup_insert_eq; eapply lookup_lt_Some; exact Hf2).
    rewrite (bind_eq _ _ _ _ _ (get_file_eq s3 f fl3 Hf3)).
    change (f_ip fl3) with ip.
    rewrite (bind_eq _ _ _ _ _ Hunl).
    rewrite (bind_eq _ _ _ tt s5) by reflexivity.
    destruct (Z.ltb_spec n 0); [lia|]. rewrite Z.eqb_refl. cbn [negb].
    rewrite Z.add_0_l, i32_id by lia.
    replace (Z.to_nat n) with (S (Z.to_nat (n - 1))) by lia.
    rewrite filewrite_loop_S. destruct (Z.ltb_spec n n); [lia|]. reflexivity. }
  exists s5. split.
  { unfold filewrite. rewrite (bind_eq _ _ _ _ _ (get_file_eq s f fl Hf)).
    apply Z.eqb_neq in Hwr. rewrite Hwr, Hty.
    rewrite (bind_eq _ _ _ _ _ Hloop). unfold ret. rewrite Z.eqb_refl. reflexivity. }
  split.
  { subst s5 s4 s3. simpl. rewrite Hft2. subst fl3.
    rewrite u32_id by (unfold is_u32 in *; lia). reflexivity. }
  split.
  { subst s5 s4 s3. simpl. rewrite Hc2. subst s1 s0. simpl.
    rewrite !list_insert_insert_eq. f_equal. subst i2 i1.
    destruct i; simpl in *; subst; reflexivity. }
  split.
  { subst s5 s4 s3. simpl. rewrite Hb2. reflexivity. }
  subst s5 s4 s3. simpl. rewrite Hbm2. reflexivity.
Qed.

(** C2. On a writable handle backed by an inode, with [max] the chunk size
    [((MAXOPBLOCKS - 4) / 2) * BSIZE], [filewrite] never exhausts the fuel of
    the model, and when it returns, its run is a run of chunks: each chunk
    is at most [max] bytes, is one call of [writei] on the next bytes of
    [addr] at the offset of the handle, made under the sleep-lock of the
    inode between a [begin_op] and an [end_op] of its own (only [log_write]
    events in between), and the loop stops at the first failed write.  The
    offset of the handle has advanced by the number [w] of bytes that the
    calls of [writei] returned, nothing else in the table of open files has
    changed, and the result is [n] when [w = n] and -1 otherwise.  Such a
    return happens: a write of [n > 0] bytes that stays within one mapped
    block of a valid, unlocked file returns [n], with the bytes stored in
    that block of the disk, the size of the inode raised to the end of the
    write when it was smaller, and the offset advanced by [n]. *)
Theorem filewrite_chunks s f fl addr n :
  ftable s !! f = Some fl -> f_type fl = FD_INODE -> f_writable fl <> 0 ->
  is_u32 (f_off fl) -> - 2 ^ 31 <= n < 2 ^ 31 ->
  let max := (MAXOPBLOCKS - 4) / 2 * BSIZE in
  filewrite f addr n s <> OutOfFuel /\
  (forall r s', filewrite f addr n s = Done r s' ->
     exists tr w,
       trace s' = trace s ++ tr /\ chunk_run max n 0 tr w /\ 0 <= w /\
       write_run max f addr n 0 s w s' /\
       ftable s' = <[f := set_f_off (u32 (f_off fl + w)) fl]> (ftable s) /\
       outstanding s' = outstanding s /\
       r = (if w =? n then n else -1) /\
       (0 <= n -> (r = n <-> w = n))) /\
  (forall i,
     icache s !! f_ip fl = Some i -> i_lock i = false -> 1 <= i_ref i ->
     i_valid i <> 0 -> i_type i <> T_DEV ->
     0 < n -> f_off fl <= i_size i -> f_off fl + n <= MAXFILE * BSIZE ->
     f_off fl mod BSIZE + n <= BSIZE -> mapped s i (f_off fl / BSIZE) ->
     exists s',
       filewrite f addr n s = Done n s' /\
       ftable s' = <[f := set_f_off (f_off fl + n) fl]> (ftable s) /\
       icache s' =
         <[f_ip fl := set_i_size (Z.max (i_size i) (f_off fl + n)) i]> (icache s) /\
       blocks s' =
         <[(i_dev i, baddr s i (f_off fl / BSIZE)) :=
             blk_put (block_at s (i_dev i) (baddr s i (f_off fl / BSIZE)))
               (f_off fl mod BSIZE) (blk_read addr 0 n)]> (blocks s) /\
       bitmap s' = bitmap s).
Proof.
  intros Hf Hty Hwr Hoff Hn max.
  destruct filewrite_max_val as (Hmaxv & Hmaxpos & _).
  pose proof (filewrite_loop_wp f addr n filewrite_max Hmaxpos ltac:(lia)
                (Z.to_nat n) 0 s fl Hf Hoff ltac:(lia) ltac:(lia)) as Hloop.
  assert (filewrite f addr n s =
          (let* i := filewrite_loop (S (Z.to_nat n)) f addr n filewrite_max 0 in
           ret (if i =? n then n else -1)) s) as Heq.
  { unfold filewrite. rewrite (bind_eq _ _ _ _ _ (get_file_eq s f fl Hf)).
    apply Z.eqb_neq in Hwr. rewrite Hwr, Hty. reflexivity. }
  split; [|split].
  - rewrite Heq. unfold bind. unfold wp in Hloop.
    destruct (filewrite_loop (S (Z.to_nat n)) f addr n filewrite_max 0 s);
      try discriminate. contradiction.
  - intros r s' H. rewrite Heq in H.
    apply bind_Done in H as (w & s1 & Hrun & Hret). inversion Hret; subst r s1.
    destruct (wp_Done _ _ _ _ _ Hloop Hrun) as (tr & Htr & Hchunks & Hw & Hft & Hout).
    exists tr, w. rewrite Z.sub_0_r in Hft.
    subst max. rewrite <- Hmaxv. repeat split; try assumption.
    + apply (filewrite_loop_run f addr n filewrite_max Hmaxpos ltac:(lia) _ _ _ _ _
               (Z.le_refl 0) Hrun).
    + destruct (Z.eqb_spec w n); intros; lia.
    + destruct (Z.eqb_spec w n); intros; lia.
  - intros i Hip Hl Href Hv Hnd Hpos Hle Hmaxle Hblk Hmap.
    apply (filewrite_in_block s f fl i addr n); assumption.
Qed.

(** ** [create] *)

Lemma cache_coherentb_ok s : cache_coherentb s = true -> cache_coherent s.
Proof.
  unfold cache_coherentb. rewrite forallb_forall. intros H j a Hj Href Hval.
  specialize (H a). rewrite <- list_elem_of_In in H.
  specialize (H (list_elem_of_lookup_2 _ _ _ Hj)).
  apply orb_true_iff in H as [H|H].
  - apply negb_true_iff, andb_false_iff in H as [H|H].
    + apply Z.ltb_ge in H. lia.
    + apply negb_false_iff, Z.eqb_eq in H. contradiction.
  - apply negb_true_iff, Z.eqb_neq in H. exact H.
Qed.

(** [ilock] of a slot that is not valid loads the inode from the disk. *)
Lemma ilock_Done_load s ip i s' :
  icache s !! ip = Some i -> i_valid i = 0 -> ilock ip s = Done tt s' ->
  icache s' !! ip =
    Some (let d := dinode_at s (i_dev i) (i_inum i) in
          mkInode (i_dev i) (i_inum i) (i_ref i) true 1 (d_type d) (d_major d)
            (d_minor d) (d_nlink d) (d_size d) (d_addrs d)).
Proof.
  intros Hip Hv H.
  destruct (ilock_spec s ip i s' Hip H) as (Hl & _).
  assert (1 <= i_ref i) as Href.
  { unfold ilock in H. rewrite (bind_eq _ _ _ _ _ (get_inode_eq _ _ _ Hip)) in H.
    destruct (Z.ltb_spec (i_ref i) 1); [discriminate|lia]. }
  destruct (Z.eq_dec (d_type (dinode_at s (i_dev i) (i_inum i))) 0) as [Hz|Hnz].
  - exfalso. unfold ilock in H.
    rewrite (bind_eq _ _ _ _ _ (get_inode_eq _ _ _ Hip)) in H.
    destruct (Z.ltb_spec (i_ref i) 1); [lia|].
    rewrite (bind_eq _ _ _ _ _ (acquiresleep_eq _ _ _ Hip Hl)) in H.
    set (s1 := set_icache _ s) in H.
    assert (icache s1 !! ip = Some (set_i_lock true i)) as Hip1
      by (apply (lookup_insert_slot _ _ _ _ Hip)).
    rewrite (bind_eq _ _ _ _ _ (get_inode_eq _ _ _ Hip1)) in H.
    cbn [i_valid set_i_lock] in H. rewrite Hv in H. change (0 =? 0) with true in H.
    cbv iota in H. unfold bind at 1 in H. unfold get at 1 in H.
    cbn [i_dev i_inum set_i_lock] in H.
    change (dinode_at s1 (i_dev i) (i_inum i)) with (dinode_at s (i_dev i) (i_inum i)) in H.
    apply bind_Done in H as ([] & s2 & _ & H).
    apply bind_Done in H as ([] & s3 & _ & H).
    rewrite Hz in H. discriminate H.
  - rewrite (ilock_load_eq s ip i Hip Hl Href Hv Hnz) in H. inversion H; subst s'.
    simpl. apply (lookup_insert_slot _ _ _ _ Hip).
Qed.

Lemma create_dots ip dp dev inum major minor nl pinum type s s' :
  ip <> dp -> create_inv ip dp dev inum major minor nl pinum s ->
  (if type =? T_DIR then
     upd_inode dp (fun d => set_i_nlink (i16 (i_nlink d + 1)) d) ;;
     iupdate dp ;;
     let* i := get_inode ip in
     let* r1 := dirlink ip dot (i_inum i) in
     if r1 <? 0 then panic "create dots"
     else
       let* d := get_inode dp in
       let* r2 := dirlink ip dotdot (i_inum d) in
       if r2 <? 0 then panic "create dots" else ret tt
   else ret tt) s = Done tt s' ->
  create_inv ip dp dev inum major minor (if type =? T_DIR then i16 (nl + 1) else nl)
    pinum s' /\
  (if type =? T_DIR then
     exists sa sb,
       (upd_inode dp (fun d => set_i_nlink (i16 (i_nlink d + 1)) d) ;; iupdate dp) s
         = Done tt sa /\
       dirlink ip dot inum sa = Done 0 sb /\ dirlink ip dotdot pinum sb = Done 0 s'
   else s' = s) /\
  (forall i, icache s !! ip = Some i ->
     exists i', icache s' !! ip = Some i' /\
                changes (if type =? T_DIR then [Faddrs; Fsize] else []) i i').
Proof.
  intros Hne Hinv H. destruct (Z.eqb_spec type T_DIR) as [Hdir|Hnd].
  2: { inversion H; subst. split; [exact Hinv|]. split; [reflexivity|].
       intros i Hi. exists i. split; [exact Hi|apply changes_refl]. }
  destruct Hinv as ((i & Hi & Hnew) & (d & Hd & Hnl & Hpi)).
  apply bind_Done in H as ([] & s1 & Hupd & H). pose proof Hupd as Hupd0.
  rewrite (upd_inode_eq _ _ _ _ Hd) in Hupd. inversion Hupd as [Hs1]. clear Hupd.
  assert (icache s1 !! ip = Some i) as Hi1.
  { rewrite <- Hs1. simpl. rewrite list_lookup_insert_ne by congruence. exact Hi. }
  assert (create_inv ip dp dev inum major minor (i16 (nl + 1)) pinum s1) as Hinv1.
  { split.
    - exists i. split; [exact Hi1|exact Hnew].
    - eexists. split; [rewrite <- Hs1; simpl; apply (lookup_insert_slot _ _ _ _ Hd)|].
      simpl. split; congruence. }
  apply bind_Done in H as ([] & s2 & Hiup & H).
  pose proof (frame_iupdate _ dp (touches_ok ip []) _ _ _ Hiup) as Hf2.
  pose proof (create_inv_touch ip dp dev inum major minor _ pinum ip [] s1 s2 Hne Hf2
                ltac:(reflexivity) ltac:(intros; congruence) Hinv1) as Hinv2.
  apply bind_Done in H as (i2 & s2' & Hget & H).
  apply get_inode_Done in Hget as (-> & Hi2).
  assert (i_inum i2 = inum) as Hinum.
  { destruct Hinv2 as ((i2' & Hi2' & Hnew2) & _). rewrite Hi2 in Hi2'.
    inversion Hi2'; subst. apply Hnew2. }
  rewrite Hinum in H.
  apply bind_Done in H as (r1 & s3 & Hdl1 & H).
  destruct (Z.ltb_spec r1 0) as [|Hr1]; [discriminate|].
  assert (r1 = 0) as -> by (destruct (dirlink_result _ _ _ _ _ _ Hdl1); lia).
  pose proof (frame_dirlink_ok _ ip _ _ _ _ _ (touches_ok ip [Faddrs; Fsize])
                (touches_self _ _) Hdl1 ltac:(lia)) as Hf3.
  pose proof (create_inv_touch ip dp dev inum major minor _ pinum ip [Faddrs; Fsize] s2 s3
                Hne Hf3 ltac:(reflexivity) ltac:(intros; congruence) Hinv2) as Hinv3.
  apply bind_Done in H as (d3 & s3' & Hget & H).
  apply get_inode_Done in Hget as (-> & Hd3).
  assert (i_inum d3 = pinum) as Hpinum.
  { destruct Hinv3 as (_ & (d3' & Hd3' & _ & Hp3)). rewrite Hd3 in Hd3'.
    inversion Hd3'; subst. exact Hp3. }
  rewrite Hpinum in H.
  apply bind_Done in H as (r2 & s4 & Hdl2 & H).
  destruct (Z.ltb_spec r2 0) as [|Hr2]; [discriminate|].
  assert (r2 = 0) as -> by (destruct (dirlink_result _ _ _ _ _ _ Hdl2); lia).
  pose proof (frame_dirlink_ok _ ip _ _ _ _ _ (touches_ok ip [Faddrs; Fsize])
                (touches_self _ _) Hdl2 ltac:(lia)) as Hf4.
  inversion H; subst s'. split; [|split].
  - apply (create_inv_touch ip dp dev inum major minor _ pinum ip [Faddrs; Fsize] s3 s4
             Hne Hf4 ltac:(reflexivity) ltac:(intros; congruence) Hinv3).
  - exists s2, s3. split; [|split; assumption].
    rewrite (bind_eq _ _ _ _ _ Hupd0). exact Hiup.
  - intros i0 Hi0. rewrite Hi in Hi0. injection Hi0 as <-.
    destruct (touches_lookup _ _ _ _ _ _ Hf2 Hi1) as (ia & Hia & _ & Hca).
    destruct (touches_lookup _ _ _ _ _ _ Hf3 Hia) as (ib & Hib & _ & Hcb).
    destruct (touches_lookup _ _ _ _ _ _ Hf4 Hib) as (ic & Hic & _ & Hcc).
    exists ic. split; [exact Hic|].
    eapply changes_trans; [|exact (Hcc eq_refl)].
    eapply changes_trans; [|exact (Hcb eq_refl)].
    eapply changes_sub; [|exact (Hca eq_refl)]. reflexivity.
Qed.

(** C3 (amended). [sys_open] with [O_CREATE] calls
    [create(path, T_FILE, 0, 0)].  When [create] returns: either the parent
    directory does not resolve, and the result is null; or the name is
    already present in the parent, and the result is the inode found,
    locked, exactly when the request and that inode are both regular files
    (its link count is whatever it was), and null otherwise; or the name is
    absent, and the result is a newly allocated inode: its inumber was free
    on disk, [ialloc] claimed it, [ilock] locked it, it was given link
    count 1 and the device numbers asked for and was written through, and
    the name was linked into the parent by a [dirlink] that returned 0
    before the parent was unlocked and released.  Between the two, a new
    directory has had the link count of the parent incremented and written
    through and then [.] and [..] linked into it, in this order, by two
    calls of [dirlink] that returned 0.  In a cache that agrees with the
    disk on which inodes exist, the inode returned is valid and of the type
    asked for, and when it is not a directory it is empty: size 0 and no
    block address. *)
Theorem create_spec path :
  (forall omode, Z.land omode O_CREATE <> 0 ->
     sys_open (Some (path, omode)) =
     (begin_op ;;
      let* ip := create path T_FILE 0 0 in
      match ip with
      | None => end_op ;; ret (-1)
      | Some ip => sys_open_finish ip omode
      end)) /\
  (forall type major minor s r s',
     create path type major minor s = Done r s' ->
     exists dpo name s1,
       nameiparent path name_buf s = Done (dpo, name) s1 /\
       match dpo with
       | None => r = None /\ s' = s1
       | Some dp =>
           exists s2 found s3,
             ilock dp s1 = Done tt s2 /\ dirlookup dp name s2 = Done found s3 /\
             match found with
             | Some (ip, _) =>
                 exists s4 s5 i,
                   iunlockput dp s3 = Done tt s4 /\ ilock ip s4 = Done tt s5 /\
                   icache s5 !! ip = Some i /\ i_lock i = true /\
                   if (type =? T_FILE) && (i_type i =? T_FILE)
                   then r = Some ip /\ s' = s5
                   else r = None
             | None =>
                 exists ip i d inum s4 s5 s6 s7 s8,
                   r = Some ip /\ icache s' !! ip = Some i /\
                   icache s3 !! dp = Some d /\ ip <> dp /\
                   d_type (dinode_at s3 (i_dev d) inum) = 0 /\
                   1 <= inum < sb_ninodes (sb s3) /\
                   new_inode (i_dev d) inum major minor i /\
                   (exists d', icache s' !! dp = Some d' /\
                      i_nlink d' =
                        if type =? T_DIR then i16 (i_nlink d + 1) else i_nlink d) /\
                   ialloc (i_dev d) type s3 = Done ip s4 /\
                   ilock ip s4 = Done tt s5 /\
                   (upd_inode ip
                      (fun i => set_i_nlink 1 (set_i_minor minor (set_i_major major i))) ;;
                    iupdate ip) s5 = Done tt s6 /\
                   (if type =? T_DIR then
                      exists sa sb,
                        (upd_inode dp (fun d => set_i_nlink (i16 (i_nlink d + 1)) d) ;;
                         iupdate dp) s6 = Done tt sa /\
                        dirlink ip dot inum sa = Done 0 sb /\
                        dirlink ip dotdot (i_inum d) sb = Done 0 s7
                    else s7 = s6) /\
                   dirlink dp name inum s7 = Done 0 s8 /\
                   iunlockput dp s8 = Done tt s' /\
                   (cache_coherent s3 ->
                    i_valid i = 1 /\ i_type i = type /\
                    (type <> T_DIR ->
                     i_size i = 0 /\
                     i_addrs i = replicate (Z.to_nat (NDIRECT + 1)) 0))
             end
       end).
Proof.
  split.
  { intros omode Hc. unfold sys_open. apply Z.eqb_neq in Hc. rewrite Hc. reflexivity. }
  intros type major minor s r s' H. unfold create in H.
  apply bind_Done in H as ([dpo name] & s1 & Hnp & H).
  exists dpo, name, s1. split; [exact Hnp|].
  destruct dpo as [dp|]; [|inversion H; split; reflexivity].
  apply bind_Done in H as ([] & s2 & Hlock & H).
  apply bind_Done in H as (found & s3 & Hlook & H).
  exists s2, found, s3. split; [exact Hlock|]. split; [exact Hlook|].
  destruct found as [[ip off]|].
  - (* the name exists *)
    apply bind_Done in H as ([] & s4 & Hup & H).
    apply bind_Done in H as ([] & s5 & Hlk & H).
    apply bind_Done in H as (i & s5' & Hget & H).
    apply get_inode_Done in Hget as (-> & Hi).
    destruct (ilock_locked _ _ _ Hlk) as (_ & i' & _ & _ & Hi' & Hl' & _).
    rewrite Hi in Hi'. inversion Hi'; subst i'.
    exists s4, s5, i. split; [exact Hup|]. split; [exact Hlk|].
    split; [exact Hi|]. split; [exact Hl'|].
    destruct ((type =? T_FILE) && (i_type i =? T_FILE)).
    + inversion H. split; reflexivity.
    + apply bind_Done in H as ([] & s6 & _ & H). inversion H. reflexivity.
  - (* the name is absent *)
    destruct (ilock_locked _ _ _ Hlock) as (_ & d2 & _ & _ & Hd2 & Hl2 & _).
    pose proof (frame_dirlookup_None _ dp name s2 s3 (touches_ok dp [Faddrs])
                  (touches_self _ _) Hlook) as Hf3.
    destruct (touches_lookup _ _ _ _ _ _ Hf3 Hd2) as (d & Hd & _ & Hchd).
    pose proof (Hchd eq_refl Flock eq_refl) as Hld. simpl in Hld.
    apply bind_Done in H as (d' & s3' & Hget & H).
    apply get_inode_Done in Hget as (-> & Hd').
    rewrite Hd in Hd'. inversion Hd'; subst d'. clear Hd'.
    apply bind_Done in H as (ip & s4 & Hial & H). pose proof Hial as Hial0.
    unfold ialloc in Hial. unfold bind at 1 in Hial. unfold get at 1 in Hial.
    apply ialloc_scan_spec in Hial as (inum & s3a & Hin & Hfree & Hst & Higet).
    apply elem_of_seqZ in Hin.
    assert (icache s3a = icache s3 /\
            dinode_at s3a (i_dev d) inum = mkDinode type 0 0 0 0 (d_addrs zero_dinode))
      as (Hc3a & Hdin3a).
    { unfold dstore in Hst. apply bind_Done in Hst as ([] & sx & Hm & Hlw).
      inversion Hm; subst sx. inversion Hlw; subst s3a. split; [reflexivity|].
      unfold dinode_at. simpl. rewrite lookup_insert_eq. reflexivity. }
    destruct (iget_slot _ _ _ _ _ Higet) as (i3 & i4 & Hi3 & Hc4 & Hl4 & Hdev4 & Hinum4).
    rewrite Hc3a in Hi3, Hc4.
    assert (icache s4 !! ip = Some i4) as Hi4
      by (rewrite Hc4; apply (lookup_insert_slot _ _ _ _ Hi3)).
    apply bind_Done in H as ([] & s5 & Hlkip & H).
    destruct (ilock_locked _ _ _ Hlkip) as (i4' & i5 & Hi4' & Hl4' & Hi5 & Hl5 & Hch5 & Hf5).
    rewrite Hi4 in Hi4'. inversion Hi4'; subst i4'. clear Hi4'.
    assert (ip <> dp) as Hne.
    { intros ->. rewrite Hd in Hi3. inversion Hi3; subst i3. congruence. }
    assert (icache s5 !! dp = Some d) as Hd5.
    { destruct (touches_lookup _ _ _ _ dp d Hf5) as (d5 & Hd5 & Hsame & _).
      - rewrite Hc4, list_lookup_insert_ne by congruence. exact Hd.
      - rewrite (Hsame ltac:(congruence)) in Hd5. exact Hd5. }
    apply bind_Done in H as ([] & s6 & Hupd & H). pose proof Hupd as Hupd0.
    rewrite (upd_inode_eq _ _ _ _ Hi5) in Hupd. inversion Hupd as [Hs6]. clear Hupd.
    set (i6 := set_i_nlink 1 (set_i_minor minor (set_i_major major i5))) in *.
    assert (icache s6 !! ip = Some i6) as Hi6
      by (rewrite <- Hs6; simpl; apply (lookup_insert_slot _ _ _ _ Hi5)).
    assert (create_inv ip dp (i_dev d) inum major minor (i_nlink d) (i_inum d) s6) as Hinv6.
    { split.
      - exists i6. split; [exact Hi6|].
        pose proof (Hch5 Fdev eq_refl) as H1. pose proof (Hch5 Finum eq_refl) as H2.
        simpl in H1, H2. unfold new_inode. subst i6. simpl. repeat split; congruence.
      - exists d. split; [|split; reflexivity]. rewrite <- Hs6. simpl.
        rewrite list_lookup_insert_ne by congruence. exact Hd5. }
    apply bind_Done in H as ([] & s7 & Hiup & H).
    pose proof (frame_iupdate _ ip (touches_ok ip []) _ _ _ Hiup) as Hf7.
    pose proof (create_inv_touch ip dp _ inum major minor _ _ ip [] s6 s7 Hne Hf7
                  ltac:(reflexivity) ltac:(intros; congruence) Hinv6) as Hinv7.
    destruct (touches_lookup _ _ _ _ _ _ Hf7 Hi6) as (i7 & Hi7 & _ & Hc7).
    specialize (Hc7 eq_refl).
    apply bind_Done in H as ([] & s8 & Hdots & H).
    destruct (create_dots _ _ _ _ _ _ _ _ _ _ _ Hne Hinv7 Hdots)
      as (Hinv8 & Hdotted & Hkeep8).
    destruct (Hkeep8 i7 Hi7) as (i8 & Hi8 & Hc8).
    apply bind_Done in H as (i8' & s8' & Hget & H).
    apply get_inode_Done in Hget as (-> & Hi8').
    rewrite Hi8 in Hi8'. injection Hi8' as <-.
    assert (i_inum i8 = inum) as Hinum8.
    { destruct Hinv8 as ((i8' & Hi8' & Hnew8) & _). rewrite Hi8 in Hi8'.
      inversion Hi8'; subst. apply Hnew8. }
    rewrite Hinum8 in H.
    apply bind_Done in H as (r3 & s9 & Hdl & H).
    destruct (Z.ltb_spec r3 0) as [|Hr3]; [discriminate|].
    assert (r3 = 0) as -> by (destruct (dirlink_result _ _ _ _ _ _ Hdl); lia).
    pose proof (frame_dirlink_ok _ dp _ _ _ _ _ (touches_ok dp [Faddrs; Fsize])
                  (touches_self _ _) Hdl ltac:(lia)) as Hf9.
    pose proof (create_inv_touch ip dp _ inum major minor _ _ dp [Faddrs; Fsize] s8 s9 Hne
                  Hf9 ltac:(intros; congruence) ltac:(intros; split; reflexivity) Hinv8)
      as Hinv9.
    destruct (touches_lookup _ _ _ _ _ _ Hf9 Hi8) as (i9 & Hi9 & Hsame9 & _).
    rewrite (Hsame9 Hne) in Hi9. clear Hsame9.
    apply bind_Done in H as ([] & s10 & Hiul & H).
    pose proof (frame_iunlockput _ dp
                  (touches_ok dp [Fref; Flock; Fvalid; Ftype; Fsize; Faddrs])
                  (touches_self _ _) _ _ _ Hiul) as Hf10.
    pose proof (create_inv_touch ip dp _ inum major minor _ _ dp
                  [Fref; Flock; Fvalid; Ftype; Fsize; Faddrs] s9 s10 Hne Hf10
                  ltac:(intros; congruence) ltac:(intros; split; reflexivity) Hinv9)
      as Hinv10.
    destruct (touches_lookup _ _ _ _ _ _ Hf10 Hi9) as (i10 & Hi10 & Hsame10 & _).
    rewrite (Hsame10 Hne) in Hi10. clear Hsame10.
    inversion H; subst r s'.
    destruct Hinv10 as ((i10' & Hi10' & Hnew10) & (d10 & Hd10 & Hnl10 & _)).
    rewrite Hi10 in Hi10'. injection Hi10' as <-.
    exists ip, i8, d, inum, s4, s5, s7, s8, s9.
    split; [reflexivity|]. split; [exact Hi10|].
    split; [exact Hd|]. split; [exact Hne|]. split; [exact Hfree|].
    split; [lia|]. split; [exact Hnew10|]. split.
    { exists d10. split; [exact Hd10|exact Hnl10]. }
    split; [exact Hial0|]. split; [exact Hlkip|]. split.
    { rewrite (bind_eq _ _ _ _ _ Hupd0). exact Hiup. }
    split; [exact Hdotted|]. split; [exact Hdl|]. split; [exact Hiul|].
    intros Hcoh.
    (* the slot that [iget] returned is not valid, so [ilock] loads it *)
    assert (i_valid i4 = 0) as Hv4.
    { pose proof (iget_spec s3a (i_dev d) inum) as Hs. rewrite Higet in Hs.
      destruct Hs as (_ & _ & _ & _ & [(i & Hip & Hhit & Hc)|(_ & i & Hip & _ & _ & Hc)]);
        rewrite Hc3a in Hip, Hc; rewrite Hc4 in Hc;
        apply (f_equal (fun l => l !! ip)) in Hc;
        rewrite !(lookup_insert_slot _ _ _ _ Hi3) in Hc; injection Hc as ->.
      - destruct Hhit as (Href & Hdev & Hinum). cbn [i_valid set_i_ref].
        destruct (Z.eq_dec (i_valid i) 0) as [Hz|Hnz]; [exact Hz|].
        exfalso. apply (Hcoh ip i Hip Href Hnz). rewrite Hdev, Hinum. exact Hfree.
      - reflexivity. }
    pose proof (ilock_Done_load s4 ip i4 s5 Hi4 Hv4 Hlkip) as Hload.
    rewrite Hi5 in Hload. injection Hload as Hi5eq.
    assert (dinode_at s4 (i_dev i4) (i_inum i4) =
            mkDinode type 0 0 0 0 (d_addrs zero_dinode)) as Hdin4.
    { rewrite Hdev4, Hinum4, <- Hdin3a.
      pose proof (iget_spec s3a (i_dev d) inum) as Hs. rewrite Higet in Hs.
      destruct Hs as (Hds & _). unfold dinode_at. rewrite Hds. reflexivity. }
    cbv zeta in Hi5eq. rewrite Hdin4 in Hi5eq. cbn [d_type d_major d_minor d_nlink
      d_size d_addrs] in Hi5eq.
    assert (i_valid i6 = 1 /\ i_type i6 = type /\ i_size i6 = 0 /\
            i_addrs i6 = replicate (Z.to_nat (NDIRECT + 1)) 0) as (Hv6 & Ht6 & Hz6 & Ha6).
    { subst i6. rewrite Hi5eq. simpl. repeat split. }
    assert (changes (if type =? T_DIR then [Faddrs; Fsize] else []) i6 i8) as Hc68.
    { eapply changes_trans; [|exact Hc8]. eapply changes_sub; [|exact Hc7].
      destruct (type =? T_DIR); reflexivity. }
    split; [|split].
    + rewrite <- Hv6. apply (Hc68 Fvalid). destruct (type =? T_DIR); reflexivity.
    + rewrite <- Ht6. apply (Hc68 Ftype). destruct (type =? T_DIR); reflexivity.
    + intros Hnd. apply Z.eqb_neq in Hnd. rewrite Hnd in Hc68. split.
      * rewrite <- Hz6. apply (Hc68 Fsize eq_refl).
      * rewrite <- Ha6. apply (Hc68 Faddrs eq_refl).
Qed.

End Proofs.

(** * The claims on the example file system *)

Lemma ex_file_mapped k : 0 <= k < 512 -> mapped (cfg := xv6_config) ex_fs ex_file (k / BSIZE).
Proof.
  intros Hk. replace (k / BSIZE) with 0
    by (symmetry; apply Z.div_small; change BSIZE with 512; lia).
  unfold mapped. vm_compute. repeat split; congruence.
Qed.

Lemma readi_bounds_and_copy_witness :
  readi (cfg := xv6_config) 1 6 1 ex_fs = Done (-1, []) ex_fs /\
  readi (cfg := xv6_config) 1 1 10 ex_fs = Done (4, [101; 108; 108; 111]) ex_fs.
Proof.
  assert (i_type ex_file <> T_DEV) as Hty by (vm_compute; congruence).
  split.
  - refine (proj1
      (readi_bounds_and_copy (cfg := xv6_config) (cfg_ok := xv6_config_ok)
         ex_fs 1%nat ex_file 6 1 eq_refl Hty _ _ _) _);
      unfold is_u32, ex_file; simpl; lia.
  - refine (proj2 (proj2 (proj2
      (readi_bounds_and_copy (cfg := xv6_config) (cfg_ok := xv6_config_ok)
         ex_fs 1%nat ex_file 1 10 eq_refl Hty _ _ _) _ _)) _);
      unfold is_u32, ex_file; simpl; try lia.
    intros k Hk. apply ex_file_mapped. lia.
Defined.

(** C9 as stated fails: at [off == ip->size == 5] a count of [2^32 - 1]
    makes [off + n] wrap around, and [readi] returns -1. *)
Lemma readi_at_eof_counterexample :
  ~ (forall s ip i n,
       icache s !! ip = Some i -> i_type i <> T_DEV -> is_u32 n ->
       exists dst s', readi (cfg := xv6_config) ip (i_size i) n s = Done (0, dst) s').
Proof.
  intros H.
  destruct (H ex_fs 1%nat ex_file (2 ^ 32 - 1) eq_refl) as (dst & s' & Hr).
  - vm_compute. congruence.
  - unfold is_u32. lia.
  - vm_compute in Hr. discriminate Hr.
Qed.

Lemma readi_at_eof_witness :
  readi (cfg := xv6_config) 1 5 8 ex_fs = Done (0, []) ex_fs /\
  readi (cfg := xv6_config) 1 5 (2 ^ 32 - 1) ex_fs = Done (-1, []) ex_fs.
Proof.
  assert (i_type ex_file <> T_DEV) as Hty by (vm_compute; congruence).
  assert (is_u32 (i_size ex_file)) as Hsz by (unfold is_u32, ex_file; simpl; lia).
  split.
  - refine (proj1 (readi_at_eof (cfg := xv6_config) ex_fs 1%nat ex_file 8
                     eq_refl Hty _ Hsz) _).
    + unfold is_u32. lia.
    + unfold ex_file. simpl. lia.
  - refine (proj2 (readi_at_eof (cfg := xv6_config) ex_fs 1%nat ex_file (2 ^ 32 - 1)
                     eq_refl Hty _ Hsz) _).
    + unfold is_u32. lia.
    + unfold ex_file. simpl. lia.
Defined.

Lemma ex_root_mapped k :
  0 <= k < 512 -> mapped (cfg := xv6_config) ex_fs ex_root (k / BSIZE).
Proof.
  intros Hk. replace (k / BSIZE) with 0
    by (symmetry; apply Z.div_small; change BSIZE with 512; lia).
  unfold mapped. vm_compute. repeat split; congruence.
Qed.

Lemma ex_root_dir_ok : dir_ok (cfg := xv6_config) ex_fs ex_root 3.
Proof.
  split; [reflexivity|]. split; [reflexivity|]. split; [vm_compute; reflexivity|].
  intros k Hk. apply ex_root_mapped. change (i_size ex_root) with 48 in Hk. lia.
Qed.

Lemma ex_refs_int : refs_int ex_fs.
Proof.
  intros j a H.
  destruct j as [|[|[|[|j]]]]; vm_compute in H; try discriminate H;
    injection H as <-; simpl; lia.
Qed.

Lemma ex_root_no_b : ~ dir_present (cfg := xv6_config) ex_fs ex_root 3 (cstr "b").
Proof.
  intros (k & Hk & Hm).
  assert (k = 0 \/ k = 1 \/ k = 2) as [->|[->| ->]] by lia;
    vm_compute in Hm; discriminate Hm.
Qed.

Lemma ex_root_block_private : block_private (cfg := xv6_config) ex_fs ex_root 0.
Proof.
  split; [vm_compute; discriminate|].
  intros bn Hbn Hne.
  assert (forallb (fun b => (b =? 0) || negb (baddr (cfg := xv6_config) ex_fs ex_root b
                                              =? baddr (cfg := xv6_config) ex_fs ex_root 0))
            (seqZ 0 (MAXFILE (cfg := xv6_config))) = true) as Hall
    by (vm_compute; reflexivity).
  rewrite forallb_forall in Hall.
  specialize (Hall bn). rewrite <- list_elem_of_In, elem_of_seqZ in Hall.
  specialize (Hall ltac:(lia)).
  apply orb_true_iff in Hall as [H0|H1]; [lia|].
  apply negb_true_iff in H1. lia.
Qed.

Lemma ex_uniq : uniq (icache ex_fs).
Proof.
  intros j k a b Ha Hb Hra Hrb Hd Hi.
  destruct j as [|[|[|[|j]]]]; destruct k as [|[|[|[|k]]]]; try reflexivity;
    vm_compute in Ha; vm_compute in Hb; try discriminate Ha; try discriminate Hb;
    injection Ha as <-; injection Hb as <-; simpl in *; try lia; discriminate.
Qed.

Lemma filewrite_chunks_witness :
  (exists s',
     filewrite (cfg := xv6_config) 0 (cstr "HELLO") 5 ex_fs = Done 5 s' /\
     ftable s' = <[0%nat := set_f_off 5 ex_handle]> (ftable ex_fs) /\
     block_at s' 1 11 = ex_block (cstr "HELLO") /\
     write_run (cfg := xv6_config) 1536 0 (cstr "HELLO") 5 0 ex_fs 5 s') /\
  (exists s' tr,
     filewrite (cfg := xv6_config) 0 (replicate 2000 7) 2000 ex_fs = Done 2000 s' /\
     i_size <$> icache s' !! 1%nat = Some 2000 /\
     ftable s' = <[0%nat := set_f_off 2000 ex_handle]> (ftable ex_fs) /\
     trace s' = trace ex_fs ++ tr /\ chunk_run 1536 2000 0 tr 2000 /\
     write_run (cfg := xv6_config) 1536 0 (replicate 2000 7) 2000 0 ex_fs 2000 s').
Proof.
  assert (f_writable ex_handle <> 0) as Hw by (vm_compute; congruence).
  assert (is_u32 (f_off ex_handle)) as Hoff by (unfold is_u32; simpl; lia).
  split.
  - assert (- 2 ^ 31 <= 5 < 2 ^ 31) as Hn by lia.
    destruct (filewrite_chunks (cfg := xv6_config) (cfg_ok := xv6_config_ok)
                ex_fs 0%nat ex_handle (cstr "HELLO") 5 eq_refl eq_refl Hw Hoff Hn)
      as (_ & Hrun & Hblk).
    destruct (Hblk ex_file eq_refl eq_refl) as (s' & E & Hft & _ & Hb & _).
    + simpl. lia.
    + simpl. lia.
    + vm_compute. congruence.
    + lia.
    + simpl. lia.
    + vm_compute. congruence.
    + vm_compute. congruence.
    + apply (ex_file_mapped 0). lia.
    + exists s'. split; [exact E|]. split; [exact Hft|]. split.
      * unfold block_at. rewrite Hb, lookup_insert_eq. vm_compute. reflexivity.
      * destruct (Hrun 5 s' E) as (tr & w & _ & _ & _ & Hwr & _ & _ & Hr & _).
        destruct (Z.eqb_spec w 5) as [->|]; [exact Hwr|discriminate Hr].
  - assert (- 2 ^ 31 <= 2000 < 2 ^ 31) as Hn by lia.
    assert (exists s',
              filewrite (cfg := xv6_config) 0 (replicate 2000 7) 2000 ex_fs
                = Done 2000 s' /\
              i_size <$> icache s' !! 1%nat = Some 2000) as (s' & E & Hsz)
      by (vm_compute; eexists; split; reflexivity).
    destruct (proj1 (proj2 (filewrite_chunks (cfg := xv6_config) (cfg_ok := xv6_config_ok)
                              ex_fs 0%nat ex_handle (replicate 2000 7) 2000
                              eq_refl eq_refl Hw Hoff Hn)) 2000 s' E)
      as (tr & w & Htr & Hchunks & _ & Hwr & Hft & _ & Hr & _).
    destruct (Z.eqb_spec w 2000) as [->|]; [|discriminate Hr].
    exists s', tr. split; [exact E|]. split; [exact Hsz|]. split; [exact Hft|].
    split; [exact Htr|]. split; [exact Hchunks|exact Hwr].
Defined.

Lemma fileread_offset_witness :
  exists s', fileread (cfg := xv6_config) 0 8 ex_fs = Done (5, cstr "hello") s' /\
             ftable s' = <[0%nat := set_f_off 5 ex_handle]> (ftable ex_fs).
Proof.
  assert (exists s', fileread (cfg := xv6_config) 0 8 ex_fs = Done (5, cstr "hello") s')
    as [s' E] by (vm_compute; eexists; reflexivity).
  exists s'. split; [exact E|].
  assert (f_readable ex_handle <> 0) as Hr by (vm_compute; congruence).
  destruct (fileread_offset (cfg := xv6_config) (cfg_ok := xv6_config_ok)
              ex_fs 0%nat ex_handle 8 5 (cstr "hello") s' eq_refl eq_refl Hr E)
    as (s1 & s2 & _ & _ & Hft & _).
  exact Hft.
Defined.

Lemma writei_bounds_witness :
  writei (cfg := xv6_config) 1 [] 5 71676 ex_fs = Done (-1) ex_fs /\
  exists s',
    writei (cfg := xv6_config) 1 (cstr "XY") 5 2 ex_fs = Done 2 s' /\
    icache s' !! 1%nat = Some (set_i_size 7 ex_file) /\
    d_size (dinode_at (cfg := xv6_config) s' 1 2) = 7 /\
    exists tr, trace s' = tr ++ [EvLogWrite (TInode 1 2)].
Proof.
  assert (i_type ex_file <> T_DEV) as Hty by (vm_compute; congruence).
  assert (is_u32 5) as H5 by (unfold is_u32; lia).
  assert (is_u32 (i_size ex_file)) as Hsz by (unfold is_u32, ex_file; simpl; lia).
  split.
  - refine (proj1 (writei_bounds (cfg := xv6_config) (cfg_ok := xv6_config_ok)
                     ex_fs 1%nat ex_file [] 5 71676 eq_refl Hty H5 _ Hsz) _).
    + unfold is_u32. lia.
    + vm_compute. reflexivity.
  - destruct (proj2 (proj2 (proj2
                (writei_bounds (cfg := xv6_config) (cfg_ok := xv6_config_ok)
                   ex_fs 1%nat ex_file (cstr "XY") 5 2 eq_refl Hty H5
                   ltac:(unfold is_u32; lia) Hsz))))
      as (s' & E & Hc & _ & _ & Hthrough).
    + lia.
    + simpl. lia.
    + vm_compute. congruence.
    + vm_compute. congruence.
    + apply (ex_file_mapped 5). lia.
    + destruct Hthrough as (Htr & Hd); [simpl; lia|].
      exists s'. split; [exact E|]. split; [rewrite Hc; reflexivity|].
      split; [|exact Htr].
      change (dinode_at (cfg := xv6_config) s' 1 2) with (dinode_at (cfg := xv6_config) s' (i_dev ex_file) (i_inum ex_file)).
      rewrite Hd. reflexivity.
Defined.

Lemma ex_orphan_owned :
  blocks_owned (cfg := xv6_config) ex_orphan (set_i_nlink 0 ex_file).
Proof.
  set (i := set_i_nlink 0 ex_file).
  assert (forallb (fun p =>
            (slot_addr (cfg := xv6_config) ex_orphan i p =? 0) ||
            (bit_at ex_orphan (i_dev i) (slot_addr (cfg := xv6_config) ex_orphan i p) &&
             forallb (fun q =>
               (q <=? p) ||
               negb (slot_addr (cfg := xv6_config) ex_orphan i q
                     =? slot_addr (cfg := xv6_config) ex_orphan i p))
               (seqZ 0 141))) (seqZ 0 141) = true) as Hall
    by (vm_compute; reflexivity).
  rewrite forallb_forall in Hall.
  intros p Hp Hnz. change (MAXFILE (cfg := xv6_config)) with 140 in Hp.
  specialize (Hall p). rewrite <- list_elem_of_In, elem_of_seqZ in Hall.
  specialize (Hall ltac:(lia)).
  apply orb_true_iff in Hall as [H0|H1]; [apply Z.eqb_eq in H0; contradiction|].
  apply andb_true_iff in H1 as (Hbit & Hdist). split; [exact Hbit|].
  intros q Hq. change (MAXFILE (cfg := xv6_config)) with 140 in Hq.
  rewrite forallb_forall in Hdist.
  specialize (Hdist q). rewrite <- list_elem_of_In, elem_of_seqZ in Hdist.
  specialize (Hdist ltac:(lia)).
  apply orb_true_iff in Hdist as [H0|H1]; [lia|].
  apply negb_true_iff in H1. lia.
Qed.

Lemma iput_cleanup_witness :
  iput (cfg := xv6_config) 1 ex_fs =
    Done tt (set_icache (<[1%nat := set_i_ref 0 ex_file]> (icache ex_fs)) ex_fs) /\
  exists s' im,
    iput (cfg := xv6_config) 1 ex_orphan = Done tt s' /\
    bit_at s' 1 11 = false /\ d_type (dinode_at (cfg := xv6_config) s' 1 2) = 0 /\
    icache s' !! 1%nat = Some im /\
    i_ref im = 0 /\ i_valid im = 0 /\ i_type im = 0 /\ i_size im = 0.
Proof.
  split.
  - refine (proj1 (iput_cleanup (cfg := xv6_config) (cfg_ok := xv6_config_ok)
                     ex_fs 1%nat ex_file eq_refl eq_refl) _).
    intros (_ & Hnl & _). vm_compute in Hnl. discriminate Hnl.
  - destruct (proj2 (iput_cleanup (cfg := xv6_config) (cfg_ok := xv6_config_ok)
                       ex_orphan 1%nat (set_i_nlink 0 ex_file) eq_refl eq_refl))
      as (_ & _ & Hret & Hdone).
    + vm_compute. congruence.
    + reflexivity.
    + reflexivity.
    + destruct (Hret ex_orphan_owned) as (s' & E).
      destruct (Hdone s' E)
        as (sm & im & Hs' & Him & _ & _ & _ & Hv & Hty & Hsz & _ & Hd & Hfree).
      exists s', (set_i_ref 0 im). split; [exact E|]. subst s'. split.
      * apply (Hfree 11). split; [lia|]. left. exists 0. split; [|reflexivity].
        vm_compute. split; congruence.
      * split.
        -- change (d_type (dinode_at (cfg := xv6_config) sm (i_dev (set_i_nlink 0 ex_file))
                             (i_inum (set_i_nlink 0 ex_file))) = 0).
           rewrite Hd. reflexivity.
        -- split; [simpl; apply (lookup_insert_slot _ _ _ _ Him)|].
           simpl. repeat split; assumption.
Defined.

Lemma dirlink_spec_witness :
  (exists s', dirlink (cfg := xv6_config) 0 (cstr "a") 2 ex_fs = Done (-1) s' /\
              dir_present (cfg := xv6_config) ex_fs ex_root 3 (cstr "a")) /\
  (exists s',
     dirlink (cfg := xv6_config) 0 (cstr "b") 3 ex_fs = Done 0 s' /\
     icache s' !! 0%nat = Some (set_i_size 64 ex_root) /\
     dir_entry (cfg := xv6_config) s' (set_i_size 64 ex_root) 3 =
       mkDirent 3 (strncpy (cstr "b") 14) /\
     dir_entry (cfg := xv6_config) s' (set_i_size 64 ex_root) 2 =
       dir_entry (cfg := xv6_config) ex_fs ex_root 2).
Proof.
  split.
  - assert (exists s', dirlink (cfg := xv6_config) 0 (cstr "a") 2 ex_fs = Done (-1) s')
      as [s' E] by (vm_compute; eexists; reflexivity).
    exists s'. split; [exact E|].
    exact (proj1 (proj2 (proj2 (dirlink_spec (cfg := xv6_config) (cfg_ok := xv6_config_ok)
                                  ex_fs 0%nat ex_root 3%nat (cstr "a") 2
                                  eq_refl ex_root_dir_ok ex_refs_int)) (-1) s' E) eq_refl).
  - destruct (proj1 (proj2 (dirlink_spec (cfg := xv6_config) (cfg_ok := xv6_config_ok)
                              ex_fs 0%nat ex_root 3%nat (cstr "b") 3
                              eq_refl ex_root_dir_ok ex_refs_int)) ex_root_no_b)
      as (k & Hslot & _ & _ & Hstore).
    pose proof (dir_slot_unique (cfg := xv6_config) _ _ _ _ Hslot) as Hk.
    vm_compute in Hk. subst k.
    destruct Hstore as (s' & E & Hc & _ & Hentry & Hother).
    + reflexivity.
    + apply (ex_root_mapped 48). lia.
    + exact ex_root_block_private.
    + exists s'. split; [exact E|]. split; [rewrite Hc; reflexivity|].
      split; [exact Hentry|]. apply Hother; lia.
Defined.

Lemma icache_identity_unique_witness :
  exists s', iget 1 2 ex_fs = Done 1%nat s' /\ uniq (icache s').
Proof.
  assert (exists s', iget 1 2 ex_fs = Done 1%nat s') as [s' E]
    by (vm_compute; eexists; reflexivity).
  exists s'. split; [exact E|].
  apply (proj1 (icache_identity_unique (cfg := xv6_config)) ex_fs s' ex_uniq).
  apply rtc_once. exact (step_iget _ _ _ _ _ E).
Defined.

Lemma skipelem_spec_witness :
  let path := cstr "//a/bb" in
  let name := name_buf (cfg := xv6_config) in
  (exists k rest,
     path = replicate k slash ++ rest /\ hd 0 rest = 0 /\
     skipelem (cfg := xv6_config) path name = None)
  \/
  (exists k1 elem k2 rest,
     path = replicate k1 slash ++ elem ++ replicate k2 slash ++ rest /\
     elem <> [] /\ Forall elem_char elem /\ hd 0 rest <> slash /\
     (k2 = 0%nat -> hd 0 rest = 0) /\
     skipelem (cfg := xv6_config) path name =
       Some (rest,
             if @DIRSIZ xv6_config <=? Z.of_nat (length elem)
             then take (Z.to_nat (@DIRSIZ xv6_config)) elem
             else elem ++ 0 :: drop (S (length elem)) name)).
Proof.
  apply (skipelem_spec (cfg := xv6_config) (cstr "//a/bb") name_buf).
  - reflexivity.
  - vm_compute. reflexivity.
Defined.

(** The examples of the comment above [skipelem] in fs.c. *)
Example skipelem_examples :
  fst <$> skipelem (cfg := xv6_config) (cstr "a/bb/c") ex_name = Some (cstr "bb/c") /\
  fst <$> skipelem (cfg := xv6_config) (cstr "///a//bb") ex_name = Some (cstr "bb") /\
  fst <$> skipelem (cfg := xv6_config) (cstr "a") ex_name = Some [] /\
  skipelem (cfg := xv6_config) [] ex_name = None /\
  skipelem (cfg := xv6_config) (cstr "////") ex_name = None.
Proof. vm_compute. repeat split; reflexivity. Qed.

(** C3 as stated fails: on a file system where the file [a] exists, with
    its one link, [create] of the path [/a] returns the cached inode of that
    file: it is locked and has link count 1, but it is not newly allocated,
    its on-disk inode was in use before the call. *)
Lemma create_existing_counterexample :
  ~ (forall path s r s',
       create (cfg := xv6_config) path T_FILE 0 0 s = Done r s' ->
       exists ip i, r = Some ip /\ icache s' !! ip = Some i /\
                    i_lock i = true /\ i_nlink i = 1 /\
                    d_type (dinode_at (cfg := xv6_config) s (i_dev i) (i_inum i)) = 0).
Proof.
  intros H.
  assert (exists s', create (cfg := xv6_config) (cstr "/a") T_FILE 0 0 ex_sound
                     = Done (Some 1%nat) s' /\
                     (fun i => (i_dev i, i_inum i)) <$> icache s' !! 1%nat =
                       Some (1, 2)) as (s' & E & Hi)
    by (vm_compute; eexists; split; reflexivity).
  destruct (H _ _ _ _ E) as (ip & i & Hr & Hi' & _ & _ & Hfree).
  injection Hr as <-. rewrite Hi' in Hi. injection Hi as Hdev Hinum.
  rewrite Hdev, Hinum in Hfree. vm_compute in Hfree. discriminate Hfree.
Qed.

(** The result and the final state of a run, computed. *)
Ltac run_eq m s E :=
  let v := eval vm_compute in (m s) in
  assert (m s = v) as E by (vm_compute; reflexivity).

Lemma create_spec_witness :
  (exists s' i inum,
     create (cfg := xv6_config) (cstr "/b") T_FILE 0 0 ex_fs = Done (Some 2%nat) s' /\
     icache s' !! 2%nat = Some i /\ new_inode 1 inum 0 0 i /\
     i_valid i = 1 /\ i_type i = T_FILE /\ i_size i = 0) /\
  (exists s' i d' inum,
     create (cfg := xv6_config) (cstr "/d") T_DIR 0 0 ex_fs = Done (Some 2%nat) s' /\
     icache s' !! 2%nat = Some i /\ new_inode 1 inum 0 0 i /\
     i_type i = T_DIR /\ i_size i = 32 /\
     icache s' !! 0%nat = Some d' /\ i_nlink d' = 2).
Proof.
  split.
  - assert (exists s', create (cfg := xv6_config) (cstr "/b") T_FILE 0 0 ex_fs
                       = Done (Some 2%nat) s') as [s' E]
      by (vm_compute; eexists; reflexivity).
    destruct (proj2 (create_spec (cfg := xv6_config) (cstr "/b"))
                T_FILE 0 0 ex_fs (Some 2%nat) s' E)
      as (dpo & name & s1 & Hnp & Hrest).
    run_eq (nameiparent (cfg := xv6_config) (cstr "/b") (name_buf (cfg := xv6_config)))
           ex_fs E1.
    rewrite E1 in Hnp. injection Hnp as Hdpo Hname Hs1. subst dpo.
    destruct Hrest as (s2 & found & s3 & Hlock & Hlook & Hrest).
    rewrite <- Hs1 in Hlock.
    match type of Hlock with ?m ?s = _ => run_eq m s E2 end.
    rewrite E2 in Hlock. injection Hlock as Hs2.
    rewrite <- Hs2, <- Hname in Hlook.
    match type of Hlook with ?m ?s = _ => run_eq m s E3 end.
    rewrite E3 in Hlook. injection Hlook as Hfound Hs3. subst found.
    destruct Hrest as (ip & i & d & inum & s4 & s5 & s6 & s7 & s8 & Hip & Hi & Hd &
                       _ & _ & _ & Hnew & _ & _ & _ & _ & _ & _ & _ & Hfresh).
    injection Hip as <-.
    destruct Hfresh as (Hv & Hty & Hsz).
    { rewrite <- Hs3. apply cache_coherentb_ok. vm_compute. reflexivity. }
    assert (i_dev d = 1) as Hdev.
    { rewrite <- Hs3 in Hd. vm_compute in Hd. injection Hd as <-. reflexivity. }
    rewrite Hdev in Hnew.
    exists s', i, inum. split; [exact E|]. split; [exact Hi|]. split; [exact Hnew|].
    split; [exact Hv|]. split; [exact Hty|]. apply Hsz. vm_compute. discriminate.
  - assert (exists s', create (cfg := xv6_config) (cstr "/d") T_DIR 0 0 ex_fs
                       = Done (Some 2%nat) s' /\
                       i_size <$> icache s' !! 2%nat = Some 32) as (s' & E & Hsize)
      by (vm_compute; eexists; split; reflexivity).
    destruct (proj2 (create_spec (cfg := xv6_config) (cstr "/d"))
                T_DIR 0 0 ex_fs (Some 2%nat) s' E)
      as (dpo & name & s1 & Hnp & Hrest).
    destruct dpo as [dp|]; [|destruct Hrest as (Hr & _); discriminate Hr].
    destruct Hrest as (s2 & found & s3 & Hlock & Hlook & Hrest).
    destruct found as [[ipf off]|].
    { destruct Hrest as (s4 & s5 & i & _ & _ & _ & _ & Hr). discriminate Hr. }
    run_eq (nameiparent (cfg := xv6_config) (cstr "/d") (name_buf (cfg := xv6_config)))
           ex_fs E1.
    rewrite E1 in Hnp. injection Hnp as Hdp Hname Hs1. subst dp.
    rewrite <- Hs1 in Hlock.
    match type of Hlock with ?m ?s = _ => run_eq m s E2 end.
    rewrite E2 in Hlock. injection Hlock as Hs2.
    rewrite <- Hs2, <- Hname in Hlook.
    match type of Hlook with ?m ?s = _ => run_eq m s E3 end.
    rewrite E3 in Hlook. injection Hlook as Hs3.
    destruct Hrest as (ip & i & d & inum & s4 & s5 & s6 & s7 & s8 & Hip & Hi & Hd &
                       _ & _ & _ & Hnew & (d' & Hd' & Hnl) & _ & _ & _ & _ & _ & _ &
                       Hfresh).
    injection Hip as <-.
    destruct Hfresh as (_ & Hty & _).
    { rewrite <- Hs3. apply cache_coherentb_ok. vm_compute. reflexivity. }
    assert (i_dev d = 1 /\ i_nlink d = 1) as (Hdev & Hnld).
    { rewrite <- Hs3 in Hd. vm_compute in Hd. injection Hd as <-. split; reflexivity. }
    rewrite Hdev in Hnew. rewrite Hnld in Hnl.
    exists s', i, d', inum. split; [exact E|]. split; [exact Hi|]. split; [exact Hnew|].
    split; [exact Hty|]. split.
    + rewrite Hi in Hsize. simpl in Hsize. injection Hsize as ->. reflexivity.
    + split; [exact Hd'|]. rewrite Hnl. reflexivity.
Defined.

(** * The further properties on the example file system *)

Lemma bfree_undoes_balloc_witness :
  exists s1 s2,
    balloc 1 ex_fs = Done 12 s1 /\ bfree 1 12 s1 = Done tt s2 /\
    bit_at s2 1 12 = false.
Proof.
  assert (exists s1, balloc 1 ex_fs = Done 12 s1) as [s1 E]
    by (vm_compute; eexists; reflexivity).
  destruct (bfree_undoes_balloc 1 ex_fs 12 s1 E) as (s2 & Hf & Hb & _).
  exists s1, s2. split; [exact E|]. split; [exact Hf|].
  rewrite Hb. vm_compute. reflexivity.
Defined.

Lemma ilock_iunlock_id_witness :
  (ilock (cfg := xv6_config) 1 ;; iunlock 1) ex_fs = Done tt ex_fs /\
  iunlock 1 ex_fs = Panic "iunlock".
Proof.
  apply (ilock_iunlock_id (cfg := xv6_config) ex_fs 1%nat ex_file eq_refl eq_refl).
  - simpl. lia.
  - simpl. lia.
Defined.

Lemma idup_iput_id_witness :
  (let* p := idup 1 in iput (cfg := xv6_config) p) ex_fs = Done tt ex_fs.
Proof.
  apply (idup_iput_id (cfg := xv6_config) ex_fs 1%nat ex_file eq_refl eq_refl).
  simpl. lia.
Defined.

Lemma iget_iput_roundtrip_witness :
  exists s1, iget 1 2 ex_fs = Done 1%nat s1 /\ iput (cfg := xv6_config) 1 s1 <> OutOfFuel.
Proof.
  assert (exists s1, iget 1 2 ex_fs = Done 1%nat s1) as [s1 E]
    by (vm_compute; eexists; reflexivity).
  exists s1. split; [exact E|].
  exact (proj1 (iget_iput_roundtrip (cfg := xv6_config) ex_fs 1 2 1%nat s1 ex_refs_int E)).
Defined.

Lemma filedup_fileclose_id_witness :
  (let* g := filedup 0 in fileclose (cfg := xv6_config) g) ex_fs = Done tt ex_fs.
Proof.
  apply (proj1 (filedup_fileclose_id (cfg := xv6_config) ex_fs 0%nat ex_handle eq_refl)).
  simpl. lia.
Defined.

Lemma fileclose_last_reference_witness :
  fileclose (cfg := xv6_config) 0 ex_fs =
  (begin_op ;; iput (cfg := xv6_config) 1 ;; end_op)
    (set_ftable (<[0%nat := set_f_type FD_NONE (set_f_ref 0 ex_handle)]> (ftable ex_fs))
       ex_fs).
Proof.
  exact (proj2 (fileclose_last_reference (cfg := xv6_config) ex_fs 0%nat ex_handle
                  eq_refl eq_refl) eq_refl).
Defined.

Lemma filealloc_fileclose_id_witness :
  (let* r := filealloc in
   match r with
   | Some f => fileclose (cfg := xv6_config) f
   | None => ret tt
   end) ex_fs = Done tt ex_fs.
Proof.
  apply (filealloc_fileclose_id (cfg := xv6_config) ex_fs).
  intros j fj Hj Hr.
  destruct j as [|[|j]]; vm_compute in Hj; try discriminate Hj;
    injection Hj as <-; [discriminate Hr|reflexivity].
Defined.

Lemma filestat_spec_witness :
  filestat (cfg := xv6_config) 0 ex_fs = Done (0, Some (mkStat 1 2 T_FILE 2 5)) ex_fs.
Proof.
  apply (proj2 (filestat_spec (cfg := xv6_config) ex_fs 0%nat ex_handle eq_refl)
           eq_refl ex_file eq_refl eq_refl).
  - simpl. lia.
  - simpl. lia.
Defined.

Lemma bad_descriptor_refused_witness :
  sys_dup (Some 1) ex_fs = Done (-1) ex_fs /\
  sys_close (cfg := xv6_config) (Some (-3)) ex_fs = Done (-1) ex_fs.
Proof.
  split.
  - refine (proj1 (bad_descriptor_refused (cfg := xv6_config) ex_fs (Some 1) _)).
    intros fd f Hfd _. injection Hfd as <-. vm_compute. discriminate.
  - refine (proj1 (proj2 (proj2 (proj2
              (bad_descriptor_refused (cfg := xv6_config) ex_fs (Some (-3)) _))))).
    intros fd f Hfd Hpos. injection Hfd as <-. lia.
Defined.

Lemma sys_dup_close_id_witness :
  exists s1,
    sys_dup (Some 0) ex_fs = Done 1 s1 /\
    sys_close (cfg := xv6_config) (Some 1) s1 = Done 0 ex_fs.
Proof.
  assert (1 <= f_ref ex_handle < 2 ^ 31 - 1) as Hr by (simpl; lia).
  destruct (proj2 (sys_dup_close_id (cfg := xv6_config) ex_fs 0 0%nat ex_handle
                     (Z.le_refl 0) eq_refl eq_refl Hr) 1%nat eq_refl)
    as (s1 & Hd & _ & _ & Hc).
  - intros j Hj. assert (j = 0%nat) as -> by lia. vm_compute. discriminate.
  - exists s1. split; [exact Hd|exact Hc].
Defined.

Lemma sys_chdir_cwd_witness :
  exists s', sys_chdir (cfg := xv6_config) (Some (cstr "/a")) ex_fs = Done (-1) s' /\
             cwd s' = cwd ex_fs.
Proof.
  assert (exists s', sys_chdir (cfg := xv6_config) (Some (cstr "/a")) ex_fs = Done (-1) s')
    as [s' E] by (vm_compute; eexists; reflexivity).
  exists s'. split; [exact E|].
  destruct (sys_chdir_cwd (cfg := xv6_config) _ _ _ _ E) as [(_ & Hc)|(Hr & _)].
  - exact Hc.
  - discriminate Hr.
Defined.

Lemma skipelem_progress_witness :
  exists rest name' pre,
    skipelem (cfg := xv6_config) (cstr "a/bb") ex_name = Some (rest, name') /\
    cstr "a/bb" = pre ++ rest /\ pre <> [] /\ length name' = length ex_name.
Proof.
  assert (exists rest name',
            skipelem (cfg := xv6_config) (cstr "a/bb") ex_name = Some (rest, name'))
    as (rest & name' & E) by (vm_compute; do 2 eexists; reflexivity).
  destruct (skipelem_progress (cfg := xv6_config) (cfg_ok := xv6_config_ok)
              (cstr "a/bb") ex_name rest name' eq_refl) as ((pre & Hp & Hne) & Hlen).
  - vm_compute. reflexivity.
  - exact E.
  - exists rest, name', pre. repeat split; assumption.
Defined.

Lemma namei_root_witness :
  exists s',
    nameiparent (cfg := xv6_config) (replicate 2 slash) ex_name ex_fs =
      Done (None, ex_name) s' /\
    i_ref <$> icache s' = i_ref <$> icache ex_fs.
Proof.
  assert (exists s', nameiparent (cfg := xv6_config) (replicate 2 slash) ex_name ex_fs =
                     Done (None, ex_name) s') as [s' E]
    by (vm_compute; eexists; reflexivity).
  exists s'. split; [exact E|].
  exact (proj2 (proj2 (proj2 (proj2 (namei_root (cfg := xv6_config) 1 ex_name ex_fs)))
                 ex_refs_int _ _ E)).
Defined.

Lemma isdirempty_spec_witness :
  exists r, isdirempty (cfg := xv6_config) 0 ex_fs = Done r ex_fs /\ (r = 1 \/ r = 0).
Proof.
  destruct (isdirempty_spec (cfg := xv6_config) (cfg_ok := xv6_config_ok)
              ex_fs 0%nat ex_root 3%nat eq_refl ex_root_dir_ok) as (r & Hr & Hv & _).
  exists r. split; assumption.
Defined.

Lemma dirlookup_first_match_witness :
  dirlookup (cfg := xv6_config) 0 (cstr "b") ex_fs = Done None ex_fs /\
  dirlookup (cfg := xv6_config) 1 (cstr "b") ex_fs = Panic "dirlookup not DIR".
Proof.
  split.
  - exact (proj1 (proj2 (dirlookup_first_match (cfg := xv6_config)
                           (cfg_ok := xv6_config_ok) ex_fs 0%nat ex_root (cstr "b")
                           eq_refl) 3%nat ex_root_dir_ok) ex_root_no_b).
  - apply (proj1 (dirlookup_first_match (cfg := xv6_config) (cfg_ok := xv6_config_ok)
                    ex_fs 1%nat ex_file (cstr "b") eq_refl)).
    vm_compute. discriminate.
Defined.

Lemma writei_readi_roundtrip_witness :
  exists s',
    writei (cfg := xv6_config) 1 (cstr "HE") 1 2 ex_fs = Done 2 s' /\
    readi (cfg := xv6_config) 1 1 2 s' = Done (2, cstr "HE") s'.
Proof.
  apply (writei_readi_roundtrip (cfg := xv6_config) (cfg_ok := xv6_config_ok)
           ex_fs 1%nat ex_file (cstr "HE") 1 2 eq_refl).
  - vm_compute. discriminate.
  - unfold is_u32. lia.
  - unfold is_u32. simpl. lia.
  - lia.
  - reflexivity.
  - simpl. lia.
  - vm_compute. discriminate.
  - vm_compute. discriminate.
  - apply (ex_file_mapped 1). lia.
  - vm_compute. discriminate.
Defined.

Lemma dirlink_then_dirlookup_witness :
  exists s',
    dirlink (cfg := xv6_config) 0 (cstr "b") 3 ex_fs = Done 0 s' /\
    dirlookup (cfg := xv6_config) 0 (cstr "b") s' =
      (let* ip := iget 1 3 in ret (Some (ip, 48))) s'.
Proof.
  apply (dirlink_then_dirlookup (cfg := xv6_config) (cfg_ok := xv6_config_ok)
           ex_fs 0%nat ex_root 3%nat (cstr "b") 3 3 eq_refl ex_root_dir_ok ex_root_no_b).
  - lia.
  - reflexivity.
  - split; [lia|]. split; [|lia].
    intros j Hj. assert (j = 0 \/ j = 1 \/ j = 2) as [->|[->| ->]] by lia;
      vm_compute; discriminate.
  - apply (ex_root_mapped 48). lia.
  - exact ex_root_block_private.
Defined.

Lemma ex_locked_uniq : uniq (icache ex_locked).
Proof.
  intros j k a b Ha Hb Hra Hrb Hd Hi.
  destruct j as [|[|[|[|j]]]]; destruct k as [|[|[|[|k]]]]; try reflexivity;
    vm_compute in Ha; vm_compute in Hb; try discriminate Ha; try discriminate Hb;
    injection Ha as <-; injection Hb as <-; simpl in *; try lia; discriminate.
Qed.

Lemma iupdate_reload_witness :
  exists ip' s',
    (iupdate 1 ;; iunlockput (cfg := xv6_config) 1 ;;
     let* ip' := iget 1 2 in
     ilock (cfg := xv6_config) ip' ;; ret ip') ex_locked = Done ip' s' /\
    icache s' !! ip' = Some (set_i_valid 1 (set_i_lock true ex_file)).
Proof.
  apply (iupdate_reload (cfg := xv6_config) ex_locked 1%nat (set_i_lock true ex_file)
           eq_refl eq_refl eq_refl).
  - simpl. lia.
  - simpl. lia.
  - vm_compute. discriminate.
  - exact ex_locked_uniq.
  - intros j a Hj Hr.
    destruct j as [|[|[|[|j]]]]; vm_compute in Hj; try discriminate Hj;
      injection Hj as <-; try reflexivity; discriminate Hr.
Defined.

Lemma bmap_idempotent_witness :
  exists s',
    bmap (cfg := xv6_config) 1 1 ex_fs = Done 12 s' /\
    bmap (cfg := xv6_config) 1 1 s' = Done 12 s'.
Proof.
  assert (exists s', bmap (cfg := xv6_config) 1 1 ex_fs = Done 12 s') as [s' E]
    by (vm_compute; eexists; reflexivity).
  exists s'. split; [exact E|].
  refine (proj2 (proj2 (bmap_idempotent (cfg := xv6_config) (cfg_ok := xv6_config_ok)
                          ex_fs 1%nat ex_file 1 12 s' eq_refl eq_refl _ _ _ E))).
  - lia.
  - vm_compute. reflexivity.
  - simpl. lia.
Defined.

Lemma closed_descriptor_refused_witness :
  exists s',
    sys_close (cfg := xv6_config) (Some 0) ex_fs = Done 0 s' /\
    sys_close (cfg := xv6_config) (Some 0) s' = Done (-1) s'.
Proof.
  assert (exists s', sys_close (cfg := xv6_config) (Some 0) ex_fs = Done 0 s') as [s' E]
    by (vm_compute; eexists; reflexivity).
  exists s'. split; [exact E|].
  exact (proj1 (proj2 (proj2 (proj2 (proj2
           (closed_descriptor_refused (cfg := xv6_config) ex_fs 0 s' E)))))).
Defined.

Lemma open_mode_enforced_witness :
  exists s',
    sys_open (cfg := xv6_config) (Some (cstr "/a", 0)) ex_fs = Done 1 s' /\
    forall buf n, sys_write (cfg := xv6_config) (Some 1) (Some (buf, n)) s' = Done (-1) s'.
Proof.
  assert (exists s', sys_open (cfg := xv6_config) (Some (cstr "/a", 0)) ex_fs = Done 1 s')
    as [s' E] by (vm_compute; eexists; reflexivity).
  exists s'. split; [exact E|].
  destruct (open_mode_enforced (cfg := xv6_config) (cstr "/a") 0 ex_fs 1 s' E)
    as (f & fl & _ & _ & _ & _ & Hw & _); [lia|].
  apply Hw; reflexivity.
Defined.

Lemma namex_locks_witness :
  exists r s',
    namei (cfg := xv6_config) (cstr "/a") ex_fs = Done r s' /\
    i_lock <$> icache s' = i_lock <$> icache ex_fs.
Proof.
  assert (exists r s', namei (cfg := xv6_config) (cstr "/a") ex_fs = Done r s')
    as (r & s' & E) by (vm_compute; do 2 eexists; reflexivity).
  exists r, s'. split; [exact E|].
  exact (proj1 (proj2 (namex_locks (cfg := xv6_config) (cstr "/a") ex_fs)) r s' E).
Defined.

Lemma syscalls_balanced_witness :
  exists s',
    sys_unlink (cfg := xv6_config) (Some (cstr "/a")) ex_fs = Done 0 s' /\
    outstanding s' = outstanding ex_fs.
Proof.
  assert (exists s', sys_unlink (cfg := xv6_config) (Some (cstr "/a")) ex_fs = Done 0 s')
    as [s' E] by (vm_compute; eexists; reflexivity).
  exists s'. split; [exact E|].
  exact (proj1 (proj2 (proj2 (syscalls_balanced (cfg := xv6_config)))) _ _ _ _ E).
Defined.

Lemma syscalls_release_locks_witness :
  exists s',
    sys_mkdir (cfg := xv6_config) (Some (cstr "/d")) ex_fs = Done 0 s' /\
    locks s' = locks ex_fs.
Proof.
  assert (exists s', sys_mkdir (cfg := xv6_config) (Some (cstr "/d")) ex_fs = Done 0 s')
    as [s' E] by (vm_compute; eexists; reflexivity).
  exists s'. split; [exact E|].
  exact (proj1 (proj2 (proj2 (proj2 (syscalls_release_locks (cfg := xv6_config)))))
           _ _ _ _ E).
Defined.
